(* ===== verification/_CoqProject ===== *)
-Q . S2P
Prelude.v
Abi.v
Path.v
Io.v
Fd.v
Listing.v
RamFile.v
FsRepr.v
RamFS.v
VFS.v
FsInv.v
FsProps.v
ProcFS.v
ProcProps.v
Tasks.v
TaskRaces.v
Wait.v
Sync.v
TermRender.v
Syscalls.v
FrameAlloc.v
Paging.v
Mmap.v
PageDir.v
Heap.v
Elf.v
Context.v
ThreadInit.v
TaskBuild.v
BuildProps.v
Tty.v
WaitCalls.v
Closures.v
TestRunner.v
PipeCall.v
Graphics.v
BootInfo.v
Vga.v
Apic.v
Interrupts.v
Boot.v
Builtins.v
Manager.v
Console.v
Devices.v
KernelTests.v
