(* ===== verification/Prelude.v ===== *)
(** * tinyOS: a verification development

    tinyOS (kernel/) is a small x86-64 kernel in Rust.  User programs enter
    it through numbered system calls; the calls work on a table of open
    files over a mount table of in-memory file systems, on threads and
    processes scheduled round robin, on wait queues, pipes and devices, and
    on page tables and stacks built from a physical frame allocator.  This
    library translates those parts into Rocq and proves what they promise,
    and where they do not keep a promise, what happens instead.  Paths in
    the comments are relative to the repository; "kernel/src" is the kernel
    crate.

    ** Parts, and where they are modelled

    - [Prelude] (this file): machine integers, outcomes and the error monad,
      byte strings, [IndexMap], generic lemmas, the hint database [kernel].
    - [Abi]: flags, error codes, the dispatch enums and [FSError]
      (kernel/tinyos-abi/src, kernel/src/kernel/fs/mod.rs).
    - Files (kernel/src/kernel/fs, fd, io).  [Path]: [Path]/[PathBuf].  [Io],
      [Fd]: default methods of [Read]/[Write]; [File], [FileBuilder], the
      [FileRepr] class.  [Listing], [RamFile], [FsRepr], [RamFS], [VFS]:
      directory listings, nodes behind [Arc<RwLock<..>>], [dyn FileRepr],
      [RamFS] and the mount table.  The state is [RamFile.World]: a store of
      nodes, the lock guards held by the call chain, the clock, the mounts.
      [FsInv], [FsProps]: the file-system invariant with its proof rules, and
      the theorems on whole operations.  [ProcFS], [ProcProps]: the process
      file system and the device registry (fs/procfs).
    - Threads (kernel/src/kernel/threading).  [Tasks]: threads, processes,
      [TaskManager], the round-robin queue, [cleanup] and the switch
      decision; [Tasks.TaskManager] is the state.  [TaskRaces]: the same
      calls in pieces, a call on another thread being able to fall between
      the test and the write of a thread state.  [Wait]: wait queues and
      conditions.  [TaskBuild], [BuildProps]: [TaskBuilder] and everything
      that spawns.  [WaitCalls]: the wait manager, the calls that wait, join
      handles.  [Closures]: threads that run a closure; it joins the states
      of the last two.  [Manager]: the resource manager and the kill at
      the end of the panic handler (drivers/resource.rs, main.rs).  [TestRunner]: the
      kernel's test runner (lib.rs), on the state of [Closures].
    - [Sync]: semaphore, mutex, read-write lock and the wait strategies
      (kernel/src/utils/sync) as an interleaving of atomic actions.  It uses
      [block] and [wake] of [Tasks].
    - System calls (kernel/src/kernel/abi/syscalls).  [Syscalls]: the
      register protocol, pointer checks, descriptor table, the dispatcher,
      and the file, identity, exit and kill calls; it composes [VFS], [Fd]
      and [Tasks].  The calls that need more state are a record of functions
      there ([OtherCalls]) and definitions elsewhere.  [Mmap]: shared
      mappings and the mapping calls.  [PipeCall]: [pipe].  The spawning and
      waiting calls are in [TaskBuild] and [WaitCalls].
    - Memory (kernel/src/kernel/mem, kernel/elf, arch/x86/context).
      [FrameAlloc], [Paging]: the frame allocator and the mapping of regions
      and stacks; [Paging] is written against the class [FrameAllocator], of
      which the allocator is an instance.  [PageDir]: the page directory of a
      new process and the heap mapping.  [Heap]: the kernel heap over that
      mapping.  [Elf]: the ELF loader.  [BootInfo]: the loader's responses
      and the frame allocator the kernel boots with (bootinfo.rs).
    - Processor (kernel/src/arch/x86).  [Context], [ThreadInit]: the assembly
      of the context switch, the system-call entry and the first stack of a
      thread, as programs of a small instruction language.  [Apic]: interrupt
      controllers and the clock.  [Interrupts]: the handlers, the event queue
      between them and the wait manager, the descriptor tables.
    - Devices.  [TermRender]: the text terminal (kernel/src/term/render).
      [Tty]: pipes, keyboard ring, standard input, output queues
      (kernel/src/kernel/devices/tty, kernel/src/drivers).  [Graphics]: frame
      buffers and pixels (kernel/src/kernel/graphics).  [Vga]: the VGA text
      buffer (arch/x86/vga).  [Console]: the serial port, the print macros
      and the panic handlers with their messages.  [Devices]: the devices as
      files, an instance of the class [FileRepr] that [ProcFS] is written
      against, and their set-up at boot (kernel/devices, kernel/init).
    - [Boot], [Builtins]: installing the programs at boot, the built-in
      programs (kernel/init, kernel/fs/builtin_bins.rs).
    - [KernelTests]: the sequential tests in the source files, which all pass
      on these definitions.

    ** How the code is translated

    A function that cannot fail is a function.  A function that can panic
    returns an [Outcome]: [Ret], [Panic], [Blocked] (it waits for a lock its
    own call chain holds) or [NoFuel].  [Result] is Rust's; a function with
    state and errors is in the monad [M], which keeps the state on the error
    path as [?] does.  Integers are [Z] with their wrap-around written out;
    arithmetic on values a user program controls takes the build profile,
    since dev builds trap and release builds wrap.  [Arc] pointers are keys
    of a store, so aliasing is visible.  [dyn] traits are sums with a class
    instance, or classes.  A thread that gives the processor away takes a
    turn from a list of functions on the state: what the others do meanwhile
    is any such function.  Code outside the repository is a parameter with
    its documented behaviour as a class of laws: the font and the drawing
    backend ([TermRender.Font], [TermRender.CellLaws]), page tables and addresses ([Paging.MapperLaws],
    [Paging.VirtLaws], [PageDir.SupplyLaws], [PageDir.RootLaws],
    [Elf.HardwareLaws]), physical addresses ([FrameAlloc.PhysLaws],
    [Mmap.PhysRangeLaws], [BootInfo.AlignLaws], [BootInfo.PhysPanics]), the
    heap allocator ([Heap.HeapLaws]), controllers and descriptor tables
    ([Apic.ApicLaws], [Interrupts.GdtLaws], [Interrupts.IdtLaws]), the
    lock-free queue ([Interrupts.EventQueueLaws]), the scancode decoder and
    the ELF parser; each has an instance used by the witnesses.

    ** What the theorems show

    - File systems: opening any path never panics or follows links without
      end, keeps the state invariant, releases its locks when it returns and
      grants only what the node permits; it always returns when no directory
      lists itself, no link is followed and the path does not end with a
      separator or the options touch nothing ([FsInv.open_safe]; links and
      trailing separators can block, see the defects); writes have exactly the effect of the byte
      sequence written ([RamFile.ram_write_spec]), also in pieces; unlinking
      removes the entry the path names, in every case where the directory is
      found by walking the path, and otherwise changes nothing
      ([FsProps.unlink_spec]); I/O keeps the invariant; calls into the process file
      system are safe ([ProcProps.proc_calls_safe]).  Lemmas: reading to the
      end returns the file, listings are complete, the deepest mount is
      found, mounting and unmounting are inverse, paths canonicalize to their
      reference.
    - Threads: over every interleaving of the calls a killed thread stays
      dead and is never scheduled, unless a call that changes a state was
      between its test and its write when the kill came
      ([TaskRaces.killed_stays_dead]; [TaskRaces.killed_thread_revived] is
      that exception); every call that
      spawns is one spawn transition of that system or none
      ([BuildProps.spawn_call_is_step]); a thread gets a stack of its own,
      its arguments and its descriptors; a woken thread runs within one turn
      ([Manager.woken_thread_runs]); a panic costs one thread, provided the
      handler can report it ([Console.panic_costs_one_thread],
      [Console.panic_handler_spec]); the test runner gives every started test
      its verdict, at the first look at the clock (which counts whole
      seconds) after ten seconds at the latest.
    - Machine level: a context switch saves and restores every register
      ([Context.saved_thread_resumes]); the first switch to a new thread
      enters it with its arguments, and a kernel thread that returns reaches
      its exit routine ([ThreadInit.kernel_thread_life]); the system-call
      entry passes all registers and keeps the caller's.
    - Locks: permits are conserved in every interleaving, hence mutual
      exclusion of mutexes and read-write locks ([Sync.lock_exclusion]).
    - Waiting: [enqueue] blocks only threads that can be woken; a join
      returns after the thread's exit, a sleeping thread runs again at the first
      timer signal from its deadline on and not before
      ([WaitCalls.sleep_until_deadline]), interrupts wake
      the threads that wait for them, a burst of events is handled up to the
      queue's capacity; joining a spawned closure returns the value it
      computes when it runs ([Closures.spawned_closure_joins]).
    - System calls: results and errors reach the caller's registers, exactly
      what [valid_ptr] accepts in either build profile, what [pipe] leaves in the descriptor table.
    - Memory: the frame allocator hands out each usable frame once, zeroed,
      and fails exactly when none is left ([FrameAlloc.frame_alloc_safe]),
      from the loader's memory map on ([BootInfo.boot_frames_spec]); blocks
      of the kernel heap are disjoint and mapped ([Heap.kernel_heap_safe]);
      freeing a kernel stack undoes its allocation; mappings of a process
      are disjoint; a new page directory has the kernel's part and nothing
      else; the ELF loader puts the file's bytes and zeros in place.
    - Devices: the terminal refines a scrolling document, up to the glyph
      the font has for a character
      ([TermRender.terminal_refines_document]), and accepts any text; the VGA
      buffer shows the last lines written; a pipe is a bounded FIFO queue;
      after boot the standard files open and what is written to them reaches
      the serial port and the terminal in order
      ([Devices.console_output_arrives]);
      writes to a frame buffer stay inside it; the controllers end
      configured and calibrated, and the descriptor tables are as the
      processor needs them.
    - Boot: every included program is installed and reads back byte for byte.
    - Defects, stated as lemmas about the code as it is: links that
      deadlock, a killed thread that a concurrent wake makes runnable again, a
      run queue emptied under a writer, threads missed by
      [kill_process], stranded and lost wake-ups, undefined behaviour on
      system call 11, kernel-stack slots and boxed closures lost on failure,
      program headers that stop the kernel, deleted characters that
      reappear, a built-in program that never ends, memory above four
      gigabytes that cannot be used, text that is encoded twice, test runs
      that pass without running, and panics a user can cause, one of which
      ([Console.user_program_stops_kernel]) the panic handler never leaves.

    ** Fuel

    [VFS.fs_open] follows links with fuel [size (store w) + 2]: every link
    followed holds the write guard of one more directory, so more levels
    would block first; [FsInv.open_safe] excludes [NoFuel].
    [Io.read_to_end] gets its fuel where the reader is known
    ([RamFile.ram_read_to_end_file] shows that the amount given there is
    enough), [Io.write_all] one round per byte ([Io.write_all_fuel]).  The
    loops of the terminal get the number of cells before the cursor and the
    row number; [TermRender.terminal_total] shows that they return.  The
    calibration loop of [Apic] ends by [Apic.init_apic_spec]: some fuel is
    enough for every timer that counts down.  The waiting loops of
    [WaitCalls] use a turn per round and have one round more than turns;
    their theorems say after which turn they return.  The loop of [Builtins]
    takes its fuel as an argument: on a plain file no amount is enough
    ([Builtins.read_from_plain_file]).
    [Interrupts.signal_loop] needs one round more than the queue holds.  The
    watchdog loop of [TestRunner] has two rounds more than turns, which is
    enough by [TestRunner.test_ends_in_time].  [Console.on_panic] takes its
    fuel as an argument: for a thread without descriptor 2 none is enough.

    ** Not modelled

    The layout of the loader's requests and the ACPI tables (calls of
    third-party code), the registers of the serial port (a crate; the port is
    a sink of bytes), the heap allocator behind its lock (a crate), the
    drawing of glyphs (a crate), procedural macros, build scripts and the
    in-file tests that need other threads, the command lexer (commented out),
    the release of a process's address space after its last reference is
    dropped.  Formatting is not
    modelled: messages are byte strings.  Memory
    orderings of atomics are not modelled: every atomic action takes effect
    at once.  The sum of a frame and the direct mapping's offset in
    [FrameAlloc] is exact (the code's is in 64 bits; they differ for frames
    from 2^47 on only).  [Wait.queue_signal] leaves out the message on a
    failed wake-up.  [Wait], [WaitCalls] and the files above them use the
    calls of [Tasks] whole; only [TaskRaces] and [Sync] split them. *)
From Stdlib Require Export ZArith Lia Ascii.
From stdpp Require Export base option strings gmap list.

#[export] Set Default Goal Selector "!".
#[export] Set Warnings "-clear-no-such-hyp".

(** ** Machine integers

    [usize] and [u64] are 64 bits wide on the only supported target
    (x86-64).  The [dev] profile of kernel/Cargo.toml traps on arithmetic
    overflow, the [release] profile (the one README.md runs) wraps; operations whose operands a
    user program controls take the profile as an argument.  Atomic
    [fetch_add]/[fetch_sub] wrap in both profiles. *)
Abbreviation u8 := ascii.
Abbreviation str := (list ascii).
Abbreviation usize := Z.

(** String literals as byte lists. *)
Definition lit (s : string) : str := String.list_ascii_of_string s.

(** A byte by its code. *)
Definition byte (n : nat) : u8 := ascii_of_nat n.

Inductive Profile : Set := Dev | Release.

#[export] Instance Profile_eq_dec : EqDecision Profile.
Proof. solve_decision. Defined.

Definition USIZE_MAX : Z := (2 ^ 64 - 1)%Z.
Definition ISIZE_MAX : Z := (2 ^ 63 - 1)%Z.
Definition U32_MAX : Z := (2 ^ 32 - 1)%Z.

Definition wrap (bits z : Z) : Z := (z mod 2 ^ bits)%Z.
Definition wrap64 (z : Z) : Z := wrap 64 z.

Definition in_usize (z : Z) : Prop := (0 <= z <= USIZE_MAX)%Z.

(** ** Outcomes

    A kernel operation returns, panics (an [assert!], an [unwrap] of
    [None], an index out of range, an overflow in a [dev] build, a
    [todo!]), blocks forever on a lock held further up its own call
    chain, or has not finished within the fuel of the model. *)
Inductive Outcome (A : Type) : Type :=
| Ret (a : A)
| Panic
| Blocked
| NoFuel.
Arguments Ret {A} a.
Arguments Panic {A}.
Arguments Blocked {A}.
Arguments NoFuel {A}.

Inductive Result (E A : Type) : Type :=
| Ok (a : A)
| Err (e : E).
Arguments Ok {E A} a.
Arguments Err {E A} e.

#[export] Instance Outcome_eq_dec {A} `{EqDecision A} : EqDecision (Outcome A).
Proof. solve_decision. Defined.
#[export] Instance Result_eq_dec {E A} `{EqDecision E, EqDecision A} :
  EqDecision (Result E A).
Proof. solve_decision. Defined.

Definition is_ok {E A} (r : Result E A) : bool :=
  match r with Ok _ => true | Err _ => false end.

Definition ok_or {E A} (e : E) (o : option A) : Result E A :=
  match o with Some a => Ok a | None => Err e end.

Definition res_map {E A B} (f : A → B) (r : Result E A) : Result E B :=
  match r with Ok a => Ok (f a) | Err e => Err e end.

Definition obind {A B} (m : Outcome A) (k : A → Outcome B) : Outcome B :=
  match m with
  | Ret a => k a
  | Panic => Panic
  | Blocked => Blocked
  | NoFuel => NoFuel
  end.

(** State-passing computations that can fail: [M S E A] threads the state
    [S] through success and through [Err] alike, as Rust's [?] does. *)
Definition M (S E A : Type) : Type := S → Outcome (S * Result E A).

Definition mok {S E A} (a : A) : M S E A := λ s, Ret (s, Ok a).
Definition merr {S E A} (e : E) : M S E A := λ s, Ret (s, Err e).
Definition mpanic {S E A} : M S E A := λ _, Panic.
Definition mblocked {S E A} : M S E A := λ _, Blocked.
Definition mlift {S E A} (r : Result E A) : M S E A := λ s, Ret (s, r).
Definition mget {S E} : M S E S := λ s, Ret (s, Ok s).
Definition mput {S E} (s : S) : M S E unit := λ _, Ret (s, Ok tt).

Definition mthen {S E A B} (m : M S E A) (k : A → M S E B) : M S E B :=
  λ s, match m s with
       | Ret (s', Ok a) => k a s'
       | Ret (s', Err e) => Ret (s', Err e)
       | Panic => Panic
       | Blocked => Blocked
       | NoFuel => NoFuel
       end.

Definition mguard {S E} (b : bool) (e : E) : M S E unit :=
  if b then mok tt else merr e.

Declare Scope kernel_scope.
Delimit Scope kernel_scope with kernel.
Notation "'let?' x := m 'in' k" := (mthen m (λ x, k))
  (at level 10, x binder, m at level 100, k at level 200) : kernel_scope.
Notation "'let!' x := m 'in' k" := (obind m (λ x, k))
  (at level 10, x binder, m at level 100, k at level 200) : kernel_scope.
#[global] Open Scope kernel_scope.

Lemma obind_ret {A B} (m : Outcome A) (k : A → Outcome B) b :
  obind m k = Ret b → ∃ a, m = Ret a ∧ k a = Ret b.
Proof. destruct m; cbn; [eauto|done..]. Qed.

(** A [for] loop whose body can panic. *)
Fixpoint oforeach {A B} (f : A → B → Outcome A) (l : list B) (a : A) : Outcome A :=
  match l with
  | [] => Ret a
  | x :: l => let! a := f a x in oforeach f l a
  end.

Lemma oforeach_pure {X Y} (f : X → Y → Outcome X) (g : X → Y → X) l a :
  (∀ a y, y ∈ l → f a y = Ret (g a y)) → oforeach f l a = Ret (foldl g a l).
Proof.
  revert a. induction l as [|y l IH]; intros a Hf; [done|]. cbn [oforeach foldl].
  rewrite Hf by left. cbn [obind]. apply IH. intros. apply Hf. by right.
Qed.

Lemma oforeach_app {X Y} (f : X → Y → Outcome X) l1 l2 a :
  oforeach f (l1 ++ l2) a = obind (oforeach f l1 a) (oforeach f l2).
Proof.
  revert a. induction l1 as [|y l1 IH]; intros a; [done|]. cbn [app oforeach].
  destruct (f a y); cbn [obind]; [apply IH|done..].
Qed.

(** Overflow-checked arithmetic of the two build profiles. *)
Definition uarith (prof : Profile) (z : Z) : Outcome Z :=
  if decide (0 ≤ z ≤ USIZE_MAX)%Z then Ret z
  else match prof with Dev => Panic | Release => Ret (wrap64 z) end.

Definition uadd (prof : Profile) (a b : Z) : Outcome Z := uarith prof (a + b).
Definition usub (prof : Profile) (a b : Z) : Outcome Z := uarith prof (a - b).
Definition umul (prof : Profile) (a b : Z) : Outcome Z := uarith prof (a * b).

Definition checked_sub (a b : Z) : option Z :=
  if decide (b ≤ a)%Z then Some (a - b)%Z else None.
Definition saturating_sub (a b : Z) : Z := Z.max 0 (a - b).

Lemma uarith_in_range prof z : in_usize z → uarith prof z = Ret z.
Proof. intros H. unfold uarith, in_usize in *. by rewrite decide_True. Qed.

Lemma wrap64_range z : in_usize (wrap64 z).
Proof.
  unfold in_usize, wrap64, wrap, USIZE_MAX.
  pose proof (Z.mod_pos_bound z (2 ^ 64) ltac:(lia)). lia.
Qed.

(** ** Inversion of monadic runs *)
Lemma mthen_Ret_inv {S E A B} (m : M S E A) (k : A → M S E B) s s' r :
  mthen m k s = Ret (s', r) →
  (∃ s1 a, m s = Ret (s1, Ok a) ∧ k a s1 = Ret (s', r)) ∨
  (∃ e, m s = Ret (s', Err e) ∧ r = Err e).
Proof.
  unfold mthen. intros H. destruct (m s) as [[s1 [a|e]]| | |]; simplify_eq/=.
  - left. eauto.
  - right. eauto.
Qed.

Lemma mthen_Ok_inv {S E A B} (m : M S E A) (k : A → M S E B) s s' b :
  mthen m k s = Ret (s', Ok b) →
  ∃ s1 a, m s = Ret (s1, Ok a) ∧ k a s1 = Ret (s', Ok b).
Proof.
  intros [(s1 & a & ? & ?)|(e & ? & ?)]%mthen_Ret_inv; [by eauto|done].
Qed.

(** Forward: run the first step. *)
Lemma mthen_ok {S E A B} (m : M S E A) (k : A → M S E B) s s' a :
  m s = Ret (s', Ok a) → mthen m k s = k a s'.
Proof. intros H. unfold mthen. by rewrite H. Qed.

Lemma mthen_err {S E A B} (m : M S E A) (k : A → M S E B) s s' e :
  m s = Ret (s', Err e) → mthen m k s = Ret (s', Err e).
Proof. intros H. unfold mthen. by rewrite H. Qed.

(** [run_inv] decomposes a successful or failed run step by step. *)
Ltac run_inv H :=
  lazymatch type of H with
  | mthen _ _ _ = Ret (_, Ok _) =>
      let s1 := fresh "s" in let a := fresh "a" in
      let H1 := fresh "Hrun" in
      apply mthen_Ok_inv in H as (s1 & a & H1 & H)
  | mthen _ _ _ = Ret _ =>
      let s1 := fresh "s" in let a := fresh "a" in
      let H1 := fresh "Hrun" in let e := fresh "e" in
      apply mthen_Ret_inv in H as [(s1 & a & H1 & H)|(e & H1 & H)]
  end.

(** Case analysis on every [match]/[decide] of a hypothesis. *)
Ltac case_in H :=
  repeat match type of H with
         | context [match ?x with _ => _ end] =>
             let Hx := fresh "Hc" in destruct x eqn:Hx; simplify_eq/=
         end.

(** ** Bit flags ([bitflags!] newtypes are their integer) *)
Definition contains (self other : Z) : bool := (Z.land self other =? other)%Z.
Definition intersects (self other : Z) : bool :=
  negb (Z.land self other =? 0)%Z.
Definition from_bits_truncate (all bits : Z) : Z := Z.land bits all.

Lemma contains_bit self i :
  (0 ≤ i)%Z → contains self (2 ^ i) = Z.testbit self i.
Proof.
  intros Hi. unfold contains.
  assert (Hland : Z.land self (2 ^ i) = (if Z.testbit self i then 2 ^ i else 0)%Z).
  { apply Z.bits_inj'. intros n Hn. rewrite Z.land_spec, Z.pow2_bits_eqb by done.
    destruct (Z.eqb_spec i n) as [->|Hne].
    - destruct (Z.testbit self n); simpl.
      + rewrite Z.pow2_bits_eqb, Z.eqb_refl by done. done.
      + by rewrite Z.bits_0.
    - rewrite andb_false_r. destruct (Z.testbit self i).
      + rewrite Z.pow2_bits_eqb by done. symmetry. by apply Z.eqb_neq.
      + by rewrite Z.bits_0. }
  rewrite Hland. pose proof (Z.pow_pos_nonneg 2 i ltac:(lia) Hi).
  destruct (Z.testbit self i).
  - apply Z.eqb_refl.
  - apply Z.eqb_neq. lia.
Qed.

Lemma contains_lor_bit a b i :
  (0 ≤ i)%Z →
  contains (Z.lor a b) (2 ^ i) = contains a (2 ^ i) || contains b (2 ^ i).
Proof. intros Hi. by rewrite !contains_bit, Z.lor_spec by done. Qed.

(** ** Sequences *)

(** [slice s a b] is Rust's [&s[a..b]] for in-range bounds. *)
Definition slice {A} (l : list A) (a b : Z) : list A :=
  take (Z.to_nat (b - a)) (drop (Z.to_nat a) l).

Definition zlen {A} (l : list A) : Z := Z.of_nat (length l).

(** [splice l off data]: [l[off..off+data.len()].copy_from_slice(data)]. *)
Definition splice {A} (l : list A) (off : Z) (data : list A) : list A :=
  take (Z.to_nat off) l ++ data ++ drop (Z.to_nat off + length data) l.

(** [Vec::resize(n, x)]. *)
Definition vec_resize {A} (l : list A) (n : Z) (x : A) : list A :=
  resize (Z.to_nat n) x l.

Lemma zlen_nonneg {A} (l : list A) : (0 ≤ zlen l)%Z.
Proof. unfold zlen. lia. Qed.

Lemma zlen_app {A} (l k : list A) : zlen (l ++ k) = (zlen l + zlen k)%Z.
Proof. unfold zlen. rewrite length_app. lia. Qed.

Lemma zlen_splice {A} (l : list A) off data :
  (0 ≤ off)%Z → (off + zlen data ≤ zlen l)%Z → zlen (splice l off data) = zlen l.
Proof.
  unfold zlen, splice. intros ? ?.
  rewrite !length_app, length_take, length_drop. lia.
Qed.

Lemma slice_splice_same {A} (l : list A) off data :
  (0 ≤ off)%Z → (off + zlen data ≤ zlen l)%Z →
  slice (splice l off data) off (off + zlen data) = data.
Proof.
  unfold slice, splice, zlen. intros ? ?.
  replace (Z.to_nat (off + Z.of_nat (length data) - off)) with (length data) by lia.
  rewrite drop_app_length' by (rewrite length_take; lia).
  by rewrite take_app_length.
Qed.

Lemma splice_lookup {A} (l : list A) off data i :
  (0 ≤ off)%Z → (off + zlen data ≤ zlen l)%Z →
  splice l off data !! i =
    if decide (Z.to_nat off ≤ i < Z.to_nat off + length data)
    then data !! (i - Z.to_nat off) else l !! i.
Proof.
  unfold splice, zlen. intros ? ?. case_decide as Hd.
  - rewrite lookup_app_r by (rewrite length_take; lia).
    rewrite length_take, Nat.min_l by lia.
    rewrite lookup_app_l by lia. done.
  - destruct (decide (i < Z.to_nat off)).
    + rewrite lookup_app_l by (rewrite length_take; lia).
      rewrite lookup_take_lt by lia. done.
    + rewrite lookup_app_r by (rewrite length_take; lia).
      rewrite length_take, Nat.min_l by lia.
      rewrite lookup_app_r by lia.
      rewrite lookup_drop. f_equal. lia.
Qed.

Lemma splice_splice {A} (l a b : list A) off :
  (0 ≤ off)%Z → (off + zlen a + zlen b ≤ zlen l)%Z →
  splice (splice l off a) (off + zlen a) b = splice l off (a ++ b).
Proof.
  intros ? ?. unfold splice, zlen in *.
  replace (Z.to_nat (off + Z.of_nat (length a)))
    with (length (take (Z.to_nat off) l ++ a)) by (rewrite length_app, length_take; lia).
  rewrite (app_assoc (take (Z.to_nat off) l) a), take_app_length.
  rewrite <- !app_assoc. do 3 f_equal.
  rewrite (app_assoc (take _ _) a).
  rewrite drop_app_ge by lia. rewrite drop_drop. f_equal.
  rewrite !length_app, length_take. lia.
Qed.

Lemma filter_all {A} (P : A → Prop) `{∀ x, Decision (P x)} l : Forall P l → filter P l = l.
Proof. induction 1; [done|]. rewrite filter_cons_True by done. by f_equal. Qed.

Lemma filter_none {A} (P : A → Prop) `{∀ x, Decision (P x)} l :
  Forall (λ x, ¬ P x) l → filter P l = [].
Proof. induction 1; [done|]. by rewrite filter_cons_False. Qed.

(** A buffer handed to the kernel: the first [n] cells are replaced. *)
Definition fill {A} (buf data : list A) : list A := splice buf 0 data.

Lemma fill_nil {A} (buf : list A) : fill buf [] = buf.
Proof. done. Qed.

Lemma fill_length {A} (buf data : list A) :
  length data ≤ length buf → length (fill buf data) = length buf.
Proof.
  intros. unfold fill, splice. simpl. rewrite length_app, length_drop. lia.
Qed.

Lemma fill_take {A} (buf data : list A) : take (length data) (fill buf data) = data.
Proof. unfold fill, splice. simpl. by rewrite take_app_length. Qed.

Lemma fill_drop {A} (buf data : list A) :
  drop (length data) (fill buf data) = drop (length data) buf.
Proof. unfold fill, splice. simpl. by rewrite drop_app_length. Qed.

(** ** Insertion-ordered maps ([indexmap::IndexMap]) *)
Section imap.
Context {A : Type}.
Implicit Types (m : list (str * A)) (k : str).

Fixpoint im_get m k : option A :=
  match m with
  | [] => None
  | (k', a) :: m => if decide (k' = k) then Some a else im_get m k
  end.

Definition im_keys m : list str := m.*1.

(** [entry(k).or_insert(a)] when the key is vacant: append. *)
Definition im_push m k a : list (str * A) := m ++ [(k, a)].

(** [insert]: replace in place or append; the old value is returned. *)
Fixpoint im_insert m k a : list (str * A) :=
  match m with
  | [] => [(k, a)]
  | (k', a') :: m => if decide (k' = k) then (k', a) :: m
                     else (k', a') :: im_insert m k a
  end.

(** [swap_remove]: the last entry takes the place of the removed one. *)
Fixpoint im_swap_remove m k : list (str * A) :=
  match m with
  | [] => []
  | (k', a) :: m' =>
      if decide (k' = k) then
        match last m' with
        | None => []
        | Some e => e :: take (length m' - 1) m'
        end
      else (k', a) :: im_swap_remove m' k
  end.

Lemma im_get_elem m k a : im_get m k = Some a → (k, a) ∈ m.
Proof.
  induction m as [|[k' a'] m IH]; simpl; [done|].
  case_decide; intros; simplify_eq; set_solver.
Qed.

Lemma im_get_None m k : im_get m k = None ↔ k ∉ im_keys m.
Proof.
  induction m as [|[k' a'] m IH]; simpl.
  { split; [intros _; apply not_elem_of_nil|done]. }
  rewrite not_elem_of_cons, <- IH. case_decide; [|intuition congruence].
  split; [done|]. intros [? _]. congruence.
Qed.

Lemma im_get_push m k a k' :
  im_get m k = None →
  im_get (im_push m k a) k' = if decide (k = k') then Some a else im_get m k'.
Proof.
  unfold im_push. induction m as [|[k1 a1] m IH]; simpl; [done|].
  intros Hk. case_decide; [done|]. rewrite IH by done.
  repeat case_decide; congruence.
Qed.

Lemma im_get_insert m k a k' :
  im_get (im_insert m k a) k' = if decide (k = k') then Some a else im_get m k'.
Proof.
  induction m as [|[k1 a1] m IH]; simpl; [done|].
  destruct (decide (k1 = k)) as [->|Hk]; simpl.
  - repeat case_decide; congruence.
  - rewrite IH. repeat case_decide; congruence.
Qed.

Lemma im_insert_vacant m k a : im_get m k = None → im_insert m k a = im_push m k a.
Proof.
  unfold im_push. induction m as [|[k1 a1] m IH]; simpl; [done|].
  case_decide; [done|]. intros Hk. by rewrite IH.
Qed.

Lemma elem_of_im_insert m k a e : e ∈ im_insert m k a → e = (k, a) ∨ e ∈ m.
Proof.
  induction m as [|[k1 a1] m IH]; simpl; [set_solver|].
  case_decide; subst; set_solver.
Qed.

Lemma im_keys_insert m k a : NoDup (im_keys m) → NoDup (im_keys (im_insert m k a)).
Proof.
  induction m as [|[k1 a1] m IH]; simpl; intros Hnd.
  { apply NoDup_singleton. }
  apply NoDup_cons in Hnd as [Hk Hnd]. case_decide; simpl.
  - by constructor.
  - constructor; [|auto]. intros ([k2 a2] & -> & Hin)%list_elem_of_fmap.
    apply elem_of_im_insert in Hin as [[= -> ->]|Hin]; [done|].
    apply Hk. apply list_elem_of_fmap. by exists (k2, a2).
Qed.

Lemma im_values_insert m k a :
  NoDup m.*2 → a ∉ m.*2 → NoDup (im_insert m k a).*2.
Proof.
  induction m as [|[k1 a1] m IH]; simpl; intros Hnd Ha.
  { apply NoDup_singleton. }
  apply NoDup_cons in Hnd as [Hk Hnd]. apply not_elem_of_cons in Ha as [? ?].
  case_decide; simpl; constructor; auto.
  intros ([k2 a2] & -> & Hin)%list_elem_of_fmap.
  apply elem_of_im_insert in Hin as [[= -> ->]|Hin]; [done|].
  apply Hk. apply list_elem_of_fmap. by exists (k2, a2).
Qed.

Lemma im_get_perm m m' k :
  NoDup (im_keys m) → m ≡ₚ m' → im_get m k = im_get m' k.
Proof.
  intros Hnd Hp. induction Hp as [|[k1 a1] l l' _ IH|[k1 a1] [k2 a2] l|l1 l2 l3 H1 IH1 H2 IH2];
    simpl in *.
  - done.
  - apply NoDup_cons in Hnd as [_ Hnd]. case_decide; auto.
  - repeat case_decide; try done. subst.
    apply NoDup_cons in Hnd as [Hn _]. destruct Hn. left.
  - rewrite IH1 by done. apply IH2. unfold im_keys in *. by rewrite <- H1.
Qed.

Lemma last_take_snoc (m : list (str * A)) e :
  last m = Some e → e :: take (length m - 1) m ≡ₚ m.
Proof.
  intros [m' ->]%last_Some. rewrite length_app. simpl.
  replace (length m' + 1 - 1) with (length m') by lia.
  rewrite take_app_length. apply Permutation_cons_append.
Qed.

Lemma im_swap_remove_perm m k a :
  im_get m k = Some a → (k, a) :: im_swap_remove m k ≡ₚ m.
Proof.
  induction m as [|[k' a'] m IH]; simpl; [done|].
  case_decide; intros; simplify_eq.
  - destruct (last m) as [e|] eqn:Hl.
    + constructor. by apply last_take_snoc.
    + apply last_None in Hl as ->. done.
  - rewrite <- IH at 2 by done. apply Permutation_swap.
Qed.

Lemma im_get_swap_remove m k k' :
  NoDup (im_keys m) →
  im_get (im_swap_remove m k) k' = if decide (k = k') then None else im_get m k'.
Proof.
  intros Hnd. destruct (im_get m k) as [a|] eqn:Hk.
  - pose proof (im_swap_remove_perm m k a Hk) as Hp.
    assert (Hnd' : NoDup (im_keys ((k, a) :: im_swap_remove m k))).
    { unfold im_keys in *. by rewrite Hp. }
    rewrite <- (im_get_perm _ _ k' Hnd' Hp). simpl.
    case_decide; [|done]. subst. apply im_get_None.
    simpl in Hnd'. by apply NoDup_cons in Hnd' as [??].
  - assert (im_swap_remove m k = m) as ->.
    { clear Hnd. induction m as [|[k1 a1] m IH]; simpl in *; [done|].
      case_decide; [done|]. f_equal. auto. }
    case_decide; [by subst|done].
Qed.
End imap.

(** ** UTF-8

    [core::str::from_utf8] accepts exactly the byte sequences of the Unicode
    standard's table 3-7 (no overlong forms, no surrogates). *)
Definition b2z (b : u8) : Z := Z.of_nat (nat_of_ascii b).

Definition byte_in (lo hi : Z) (b : u8) : bool :=
  (lo <=? b2z b)%Z && (b2z b <=? hi)%Z.

Fixpoint utf8_valid (s : str) : bool :=
  match s with
  | [] => true
  | a :: s1 =>
      if byte_in 0 127 a then utf8_valid s1
      else if byte_in 194 223 a then
        match s1 with
        | b :: s2 => byte_in 128 191 b && utf8_valid s2
        | _ => false
        end
      else if byte_in 224 239 a then
        match s1 with
        | b :: c :: s3 =>
            (if decide (b2z a = 224%Z) then byte_in 160 191 b
             else if decide (b2z a = 237%Z) then byte_in 128 159 b
             else byte_in 128 191 b) &&
            byte_in 128 191 c && utf8_valid s3
        | _ => false
        end
      else if byte_in 240 244 a then
        match s1 with
        | b :: c :: d :: s4 =>
            (if decide (b2z a = 240%Z) then byte_in 144 191 b
             else if decide (b2z a = 244%Z) then byte_in 128 143 b
             else byte_in 128 191 b) &&
            byte_in 128 191 c && byte_in 128 191 d && utf8_valid s4
        | _ => false
        end
      else false
  end.

Create HintDb kernel discriminated.
#[export] Hint Resolve zlen_nonneg wrap64_range : kernel.
