(* ===== verification/Abi.v ===== *)
(** The user/kernel ABI (kernel/tinyos-abi/src/{flags,types,consts}.rs) and
    the file-system error type (kernel/src/kernel/fs/mod.rs).

    A [bitflags!] type is the integer of its bits.  A [transmute] of an
    integer to an enum is [None] (undefined behaviour) when no variant has
    that discriminant. *)
From S2P Require Import Prelude.
Open Scope Z_scope.

(** ** flags.rs *)

Definition OpenOptions_READ : Z := Z.shiftl 1 0.
Definition OpenOptions_WRITE : Z := Z.shiftl 1 1.
Definition OpenOptions_APPEND : Z := Z.shiftl 1 2.
Definition OpenOptions_TRUNCATE : Z := Z.shiftl 1 3.
Definition OpenOptions_CREATE : Z := Z.shiftl 1 4.
Definition OpenOptions_CREATE_DIR : Z := Z.shiftl 1 5.
Definition OpenOptions_CREATE_ALL : Z := Z.shiftl 1 6.
Definition OpenOptions_CREATE_LINK : Z := Z.shiftl 1 7.
Definition OpenOptions_NO_FOLLOW_LINK : Z := Z.shiftl 1 8.
Definition OpenOptions_EXECUTE : Z := Z.shiftl 1 9.

(** Every declared bit of [OpenOptions]. *)
Definition OpenOptions_all : Z :=
  foldr Z.lor 0
    [OpenOptions_READ; OpenOptions_WRITE; OpenOptions_APPEND;
     OpenOptions_TRUNCATE; OpenOptions_CREATE; OpenOptions_CREATE_DIR;
     OpenOptions_CREATE_ALL; OpenOptions_CREATE_LINK;
     OpenOptions_NO_FOLLOW_LINK; OpenOptions_EXECUTE].

Definition with_read (self : Z) : Z := Z.lor self OpenOptions_READ.
Definition with_write (self : Z) : Z := Z.lor self OpenOptions_WRITE.
Definition with_no_follow_symlink (self : Z) : Z :=
  Z.lor self OpenOptions_NO_FOLLOW_LINK.
Definition with_truncate (self : Z) : Z := Z.lor self OpenOptions_TRUNCATE.
Definition with_append (self : Z) : Z := Z.lor self OpenOptions_APPEND.
Definition with_exec (self : Z) : Z := Z.lor self OpenOptions_EXECUTE.
Definition OpenOptions_default : Z := OpenOptions_READ.

Definition UnlinkOptions_FORCE : Z := Z.shiftl 1 0.
Definition UnlinkOptions_RECURSIVE : Z := Z.shiftl 1 1.
Definition UnlinkOptions_NO_PRESERVE_ROOT : Z := Z.shiftl 1 2.
Definition UnlinkOptions_all : Z :=
  foldr Z.lor 0
    [UnlinkOptions_FORCE; UnlinkOptions_RECURSIVE;
     UnlinkOptions_NO_PRESERVE_ROOT].
Definition with_force (self : Z) : Z := Z.lor self UnlinkOptions_FORCE.
Definition with_rmdir (self : Z) : Z := Z.lor self UnlinkOptions_RECURSIVE.
Definition UnlinkOptions_default : Z := 0.

Definition WaitOptions_NOBLOCK : Z := Z.shiftl 1 0.

Definition TaskWaitOptions_W_EXIT : Z := Z.shiftl 1 0.
Definition TaskWaitOptions_W_WAKEUP : Z := Z.shiftl 1 1.
Definition TaskWaitOptions_W_BLOCK : Z := Z.shiftl 1 2.

Definition TaskStateChange_WAKEUP : Z := Z.shiftl 1 0.
Definition TaskStateChange_BLOCK : Z := Z.shiftl 1 1.
Definition TaskStateChange_EXIT : Z := Z.shiftl 1 2.

Definition NodeType_FILE : Z := Z.shiftl 1 0.
Definition NodeType_DIR : Z := Z.shiftl 1 1.
Definition NodeType_SYMLINK : Z := Z.shiftl 1 2.
Definition NodeType_MOUNT : Z := Z.shiftl 1 3.
Definition NodeType_VOID : Z := Z.shiftl 1 4.

(** [impl Display for NodeType]: the bytes written to the formatter. *)
Definition NodeType_fmt (self : Z) : str :=
  (if contains self NodeType_FILE then lit "FILE " else []) ++
  (if contains self NodeType_DIR then lit "DIR " else []) ++
  (if contains self NodeType_SYMLINK then lit "SYMLINK " else []) ++
  (if contains self NodeType_MOUNT then lit "MOUNT " else []) ++
  (if contains self NodeType_VOID then lit "VOID " else []) ++
  (if self =? 0 then lit "-" else []).

Definition NodePermissions_R : Z := Z.shiftl 1 0.
Definition NodePermissions_W : Z := Z.shiftl 1 1.
Definition NodePermissions_X : Z := Z.shiftl 1 2.
Definition NodePermissions_all : Z :=
  foldr Z.lor 0 [NodePermissions_R; NodePermissions_W; NodePermissions_X].

Definition perms_read : Z := NodePermissions_R.
Definition perms_rw : Z := Z.lor perms_read NodePermissions_W.
Definition perms_rx : Z := Z.lor perms_read NodePermissions_X.
Definition perms_rwx : Z := NodePermissions_all.
Definition NodePermissions_default : Z := perms_rw.

Definition perm_r (self : Z) : bool := contains self NodePermissions_R.
Definition perm_w (self : Z) : bool := contains self NodePermissions_W.
Definition perm_x (self : Z) : bool := contains self NodePermissions_X.

(** [impl Display for NodePermissions]. *)
Definition NodePermissions_fmt (self : Z) : str :=
  let r := contains self NodePermissions_R in
  let w := contains self NodePermissions_W in
  let x := contains self NodePermissions_X in
  (if r then lit "r" else lit "-") ++
  (if w then lit "w" else lit "-") ++
  (if x then lit "x" else lit "-").

(** ** types.rs and consts.rs *)

Inductive SysCallDispatch : Set :=
| Open | Close | Read | Write | Yield | Exit | Kill | Mmap | Munmap | Fork
| WaitTime | GetPID | Seek | Dup | Spawn | Dbg | Execve | ThreadCreate
| ThreadExit | ThreadCancel | ThreadJoin | WaitPID | EventFD | Time | GetTID
| GetPgrID | Pipe | SpawnProcess | FStatCall | SetPerm.

#[export] Instance SysCallDispatch_eq_dec : EqDecision SysCallDispatch.
Proof. solve_decision. Defined.

(** The discriminants of the [#[repr(u64)]] enum. *)
Definition SysCallDispatch_discr (d : SysCallDispatch) : Z :=
  match d with
  | Open => 0 | Close => 1 | Read => 2 | Write => 3 | Yield => 4
  | Exit => 5 | Kill => 6 | Mmap => 7 | Munmap => 8 | Fork => 9
  | WaitTime => 10 | GetPID => 12 | Seek => 13 | Dup => 14 | Spawn => 15
  | Dbg => 16 | Execve => 17 | ThreadCreate => 18 | ThreadExit => 19
  | ThreadCancel => 20 | ThreadJoin => 21 | WaitPID => 22 | EventFD => 23
  | Time => 24 | GetTID => 25 | GetPgrID => 26 | Pipe => 27
  | SpawnProcess => 28 | FStatCall => 29 | SetPerm => 30
  end.

Definition all_SysCallDispatch : list SysCallDispatch :=
  [Open; Close; Read; Write; Yield; Exit; Kill; Mmap; Munmap; Fork; WaitTime;
   GetPID; Seek; Dup; Spawn; Dbg; Execve; ThreadCreate; ThreadExit;
   ThreadCancel; ThreadJoin; WaitPID; EventFD; Time; GetTID; GetPgrID; Pipe;
   SpawnProcess; FStatCall; SetPerm].

Inductive SysErrCode : Set :=
| NoErr | AccessDenied | OpDenied | AddrInUse | AddrNotAvail | AddrNotValid
| BadFd | BadMsg | BadRqstD | Cancelled | NoChild | SendErr | EDeadlock
| DiskFull | FileExists | FileTooBig | InvalidArg | IO | NoDevice | NoFile
| EOOM | EDirNotEmpty | InvalidSeek | NoProcess | TimerExp | EWouldBlock.

#[export] Instance SysErrCode_eq_dec : EqDecision SysErrCode.
Proof. solve_decision. Defined.

Definition SysErrCode_discr (e : SysErrCode) : Z :=
  match e with
  | NoErr => 0 | AccessDenied => 1 | OpDenied => 2 | AddrInUse => 3
  | AddrNotAvail => 5 | AddrNotValid => 6 | BadFd => 7 | BadMsg => 8
  | BadRqstD => 9 | Cancelled => 10 | NoChild => 11 | SendErr => 12
  | EDeadlock => 13 | DiskFull => 14 | FileExists => 15 | FileTooBig => 16
  | InvalidArg => 17 | IO => 18 | NoDevice => 19 | NoFile => 20
  | EOOM => 21 | EDirNotEmpty => 22 | InvalidSeek => 23 | NoProcess => 24
  | TimerExp => 25 | EWouldBlock => 26
  end.

Definition all_SysErrCode : list SysErrCode :=
  [NoErr; AccessDenied; OpDenied; AddrInUse; AddrNotAvail; AddrNotValid;
   BadFd; BadMsg; BadRqstD; Cancelled; NoChild; SendErr; EDeadlock; DiskFull;
   FileExists; FileTooBig; InvalidArg; IO; NoDevice; NoFile; EOOM;
   EDirNotEmpty; InvalidSeek; NoProcess; TimerExp; EWouldBlock].

(** [transmute] to an enum with the given discriminants: the variant that has
    the value, [None] when there is none. *)
Definition transmute {A} (all : list A) (discr : A → Z) (v : Z) : option A :=
  head (filter (λ a, discr a = v) all).

Definition MAX_ERRNO : Z := 26.
Definition MAX_SYSCALL : Z := 30.

(** [impl TryFrom<u64> for SysErrCode]; the outer [None] is undefined
    behaviour of the [transmute]. *)
Definition SysErrCode_try_from (value : Z) : option (Result Z SysErrCode) :=
  if MAX_ERRNO <? value then Some (Err (-1))
  else e ← transmute all_SysErrCode SysErrCode_discr value; Some (Ok e).

(** [FromSyscall for SysResult<T>]: [T::try_from] is the argument [conv]. *)
Definition try_parse_from {T} (conv : Z → option T) (rax rdx : Z)
    : option (option (Result SysErrCode T)) :=
  r ← SysErrCode_try_from rdx;
  Some (match r with
        | Err _ => None
        | Ok errno =>
            if decide (errno = NoErr)
            then match conv rax with Some v => Some (Ok v) | None => None end
            else Some (Err errno)
        end).

Definition STDIN_FILENO : Z := 0.
Definition STDOUT_FILENO : Z := 1.
Definition STDERR_FILENO : Z := 2.

Record FatPtr : Set := mkFatPtr { fat_size : Z; fat_thin : Z }.

Record FDOpen : Set := mkFDOpen { fdopen_path : FatPtr; fdopen_flags : Z }.

Inductive FDAction : Set :=
| FDOpenAct (o : FDOpen) (fd : Z)
| FDClose (fd : Z)
| FDDup (old new : Z)
| FDInherit (parent new : Z)
| FDClear.

Record FStat : Set := mkFStat {
  t_create : Z;
  t_mod : Z;
  size : Z;
  permissions : Z;
  node_type : Z
}.

#[export] Instance FStat_eq_dec : EqDecision FStat.
Proof. solve_decision. Defined.

Definition FStat_default : FStat :=
  mkFStat 0 0 USIZE_MAX NodePermissions_default NodeType_VOID.

Inductive PermUpdateStrategy : Set := PAND | POR | POVERWRITE.

Definition PermUpdateStrategy_try_from (value : Z)
    : Result Z PermUpdateStrategy :=
  if value =? 0 then Ok PAND
  else if value =? 1 then Ok POR
  else if value =? 2 then Ok POVERWRITE
  else Err value.

(** ** kernel/fs/mod.rs: errors *)

Inductive FSErrorKind : Set :=
| NotFound | PermissionDenied | AlreadyExists | WouldBlock | NotADir | IsADir
| DirNotEmpty | TimedOut | StorageFull | FileTooLarge | Deadlock
| InvalidFilename | InvalidPath | OOM | UnexpectedEOF | EOF | InProgress
| Other | NotSupported.

#[export] Instance FSErrorKind_eq_dec : EqDecision FSErrorKind.
Proof. solve_decision. Defined.

(** The boxed error of [Custom] is kept as its message. *)
Inductive FSErrRepr : Set :=
| Simple (kind : FSErrorKind)
| SimpleMessage (msg : str) (kind : FSErrorKind)
| Custom (kind : FSErrorKind) (err : str).

#[export] Instance FSErrRepr_eq_dec : EqDecision FSErrRepr.
Proof. solve_decision. Defined.

Record FSError : Set := mkFSError { repr : FSErrRepr }.

#[export] Instance FSError_eq_dec : EqDecision FSError.
Proof. solve_decision. Defined.

Definition simple (k : FSErrorKind) : FSError := mkFSError (Simple k).
Definition with_message (k : FSErrorKind) (msg : str) : FSError :=
  mkFSError (SimpleMessage msg k).
Definition custom (k : FSErrorKind) (err : str) : FSError :=
  mkFSError (Custom k err).

Definition kind (self : FSError) : FSErrorKind :=
  match repr self with
  | Simple k => k
  | SimpleMessage _ k => k
  | Custom k _ => k
  end.

(** [impl Into<SysErrCode> for FSError]. *)
Definition FSError_into (self : FSError) : SysErrCode :=
  match kind self with
  | NotFound => NoFile
  | PermissionDenied => AccessDenied
  | AlreadyExists => FileExists
  | WouldBlock => EWouldBlock
  | NotADir => NoFile
  | IsADir => NoFile
  | StorageFull => DiskFull
  | TimedOut => TimerExp
  | FileTooLarge => FileTooBig
  | OOM => EOOM
  | InvalidFilename => InvalidArg
  | InvalidPath => InvalidArg
  | _ => IO
  end.

(** ** Lemmas *)

Lemma transmute_discr {A} (all : list A) (discr : A → Z) v a :
  transmute all discr v = Some a → discr a = v ∧ a ∈ all.
Proof.
  unfold transmute. intros H. apply head_Some in H as [l Hl].
  assert (Ha : a ∈ filter (λ a, discr a = v) all) by (rewrite Hl; left).
  by apply list_elem_of_filter in Ha.
Qed.

Lemma transmute_None {A} (all : list A) (discr : A → Z) v :
  transmute all discr v = None ↔ Forall (λ a, discr a ≠ v) all.
Proof.
  unfold transmute. rewrite Forall_forall. split.
  - intros H a Ha Hd. destruct (filter _ _) as [|b l] eqn:Hf; [|done].
    assert (Hin : a ∈ filter (λ a, discr a = v) all) by (by apply list_elem_of_filter).
    rewrite Hf in Hin. by apply not_elem_of_nil in Hin.
  - intros H. destruct (filter _ _) as [|b l] eqn:Hf; [done|]. exfalso.
    assert (Hin : b ∈ filter (λ a, discr a = v) all) by (rewrite Hf; left).
    apply list_elem_of_filter in Hin as [? ?]. by apply (H b).
Qed.

(** An error code survives the trip through the [rdx] register, and
    the conversion back is undefined for exactly one register value, 4. *)
Theorem SysErrCode_roundtrip :
  (∀ e, SysErrCode_try_from (SysErrCode_discr e) = Some (Ok e)) ∧
  (∀ v, 0 ≤ v → (SysErrCode_try_from v = None ↔ v = 4)).
Proof.
  split; [by intros []|].
  intros v Hv. unfold SysErrCode_try_from, MAX_ERRNO.
  destruct (Z.ltb_spec 26 v); [split; [done|lia]|].
  split; [|intros ->; reflexivity].
  destruct (transmute _ _ _) eqn:Ht; [done|]. intros _.
  apply transmute_None in Ht. unfold all_SysErrCode in Ht.
  rewrite !Forall_cons in Ht. simpl in Ht. lia.
Qed.

(** A file-system error leaves the kernel as a non-zero code that the
    user side parses as an error, whatever is in [rax]. *)
Theorem fs_error_reaches_user {T} (conv : Z → option T) (e : FSError) rax :
  try_parse_from conv rax (SysErrCode_discr (FSError_into e)) =
    Some (Some (Err (FSError_into e))) ∧
  SysErrCode_discr (FSError_into e) ≠ 0.
Proof. destruct e as [[k|m k|k m]]; destruct k; by split. Qed.
