(* ===== verification/Path.v ===== *)
(** Paths (kernel/src/kernel/fs/path/mod.rs).

    A [PathBuf] and a [&Path] are their string, a list of bytes; both
    separators are ASCII, so splitting by [char] and by byte agree.  The
    in-place methods of [PathBuf] return the new string. *)
From S2P Require Import Prelude.

Definition PATH_SEP : ascii := "/"%char.
Definition EXT_SEP : ascii := "."%char.
Definition ROOT_DIR : str := [].

(** ** [core::str] operations the module uses *)

Fixpoint split (c : ascii) (s : str) : list str :=
  match s with
  | [] => [[]]
  | x :: s' =>
      if decide (x = c) then [] :: split c s'
      else match split c s' with
           | h :: t => (x :: h) :: t
           | [] => [[x]]
           end
  end.

Fixpoint join (c : ascii) (l : list str) : str :=
  match l with
  | [] => []
  | [a] => a
  | a :: l' => a ++ c :: join c l'
  end.

Fixpoint split_once (c : ascii) (s : str) : option (str * str) :=
  match s with
  | [] => None
  | x :: s' =>
      if decide (x = c) then Some ([], s')
      else match split_once c s' with
           | Some (a, b) => Some (x :: a, b)
           | None => None
           end
  end.

Fixpoint rsplit_once (c : ascii) (s : str) : option (str * str) :=
  match s with
  | [] => None
  | x :: s' =>
      match rsplit_once c s' with
      | Some (a, b) => Some (x :: a, b)
      | None => if decide (x = c) then Some ([], s') else None
      end
  end.

Fixpoint str_strip_prefix (pre s : str) : option str :=
  match pre, s with
  | [], _ => Some s
  | x :: pre', y :: s' => if decide (x = y) then str_strip_prefix pre' s' else None
  | _ :: _, [] => None
  end.

Definition starts_with (c : ascii) (s : str) : bool :=
  match s with x :: _ => bool_decide (x = c) | [] => false end.

(** ** [Path] *)

Definition traverse (self : str) : list str := split PATH_SEP self.

Definition is_relative (self : str) : bool :=
  match self with [] => true | c :: _ => negb (bool_decide (c = "/"%char)) end.

Definition parent (self : str) : option str := fst <$> rsplit_once PATH_SEP self.

Definition extension (self : str) : str :=
  match rsplit_once EXT_SEP self with Some (_, e) => e | None => [] end.

Definition file_prefix (self : str) : str :=
  match rsplit_once PATH_SEP self with
  | None => []
  | Some (_, f) =>
      match split_once EXT_SEP f with None => f | Some (f, _) => f end
  end.

Definition file (self : str) : str :=
  match rsplit_once PATH_SEP self with Some (_, f) => f | None => [] end.

Definition strip_prefix (self pre : str) : option str := str_strip_prefix pre self.

Definition is_empty (self : str) : bool :=
  bool_decide (self = []) ||
  (bool_decide (length self = 1) && starts_with PATH_SEP self).

(** The [Ancestors] iterator: its state is the pending path. *)
Record Ancestors : Set := mkAncestors { anc_next : option str }.

Definition Ancestors_new (p : str) : Ancestors := mkAncestors (Some p).

Definition Ancestors_next (self : Ancestors) : option str * Ancestors :=
  let next := anc_next self in
  (next, mkAncestors (next ≫= parent)).

(** Draining the iterator; every step drops at least one byte. *)
Fixpoint drain (fuel : nat) (it : Ancestors) : list str :=
  match fuel with
  | O => []
  | S fuel =>
      match Ancestors_next it with
      | (Some p, it') => p :: drain fuel it'
      | (None, _) => []
      end
  end.

Definition ancestors (self : str) : list str :=
  drain (S (length self)) (Ancestors_new self).

(** ** [PathBuf] *)

Definition PathBuf_new : str := [].

Definition up (self : str) : str :=
  match rsplit_once PATH_SEP self with
  | None => self
  | Some (new, _) => take (length new) self
  end.

Definition push (self path : str) : str :=
  if negb (is_relative path) then path else self ++ PATH_SEP :: path.

Definition keep_segment (segment : str) : bool :=
  negb (bool_decide (segment = [])) && negb (bool_decide (segment = lit ".")).

Definition canonicalize_step (root segment : str) : str :=
  if decide (segment = lit "..") then up root else push root segment.

(** [todo!] panics when the path is relative. *)
Definition canonicalize (self : str) : Outcome str :=
  if is_relative self then Panic
  else
    let segments := filter (λ s, keep_segment s) (split PATH_SEP self) in
    Ret (foldl canonicalize_step PathBuf_new segments).

Definition add_extension (self ext : str) : str :=
  (if starts_with EXT_SEP ext then self else self ++ [EXT_SEP]) ++ ext.

Definition set_extension (self ext : str) : str :=
  match rsplit_once EXT_SEP self with
  | None => self ++ ext
  | Some (stem, _) =>
      let self := take (length stem) self in
      (if starts_with EXT_SEP ext then self else self ++ [EXT_SEP]) ++ ext
  end.

Definition clear_extension (self : str) : str :=
  match rsplit_once EXT_SEP self with
  | None => self
  | Some (stem, _) => take (length stem) self
  end.

(** [ToOwned::clone_into]: clear the target, then push. *)
Definition clone_into (self target : str) : str := push [] self.

(** ** Lemmas on splitting *)

Lemma split_not_nil c s : split c s ≠ [].
Proof. destruct s; simpl; repeat case_match; done. Qed.

Lemma join_split c s : join c (split c s) = s.
Proof.
  induction s as [|x s IH]; simpl; [done|].
  pose proof (split_not_nil c s).
  destruct (split c s) as [|h t] eqn:Hs; [done|].
  rewrite <- IH. case_decide as Hx; [by subst x|].
  destruct t; done.
Qed.

Lemma split_sep_free c s : Forall (λ seg, c ∉ seg) (split c s).
Proof.
  induction s as [|x s IH]; simpl.
  { constructor; [apply not_elem_of_nil|done]. }
  case_decide as Hx; [constructor; [apply not_elem_of_nil|done]|].
  destruct (split c s); constructor; inversion IH; subst; try done.
  - rewrite not_elem_of_cons. split; [congruence|apply not_elem_of_nil].
  - rewrite not_elem_of_cons. split; [congruence|done].
Qed.

Lemma split_free c s : c ∉ s → split c s = [s].
Proof.
  induction s as [|x s IH]; simpl; [done|].
  intros [? ?]%not_elem_of_cons. rewrite IH by done.
  by rewrite decide_False by congruence.
Qed.

Lemma split_app_sep c a b : c ∉ a → split c (a ++ c :: b) = a :: split c b.
Proof.
  induction a as [|x a IH]; simpl; intros Ha.
  - by rewrite decide_True.
  - apply not_elem_of_cons in Ha as [? ?].
    rewrite decide_False, IH by congruence. done.
Qed.

Lemma split_join c l :
  l ≠ [] → Forall (λ seg, c ∉ seg) l → split c (join c l) = l.
Proof.
  induction l as [|a l IH]; intros Hne Hf; [done|].
  inversion Hf; subst. destruct l as [|b l].
  - by apply split_free.
  - change (join c (a :: b :: l)) with (a ++ c :: join c (b :: l)).
    rewrite split_app_sep by done. by rewrite IH.
Qed.

Lemma rsplit_once_None c s : rsplit_once c s = None ↔ c ∉ s.
Proof.
  induction s as [|x s IH]; simpl; [split; [intros; apply not_elem_of_nil|done]|].
  rewrite not_elem_of_cons.
  destruct (rsplit_once c s) as [[a b]|].
  - split; [done|]. intros [_ H]. by apply IH in H.
  - case_decide; [split; [done|]; intros []; congruence|].
    split; [|done]. intros _. split; [congruence|by apply IH].
Qed.

Lemma rsplit_once_Some c s a b :
  rsplit_once c s = Some (a, b) ↔ s = a ++ c :: b ∧ c ∉ b.
Proof.
  revert a b. induction s as [|x s IH]; intros a b; simpl.
  { split; [done|]. by intros [[]%app_cons_not_nil _]. }
  destruct (rsplit_once c s) as [[a' b']|] eqn:Hr.
  - destruct (proj1 (IH a' b') eq_refl) as [-> Hb]. split.
    + by intros [= <- <-].
    + destruct a as [|y a]; simpl; intros [Heq Hf]; simplify_eq.
      * set_solver.
      * assert (Some (a', b') = Some (a, b)) as [= -> ->]; [|done].
        by apply IH.
  - apply rsplit_once_None in Hr. case_decide; subst.
    + split; [by intros [= <- <-]|].
      destruct a as [|y a]; simpl; intros [Heq Hf]; simplify_eq; [done|].
      set_solver.
    + split; [done|]. destruct a as [|y a]; simpl; intros [Heq Hf]; simplify_eq.
      set_solver.
Qed.

Lemma str_strip_prefix_Some pre s post :
  str_strip_prefix pre s = Some post ↔ s = pre ++ post.
Proof.
  revert s. induction pre as [|x pre IH]; intros s; simpl.
  - split; congruence.
  - destruct s as [|y s]; [done|]. case_decide; subst.
    + rewrite IH. split; congruence.
    + split; [done|congruence].
Qed.

Lemma starts_with_free c s : c ∉ s → starts_with c s = false.
Proof.
  destruct s as [|x s]; simpl; [done|]. intros [? _]%not_elem_of_cons.
  apply bool_decide_eq_false. congruence.
Qed.

(** [truncate] to the stem is the stem. *)
Lemma take_stem {A} (a b : list A) : take (length a) (a ++ b) = a.
Proof. by rewrite take_app_length. Qed.

Lemma up_spec a b : PATH_SEP ∉ b → up (a ++ PATH_SEP :: b) = a.
Proof.
  intros Hb. unfold up.
  rewrite (proj2 (rsplit_once_Some _ _ a b)) by done. apply take_stem.
Qed.

(** ** Canonicalization against a specification on segment lists *)

(** A segment a canonical path may contain. *)
Definition plain (seg : str) : Prop :=
  seg ≠ [] ∧ seg ≠ lit "." ∧ seg ≠ lit ".." ∧ PATH_SEP ∉ seg.

#[export] Instance plain_dec seg : Decision (plain seg).
Proof. unfold plain. apply _. Defined.

(** The stack machine: [..] pops (and is ignored at the root), [.] and empty
    segments are skipped, everything else is pushed. *)
Definition normalize_step (st : list str) (seg : str) : list str :=
  if decide (seg = [] ∨ seg = lit ".") then st
  else if decide (seg = lit "..") then take (pred (length st)) st
  else st ++ [seg].

Definition normalize (segs : list str) : list str := foldl normalize_step [] segs.

(** The absolute path with the given segments; the root is the empty string. *)
Definition render (segs : list str) : str :=
  concat (map (λ s, PATH_SEP :: s) segs).

Lemma render_snoc segs seg : render (segs ++ [seg]) = render segs ++ PATH_SEP :: seg.
Proof. unfold render. rewrite map_app, concat_app. simpl. by rewrite app_nil_r. Qed.

Lemma plain_relative seg : plain seg → is_relative seg = true.
Proof.
  intros (? & _ & _ & Hs). destruct seg as [|c seg]; [done|]. simpl.
  rewrite bool_decide_false; [done|]. intros ->. apply Hs. left.
Qed.

Lemma up_render segs :
  Forall plain segs → up (render segs) = render (take (pred (length segs)) segs).
Proof.
  destruct segs as [|seg segs _] using rev_ind; [done|].
  intros [_ Hp]%Forall_app. inversion Hp as [|? ? (_ & _ & _ & Hs) _]; subst.
  rewrite render_snoc, up_spec by done.
  rewrite length_app. simpl. rewrite Nat.add_1_r. simpl. by rewrite take_stem.
Qed.

Lemma normalize_step_plain st seg :
  Forall plain st → PATH_SEP ∉ seg → Forall plain (normalize_step st seg).
Proof.
  intros Hst Hs. unfold normalize_step. repeat case_decide; [done|by apply Forall_take|].
  apply Forall_app. split; [done|]. repeat constructor; tauto.
Qed.

Lemma canonicalize_step_spec st seg :
  Forall plain st → PATH_SEP ∉ seg → keep_segment seg = true →
  canonicalize_step (render st) seg = render (normalize_step st seg).
Proof.
  intros Hst Hs Hk. unfold canonicalize_step, normalize_step.
  apply andb_true_iff in Hk as [H1 H2].
  apply negb_true_iff, bool_decide_eq_false in H1.
  apply negb_true_iff, bool_decide_eq_false in H2.
  rewrite (decide_False (P := seg = [] ∨ seg = lit ".")) by tauto.
  case_decide; [by apply up_render|].
  rewrite render_snoc. unfold push. by rewrite plain_relative.
Qed.

Lemma normalize_step_skip st seg :
  keep_segment seg = false → normalize_step st seg = st.
Proof.
  unfold keep_segment, normalize_step. intros Hk. rewrite decide_True; [done|].
  apply andb_false_iff in Hk as [Hk|Hk]; apply negb_false_iff in Hk;
    apply bool_decide_eq_true in Hk; auto.
Qed.

Lemma canonicalize_foldl segs st :
  Forall plain st → Forall (λ s, PATH_SEP ∉ s) segs →
  foldl canonicalize_step (render st) (filter (λ s, keep_segment s) segs) =
    render (foldl normalize_step st segs) ∧
  Forall plain (foldl normalize_step st segs).
Proof.
  intros Hst Hsegs. revert st Hst. induction Hsegs as [|seg segs Hs _ IH]; intros st Hst.
  { done. }
  destruct (keep_segment seg) eqn:Hk.
  - rewrite filter_cons_True by (by rewrite Hk). simpl.
    rewrite canonicalize_step_spec by done.
    apply IH. by apply normalize_step_plain.
  - rewrite filter_cons_False by (rewrite Hk; tauto). simpl.
    rewrite normalize_step_skip by done. by apply IH.
Qed.

Lemma canonicalize_render p :
  is_relative p = false →
  canonicalize p = Ret (render (normalize (traverse p))).
Proof.
  intros Hp. unfold canonicalize, normalize, traverse. rewrite Hp.
  by rewrite (proj1 (canonicalize_foldl _ [] (Forall_nil_2 _) (split_sep_free _ _))).
Qed.

Lemma normalize_plain p : Forall plain (normalize (traverse p)).
Proof.
  apply (proj2 (canonicalize_foldl _ [] (Forall_nil_2 _) (split_sep_free _ _))).
Qed.

Lemma render_join segs : segs ≠ [] → render segs = PATH_SEP :: join PATH_SEP segs.
Proof.
  induction segs as [|s segs IH]; [done|]. intros _. destruct segs as [|s' segs].
  - unfold render. simpl. by rewrite app_nil_r.
  - change (render (s :: s' :: segs)) with (PATH_SEP :: s ++ render (s' :: segs)).
    by rewrite IH.
Qed.

Lemma traverse_render segs : Forall plain segs → traverse (render segs) = [] :: segs.
Proof.
  intros Hp. destruct (decide (segs = [])) as [->|Hne]; [done|].
  rewrite render_join by done. unfold traverse.
  change (PATH_SEP :: ?x) with ([] ++ PATH_SEP :: x).
  rewrite split_app_sep by apply not_elem_of_nil.
  f_equal. apply split_join; [done|].
  eapply Forall_impl; [done|]. by intros s (_ & _ & _ & ?).
Qed.

Lemma normalize_plain_id segs st :
  Forall plain segs → foldl normalize_step st segs = st ++ segs.
Proof.
  intros Hp. revert st. induction Hp as [|s segs (H1 & H2 & H3 & _) _ IH]; intros st; simpl.
  { by rewrite app_nil_r. }
  rewrite IH. unfold normalize_step. rewrite !decide_False by tauto.
  by rewrite <- app_assoc.
Qed.

(** On an absolute path [canonicalize] never panics and yields the path whose
    segments are those the stack machine computes; the result has no empty,
    [.] or [..] segment. *)
Lemma canonicalize_spec p :
  is_relative p = false →
  canonicalize p = Ret (render (normalize (traverse p))) ∧
  traverse (render (normalize (traverse p))) = [] :: normalize (traverse p) ∧
  Forall plain (normalize (traverse p)).
Proof.
  intros Hp. split; [by apply canonicalize_render|].
  pose proof (normalize_plain p). split; [by apply traverse_render|done].
Qed.

Lemma canonicalize_spec_witness :
  canonicalize (lit "/foo/./bar//../baz") = Ret (lit "/foo/baz").
Proof.
  rewrite (proj1 (canonicalize_spec (lit "/foo/./bar//../baz") eq_refl)).
  reflexivity.
Defined.

(** Canonicalizing a canonical path changes nothing, unless
    the path denotes the root: the root is rendered as the empty string,
    which [is_relative] calls relative, and the second call reaches the
    [todo!]. *)
Theorem canonicalize_idempotent p q :
  canonicalize p = Ret q →
  canonicalize q = if decide (q = ROOT_DIR) then Panic else Ret q.
Proof.
  intros H. destruct (is_relative p) eqn:Hp; [unfold canonicalize in H; by rewrite Hp in H|].
  rewrite canonicalize_render in H by done. injection H as <-.
  pose proof (normalize_plain p) as Hpl. set (segs := normalize (traverse p)) in *.
  case_decide as Hq; [by rewrite Hq|].
  assert (Hne : segs ≠ []) by (intros E; apply Hq; by rewrite E).
  rewrite canonicalize_render.
  - rewrite traverse_render by done. unfold normalize. simpl.
    by rewrite normalize_plain_id.
  - by rewrite render_join.
Qed.

Lemma canonicalize_idempotent_witness :
  canonicalize (lit "/a/../b/.") = Ret (lit "/b") ∧
  canonicalize (lit "/b") = Ret (lit "/b") ∧
  canonicalize (lit "/a/..") = Ret [] ∧ canonicalize [] = Panic.
Proof.
  split; [reflexivity|]. split.
  - apply (canonicalize_idempotent (lit "/a/../b/.")). reflexivity.
  - split; [reflexivity|].
    apply (canonicalize_idempotent (lit "/a/..")). reflexivity.
Defined.

(** ** Parents, files and ancestors *)

Lemma parent_Some p q :
  parent p = Some q ↔ p = q ++ PATH_SEP :: file p ∧ PATH_SEP ∉ file p.
Proof.
  unfold parent, file. destruct (rsplit_once PATH_SEP p) as [[a b]|] eqn:Hr; simpl.
  - apply rsplit_once_Some in Hr as [-> Hb]. split.
    + by intros [= ->].
    + intros [Heq _]. f_equal.
      assert (Some (a, b) = Some (q, b)) as [= ->]; [|done].
      rewrite <- (proj2 (rsplit_once_Some _ _ a b) (conj eq_refl Hb)).
      by apply rsplit_once_Some.
  - apply rsplit_once_None in Hr. split; [done|]. intros [Heq _].
    destruct Hr. rewrite Heq. set_solver.
Qed.

Lemma parent_None p : parent p = None ↔ PATH_SEP ∉ p.
Proof. unfold parent. rewrite fmap_None. apply rsplit_once_None. Qed.

(** In terms of segments, [parent] drops the last one. *)
Lemma parent_segments p :
  parent p =
    if decide (1 < length (traverse p))%nat
    then Some (join PATH_SEP (take (pred (length (traverse p))) (traverse p)))
    else None.
Proof.
  unfold traverse. rewrite <- (join_split PATH_SEP p) at 1.
  pose proof (split_sep_free PATH_SEP p) as Hf.
  pose proof (split_not_nil PATH_SEP p) as Hne.
  destruct (split PATH_SEP p) as [|seg segs _] using rev_ind; [done|].
  apply Forall_app in Hf as [Hf1 Hf2]. inversion Hf2; subst.
  rewrite length_app, Nat.add_1_r, Nat.pred_succ, take_stem.
  destruct segs as [|s0 segs].
  - by apply parent_None.
  - assert (Hj : ∀ l, l ≠ [] →
      join PATH_SEP (l ++ [seg]) = join PATH_SEP l ++ PATH_SEP :: seg).
    { clear. intros l. induction l as [|a l IH]; [done|]. intros _.
      destruct l as [|b l]; [done|]. simpl in *. rewrite IH by done.
      by rewrite <- app_assoc. }
    rewrite decide_True by (simpl; lia). apply fmap_Some. eexists (_, seg).
    split; [|done]. apply rsplit_once_Some.
    by rewrite Hj.
Qed.

Lemma split_snoc c a b : c ∉ b → split c (a ++ c :: b) = split c a ++ [b].
Proof.
  intros Hb. induction a as [|x a IH]; simpl.
  - rewrite decide_True by done. by rewrite split_free.
  - rewrite IH. destruct (decide (x = c)); [done|].
    pose proof (split_not_nil c a). by destruct (split c a).
Qed.

(** The segments of a path: those of its parent, and the file name. *)
Lemma traverse_parent p q : parent p = Some q → traverse p = traverse q ++ [file p].
Proof.
  intros [Hp Hf]%parent_Some. unfold traverse. rewrite Hp at 1. by apply split_snoc.
Qed.

Lemma length_split_le c s : (length (split c s) ≤ S (length s))%nat.
Proof.
  induction s as [|x s IH]; simpl; [lia|].
  repeat case_match; simpl in *; lia.
Qed.

(** The segments of the path built from the first segments of another. *)
Lemma traverse_join_take p k :
  (0 < k)%nat → (k ≤ length (traverse p))%nat →
  traverse (join PATH_SEP (take k (traverse p))) = take k (traverse p).
Proof.
  intros Hk Hl. apply split_join.
  - intros E. apply (f_equal length) in E. rewrite length_take in E. simpl in E. lia.
  - apply Forall_take, split_sep_free.
Qed.

Lemma drain_take p k fuel :
  (0 < k)%nat → (k ≤ length (traverse p))%nat → (k ≤ fuel)%nat →
  drain fuel (Ancestors_new (join PATH_SEP (take k (traverse p)))) =
    map (λ j, join PATH_SEP (take j (traverse p))) (reverse (seq 1 k)).
Proof.
  revert fuel. induction k as [|k IH]; intros fuel Hk Hl Hfuel; [lia|].
  destruct fuel as [|fuel]; [lia|].
  rewrite seq_S, reverse_app. simpl. f_equal.
  rewrite parent_segments, traverse_join_take by lia.
  rewrite length_take, Nat.min_l by lia. simpl.
  rewrite take_take, Nat.min_l by lia.
  destruct k as [|k].
  - rewrite decide_False by lia. destruct fuel; done.
  - rewrite decide_True by lia. apply IH; lia.
Qed.

(** The ancestors of a path are the paths of its first n, n-1, ..., 1
    segments, in that order: the iterator ends, and its last item is the
    first segment (the root of an absolute path). *)
Lemma ancestors_spec p :
  ancestors p =
    map (λ k, join PATH_SEP (take k (traverse p)))
      (reverse (seq 1 (length (traverse p)))).
Proof.
  unfold ancestors. pose proof (length_split_le PATH_SEP p) as Hle.
  pose proof (split_not_nil PATH_SEP p) as Hne.
  rewrite <- (drain_take p (length (traverse p)) (S (length p))).
  - by rewrite firstn_all, join_split.
  - unfold traverse. destruct (split PATH_SEP p); simpl; [done|lia].
  - done.
  - done.
Qed.

Lemma join_take_prefix c l k :
  (0 < k)%nat → join c (take k l) `prefix_of` join c l.
Proof.
  revert k. induction l as [|a l IH]; intros k Hk; [by destruct k|].
  destruct k as [|k]; [lia|]. destruct l as [|b l].
  - rewrite take_ge by (simpl; lia). done.
  - destruct k as [|k]; [simpl; by eexists|].
    change (a ++ c :: join c (take (S k) (b :: l))
              `prefix_of` a ++ c :: join c (b :: l)).
    apply prefix_app, prefix_cons, IH. lia.
Qed.

Lemma ancestors_prefix p q : q ∈ ancestors p → q `prefix_of` p.
Proof.
  rewrite ancestors_spec, list_elem_of_fmap. intros (k & -> & Hk).
  rewrite elem_of_reverse, elem_of_seq in Hk.
  rewrite <- (join_split PATH_SEP p) at 2. apply join_take_prefix. lia.
Qed.

(** ** Extensions *)

Lemma add_extension_free p e :
  EXT_SEP ∉ e → add_extension p e = p ++ EXT_SEP :: e.
Proof.
  intros He. unfold add_extension. rewrite starts_with_free by done.
  by rewrite <- app_assoc.
Qed.

(** [extension] and [clear_extension] undo [add_extension];
    [set_extension] replaces the extension of a path with a dot, and on a
    path without one it appends the bare extension, so that the result has no
    extension at all. *)
Theorem extension_roundtrip p e :
  EXT_SEP ∉ e →
  extension (add_extension p e) = e ∧
  clear_extension (add_extension p e) = p ∧
  (EXT_SEP ∈ p → extension (set_extension p e) = e) ∧
  (EXT_SEP ∉ p → set_extension p e = p ++ e ∧ extension (set_extension p e) = []).
Proof.
  intros He. rewrite add_extension_free by done.
  unfold extension, clear_extension, set_extension.
  rewrite (proj2 (rsplit_once_Some EXT_SEP _ p e)) by done.
  split; [done|]. split; [apply take_stem|]. split.
  - intros Hp. destruct (rsplit_once EXT_SEP p) as [[a b]|] eqn:Hr.
    + rewrite starts_with_free by done. rewrite <- app_assoc. simpl.
      by rewrite (proj2 (rsplit_once_Some EXT_SEP _ (take (length a) p) e)).
    + by apply rsplit_once_None in Hr.
  - intros Hp. rewrite (proj2 (rsplit_once_None _ _) Hp). split; [done|].
    by rewrite (proj2 (rsplit_once_None _ _)) by set_solver.
Qed.

Lemma extension_roundtrip_witness :
  extension (set_extension (lit "/a/b.txt") (lit "gz")) = lit "gz" ∧
  set_extension (lit "/a/b") (lit "gz") = lit "/a/bgz".
Proof.
  pose proof (extension_roundtrip (lit "/a/b.txt") (lit "gz")) as H.
  pose proof (extension_roundtrip (lit "/a/b") (lit "gz")) as H'.
  assert (Hg : EXT_SEP ∉ lit "gz") by (by apply (bool_decide_unpack _)).
  destruct (H Hg) as (_ & _ & H3 & _). destruct (H' Hg) as (_ & _ & _ & H4).
  split; [apply H3|apply H4]; by apply (bool_decide_unpack _).
Defined.
