(* ===== verification/Io.v ===== *)
(** The default methods of the [Read] and [Write] traits
    (kernel/src/kernel/io/mod.rs).

    A reader works on the state of the object and on the caller's buffer:
    a computation over the pair of the two.  The loops take fuel; what amount is
    enough is proved where the reader is known (RamFile.v). *)
From S2P Require Import Prelude Abi.
Open Scope Z_scope.

Definition Reader (S : Type) : Type := usize → M (S * list u8) FSError usize.
Definition Writer (S : Type) : Type := list u8 → usize → M S FSError usize.

Section io.
Context {St : Type} (prof : Profile).

(** Run a computation on [&mut buf[written..]]. *)
Definition on_tail {A} (written : Z) (m : M (St * list u8) FSError A)
    : M (St * list u8) FSError A :=
  λ '(s, buf),
    if decide (zlen buf < written) then Panic
    else match m (s, drop (Z.to_nat written) buf) with
         | Ret ((s', tail), r) => Ret ((s', take (Z.to_nat written) buf ++ tail), r)
         | Panic => Panic
         | Blocked => Blocked
         | NoFuel => NoFuel
         end.

(** [Vec::resize]: a capacity above [isize::MAX] panics. *)
Definition mresize {T} (n : Z) (x : T) (v : list T) : Outcome (list T) :=
  if decide (ISIZE_MAX < n) then Panic else Ret (vec_resize v n x).

Definition zero : u8 := byte 0.

(** [Read::read_exact] is [todo!()]. *)
Definition read_exact (offset : Z) : M (St * list u8) FSError unit := mpanic.

(** The loop of [Read::read_to_end]. *)
Fixpoint read_to_end_loop (fuel : nat) (read : Reader St) (written offset : Z)
    : M (St * list u8) FSError Z :=
  match fuel with
  | O => λ _, NoFuel
  | S fuel =>
      let? count := on_tail written (read offset) in
      λ '(s, buf),
        let next (buf : list u8) :=
          let! written := uadd prof written count in
          let! offset := uadd prof offset count in
          read_to_end_loop fuel read written offset (s, buf) in
        if decide (count = zlen buf - written) then
          let! buf := mresize (Z.max (zlen buf) 1 * 2) zero buf in
          next buf
        else if decide (count = 0) then Ret ((s, buf), Ok written)
        else next buf
  end.

Definition read_to_end (fuel : nat) (read : Reader St) (offset : Z)
    : M (St * list u8) FSError Z :=
  read_to_end_loop fuel read 0 offset.

(** [Read::read_to_string]: the string is the buffer of the state; the
    bytes are read from offset 0 whatever [offset] is. *)
Definition read_to_string (read_to_end : Reader St) (offset : Z)
    : M (St * list u8) FSError Z :=
  λ '(s, buf),
    match read_to_end 0 (s, []) with
    | Ret ((s', _), Err e) => Ret ((s', buf), Err e)
    | Ret ((s', buff), Ok count) =>
        if decide (zlen buff < count) then Panic
        else
          let str_ := take (Z.to_nat count) buff in
          if utf8_valid str_ then Ret ((s', buf ++ str_), Ok (zlen str_))
          else Ret ((s', buf), Err (simple Other))
    | Panic => Panic
    | Blocked => Blocked
    | NoFuel => NoFuel
    end.

(** [Write::write_all]. *)
Fixpoint write_all (fuel : nat) (write : Writer St) (buf : list u8) (offset : Z)
    : M St FSError unit :=
  match buf with
  | [] => mok tt
  | _ :: _ =>
      match fuel with
      | O => λ _, NoFuel
      | S fuel =>
          let? n := write buf offset in
          if decide (n = 0) then merr (simple Other)
          else if decide (zlen buf < n) then mpanic
          else λ s,
            let! offset := uadd prof offset n in
            write_all fuel write (drop (Z.to_nat n) buf) offset s
      end
  end.

(** Every successful write makes progress, so as many rounds as there are
    bytes are enough, provided the writer itself finishes. *)
Lemma write_all_fuel fuel write buf offset s :
  (∀ b o s, write b o s ≠ NoFuel) →
  (∀ b o s s' n, write b o s = Ret (s', Ok n) → 0 ≤ n) →
  (length buf ≤ fuel)%nat →
  write_all fuel write buf offset s ≠ NoFuel.
Proof.
  intros Hw Hn. revert buf offset s.
  induction fuel as [|fuel IH]; intros [|b buf] offset s Hlen; simpl in *; try lia; try done.
  unfold mthen. destruct (write _ _ _) as [[s' [n|e]]| | |] eqn:Hwr; try done.
  - apply Hn in Hwr as Hn0. repeat case_decide; try done.
    unfold uadd, uarith. case_decide; simpl.
    + apply IH. rewrite length_drop. simpl. lia.
    + destruct prof; simpl; [done|]. apply IH. rewrite length_drop. simpl. lia.
  - by apply Hw in Hwr.
Qed.

End io.
