(* ===== verification/Fd.v ===== *)
(** Open files (kernel/src/kernel/fd/mod.rs).

    The [FileRepr] trait (with its [Read] and [Write] supertraits) is a class
    over the kernel state [S] and the representation type [R]; [File] adds a
    cursor, the permissions of the descriptor and the path it was opened
    with.  A [File] is shared through [Arc], its cursor is an atomic: the
    operations that move it return the updated record. *)
From S2P Require Import Prelude Abi Io.
Open Scope Z_scope.

(** [new_fstat]: [now] is the clock in seconds. *)
Definition new_fstat (now : Z) : FStat := mkFStat now now 0 perms_rw NodeType_VOID.

(** ** Descriptor permissions *)

Definition FPerms_READ : Z := Z.shiftl 1 0.
Definition FPerms_WRITE : Z := Z.shiftl 1 1.
Definition FPerms_APPEND : Z := Z.shiftl 1 2.
Definition FPerms_TRUNCATE : Z := Z.shiftl 1 3.
Definition FPerms_EXECUTE : Z := Z.shiftl 1 4.
Definition FPerms_empty : Z := 0.

Definition FPerms_from (value : Z) : Z :=
  let zelf := FPerms_empty in
  let zelf := if contains value OpenOptions_READ then Z.lor zelf FPerms_READ else zelf in
  let zelf := if contains value OpenOptions_WRITE then Z.lor zelf FPerms_WRITE else zelf in
  let zelf := if contains value OpenOptions_APPEND then Z.lor zelf FPerms_APPEND else zelf in
  let zelf := if contains value OpenOptions_TRUNCATE then Z.lor zelf FPerms_TRUNCATE else zelf in
  if contains value OpenOptions_EXECUTE then Z.lor zelf FPerms_EXECUTE else zelf.

(** ** [MaybeOwned]

    [Box] and [Arc] are transparent; the reference count of a shared value is
    the argument [strong]. *)
Inductive MaybeOwned (T : Type) : Type :=
| Owned (t : T)
| Shared (t : T).
Arguments Owned {T} t.
Arguments Shared {T} t.

#[export] Instance MaybeOwned_eq_dec {T} `{EqDecision T} : EqDecision (MaybeOwned T).
Proof. solve_decision. Defined.

Definition deref {T} (self : MaybeOwned T) : T :=
  match self with Owned t => t | Shared t => t end.

Definition into_shared {T} (self : MaybeOwned T) : MaybeOwned T :=
  match self with Owned t => Shared t | Shared _ => self end.

Definition count {T} (self : MaybeOwned T) (strong : T → Z) : Z :=
  match self with Owned _ => 1 | Shared s => strong s end.

Definition make_shared {T} (self : MaybeOwned T) : MaybeOwned T :=
  match self with Owned _ => into_shared self | Shared _ => self end.

Definition try_clone {T} (self : MaybeOwned T) : option (MaybeOwned T) :=
  match self with Owned _ => None | Shared t => Some (Shared t) end.

Definition try_mut {T} (self : MaybeOwned T) : option T :=
  match self with Owned t => Some t | Shared _ => None end.

Definition try_owned {T} (self : MaybeOwned T) (strong : T → Z) : option T :=
  match self with
  | Owned t => Some t
  | Shared t => if decide (strong t ≤ 1) then Some t else None
  end.

(** ** The cursor *)

(** [FCursor] is an [AtomicUsize]. *)
Record FCursor : Set := mkFCursor { inner : Z }.

#[export] Instance FCursor_eq_dec : EqDecision FCursor.
Proof. solve_decision. Defined.

Definition FCursor_default : FCursor := mkFCursor 0.
Definition advance (self : FCursor) (n : Z) : FCursor :=
  mkFCursor (wrap64 (inner self + n)).
Definition cursor_get (self : FCursor) : Z := inner self.
Definition cursor_clone (self : FCursor) : FCursor := mkFCursor (cursor_get self).

(** ** The [FileRepr] interface *)

Record FileMetadata : Set := mkFileMetadata {
  meta_path : option str;
  meta_cursor : FCursor;
  meta_perms : Z
}.

Class FileRepr (S R : Type) : Type := {
  fr_fstat : R → M S FSError FStat;
  fr_update_perms : R → Z → PermUpdateStrategy → M S FSError unit;
  fr_clear : R → M S FSError unit;
  fr_read : R → Reader S;
  fr_read_to_end : R → Reader S;
  fr_write : R → Writer S;
  fr_write_all : R → list u8 → Z → M S FSError unit;
  fr_on_open : R → FileMetadata → M S FSError unit;
  fr_on_clone : R → FileMetadata → M S FSError unit;
  fr_on_drop : R → FileMetadata → M S FSError unit;
  fr_on_close : R → FileMetadata → M S FSError unit
}.

(** The default bodies of the trait. *)
Definition default_update_perms {S} (perms : Z) (strategy : PermUpdateStrategy)
    : M S FSError unit := mok tt.
Definition default_clear {S} : M S FSError unit := merr (simple NotSupported).
Definition default_hook {S} (_meta : FileMetadata) : M S FSError unit := mok tt.

(** ** [File] *)

Record File (R : Type) : Type := mkFile {
  repr : MaybeOwned R;
  cursor : FCursor;
  perms : Z;
  path : option str
}.
Arguments mkFile {R} _ _ _ _.
Arguments repr {R} _.
Arguments cursor {R} _.
Arguments perms {R} _.
Arguments path {R} _.

#[export] Instance File_eq_dec {R} `{EqDecision R} : EqDecision (File R).
Proof. solve_decision. Defined.

Section file.
Context {S R : Type} `{FileRepr S R}.
Implicit Types self : File R.

Definition File_new (r : MaybeOwned R) : File R :=
  mkFile r FCursor_default FPerms_empty None.

Definition new_shareable (r : MaybeOwned R) : File R := File_new (into_shared r).

Definition set_cursor self (offset : Z) : File R :=
  mkFile (repr self) (mkFCursor offset) (perms self) (path self).

Definition set_perms self (p : Z) : File R :=
  mkFile (repr self) (cursor self) p (path self).

(** [File::with_perms]; [p] is already converted to [FPerms].  The result of
    [clear] is ignored. *)
Definition with_perms self (p : Z) : M S FSError (File R) :=
  let self := set_perms self (Z.lor (perms self) p) in
  let? self :=
    (if contains (perms self) FPerms_APPEND
     then let? st := fr_fstat (deref (repr self)) in
          mok (set_cursor self (size st))
     else mok self) in
  if contains (perms self) (Z.lor FPerms_WRITE FPerms_TRUNCATE)
  then λ s, let! r := fr_clear (deref (repr self)) s in
            Ret (fst r, Ok (set_cursor self 0))
  else mok self.

Definition with_path self (p : str) : File R :=
  mkFile (repr self) (cursor self) (perms self) (Some p).

Definition may_write self : bool := contains (perms self) FPerms_WRITE.

Definition may_read self : bool :=
  contains (perms self) FPerms_READ || may_write self.

Definition get_path self : option str := path self.

(** [Read for File] and [Write for File]. *)
Definition File_read self : Reader S := λ offset,
  if negb (may_read self) then merr (simple PermissionDenied)
  else fr_read (deref (repr self)) offset.

Definition File_read_to_end self : Reader S := λ offset,
  fr_read_to_end (deref (repr self)) offset.

Definition File_write self : Writer S := λ buf offset,
  if negb (may_write self) then merr (simple PermissionDenied)
  else fr_write (deref (repr self)) buf offset.

Definition File_write_all self (buf : list u8) (offset : Z) : M S FSError unit :=
  fr_write_all (deref (repr self)) buf offset.

(** [fmt::Write for File]: the error carries nothing. *)
Definition File_write_str self (s : list u8) : M S unit unit :=
  λ st, let! r := File_write_all self s 0 st in
        Ret (fst r, match snd r with Ok _ => Ok tt | Err _ => Err tt end).

(** The cursor moves by what was transferred; the state of these operations
    is the kernel state, the file and (for reads) the buffer. *)
Definition read_continuous : M ((S * File R) * list u8) FSError Z :=
  λ '((s, self), buf),
    let! r := File_read self (cursor_get (cursor self)) (s, buf) in
    match r with
    | ((s', buf'), Ok n) =>
        let self' := mkFile (repr self) (advance (cursor self) n) (perms self) (path self) in
        Ret (((s', self'), buf'), Ok n)
    | ((s', buf'), Err e) => Ret (((s', self), buf'), Err e)
    end.

Definition write_continuous (buf : list u8) : M (S * File R) FSError Z :=
  λ '(s, self),
    let! r := File_write self buf (cursor_get (cursor self)) s in
    match r with
    | (s', Ok n) =>
        Ret ((s', mkFile (repr self) (advance (cursor self) n) (perms self) (path self)), Ok n)
    | (s', Err e) => Ret ((s', self), Err e)
    end.

(** [read_all_as_str] and [FileRepr for File]. *)
Definition read_all_as_str self : M S FSError (list u8) :=
  λ s, let! r := read_to_string (File_read_to_end self) 0 (s, []) in
       match r with
       | ((s', buf), Ok _) => Ret (s', Ok buf)
       | ((s', _), Err e) => Ret (s', Err e)
       end.

Definition try_clone_without_offset self : option (File R) :=
  r ← try_clone (repr self);
  Some (mkFile r FCursor_default (perms self) (path self)).

Definition is_at_end self : M S FSError bool :=
  let? st := fr_fstat (deref (repr self)) in
  mok (bool_decide (size st ≤ cursor_get (cursor self))).

Definition File_fstat self : M S FSError FStat := fr_fstat (deref (repr self)).

Definition File_update_perms self (p : Z) (strategy : PermUpdateStrategy)
    : M S FSError unit := fr_update_perms (deref (repr self)) p strategy.

Definition metadata self : FileMetadata :=
  mkFileMetadata (path self) (cursor_clone (cursor self)) (perms self).

(** [Drop for File]. *)
Definition File_drop self : M S FSError unit :=
  fr_on_close (deref (repr self)) (mkFileMetadata (path self) (cursor self) (perms self)).

(** [FileHandle]: an [Arc<File>] that reports clones and drops; [last] says
    that the dropped handle was the last one. *)
Definition FileHandle_clone self : M S FSError unit :=
  fr_on_clone (deref (repr self)) (metadata self).

Definition FileHandle_drop self (last : bool) : M S FSError unit :=
  let? _ := fr_on_drop (deref (repr self)) (metadata self) in
  if last then File_drop self else mok tt.

(** ** [FileBuilder] is the file under construction *)

Definition FileBuilder_new (r : MaybeOwned R) : File R := File_new r.

Definition FileBuilder_with_perms self (p : Z) : M S FSError (File R) := with_perms self p.

Definition shareable self : File R :=
  mkFile (make_shared (repr self)) (cursor self) (perms self) (path self).

Definition FileBuilder_with_path self (p : str) : File R := with_path self p.

Definition finish self : M S FSError (File R) :=
  let? _ := fr_on_open (deref (repr self)) (metadata self) in
  mok self.

End file.

(** ** Lemmas *)

Lemma FPerms_from_bits v :
  contains (FPerms_from v) FPerms_READ = contains v OpenOptions_READ ∧
  contains (FPerms_from v) FPerms_WRITE = contains v OpenOptions_WRITE ∧
  contains (FPerms_from v) FPerms_APPEND = contains v OpenOptions_APPEND ∧
  contains (FPerms_from v) FPerms_TRUNCATE = contains v OpenOptions_TRUNCATE ∧
  contains (FPerms_from v) FPerms_EXECUTE = contains v OpenOptions_EXECUTE.
Proof.
  unfold FPerms_from.
  destruct (contains v OpenOptions_READ), (contains v OpenOptions_WRITE),
    (contains v OpenOptions_APPEND), (contains v OpenOptions_TRUNCATE),
    (contains v OpenOptions_EXECUTE); repeat split; reflexivity.
Qed.

Lemma FPerms_from_write_truncate v :
  contains (FPerms_from v) (Z.lor FPerms_WRITE FPerms_TRUNCATE) =
    contains v OpenOptions_WRITE && contains v OpenOptions_TRUNCATE.
Proof.
  unfold FPerms_from.
  destruct (contains v OpenOptions_READ), (contains v OpenOptions_WRITE),
    (contains v OpenOptions_APPEND), (contains v OpenOptions_TRUNCATE),
    (contains v OpenOptions_EXECUTE); reflexivity.
Qed.
