(* ===== verification/Listing.v ===== *)
(** Directory listings: [buffered_display] and the [Display] loop, which
    kernel/src/kernel/fs/ramfs/mod.rs (for [DirData]) and
    kernel/src/kernel/fs/vfs/mod.rs (for the mount table) spell out over
    their own keys.  Here they are functions of the list of keys. *)
From S2P Require Import Prelude Abi Io.
Open Scope Z_scope.

Definition TAB : u8 := byte 9.

(** The [for] loop of [buffered_display]. *)
Fixpoint display_loop (names : list str) (buf : list u8)
    (offset written newly_written : Z) : Outcome (list u8 * (Z * bool)) :=
  match names with
  | [] => Ret (buf, (newly_written, true))
  | name :: names =>
      let total_len := zlen name + 1 in
      if decide (written < offset) then
        display_loop names buf offset (written + total_len) newly_written
      else if decide (zlen buf < total_len + newly_written) then
        Ret (buf, (newly_written, false))
      else if decide (zlen buf ≤ newly_written + total_len - 1) then Panic
      else
        let buf := splice buf newly_written name in
        let buf := splice buf (newly_written + total_len - 1) [TAB] in
        display_loop names buf offset written (newly_written + total_len)
  end.

Definition buffered_display (names : list str) (buf : list u8) (offset : Z)
    : Outcome (list u8 * (Z * bool)) :=
  display_loop names buf offset 0 0.

(** The [loop] of [Display::fmt]; [out] is what the formatter received. *)
Fixpoint fmt_loop (fuel : nat) (names : list str) (buf : list u8) (offset : Z)
    (out : str) : Outcome str :=
  match fuel with
  | O => NoFuel
  | S fuel =>
      let! r := buffered_display names buf offset in
      let '(buf, (read, is_done)) := r in
      if decide (zlen buf < read) then Panic
      else if decide (read = 0) then
        if is_done then Ret out
        else let! buf := mresize (zlen buf * 2) zero buf in
             fmt_loop fuel names buf offset out
      else
        let name := take (Z.to_nat read) buf in
        if negb (utf8_valid name) then Panic
        else if is_done then Ret (out ++ name)
        else fmt_loop fuel names buf (offset + read) (out ++ name)
  end.

(** ** Specification *)

Definition entry (name : str) : str := name ++ [TAB].
Definition entries (names : list str) : str := concat (map entry names).

(** Rounds of [fmt_loop] that are always enough. *)
Definition listing_fuel (names : list str) : nat :=
  S (length names + length (entries names)).

(** The entries of [names] that fit into [space] bytes. *)
Fixpoint take_fit (space : Z) (names : list str) : list str :=
  match names with
  | [] => []
  | n :: names =>
      if decide (zlen n + 1 ≤ space)
      then n :: take_fit (space - (zlen n + 1)) names else []
  end.

Lemma zlen_entry n : zlen (entry n) = zlen n + 1.
Proof. unfold entry. by rewrite zlen_app. Qed.

Lemma entries_cons n names : entries (n :: names) = entry n ++ entries names.
Proof. done. Qed.

Lemma entries_app a b : entries (a ++ b) = entries a ++ entries b.
Proof. unfold entries. by rewrite map_app, concat_app. Qed.

Lemma zlen_entries_cons n names :
  zlen (entries (n :: names)) = zlen n + 1 + zlen (entries names).
Proof. by rewrite entries_cons, zlen_app, zlen_entry. Qed.

Lemma take_fit_prefix space names : take_fit space names `prefix_of` names.
Proof.
  revert space. induction names as [|n names IH]; intros space; simpl; [done|].
  case_decide; [by apply prefix_cons|apply prefix_nil].
Qed.

Lemma take_fit_le space names : 0 ≤ space → zlen (entries (take_fit space names)) ≤ space.
Proof.
  revert space. induction names as [|n names IH]; intros space ?; simpl; [done|].
  case_decide; [|done]. rewrite zlen_entries_cons.
  specialize (IH (space - (zlen n + 1))). lia.
Qed.

Lemma entries_nil_inv names : zlen (entries names) = 0 → names = [].
Proof.
  destruct names as [|n names]; [done|]. rewrite zlen_entries_cons.
  pose proof (zlen_nonneg n). pose proof (zlen_nonneg (entries names)). lia.
Qed.

(** The part of the loop that skips what an earlier call returned. *)
Lemma display_loop_skip pre post buf written newly :
  display_loop (pre ++ post) buf (written + zlen (entries pre)) written newly =
    display_loop post buf (written + zlen (entries pre))
      (written + zlen (entries pre)) newly.
Proof.
  revert written. induction pre as [|n pre IH]; intros written.
  { unfold zlen. simpl. by rewrite Z.add_0_r. }
  rewrite zlen_entries_cons. simpl.
  pose proof (zlen_nonneg n). pose proof (zlen_nonneg (entries pre)).
  rewrite decide_True by lia.
  replace (written + (zlen n + 1 + zlen (entries pre)))
    with ((written + (zlen n + 1)) + zlen (entries pre)) by lia.
  apply IH.
Qed.

Lemma splice_entry buf newly n :
  0 ≤ newly → newly + (zlen n + 1) ≤ zlen buf →
  splice (splice buf newly n) (newly + (zlen n + 1) - 1) [TAB] =
    splice buf newly (entry n).
Proof.
  intros ? ?. unfold entry. rewrite <- splice_splice.
  - f_equal. lia.
  - done.
  - unfold zlen in *. simpl. lia.
Qed.

(** The part that copies: the entries that fit, in order. *)
Lemma display_loop_copy names buf offset written newly :
  offset ≤ written → 0 ≤ newly ≤ zlen buf →
  let fit := take_fit (zlen buf - newly) names in
  display_loop names buf offset written newly =
    Ret (splice buf newly (entries fit),
         (newly + zlen (entries fit), bool_decide (fit = names))).
Proof.
  revert buf newly. induction names as [|n names IH]; intros buf newly Hw Hn; simpl.
  { unfold splice, entries, zlen. simpl. rewrite Nat.add_0_r, take_drop.
    by rewrite Z.add_0_r. }
  pose proof (zlen_nonneg n) as Hn0.
  rewrite (decide_False (P := written < offset)) by lia.
  destruct (decide (zlen buf < zlen n + 1 + newly)) as [Hsp|Hsp].
  - rewrite (decide_False (P := zlen n + 1 ≤ _)) by lia.
    unfold splice, entries, zlen. simpl. rewrite Nat.add_0_r, take_drop.
    by rewrite Z.add_0_r.
  - rewrite (decide_True (P := zlen n + 1 ≤ _)) by lia.
    rewrite decide_False by lia.
    rewrite splice_entry by lia.
    assert (Hb : zlen (splice buf newly (entry n)) = zlen buf)
      by (apply zlen_splice; rewrite ?zlen_entry; lia).
    rewrite IH by lia. rewrite Hb.
    replace (zlen buf - (newly + (zlen n + 1))) with (zlen buf - newly - (zlen n + 1)) by lia.
    pose proof (take_fit_le (zlen buf - newly - (zlen n + 1)) names ltac:(lia)).
    rewrite <- (zlen_entry n) at 1. rewrite splice_splice by (rewrite ?zlen_entry; lia).
    rewrite <- entries_cons, zlen_entries_cons. do 3 f_equal; [lia|].
    apply bool_decide_ext. split; congruence.
Qed.

Lemma buffered_display_spec pre post buf :
  let fit := take_fit (zlen buf) post in
  buffered_display (pre ++ post) buf (zlen (entries pre)) =
    Ret (fill buf (entries fit), (zlen (entries fit), bool_decide (fit = post))).
Proof.
  unfold buffered_display. rewrite <- (Z.add_0_l (zlen (entries pre))).
  rewrite display_loop_skip, display_loop_copy by (pose proof (zlen_nonneg buf); lia).
  by rewrite Z.sub_0_r, Z.add_0_l.
Qed.


(** UTF-8 of a concatenation. *)
Lemma utf8_valid_app a b : utf8_valid a = true → utf8_valid (a ++ b) = utf8_valid b.
Proof.
  remember (length a) as n eqn:Hn. assert (Hle : (length a ≤ n)%nat) by lia. clear Hn.
  revert a Hle. induction n as [|n IH]; intros a Hle Ha.
  { destruct a; [done|simpl in Hle; lia]. }
  destruct a as [|x a]; [done|]. simpl in Ha, Hle |- *.
  repeat match goal with
  | |- context [if byte_in ?l ?h x then _ else _] => destruct (byte_in l h x)
  end; [|destruct a as [|x1 a]; [done|]| destruct a as [|x1 [|x2 a]]; try done
        |destruct a as [|x1 [|x2 [|x3 a]]]; try done|done]; simpl in *.
  - apply IH; [lia|done].
  - apply andb_true_iff in Ha as [-> Ha]. simpl. apply IH; [lia|done].
  - apply andb_true_iff in Ha as [Ha1 Ha]. rewrite Ha1. simpl. apply IH; [lia|done].
  - apply andb_true_iff in Ha as [Ha1 Ha]. rewrite Ha1. simpl. apply IH; [lia|done].
Qed.

Lemma utf8_valid_entries names :
  Forall (λ n, utf8_valid n = true) names → utf8_valid (entries names) = true.
Proof.
  induction 1 as [|n names Hn _ IH]; [done|].
  rewrite entries_cons. unfold entry. rewrite <- app_assoc, utf8_valid_app by done.
  done.
Qed.

Lemma take_fit_nil_lt space n names :
  take_fit space (n :: names) = [] → space < zlen n + 1.
Proof. simpl. case_decide; [done|lia]. Qed.

Section fmt.
Context (names : list str).
Hypothesis Hutf : Forall (λ n, utf8_valid n = true) names.
Hypothesis Hlen : 2 * zlen (entries names) ≤ ISIZE_MAX.

Lemma fmt_loop_spec fuel pre post buf :
  names = pre ++ post → (0 < length buf)%nat →
  (length post + (length (entries names) - length buf) < fuel)%nat →
  fmt_loop fuel names buf (zlen (entries pre)) (entries pre) = Ret (entries names).
Proof.
  revert pre post buf. induction fuel as [|fuel IH]; intros pre post buf Heq Hbuf Hfuel; [lia|].
  simpl. rewrite Heq at 1. rewrite buffered_display_spec. simpl.
  set (fit := take_fit (zlen buf) post).
  assert (Hfit : zlen (entries fit) ≤ zlen buf) by (apply take_fit_le; auto with kernel).
  assert (Hfl : zlen (fill buf (entries fit)) = zlen buf).
  { unfold zlen in *. rewrite fill_length by lia. done. }
  rewrite decide_False by lia.
  destruct (decide (zlen (entries fit) = 0)) as [Hz|Hz].
  - apply entries_nil_inv in Hz as Hnil. rewrite Hnil.
    destruct post as [|n post].
    + simpl. rewrite app_nil_r in Heq. by subst.
    + rewrite bool_decide_false by done.
      change (entries []) with (@nil u8). rewrite fill_nil.
      apply take_fit_nil_lt in Hnil.
      assert (Hn : zlen n + 1 ≤ zlen (entries names)).
      { rewrite Heq, entries_app, zlen_app, zlen_entries_cons.
        pose proof (zlen_nonneg (entries pre)). pose proof (zlen_nonneg (entries post)). lia. }
      unfold mresize. rewrite decide_False by (unfold zlen in *; lia). simpl.
      apply (IH pre (n :: post)); [done| |].
      * unfold vec_resize. rewrite length_resize. unfold zlen in *. lia.
      * unfold vec_resize. rewrite length_resize. unfold zlen in *. simpl in *. lia.
  - assert (Htake : take (Z.to_nat (zlen (entries fit))) (fill buf (entries fit)) = entries fit).
    { unfold zlen. rewrite Nat2Z.id. apply fill_take. }
    rewrite Htake.
    destruct (take_fit_prefix (zlen buf) post) as [rest Hrest]. fold fit in Hrest.
    rewrite utf8_valid_entries.
    2:{ rewrite Heq, Forall_app in Hutf. rewrite Hrest, Forall_app in Hutf. tauto. }
    simpl. case_bool_decide as Hd.
    + by rewrite Heq, <- Hd, entries_app.
    + rewrite <- zlen_app, <- entries_app. apply (IH (pre ++ fit) rest).
      * by rewrite Heq, Hrest, app_assoc.
      * unfold zlen in *. lia.
      * assert (fit ≠ []) by (intros E; rewrite E in Hz; done).
        destruct fit as [|f0 fit']; [done|].
        rewrite Hrest in Hfuel. rewrite length_app in Hfuel. simpl in *.
        unfold zlen in *. lia.
Qed.

End fmt.

(** The [Display] loop ends and prints every key of the directory
    once, in order, each followed by a tab, whatever the buffer sizes on the way. *)
Lemma listing_complete names :
  Forall (λ n, utf8_valid n = true) names →
  2 * zlen (entries names) ≤ ISIZE_MAX →
  fmt_loop (listing_fuel names) names (replicate 10 zero) 0 [] = Ret (entries names).
Proof.
  intros Hu Hl. change 0 with (zlen (entries [])) at 1.
  change (@nil ascii) with (entries []).
  apply (fmt_loop_spec names Hu Hl _ [] names); [done|simpl; lia|].
  unfold listing_fuel. lia.
Qed.

Lemma listing_complete_witness :
  fmt_loop (listing_fuel [lit "a_rather_long_name"; lit "b"]) [lit "a_rather_long_name"; lit "b"]
    (replicate 10 zero) 0 [] = Ret (entries [lit "a_rather_long_name"; lit "b"]).
Proof.
  apply (listing_complete [lit "a_rather_long_name"; lit "b"]).
  - repeat constructor.
  - vm_compute. discriminate.
Defined.
