(* ===== verification/RamFile.v ===== *)
(** Nodes of the in-memory file system (kernel/src/kernel/fs/ramfs/mod.rs,
    everything below [RamFS]).

    [Arc<RwLock<RamFile>>] is a pointer into a store.  The guards the current
    call chain holds are part of the state: taking a lock that conflicts with
    one of them can never succeed and is the outcome [Blocked]; guards of
    other threads are released eventually and do not appear.  The clock is
    the field [now].  The heap is large enough: only the capacity limit of
    [Vec] (isize::MAX bytes) is modelled. *)
From S2P Require Import Prelude Abi Path Io Fd Listing.
Open Scope Z_scope.

Abbreviation ptr := positive.

(** ** State *)

(** [DirData]: an [IndexMap] from names to nodes, in insertion order. *)
Abbreviation DirData := (list (str * ptr)).

Inductive RamNode : Type :=
| SoftLink (path : str)
| NFile (data : list u8)
| NDir (entries : DirData).

Record RamFile : Type := mkRamFile { node : RamNode; stat : FStat }.

#[export] Instance RamNode_eq_dec : EqDecision RamNode.
Proof. solve_decision. Defined.
#[export] Instance RamFile_eq_dec : EqDecision RamFile.
Proof. solve_decision. Defined.

(** [Arc<dyn FS>]: a mounted file system; a [RamFS] is its root node. *)
Inductive FsObj : Set := RamFSObj (root : ptr).

#[export] Instance FsObj_eq_dec : EqDecision FsObj.
Proof. solve_decision. Defined.

Inductive LockMode : Set := LRead | LWrite.

#[export] Instance LockMode_eq_dec : EqDecision LockMode.
Proof. solve_decision. Defined.

Record World : Type := mkWorld {
  store : gmap ptr RamFile;
  next_ptr : ptr;
  held : list (LockMode * ptr);
  now : Z;
  mounts : gmap str FsObj
}.

Definition set_store (w : World) (s : gmap ptr RamFile) : World :=
  mkWorld s (next_ptr w) (held w) (now w) (mounts w).
Definition set_held (w : World) (h : list (LockMode * ptr)) : World :=
  mkWorld (store w) (next_ptr w) h (now w) (mounts w).

(** ** Locks *)

Definition conflicts (mode : LockMode) (p : ptr) (h : list (LockMode * ptr)) : bool :=
  match mode with
  | LRead => bool_decide ((LWrite, p) ∈ h)
  | LWrite => bool_decide ((LWrite, p) ∈ h) || bool_decide ((LRead, p) ∈ h)
  end.

Definition acquire (mode : LockMode) (p : ptr) (w : World) : Outcome (World * RamFile) :=
  if conflicts mode p (held w) then Blocked
  else match store w !! p with
       | Some rf => Ret (set_held w ((mode, p) :: held w), rf)
       | None => Panic
       end.

(** Dropping a guard. *)
Definition release (w : World) : World := set_held w (tail (held w)).

(** A guard that lives for the duration of [body]. *)
Definition with_lock {E A} (mode : LockMode) (p : ptr) (body : RamFile → M World E A)
    : M World E A :=
  λ w, let! a := acquire mode p w in
       let! r := body (snd a) (fst a) in
       Ret (release (fst r), snd r).

Definition with_lock_buf {E A} (mode : LockMode) (p : ptr)
    (body : RamFile → M (World * list u8) E A) : M (World * list u8) E A :=
  λ '(w, buf),
    let! a := acquire mode p w in
    let! r := body (snd a) (fst a, buf) in
    let '((w', buf'), res) := r in
    Ret ((release w', buf'), res).

(** Assignment through a guard. *)
Definition put_file {E} (p : ptr) (rf : RamFile) : M World E unit :=
  λ w, Ret (set_store w (<[p := rf]> (store w)), Ok tt).

(** The content of the file of a built-in program
    (kernel/src/kernel/fs/builtin_bins.rs). *)
Definition BUILTIN_MARKER : list u8 := lit "tiny_builtin".

(** ** Nodes *)

Definition RamNode_file : RamNode := NFile [].
Definition RamNode_dir : RamNode := NDir [].
Definition RamNode_link (path : str) : RamNode := SoftLink path.

Definition set_size (s : FStat) (n : Z) : FStat :=
  mkFStat (t_create s) (t_mod s) n (permissions s) (node_type s).
Definition set_t_mod (s : FStat) (t : Z) : FStat :=
  mkFStat (t_create s) t (size s) (permissions s) (node_type s).
Definition set_permissions (s : FStat) (p : Z) : FStat :=
  mkFStat (t_create s) (t_mod s) (size s) p (node_type s).
Definition set_node_type (s : FStat) (t : Z) : FStat :=
  mkFStat (t_create s) (t_mod s) (size s) (permissions s) t.

Definition RamFile_new (now : Z) (node : RamNode) (perms : Z) : RamFile :=
  let stat := set_permissions (new_fstat now) perms in
  let stat :=
    match node with
    | SoftLink _ => set_size (set_node_type stat NodeType_SYMLINK) USIZE_MAX
    | NDir _ => set_size (set_node_type stat NodeType_DIR) USIZE_MAX
    | NFile _ => set_node_type stat NodeType_FILE
    end in
  mkRamFile node stat.

Definition is_dir (rf : RamFile) : bool :=
  match node rf with NDir _ => true | _ => false end.

(** [Arc::new]: a fresh node. *)
Definition alloc {E} (mk : Z → RamFile) : M World E ptr :=
  λ w, Ret (mkWorld (<[next_ptr w := mk (now w)]> (store w)) (Pos.succ (next_ptr w))
              (held w) (now w) (mounts w), Ok (next_ptr w)).

Definition ram_dir {E} : M World E ptr :=
  alloc (λ now, RamFile_new now RamNode_dir perms_rwx).
Definition ram_file {E} : M World E ptr :=
  alloc (λ now, RamFile_new now RamNode_file perms_rw).
Definition ram_link {E} (path : str) : M World E ptr :=
  alloc (λ now, RamFile_new now (RamNode_link path) perms_rw).
Definition empty_ram_link {E} : M World E ptr := ram_link PathBuf_new.

(** ** Directories *)

(** [DirData::ensure_entry]; [f] creates the missing node. *)
Definition ensure_entry (name : str) (f : M World FSError ptr) (d : DirData)
    : M World FSError (DirData * ptr) :=
  match im_get d name with
  | Some p => mok (d, p)
  | None => let? p := f in mok (im_push d name p, p)
  end.

(** [with_mut_dir]: [func] returns the new directory and its result. *)
Definition with_mut_dir {R} (parent : ptr) (func : DirData → M World FSError (DirData * R))
    : M World FSError R :=
  let? w := with_lock LRead parent (λ rf, mok (perm_w (permissions (stat rf)))) in
  if negb w then merr (simple PermissionDenied)
  else with_lock LWrite parent (λ rf,
    match node rf with
    | NDir d =>
        let? r := func d in
        let? _ := put_file parent (mkRamFile (NDir (fst r)) (stat rf)) in
        mok (snd r)
    | _ => merr (simple InvalidPath)
    end).

Definition with_dir {R} (parent : ptr) (func : DirData → R) : M World FSError R :=
  with_lock LRead parent (λ rf,
    match node rf with
    | NDir d => mok (func d)
    | _ => merr (simple InvalidPath)
    end).

(** [buffered_display] and [Display] of [DirData]. *)
Definition DirData_buffered_display (d : DirData) (buf : list u8) (offset : Z)
    : Outcome (list u8 * (Z * bool)) :=
  buffered_display (im_keys d) buf offset.

Definition DirData_fmt (d : DirData) : Outcome str :=
  fmt_loop (listing_fuel (im_keys d)) (im_keys d) (replicate 10 zero) 0 [].

(** ** [FileRepr], [Read] and [Write] for [LockedRamFile] *)

Definition ram_fstat (self : ptr) : M World FSError FStat :=
  with_lock LRead self (λ rf, mok (stat rf)).

Definition ram_update_perms (self : ptr) (perms : Z) (strategy : PermUpdateStrategy)
    : M World FSError unit :=
  with_lock LWrite self (λ rf,
    let old := permissions (stat rf) in
    let new := match strategy with
               | PAND => Z.land old perms
               | POR => Z.lor old perms
               | POVERWRITE => perms
               end in
    put_file self (mkRamFile (node rf) (set_permissions (stat rf) new))).

Definition ram_clear (self : ptr) : M World FSError unit :=
  with_lock LWrite self (λ rf,
    match node rf with
    | SoftLink _ | NDir _ => merr (simple NotSupported)
    | NFile _ =>
        let? w := mget in
        put_file self
          (mkRamFile (NFile []) (set_size (set_t_mod (stat rf) (now w)) 0))
    end).

(** What a read of the node does to the buffer. *)
Definition node_read (n : RamNode) (buf : list u8) (offset : Z)
    : Outcome (list u8 * Result FSError Z) :=
  match n with
  | SoftLink l =>
      if decide (zlen l < offset) then Ret (buf, Err (simple UnexpectedEOF))
      else
        let n_readable := Z.min (zlen l - offset) (zlen buf) in
        Ret (fill buf (slice l offset (n_readable + offset)), Ok n_readable)
  | NDir d =>
      let! r := DirData_buffered_display d buf offset in
      Ret (fst r, Ok (fst (snd r)))
  | NFile f =>
      if decide (offset = zlen f) then Ret (buf, Ok 0)
      else match checked_sub (zlen f) offset with
           | None => Ret (buf, Err (simple UnexpectedEOF))
           | Some rest =>
               let len := Z.min rest (zlen buf) in
               Ret (fill buf (slice f offset (offset + len)), Ok len)
           end
  end.

Definition ram_read (self : ptr) : Reader World := λ offset,
  with_lock_buf LRead self (λ rf '(w, buf),
    let! r := node_read (node rf) buf offset in
    Ret ((w, fst r), snd r)).

Section locked_ram_file.
Context (prof : Profile).

(** [read_to_end]: the [File] arm repeats the loop of the trait under the
    read guard it already holds.  One round per byte and three more are
    enough (see [ram_read_to_end_file]). *)
Definition ram_read_to_end (self : ptr) : Reader World := λ offset,
  with_lock_buf LRead self (λ rf '(w, buf),
    match node rf with
    | SoftLink l =>
        if decide (zlen l < offset) then Ret ((w, buf), Err (simple UnexpectedEOF))
        else Ret ((w, buf ++ drop (Z.to_nat offset) l), Ok (zlen l - offset))
    | NDir d =>
        let! res := DirData_fmt d in
        Ret ((w, buf ++ res), Ok (zlen res))
    | NFile f =>
        read_to_end_loop prof (S (S (S (length f)))) (ram_read self) 0 offset (w, buf)
    end).

(** The [File] arm of [write]: new data and number of bytes written. *)
Definition data_write (f buf : list u8) (offset : Z) : Outcome (list u8 * Z) :=
  let! stop := uadd prof offset (zlen buf) in
  let! f := (if decide (zlen f < stop) then mresize stop zero f else Ret f) in
  let! rest := usub prof (zlen f) offset in
  let len := Z.min rest (zlen buf) in
  let! stop := uadd prof offset len in
  if decide (offset ≤ stop ≤ zlen f)
  then Ret (splice f offset (take (Z.to_nat len) buf), len)
  else Panic.

Definition ram_write (self : ptr) : Writer World := λ buf offset,
  with_lock LWrite self (λ rf,
    let? r :=
      match node rf with
      | SoftLink _ =>
          if utf8_valid buf then mok (SoftLink buf, stat rf, zlen buf)
          else merr (simple InvalidPath)
      | NDir _ => merr (simple NotSupported)
      | NFile f =>
          λ w, let! r := data_write f buf offset in
               Ret (w, Ok (NFile (fst r), set_size (stat rf) (zlen (fst r)), snd r))
      end in
    let? w := mget in
    let? _ := put_file self (mkRamFile (fst (fst r)) (set_t_mod (snd (fst r)) (now w))) in
    mok (snd r)).

Definition ram_write_all (self : ptr) (buf : list u8) (offset : Z) : M World FSError unit :=
  write_all prof (length buf) (ram_write self) buf offset.

End locked_ram_file.

(** ** Locks are scoped *)

Lemma release_push w m p : release (set_held w ((m, p) :: held w)) = w.
Proof. by destruct w. Qed.

Lemma acquire_ok mode p w rf :
  conflicts mode p (held w) = false → store w !! p = Some rf →
  acquire mode p w = Ret (set_held w ((mode, p) :: held w), rf).
Proof. intros Hc Hs. unfold acquire. by rewrite Hc, Hs. Qed.

(** A guarded read-only body. *)
Lemma with_lock_ret {E A} mode p w rf (body : RamFile → M World E A) r :
  conflicts mode p (held w) = false → store w !! p = Some rf →
  body rf (set_held w ((mode, p) :: held w)) =
    Ret (set_held w ((mode, p) :: held w), r) →
  with_lock mode p body w = Ret (w, r).
Proof.
  intros Hc Hs Hb. unfold with_lock. rewrite (acquire_ok _ _ _ rf) by done. simpl.
  rewrite Hb. simpl. by rewrite release_push.
Qed.

(** A guarded body whose last action is an assignment. *)
Lemma with_lock_put {E A} mode p w rf (body : RamFile → M World E A) rf' r :
  conflicts mode p (held w) = false → store w !! p = Some rf →
  body rf (set_held w ((mode, p) :: held w)) =
    Ret (set_store (set_held w ((mode, p) :: held w)) (<[p := rf']> (store w)), r) →
  with_lock mode p body w = Ret (set_store w (<[p := rf']> (store w)), r).
Proof.
  intros Hc Hs Hb. unfold with_lock. rewrite (acquire_ok _ _ _ rf) by done. simpl.
  rewrite Hb. done.
Qed.

(** ** Reading and writing file data *)

Lemma slice_full_range {A} (l : list A) a b :
  0 ≤ a → a ≤ b → b ≤ zlen l → zlen (slice l a b) = b - a.
Proof.
  unfold slice, zlen. intros. rewrite length_take, length_drop. lia.
Qed.

(** The data after a write: old bytes, a zero-filled gap, the new bytes. *)
Definition written (f buf : list u8) (offset : Z) : list u8 :=
  splice (vec_resize f (Z.max (zlen f) (offset + zlen buf)) zero) offset buf.

Lemma zlen_vec_resize {A} (l : list A) n x : 0 ≤ n → zlen (vec_resize l n x) = n.
Proof. intros. unfold zlen, vec_resize. rewrite length_resize. lia. Qed.

Lemma vec_resize_same {A} (l : list A) x : vec_resize l (zlen l) x = l.
Proof.
  unfold vec_resize, zlen. rewrite Nat2Z.id. rewrite resize_ge by lia.
  by rewrite Nat.sub_diag, app_nil_r.
Qed.

Lemma zlen_written f buf offset :
  0 ≤ offset → zlen (written f buf offset) = Z.max (zlen f) (offset + zlen buf).
Proof.
  intros. pose proof (zlen_nonneg f). pose proof (zlen_nonneg buf). unfold written.
  rewrite zlen_splice; rewrite ?zlen_vec_resize; lia.
Qed.

Lemma written_lookup f buf offset i :
  0 ≤ offset →
  written f buf offset !! i =
    if decide (Z.to_nat offset ≤ i < Z.to_nat offset + length buf)%nat
    then buf !! (i - Z.to_nat offset)%nat
    else if decide (i < length f)%nat then f !! i
    else if decide (i < Z.to_nat offset + length buf)%nat then Some zero
    else None.
Proof.
  intros Ho. pose proof (zlen_nonneg f). pose proof (zlen_nonneg buf). unfold written.
  rewrite splice_lookup; [|done|rewrite zlen_vec_resize; lia].
  case_decide; [done|]. unfold vec_resize, zlen in *.
  destruct (decide (i < length f)%nat).
  - rewrite resize_ge by lia. by rewrite lookup_app_l.
  - case_decide.
    + rewrite resize_ge by lia. rewrite lookup_app_r by lia.
      apply lookup_replicate_2. lia.
    + apply lookup_ge_None_2. rewrite length_resize. lia.
Qed.

Lemma data_write_ok prof f buf offset :
  0 ≤ offset → offset + zlen buf ≤ ISIZE_MAX → zlen f ≤ ISIZE_MAX →
  data_write prof f buf offset = Ret (written f buf offset, zlen buf).
Proof.
  intros Ho Hb Hf. pose proof (zlen_nonneg f). pose proof (zlen_nonneg buf).
  unfold data_write, uadd, usub, written.
  assert (Hrange : ISIZE_MAX < USIZE_MAX) by reflexivity.
  rewrite uarith_in_range by (unfold in_usize; lia). simpl.
  destruct (decide (zlen f < offset + zlen buf)) as [Hlt|Hge].
  - unfold mresize. rewrite decide_False by lia. simpl.
    rewrite Z.max_r by lia. rewrite zlen_vec_resize by lia.
    rewrite uarith_in_range by (unfold in_usize; lia). simpl.
    rewrite Z.min_r by lia. rewrite uarith_in_range by (unfold in_usize; lia). simpl.
    rewrite decide_True by lia. unfold zlen. rewrite Nat2Z.id. by rewrite firstn_all.
  - simpl. rewrite Z.max_l by lia. rewrite vec_resize_same.
    rewrite uarith_in_range by (unfold in_usize; lia). simpl.
    rewrite Z.min_r by lia. rewrite uarith_in_range by (unfold in_usize; lia). simpl.
    rewrite decide_True by lia. unfold zlen. rewrite Nat2Z.id. by rewrite firstn_all.
Qed.

Lemma wrap64_over z : USIZE_MAX < z ≤ 2 * USIZE_MAX → wrap64 z = z - (USIZE_MAX + 1).
Proof.
  unfold wrap64, wrap, USIZE_MAX. intros.
  symmetry. apply (Zmod_unique z (2 ^ 64) 1); lia.
Qed.

Lemma wrap64_under z : - USIZE_MAX ≤ z < 0 → wrap64 z = z + (USIZE_MAX + 1).
Proof.
  unfold wrap64, wrap, USIZE_MAX. intros.
  symmetry. apply (Zmod_unique z (2 ^ 64) (-1)); lia.
Qed.

(** Past the capacity limit the write panics, also where the release build
    wraps [offset + buf.len()]. *)
Lemma data_write_far prof f buf offset :
  0 ≤ offset ≤ USIZE_MAX → ISIZE_MAX < offset + zlen buf →
  zlen f ≤ ISIZE_MAX → zlen buf ≤ ISIZE_MAX →
  data_write prof f buf offset = Panic.
Proof.
  intros Ho Hb Hf Hbuf. pose proof (zlen_nonneg f). pose proof (zlen_nonneg buf).
  assert (Hrange : USIZE_MAX = 2 * ISIZE_MAX + 1) by reflexivity.
  unfold data_write, uadd, usub, uarith at 1.
  case_decide as Hov; simpl.
  { rewrite decide_True by lia. unfold mresize. by rewrite decide_True by lia. }
  destruct prof; [done|]. simpl. rewrite wrap64_over by lia.
  set (stop := offset + zlen buf - (USIZE_MAX + 1)).
  assert (Hf' : ∃ f', (if decide (zlen f < stop) then mresize stop zero f else Ret f) = Ret f'
                      ∧ zlen f' ≤ ISIZE_MAX).
  { case_decide; [|by eauto]. unfold mresize. rewrite decide_False by lia.
    eexists; split; [done|]. rewrite zlen_vec_resize; lia. }
  destruct Hf' as (f' & -> & Hl). simpl. pose proof (zlen_nonneg f').
  unfold uarith at 1. rewrite decide_False by lia. simpl.
  rewrite wrap64_under by lia. set (len := Z.min _ _).
  assert (0 ≤ len ≤ zlen buf) by (unfold len; lia).
  unfold uarith. case_decide as Hs; simpl.
  - by rewrite decide_False by lia.
  - rewrite wrap64_over by lia. by rewrite decide_False by lia.
Qed.

Lemma ram_read_node w self rf dst offset :
  conflicts LRead self (held w) = false → store w !! self = Some rf →
  ram_read self offset (w, dst) =
    let! r := node_read (node rf) dst offset in Ret ((w, fst r), snd r).
Proof.
  intros Hc Hs. unfold ram_read, with_lock_buf. rewrite (acquire_ok _ _ _ rf) by done.
  simpl. destruct (node_read _ _ _) as [[b r]| | |]; simpl; [|done..].
  by rewrite release_push.
Qed.

Lemma node_read_file f dst offset :
  0 ≤ offset ≤ zlen f →
  node_read (NFile f) dst offset =
    let len := Z.min (zlen f - offset) (zlen dst) in
    Ret (fill dst (slice f offset (offset + len)), Ok len).
Proof.
  intros Ho. simpl. pose proof (zlen_nonneg dst). case_decide as He.
  - subst. rewrite Z.sub_diag, Z.min_l by lia. unfold slice.
    rewrite Z.add_0_r, Z.sub_diag. done.
  - unfold checked_sub. by rewrite decide_True by lia.
Qed.

Lemma ram_write_ok prof w self rf f buf offset :
  conflicts LWrite self (held w) = false →
  store w !! self = Some rf → node rf = NFile f →
  0 ≤ offset → offset + zlen buf ≤ ISIZE_MAX → zlen f ≤ ISIZE_MAX →
  let f' := written f buf offset in
  let rf' := mkRamFile (NFile f') (set_t_mod (set_size (stat rf) (zlen f')) (now w)) in
  ram_write prof self buf offset w =
    Ret (set_store w (<[self := rf']> (store w)), Ok (zlen buf)).
Proof.
  intros Hc Hs Hn Ho Hb Hf. apply (with_lock_put _ _ _ rf); [done|done|].
  rewrite Hn. unfold mthen. simpl. rewrite data_write_ok by done. done.
Qed.

(** C2: writing to a file stores exactly the given bytes at the
    offset, keeps every other byte, fills a gap with zeros, and sets the
    recorded size and modification time; nothing else changes, and reading the range back
    gives the bytes written. *)
Theorem ram_write_spec prof w self rf f buf offset :
  conflicts LWrite self (held w) = false →
  store w !! self = Some rf → node rf = NFile f →
  0 ≤ offset → offset + zlen buf ≤ ISIZE_MAX → zlen f ≤ ISIZE_MAX →
  let f' := written f buf offset in
  let rf' := mkRamFile (NFile f') (set_t_mod (set_size (stat rf) (zlen f')) (now w)) in
  let w' := set_store w (<[self := rf']> (store w)) in
  ram_write prof self buf offset w = Ret (w', Ok (zlen buf)) ∧
  (∀ i : nat, f' !! i =
     if decide (Z.to_nat offset ≤ i < Z.to_nat offset + length buf)%nat
     then buf !! (i - Z.to_nat offset)%nat
     else if decide (i < length f)%nat then f !! i
     else if decide (i < Z.to_nat offset + length buf)%nat then Some zero
     else None) ∧
  (∀ dst, zlen dst = zlen buf →
     ram_read self offset (w', dst) = Ret ((w', buf), Ok (zlen buf))).
Proof.
  intros Hc Hs Hn Ho Hb Hf f' rf' w'. pose proof (zlen_nonneg buf).
  split; [|split; [intros i; by apply written_lookup|]].
  - by apply ram_write_ok.
  - intros dst Hd. rewrite (ram_read_node _ _ rf').
    + assert (Hzl : zlen f' = Z.max (zlen f) (offset + zlen buf))
        by (by apply zlen_written).
      change (node rf') with (NFile f'). rewrite node_read_file by lia. simpl.
      rewrite Hd, Z.min_r by lia. do 3 f_equal.
      unfold f', written. rewrite slice_splice_same
        by (rewrite ?zlen_vec_resize; lia).
      unfold fill, splice. simpl. rewrite drop_ge by (unfold zlen in *; lia).
      by rewrite app_nil_r.
    + unfold conflicts in *. by apply orb_false_iff in Hc as [? _].
    + apply lookup_insert_eq.
Qed.

(** A world with one empty file, for the witnesses. *)
Definition one_file (data : list u8) : World :=
  mkWorld {[ 1%positive := mkRamFile (NFile data) (set_size (new_fstat 0) (zlen data)) ]}
    2 [] 7 ∅.

Lemma ram_write_spec_witness :
  written (lit "ab") (lit "xy") 3 = lit "ab" ++ [zero] ++ lit "xy" ∧
  ∃ w', ram_write Release 1 (lit "xy") 3 (one_file (lit "ab")) = Ret (w', Ok 2).
Proof.
  split; [reflexivity|].
  destruct (ram_write_spec Release (one_file (lit "ab")) 1
    (mkRamFile (NFile (lit "ab")) (set_size (new_fstat 0) 2)) (lit "ab") (lit "xy") 3)
    as [H _]; [reflexivity|reflexivity|reflexivity|lia|vm_compute; discriminate
              |vm_compute; discriminate|].
  eexists. exact H.
Defined.

(** Two adjacent writes are one. *)
Lemma written_app f a b offset :
  0 ≤ offset →
  written (written f a offset) b (offset + zlen a) = written f (a ++ b) offset.
Proof.
  intros Ho. apply list_eq. intros i. pose proof (zlen_nonneg a).
  assert (Hl : Z.of_nat (length (written f a offset)) = Z.max (zlen f) (offset + zlen a))
    by (by apply zlen_written).
  rewrite !written_lookup by lia. unfold zlen in *. rewrite length_app, lookup_app.
  repeat case_decide; try lia; try done;
    repeat match goal with
    | |- context [a !! ?k] => destruct (a !! k) eqn:?
    | H : a !! _ = Some _ |- _ => apply lookup_lt_Some in H
    | H : a !! _ = None |- _ => apply lookup_ge_None in H
    end; try lia; try done.
  all: f_equal; lia.
Qed.

(** ** Reading to the end *)

Lemma on_tail_ok {S A} (w : S) buf (k : Z) (m : M (S * list u8) FSError A) w' tl r :
  0 ≤ k ≤ zlen buf →
  m (w, drop (Z.to_nat k) buf) = Ret ((w', tl), r) →
  on_tail k m (w, buf) = Ret ((w', take (Z.to_nat k) buf ++ tl), r).
Proof. intros Hk Hm. unfold on_tail. rewrite decide_False by lia. by rewrite Hm. Qed.

Lemma take_resize_grow {A} (l : list A) (n : Z) (k : nat) x :
  zlen l ≤ n → (k ≤ length l)%nat → take k (vec_resize l n x) = take k l.
Proof.
  unfold zlen, vec_resize. intros. rewrite resize_ge by lia. by rewrite take_app_le.
Qed.

Section read_to_end_file.
Context (prof : Profile) (w : World) (self : ptr) (rf : RamFile) (f : list u8).
Hypothesis Hc : conflicts LRead self (held w) = false.
Hypothesis Hs : store w !! self = Some rf.
Hypothesis Hn : node rf = NFile f.

(** One round: the next [count] bytes land behind those already read. *)
Lemma read_round buf wr offset :
  0 ≤ wr ≤ zlen buf → 0 ≤ offset ≤ zlen f →
  let cnt := Z.min (zlen f - offset) (zlen buf - wr) in
  ∃ buf', on_tail wr (ram_read self offset) (w, buf) = Ret ((w, buf'), Ok cnt) ∧
    zlen buf' = zlen buf ∧
    take (Z.to_nat (wr + cnt)) buf' =
      take (Z.to_nat wr) buf ++ slice f offset (offset + cnt).
Proof.
  intros Hw Ho cnt.
  assert (Hd : zlen (drop (Z.to_nat wr) buf) = zlen buf - wr)
    by (unfold zlen in *; rewrite length_drop; lia).
  assert (Hsl : zlen (slice f offset (offset + cnt)) = cnt)
    by (rewrite slice_full_range; lia).
  exists (take (Z.to_nat wr) buf ++
          fill (drop (Z.to_nat wr) buf) (slice f offset (offset + cnt))).
  split; [|split].
  - apply on_tail_ok; [done|]. rewrite (ram_read_node _ _ rf) by done. rewrite Hn.
    rewrite node_read_file by done. rewrite Hd. fold cnt. done.
  - rewrite zlen_app. unfold zlen in *. rewrite length_take, fill_length; [|lia].
    rewrite length_drop. lia.
  - rewrite take_app. rewrite take_take. unfold zlen in *. rewrite length_take.
    rewrite Nat.min_r by lia. f_equal.
    replace (Z.to_nat (wr + cnt) - Z.to_nat wr `min` length buf)%nat
      with (length (slice f offset (offset + cnt))) by lia.
    apply fill_take.
Qed.

Lemma slice_drop_split {A} (l : list A) a b :
  0 ≤ a ≤ b → b ≤ zlen l → drop (Z.to_nat a) l = slice l a b ++ drop (Z.to_nat b) l.
Proof.
  intros. unfold slice. rewrite <- (take_drop (Z.to_nat (b - a)) (drop (Z.to_nat a) l)) at 1.
  f_equal. rewrite drop_drop. f_equal. lia.
Qed.

Lemma read_to_end_loop_file fuel buf wr offset :
  0 ≤ wr ≤ zlen buf → 0 ≤ offset ≤ zlen f →
  (zlen f - offset) + (if decide (wr = zlen buf) then 1 else 0) < Z.of_nat fuel →
  let total := wr + (zlen f - offset) in
  2 * Z.max 1 total ≤ ISIZE_MAX → zlen f ≤ ISIZE_MAX →
  ∃ buf', read_to_end_loop prof fuel (ram_read self) wr offset (w, buf)
            = Ret ((w, buf'), Ok total) ∧
    take (Z.to_nat total) buf' = take (Z.to_nat wr) buf ++ drop (Z.to_nat offset) f.
Proof.
  revert buf wr offset. induction fuel as [|fuel IH]; intros buf wr offset Hw Ho Hfuel total Ht Hf.
  { case_decide; lia. }
  destruct (read_round buf wr offset Hw Ho) as (b1 & Hr & Hb1 & Htk).
  set (cnt := Z.min (zlen f - offset) (zlen buf - wr)) in *.
  assert (HU : ISIZE_MAX < USIZE_MAX) by reflexivity.
  simpl. unfold mthen at 1. rewrite Hr, Hb1.
  unfold uadd. rewrite !uarith_in_range by (unfold in_usize; lia). simpl.
  assert (Hgo : ∀ b2, zlen b1 ≤ zlen b2 → take (Z.to_nat (wr + cnt)) b2 = take (Z.to_nat (wr + cnt)) b1 →
    (zlen f - (offset + cnt)) + (if decide (wr + cnt = zlen b2) then 1 else 0) < Z.of_nat fuel →
    ∃ buf', read_to_end_loop prof fuel (ram_read self) (wr + cnt) (offset + cnt) (w, b2)
            = Ret ((w, buf'), Ok total) ∧
    take (Z.to_nat total) buf' = take (Z.to_nat wr) buf ++ drop (Z.to_nat offset) f).
  { intros b2 Hl Htk2 Hf2. unfold total in *.
    destruct (IH b2 (wr + cnt) (offset + cnt)) as (b3 & H1 & H2); [lia|lia|done|lia|lia|].
    replace (wr + cnt + (zlen f - (offset + cnt))) with (wr + (zlen f - offset)) in * by lia.
    exists b3. split; [done|]. rewrite H2, Htk2, Htk, <- app_assoc. f_equal.
    symmetry. apply slice_drop_split; lia. }
  destruct (decide (cnt = zlen buf - wr)) as [Hfull|Hpart].
  - unfold mresize. rewrite decide_False by lia. simpl.
    apply Hgo.
    + rewrite zlen_vec_resize by lia. lia.
    + apply take_resize_grow; [lia|]. unfold zlen in *. lia.
    + rewrite zlen_vec_resize by lia. rewrite decide_False by lia.
      case_decide; lia.
  - destruct (decide (cnt = 0)) as [Hz|Hnz].
    + exists b1. unfold total. replace (zlen f - offset) with 0 by lia. rewrite Z.add_0_r.
      split; [done|].
      rewrite Hz, Z.add_0_r in Htk. rewrite Htk.
      unfold slice. rewrite Z.add_0_r, Z.sub_diag. simpl. rewrite !app_nil_r.
      rewrite (drop_ge f) by (unfold zlen in *; lia). by rewrite app_nil_r.
    + apply Hgo; [lia|done|]. rewrite Hb1. case_decide; case_decide; lia.
Qed.

End read_to_end_file.

(** [read_to_end] on a file always finishes: it returns the number of
    bytes after the offset, and the buffer starts with exactly those bytes
    (growing as needed); an offset beyond the end is reported as
    [UnexpectedEOF]. *)
Lemma ram_read_to_end_file prof w self rf f buf offset :
  conflicts LRead self (held w) = false → store w !! self = Some rf →
  node rf = NFile f → 0 ≤ offset → 2 * Z.max 1 (zlen f) ≤ ISIZE_MAX →
  ∃ buf', ram_read_to_end prof self offset (w, buf) =
    Ret ((w, buf'), if decide (offset ≤ zlen f) then Ok (zlen f - offset)
                    else Err (simple UnexpectedEOF)) ∧
  (offset ≤ zlen f → take (Z.to_nat (zlen f - offset)) buf' = drop (Z.to_nat offset) f).
Proof.
  intros Hc Hs Hn Ho Hf. unfold ram_read_to_end, with_lock_buf.
  rewrite (acquire_ok _ _ _ rf) by done. cbn [obind fst snd]. rewrite Hn.
  set (w1 := set_held w ((LRead, self) :: held w)).
  assert (Hc1 : conflicts LRead self (held w1) = false).
  { simpl. apply bool_decide_eq_false. apply bool_decide_eq_false in Hc. set_solver. }
  case_decide as Hle.
  - destruct (read_to_end_loop_file prof w1 self rf f Hc1 Hs Hn (S (S (S (length f)))) buf 0 offset)
      as (b & Hr & Hb).
    + split; [done|auto with kernel].
    + done.
    + unfold zlen in *. case_decide; lia.
    + lia.
    + lia.
    + rewrite Hr. cbn [obind]. exists b. unfold w1. rewrite release_push.
      rewrite Z.add_0_l. split; [done|]. by intros _.
  - exists buf. split; [|done]. cbn [read_to_end_loop]. unfold mthen at 1.
    rewrite (on_tail_ok w1 buf 0 _ w1 buf (Err (simple UnexpectedEOF))).
    + cbn. unfold w1. by rewrite release_push.
    + split; [done|auto with kernel].
    + rewrite (ram_read_node _ _ rf) by done. rewrite Hn. simpl.
      rewrite decide_False by lia. unfold checked_sub. by rewrite decide_False by lia.
Qed.

Lemma ram_read_to_end_file_witness :
  ∃ buf', ram_read_to_end Dev 1 2 (one_file (lit "hello"), []) =
    Ret ((one_file (lit "hello"), buf'), Ok 3).
Proof.
  destruct (ram_read_to_end_file Dev (one_file (lit "hello")) 1
    (mkRamFile (NFile (lit "hello")) (set_size (new_fstat 0) 5)) (lit "hello") [] 2)
    as (b & H & _); [reflexivity|reflexivity|reflexivity|lia|vm_compute; discriminate|].
  exists b. exact H.
Defined.

(** A write whose end lies beyond isize::MAX panics in both build
    profiles: the [dev] build on the overflow or the capacity of the vector,
    the [release] build on the capacity or on the slice bounds after the sum
    wrapped. *)
Lemma ram_write_far_panics prof w self rf f buf offset :
  conflicts LWrite self (held w) = false → store w !! self = Some rf →
  node rf = NFile f → in_usize offset → ISIZE_MAX < offset + zlen buf →
  zlen f ≤ ISIZE_MAX → zlen buf ≤ ISIZE_MAX →
  ram_write prof self buf offset w = Panic.
Proof.
  intros Hc Hs Hn Ho Hb Hf Hl. unfold ram_write, with_lock.
  rewrite (acquire_ok _ _ _ rf) by done. simpl. rewrite Hn. unfold mthen.
  by rewrite data_write_far.
Qed.

Lemma ram_write_far_panics_witness :
  ram_write Release 1 (lit "x") USIZE_MAX (one_file []) = Panic.
Proof.
  apply (ram_write_far_panics Release (one_file []) 1
    (mkRamFile (NFile []) (set_size (new_fstat 0) 0)) [] (lit "x") USIZE_MAX);
    try reflexivity; vm_compute; intuition discriminate.
Defined.
