(* ===== verification/FsRepr.v ===== *)
(** What a [File] of the file systems can stand on: a node of a [RamFS]
    (RamFile.v) or the mount table itself, which
    kernel/src/kernel/fs/vfs/mod.rs makes readable as the file "/" ([FileRepr],
    [Read] and [Write] for [VFS]).  [Box<dyn FileRepr>] becomes the sum
    [Repr] and dynamic dispatch its instance of the [FileRepr] class. *)
From stdpp Require Import sorting.
From S2P Require Import Prelude Abi Path Io Fd Listing RamFile.
Open Scope Z_scope.

Existing Class Profile.

(** ** The keys of a [BTreeMap<PathBuf, _>], in byte order *)

Fixpoint str_leb (a b : str) : bool :=
  match a, b with
  | [], _ => true
  | _ :: _, [] => false
  | x :: a, y :: b =>
      if decide (x = y) then str_leb a b else bool_decide (b2z x < b2z y)
  end.

Definition str_le (a b : str) : Prop := str_leb a b = true.

#[export] Instance str_le_dec : RelDecision str_le.
Proof. unfold RelDecision, str_le. apply _. Defined.

Definition mount_keys (w : World) : list str :=
  merge_sort str_le (map_to_list (mounts w)).*1.

(** ** [VFS] as a file *)

Definition VFS_fstat : M World FSError FStat :=
  mok (set_node_type FStat_default NodeType_MOUNT).

Definition VFS_buffered_display (w : World) (buf : list u8) (offset : Z)
    : Outcome (list u8 * (Z * bool)) :=
  buffered_display (mount_keys w) buf offset.

Definition VFS_fmt (w : World) : Outcome str :=
  fmt_loop (listing_fuel (mount_keys w)) (mount_keys w) (replicate 10 zero) 0
    (lit "VFS with mounts:" ++ [byte 10]).

Definition VFS_read : Reader World := λ offset '(w, buf),
  let! r := VFS_buffered_display w buf offset in
  let '(buf, (n_read, read_to_end)) := r in
  if bool_decide (n_read = 0) && read_to_end
  then Ret ((w, buf), Err (simple UnexpectedEOF))
  else Ret ((w, buf), Ok n_read).

Definition VFS_read_to_end : Reader World := λ offset '(w, buf),
  let! bytes := VFS_fmt w in
  Ret ((w, buf ++ bytes), Ok (zlen bytes)).

Definition VFS_write : Writer World := λ buf offset, merr (simple NotSupported).

(** ** Dispatch *)

Inductive Repr : Set :=
| RamRepr (p : ptr)
| VfsRepr.

#[export] Instance Repr_eq_dec : EqDecision Repr.
Proof. solve_decision. Defined.

#[export] Instance Repr_FileRepr {prof : Profile} : FileRepr World Repr := {
  fr_fstat r := match r with RamRepr p => ram_fstat p | VfsRepr => VFS_fstat end;
  fr_update_perms r perms strategy :=
    match r with
    | RamRepr p => ram_update_perms p perms strategy
    | VfsRepr => default_update_perms perms strategy
    end;
  fr_clear r := match r with RamRepr p => ram_clear p | VfsRepr => default_clear end;
  fr_read r := match r with RamRepr p => ram_read p | VfsRepr => VFS_read end;
  fr_read_to_end r :=
    match r with RamRepr p => ram_read_to_end prof p | VfsRepr => VFS_read_to_end end;
  fr_write r := match r with RamRepr p => ram_write prof p | VfsRepr => VFS_write end;
  fr_write_all r buf offset :=
    match r with
    | RamRepr p => ram_write_all prof p buf offset
    | VfsRepr => write_all prof (length buf) VFS_write buf offset
    end;
  fr_on_open _ := default_hook;
  fr_on_clone _ := default_hook;
  fr_on_drop _ := default_hook;
  fr_on_close _ := default_hook
}.

(** [as_file]: an [Arc] of a node is a shared representation. *)
Definition as_file (p : ptr) : File Repr := FileBuilder_new (Shared (RamRepr p)).
