(* ===== verification/RamFS.v ===== *)
(** The in-memory file system: [RamFS::traverse], [open], [unlink] and
    [flush] (kernel/src/kernel/fs/ramfs/mod.rs).

    Following a symbolic link re-enters the mounted file systems through
    [fs::fs().open]; that function is the argument [fs_open], VFS.v ties the
    knot. *)
From S2P Require Import Prelude Abi Path Io Fd Listing RamFile FsRepr.
Open Scope Z_scope.

Definition chk_perms (options perms : Z) : Result FSError unit :=
  if (contains options OpenOptions_READ && negb (perm_r perms))
     || (contains options OpenOptions_WRITE && negb (perm_w perms))
     || (contains options OpenOptions_EXECUTE && negb (perm_x perms))
  then Err (simple PermissionDenied)
  else Ok tt.

(** [path.as_str().ends_with('/')]. *)
Definition ends_with_sep (path : str) : bool :=
  match last path with Some c => bool_decide (c = PATH_SEP) | None => false end.

(** [RamFS::new]. *)
Definition RamFS_new {E} : M World E FsObj :=
  let? root := ram_dir in mok (RamFSObj root).

(** [dir.inner.get(name).cloned().ok_or(NotFound)] under [with_dir]. *)
Definition get_child (dir : ptr) (name : str) : M World FSError ptr :=
  let? r := with_dir dir (λ d, im_get d name) in
  mlift (ok_or (simple NotFound) r).

(** The component lookup, which creates missing directories with
    [CREATE_ALL]. *)
Definition step_into (options : Z) (dir : ptr) (name : str) : M World FSError ptr :=
  if contains options OpenOptions_CREATE_ALL
  then with_mut_dir dir (ensure_entry name ram_dir)
  else get_child dir name.

(** The [for] loop of [traverse]. *)
Fixpoint walk (options : Z) (components : list str) (current_dir : ptr)
    : M World FSError ptr :=
  match components with
  | [] => mok current_dir
  | component :: components =>
      let? child := step_into options current_dir component in
      let? isd := with_lock LRead child (λ rf, mok (is_dir rf)) in
      if negb isd then merr (simple InvalidPath)
      else
        let? x := with_lock LRead child (λ rf, mok (perm_x (permissions (stat rf)))) in
        if negb x then merr (simple PermissionDenied)
        else walk options components child
  end.

Definition RamFS_traverse (root : ptr) (path : str) (options : Z) : M World FSError ptr :=
  match parent path with
  | None => mok root
  | Some par =>
      let? current_dir := walk options (drop 1 (traverse par)) root in
      step_into options current_dir (file path)
  end.

Section ramfs.
Context {prof : Profile}.
Context (fs_open : str → Z → M World FSError (File Repr)).

(** Check the node against the options, then build the file. *)
Definition open_node (node : ptr) (options : Z) : M World FSError (File Repr) :=
  let? perms := with_lock LRead node (λ rf, mok (permissions (stat rf))) in
  let? _ := mlift (chk_perms options perms) in
  with_perms (as_file node) (FPerms_from options).

(** [ensure_entry] through the guard [open] holds on the parent [dir], whose
    file is [rf] with the entries [d]. *)
Definition open_create (dir : ptr) (rf : RamFile) (d : DirData) (name : str)
    (mk : M World FSError ptr) (options : Z) : M World FSError (File Repr) :=
  let? r := ensure_entry name mk d in
  let? _ := put_file dir (mkRamFile (NDir (fst r)) (stat rf)) in
  open_node (snd r) options.

(** The last arm of [open]: an existing entry, possibly a link. *)
Definition open_existing (d : DirData) (name : str) (options : Z)
    : M World FSError (File Repr) :=
  match im_get d name with
  | None => merr (simple NotFound)
  | Some entry =>
      let? followed :=
        (if contains options OpenOptions_NO_FOLLOW_LINK then mok None
         else with_lock LRead entry (λ rf,
           match node rf with
           | SoftLink p => let? f := fs_open p options in mok (Some (with_path f p))
           | _ => mok None
           end)) in
      match followed with
      | Some f => mok f
      | None => open_node entry options
      end
  end.

(** The part of [open] that runs under the write guard of the parent. *)
Definition open_in (dir : ptr) (path : str) (options : Z) (rf : RamFile)
    : M World FSError (File Repr) :=
  let perms := permissions (stat rf) in
  match node rf with
  | NDir d =>
      if negb (perm_x perms) then merr (simple PermissionDenied)
      else
        let is_creating :=
          intersects options
            (Z.lor (Z.lor (Z.lor OpenOptions_CREATE_ALL OpenOptions_CREATE_DIR)
                      OpenOptions_CREATE_LINK) OpenOptions_CREATE) in
        let target_exists := bool_decide (is_Some (im_get d (file path))) in
        if is_creating && negb target_exists && negb (perm_w perms)
        then merr (simple PermissionDenied)
        else if ends_with_sep path then
          let? _ := mlift (chk_perms options perms) in
          with_perms (as_file dir) (FPerms_from options)
        else if contains options OpenOptions_CREATE_DIR then
          open_create dir rf d (file path) ram_dir options
        else if contains options OpenOptions_CREATE_LINK then
          open_create dir rf d (file path) empty_ram_link options
        else if intersects options (Z.lor OpenOptions_CREATE_ALL OpenOptions_CREATE) then
          open_create dir rf d (file path) ram_file options
        else open_existing d (file path) options
  | _ => merr (simple InvalidPath)
  end.

Definition RamFS_open (root : ptr) (path : str) (options : Z)
    : M World FSError (File Repr) :=
  match parent path with
  | None => with_perms (as_file root) (FPerms_from options)
  | Some par =>
      let? dir := RamFS_traverse root par options in
      with_lock LWrite dir (open_in dir path options)
  end.

End ramfs.

(** [swap_remove(name).ok_or(NotFound)]. *)
Definition remove_entry (name : str) (d : DirData)
    : M World FSError (DirData * option ptr) :=
  mok (im_swap_remove d name, im_get d name).

Definition unlink_from (dir : ptr) (name : str) : M World FSError ptr :=
  let? r := with_mut_dir dir (remove_entry name) in
  mlift (ok_or (simple NotFound) r).

Definition RamFS_unlink (root : ptr) (path : str) (options : Z)
    : M World FSError (File Repr) :=
  let? dir :=
    (match parent path with
     | Some parent_path => RamFS_traverse root parent_path OpenOptions_WRITE
     | None =>
         if contains options
              (Z.lor (Z.lor UnlinkOptions_NO_PRESERVE_ROOT UnlinkOptions_FORCE)
                 UnlinkOptions_RECURSIVE)
         then mok root else merr (simple PermissionDenied)
     end) in
  let? parent_perms := with_lock LRead dir (λ rf, mok (permissions (stat rf))) in
  if negb (perm_w parent_perms) || negb (perm_x parent_perms)
  then merr (simple PermissionDenied)
  else
    let? child := get_child dir (file path) in
    let? removed :=
      with_lock LRead child (λ rf,
        match node rf with
        | NDir _ =>
            if contains options UnlinkOptions_RECURSIVE
            then unlink_from dir (file path)
            else merr (simple IsADir)
        | SoftLink _ | NFile _ =>
            if ends_with_sep path then merr (simple NotADir)
            else unlink_from dir (file path)
        end) in
    mok (as_file removed).

Definition RamFS_flush (path : str) : M World FSError unit := mok tt.
