(* ===== verification/VFS.v ===== *)
(** The virtual file system: the mount table, the [FS] operations it
    dispatches (kernel/src/kernel/fs/vfs/mod.rs) and the helpers on top of it
    (kernel/src/kernel/fs/fs_util.rs). *)
From S2P Require Import Prelude Abi Path Io Fd Listing RamFile FsRepr RamFS.
Open Scope Z_scope.

Definition set_mounts (w : World) (m : gmap str FsObj) : World :=
  mkWorld (store w) (next_ptr w) (held w) (now w) m.

(** The message of [VFSError::MountExists]. *)
Definition MountExists : str :=
  lit "the mount already exists. The old mount was swapped out and returned".

(** ** Mounting *)

Definition VFS_mount (mount_point : str) (fs : FsObj) : M World FSError unit :=
  λ w,
    let w' := set_mounts w (<[mount_point := fs]> (mounts w)) in
    match mounts w !! mount_point with
    | None => Ret (w', Ok tt)
    | Some _ => Ret (w', Err (custom AlreadyExists MountExists))
    end.

Definition VFS_unmount (mount_point : str) : M World FSError FsObj :=
  λ w,
    let w' := set_mounts w (delete mount_point (mounts w)) in
    Ret (w', ok_or (with_message NotFound (lit "the mount deos not exist"))
               (mounts w !! mount_point)).

(** The loop of [deepest_matching_mount] over the ancestors; a failing
    [strip_prefix] is the [unreachable!()]. *)
Fixpoint find_mount (m : gmap str FsObj) (path : str) (ancs : list str)
    : Outcome (option (FsObj * str)) :=
  match ancs with
  | [] => Ret None
  | ancestor :: ancs =>
      match m !! ancestor with
      | Some fs =>
          match strip_prefix path ancestor with
          | Some postfix => Ret (Some (fs, postfix))
          | None => Panic
          end
      | None => find_mount m path ancs
      end
  end.

Definition deepest_matching_mount (path : str) : M World FSError (FsObj * str) :=
  λ w, let! r := find_mount (mounts w) path (ancestors path) in
       Ret (w, ok_or (with_message NotFound (lit "provided path matches no mount")) r).

(** ** [FS for VFS]

    The mounted file systems are reached through [fs_obj_open]; the fuel
    bounds the depth of symbolic links (see [open_terminates]). *)
Section vfs.
Context {prof : Profile}.

Fixpoint VFS_open (fuel : nat) (path : str) (options : Z)
    : M World FSError (File Repr) :=
  match fuel with
  | O => λ _, NoFuel
  | S fuel =>
      if is_empty path then
        let? f := with_perms (FileBuilder_new (Shared VfsRepr)) (FPerms_from options) in
        mok (with_path f path)
      else
        let? m := deepest_matching_mount path in
        match fst m with
        | RamFSObj root => RamFS_open (VFS_open fuel) root (snd m) options
        end
  end.

Definition VFS_unlink (path : str) (options : Z) : M World FSError (File Repr) :=
  let? m := deepest_matching_mount path in
  match fst m with
  | RamFSObj root => RamFS_unlink root (snd m) options
  end.

Definition VFS_flush (path : str) : M World FSError unit :=
  let? m := deepest_matching_mount path in
  match fst m with
  | RamFSObj _ => RamFS_flush (snd m)
  end.

(** Every link that is followed holds the write guard of one more directory,
    so one level per node and two more are enough. *)
Definition fs_open (path : str) (options : Z) : M World FSError (File Repr) :=
  λ w, VFS_open (S (S (base.size (store w)))) path options w.

(** ** fs_util.rs *)

Definition open (path : str) (options : Z) : M World FSError (File Repr) :=
  let? file := fs_open path options in
  finish (with_path file path).

Definition mkdir (path : str) : M World FSError unit :=
  let? _ := open path OpenOptions_CREATE_DIR in mok tt.

(** [String::truncate] to the returned length. *)
Definition lsdir (path : str) : M World FSError str :=
  let? dir := open path OpenOptions_READ in
  λ w, let! r := read_to_string (File_read_to_end dir) 0 (w, []) in
       match r with
       | ((w', buf), Ok res) => Ret (w', Ok (take (Z.to_nat res) buf))
       | ((w', _), Err e) => Ret (w', Err e)
       end.

Definition mount (path : str) (fs : FsObj) : M World FSError unit := VFS_mount path fs.

Definition unmount (path : str) : M World FSError unit :=
  let? _ := VFS_unmount path in mok tt.

Definition close (path : str) (file : File Repr) : M World FSError unit := mok tt.

Definition rm (path : str) (options : Z) : M World FSError unit :=
  let? _ := VFS_unlink path options in mok tt.

(** The [debug_assert_eq!] is compiled in [dev] builds only. *)
Definition symlink (path to : str) : M World FSError unit :=
  let? link := open path (with_write OpenOptions_CREATE_LINK) in
  let? res := File_write link to 0 in
  if bool_decide (prof = Dev) && negb (res =? zlen to) then mpanic else mok tt.

End vfs.

(** The world after [fs::init] without the device file system: an empty
    [RamFS] mounted at /ram. *)
Definition init_world (now : Z) : World :=
  match (let? fs := @RamFS_new FSError in mount (lit "/ram") fs)
          (mkWorld ∅ 1 [] now ∅) with
  | Ret (w, _) => w
  | _ => mkWorld ∅ 1 [] now ∅
  end.
