(* ===== verification/FsInv.v ===== *)
(** The invariant of the file-system state and its preservation by every
    operation of RamFile.v, RamFS.v and VFS.v.

    [wp m Q w] says that running [m] in [w] does not panic and, when it
    returns, has only changed the state in the ways [evolves] allows and
    satisfies [Q]; the invariant is part of [evolves].  The rules follow the
    structure of the code: one per combinator. *)
From S2P Require Import Prelude Abi Path Io Fd Listing RamFile FsRepr RamFS VFS.
Open Scope Z_scope.

(** ** The invariant *)

Definition live (w : World) (p : ptr) : Prop := is_Some (store w !! p).

(** Names are unique in a directory, every entry is an allocated node, and
    the status record agrees with the node: its type, and for files the
    recorded size is the length of the data. *)
Definition wf_node (w : World) (rf : RamFile) : Prop :=
  match node rf with
  | NFile f => node_type (stat rf) = NodeType_FILE ∧ size (stat rf) = zlen f
               ∧ zlen f ≤ ISIZE_MAX
  | NDir d => node_type (stat rf) = NodeType_DIR ∧ size (stat rf) = USIZE_MAX
              ∧ NoDup (im_keys d) ∧ Forall (λ e, live w e.2) d
  | SoftLink _ => node_type (stat rf) = NodeType_SYMLINK ∧ size (stat rf) = USIZE_MAX
  end.

Definition wf (w : World) : Prop :=
  ∀ p rf, store w !! p = Some rf → (p < next_ptr w)%positive ∧ wf_node w rf.

(** Mounted file systems have an allocated root. *)
Definition wf_mounts (w : World) : Prop :=
  ∀ k root, mounts w !! k = Some (RamFSObj root) → live w root.

(** The node does not contain an entry for [p]. *)
Definition lists_not (p : ptr) (rf : RamFile) : Prop :=
  match node rf with NDir d => p ∉ d.*2 | _ => True end.

(** No directory is an entry of itself. *)
Definition no_self (w : World) : Prop :=
  ∀ p rf, store w !! p = Some rf → lists_not p rf.

Record evolves (w w' : World) : Prop := {
  ev_wf : wf w → wf w';
  ev_self : wf w → no_self w → no_self w';
  ev_held : held w' = held w;
  ev_mounts : mounts w' = mounts w;
  ev_live : ∀ p, live w p → live w' p
}.

Lemma evolves_refl w : evolves w w.
Proof. by split. Qed.

Lemma evolves_trans w1 w2 w3 : evolves w1 w2 → evolves w2 w3 → evolves w1 w3.
Proof. intros [] []. split; [auto|auto|congruence|congruence|auto]. Qed.

Lemma evolves_mounts w w' : evolves w w' → wf_mounts w → wf_mounts w'.
Proof.
  intros [_ _ _ Hm Hl] Hwf k root Hk. rewrite Hm in Hk. eapply Hl, Hwf, Hk.
Qed.

Lemma wf_node_mono w w' rf :
  (∀ p, live w p → live w' p) → wf_node w rf → wf_node w' rf.
Proof.
  intros Hl. unfold wf_node. destruct (node rf); [done..|].
  intros (? & ? & ? & Hd). repeat split; try done.
  eapply Forall_impl; [exact Hd|]. intros e He. by apply Hl.
Qed.

Lemma live_insert w q (rf : RamFile) p :
  live w p → live (set_store w (<[q := rf]> (store w))) p.
Proof.
  intros Hp. unfold live. simpl. destruct (decide (p = q)) as [->|].
  - rewrite lookup_insert_eq. eauto.
  - by rewrite lookup_insert_ne.
Qed.

Lemma wf_insert w p rf :
  wf w → live w p → wf_node w rf → wf (set_store w (<[p := rf]> (store w))).
Proof.
  intros Hw [rf0 Hp] Hn q rf' Hq. simpl in Hq. destruct (decide (q = p)) as [->|].
  - rewrite lookup_insert_eq in Hq. simplify_eq. split; [by eapply Hw|].
    eapply wf_node_mono; [intros; by apply live_insert|done].
  - rewrite lookup_insert_ne in Hq by done. destruct (Hw _ _ Hq). split; [done|].
    eapply wf_node_mono; [intros; by apply live_insert|done].
Qed.

(** ** Weakest preconditions *)

Definition wp {E A} (m : M World E A) (Q : World → Result E A → Prop) (w : World) : Prop :=
  match m w with
  | Ret (w', r) => evolves w w' ∧ Q w' r
  | Panic => False
  | Blocked | NoFuel => True
  end.

Section rules.
Context {E : Type}.

Lemma wp_mono {A} (m : M World E A) (Q Q' : World → Result E A → Prop) w :
  wp m Q w → (∀ w' r, evolves w w' → Q w' r → Q' w' r) → wp m Q' w.
Proof.
  unfold wp. intros Hm HQ. destruct (m w) as [[w' r]| | |]; try done.
  destruct Hm. split; auto.
Qed.

Lemma wp_ext {A} (m m' : M World E A) (Q : World → Result E A → Prop) w :
  m w = m' w → wp m' Q w → wp m Q w.
Proof. unfold wp. by intros ->. Qed.

Lemma wp_ok {A} (a : A) (Q : World → Result E A → Prop) w : Q w (Ok a) → wp (mok a) Q w.
Proof. intros. split; [apply evolves_refl|done]. Qed.

Lemma wp_err {A} (e : E) (Q : World → Result E A → Prop) w : Q w (Err e) → wp (merr e) Q w.
Proof. intros. split; [apply evolves_refl|done]. Qed.

Lemma wp_lift {A} (x : Result E A) (Q : World → Result E A → Prop) w :
  Q w x → wp (mlift x) Q w.
Proof. intros. split; [apply evolves_refl|done]. Qed.

Lemma wp_bind {A B} (m : M World E A) (k : A → M World E B) (Q : World → Result E B → Prop) w :
  wp m (λ w1 r, match r with
                | Ok a => wp (k a) Q w1
                | Err e => Q w1 (Err e)
                end) w →
  wp (mthen m k) Q w.
Proof.
  unfold wp, mthen. destruct (m w) as [[w1 [a|e]]| | |]; try done.
  intros [Hev Hk]. destruct (k a w1) as [[w2 r]| | |]; try done.
  destruct Hk. split; [by eapply evolves_trans|done].
Qed.

Lemma evolves_held w h w' :
  evolves (set_held w h) w' → evolves w (set_held w' (held w)).
Proof. intros [H1 H2 H3 H4 H5]. split; [exact H1|exact H2|done|exact H4|exact H5]. Qed.

(** A guard: the body runs on the node behind the pointer. *)
Lemma wp_lock {A} mode p rf (body : RamFile → M World E A) (Q : World → Result E A → Prop) w :
  store w !! p = Some rf →
  wp (body rf) (λ w' r, Q (release w') r) (set_held w ((mode, p) :: held w)) →
  wp (with_lock mode p body) Q w.
Proof.
  intros Hs. unfold wp, with_lock, acquire. destruct (conflicts _ _ _); [done|].
  rewrite Hs. simpl. destruct (body _ _) as [[w' r]| | |]; simpl; try done.
  intros [Hev HQ]. split; [|done]. unfold release.
  rewrite (ev_held _ _ Hev). simpl. by eapply evolves_held.
Qed.

(** Assignment: the new node must be well formed. *)
Lemma wp_put p rf (Q : World → Result E unit → Prop) w :
  live w p → (wf w → wf_node w rf) → (wf w → no_self w → lists_not p rf) →
  Q (set_store w (<[p := rf]> (store w))) (Ok tt) →
  wp (put_file p rf) Q w.
Proof.
  intros Hp Hwf Hself HQ. split; [|done].
  split; [intros Hw; by apply wf_insert; auto| |done|done|intros q; apply live_insert].
  intros Hw Hs q rf' Hq. simpl in Hq. destruct (decide (q = p)) as [->|].
  - rewrite lookup_insert_eq in Hq. simplify_eq. auto.
  - rewrite lookup_insert_ne in Hq by done. by apply Hs.
Qed.

(** A node that is well formed in every state has no entries. *)
Lemma new_lists_not (rf : RamFile) p : (∀ w, wf_node w rf) → lists_not p rf.
Proof.
  intros Hw. specialize (Hw (mkWorld ∅ 1 [] 0 ∅)). unfold wf_node, lists_not in *.
  destruct (node rf) as [| |d]; [done..|]. destruct Hw as (_ & _ & _ & Hd).
  rewrite list_elem_of_fmap. intros (e & _ & He). rewrite Forall_forall in Hd.
  destruct (Hd e He) as [x Hx]. simpl in Hx. by rewrite lookup_empty in Hx.
Qed.

(** Allocation: a fresh node, nothing else moves. *)
Lemma wp_alloc mk (Q : World → Result E ptr → Prop) w :
  (∀ t w, wf_node w (mk t)) → wf w →
  (∀ w', evolves w w' → wf w' → live w' (next_ptr w) → 
         (∀ q rf, store w !! q = Some rf → store w' !! q = Some rf) → 
         store w' !! next_ptr w = Some (mk (now w)) →
         store w !! next_ptr w = None →
         Q w' (Ok (next_ptr w))) →
  wp (alloc mk) Q w.
Proof.
  intros Hmk Hw HQ.
  assert (Hfresh : store w !! next_ptr w = None).
  { destruct (store w !! next_ptr w) eqn:Hn; [|done]. apply Hw in Hn as [Hn _]. lia. }
  unfold wp, alloc.
  match goal with |- evolves _ ?w1 ∧ _ => set (w' := w1) end.
  assert (Hsub : ∀ q rf, store w !! q = Some rf → store w' !! q = Some rf).
  { intros q rf Hq. simpl. rewrite lookup_insert_ne; [done|]. intros <-. congruence. }
  assert (Hl : ∀ q, live w q → live w' q).
  { intros q [rf Hq]. exists rf. by apply Hsub. }
  assert (Hev : evolves w w').
  { split; [| |done|done|done].
    2:{ intros _ Hs q rf Hq. simpl in Hq. destruct (decide (q = next_ptr w)) as [->|].
        - rewrite lookup_insert_eq in Hq. simplify_eq. by apply new_lists_not.
        - rewrite lookup_insert_ne in Hq by done. by apply Hs. }
    intros _ q rf Hq. simpl in Hq |- *.
    destruct (decide (q = next_ptr w)) as [->|].
    - rewrite lookup_insert_eq in Hq. simplify_eq. split; [lia|]. apply Hmk.
    - rewrite lookup_insert_ne in Hq by done. destruct (Hw _ _ Hq). split; [lia|].
      by eapply wf_node_mono. }
  split; [done|]. apply HQ; try done.
  - by apply Hev.
  - exists (mk (now w)). apply lookup_insert_eq.
  - apply lookup_insert_eq.
Qed.

End rules.

(** Pushing a guard changes neither the invariant nor the nodes. *)
Lemma wf_set_held w h : wf (set_held w h) ↔ wf w.
Proof. done. Qed.

Lemma live_set_held w h p : live (set_held w h) p ↔ live w p.
Proof. done. Qed.

Lemma RamFile_new_wf t n p w :
  match n with NDir d => d = [] | NFile f => f = [] | SoftLink _ => True end →
  wf_node w (RamFile_new t n p).
Proof.
  intros Hn. unfold wf_node. destruct n; simpl in *; subst; try done.
  repeat split; [apply NoDup_nil_2|constructor].
Qed.

(** ** Operations on nodes *)

(** Reading a field under a guard. *)
Lemma wp_peek {E A} mode p rf (g : RamFile → A) (Q : World → Result E A → Prop) w :
  store w !! p = Some rf → Q w (Ok (g rf)) →
  wp (with_lock mode p (λ rf, mok (g rf))) Q w.
Proof. intros Hs HQ. eapply wp_lock; [exact Hs|]. apply wp_ok. by rewrite release_push. Qed.

(** A computation that allocates one node. *)
Definition creates (mk : M World FSError ptr) : Prop :=
  ∀ (Q : World → Result FSError ptr → Prop) w, wf w →
    (∀ w' p, evolves w w' → wf w' → live w' p →
       (∀ q rf, store w !! q = Some rf → store w' !! q = Some rf) →
       store w !! p = None → Q w' (Ok p)) →
    wp mk Q w.

Lemma creates_alloc n p :
  match n with NDir d => d = [] | NFile f => f = [] | SoftLink _ => True end →
  creates (alloc (λ t, RamFile_new t n p)).
Proof.
  intros Hn Q w Hw HQ. apply wp_alloc; [|done|].
  - intros. by apply RamFile_new_wf.
  - intros w' ? ? ? ? ? ?. by apply HQ.
Qed.

Lemma creates_dir : creates ram_dir.
Proof. by apply creates_alloc. Qed.
Lemma creates_file : creates ram_file.
Proof. by apply creates_alloc. Qed.
Lemma creates_link : creates empty_ram_link.
Proof. by apply creates_alloc. Qed.
#[export] Hint Resolve creates_dir creates_file creates_link : kernel.

(** What [ensure_entry] guarantees about the new directory. *)
Definition ensured (w : World) (name : str) (d d' : DirData) (p : ptr) (w' : World) : Prop :=
  NoDup (im_keys d') ∧ Forall (λ e, live w' e.2) d' ∧ live w' p ∧
  im_get d' name = Some p ∧ (∀ k, k ≠ name → im_get d' k = im_get d k) ∧
  (∀ q, im_get d name = Some q → d' = d ∧ p = q) ∧
  (∀ q, q ∈ d'.*2 → q ∈ d.*2 ∨ store w !! q = None).

Lemma im_get_live w d name p :
  Forall (λ e : str * ptr, live w e.2) d → im_get d name = Some p → live w p.
Proof. intros Hd Hg. apply im_get_elem in Hg. rewrite Forall_forall in Hd. by apply (Hd (name, p)). Qed.

Lemma wp_ensure name mk d (Q : World → Result FSError (DirData * ptr) → Prop) w :
  creates mk → wf w → NoDup (im_keys d) → Forall (λ e, live w e.2) d →
  (∀ w' d' p, evolves w w' → wf w' →
     (∀ q rf, store w !! q = Some rf → store w' !! q = Some rf) →
     ensured w name d d' p w' → Q w' (Ok (d', p))) →
  wp (ensure_entry name mk d) Q w.
Proof.
  intros Hmk Hw Hnd Hl HQ. unfold ensure_entry.
  destruct (im_get d name) as [p|] eqn:Hg.
  - apply wp_ok, HQ; [apply evolves_refl|done|done|].
    split; [done|]. split; [done|]. split; [by eapply im_get_live|].
    split; [done|]. split; [done|]. split; [intros q Hq; split; congruence|by left].
  - apply wp_bind, Hmk; [done|]. intros w' p Hev Hw' Hlp Hsub Hfr.
    apply wp_ok, HQ; [done|done|done|]. unfold ensured.
    split; [|split; [|split; [done|split; [|split; [|split]]]]].
    + unfold im_push, im_keys. rewrite fmap_app. apply NoDup_app.
      split; [done|]. split; [|apply NoDup_singleton].
      intros k Hk Hin. apply list_elem_of_singleton in Hin as ->.
      by apply im_get_None in Hg.
    + apply Forall_app. split; [|by repeat constructor].
      eapply Forall_impl; [exact Hl|]. intros e He. by apply Hev.
    + rewrite im_get_push by done. by rewrite decide_True.
    + intros k Hk. rewrite im_get_push by done. by rewrite decide_False by congruence.
    + intros q Hq. congruence.
    + intros q. unfold im_push. rewrite fmap_app, elem_of_app. simpl.
      rewrite list_elem_of_singleton. intros [?| ->]; [by left|by right].
Qed.

(** A directory that gains only new nodes does not come to list itself. *)
Lemma ensured_lists_not w name d d' p w' dir rf st :
  ensured w name d d' p w' → store w !! dir = Some rf → node rf = NDir d →
  lists_not dir rf → lists_not dir (mkRamFile (NDir d') st).
Proof.
  intros (_ & _ & _ & _ & _ & _ & He) Hd Hn Hs. unfold lists_not in *. rewrite Hn in Hs.
  simpl. intros [?|?]%He; [done|congruence].
Qed.

(** [with_mut_dir] around [ensure_entry]. *)
Lemma wp_with_mut_dir_ensure dir name mk (Q : World → Result FSError ptr → Prop) w :
  creates mk → wf w → live w dir →
  (∀ w' r, evolves w w' → (∀ p, r = Ok p → live w' p) → Q w' r) →
  wp (with_mut_dir dir (ensure_entry name mk)) Q w.
Proof.
  intros Hmk Hw [rf Hd] HQ. unfold with_mut_dir. apply wp_bind.
  eapply wp_peek; [exact Hd|]. destruct (negb _).
  { apply wp_err, HQ; [apply evolves_refl|done]. }
  eapply wp_mono; [|exact HQ].
  eapply wp_lock; [exact Hd|]. destruct (node rf) as [l|f|d] eqn:Hn; try by apply wp_err.
  destruct (Hw _ _ Hd) as [_ Hwf]. unfold wf_node in Hwf. rewrite Hn in Hwf.
  destruct Hwf as (Hty & Hsz & Hnd & Hlv).
  apply wp_bind, wp_ensure; [done|done|done|done|].
  intros w' d' p Hev Hw' Hsub Hens. pose proof Hens as (Hnd' & Hlv' & Hlp & _).
  apply wp_bind, wp_put.
  - by apply Hev; exists rf.
  - intros _. split; [done|]. done.
  - intros _ Hs. eapply ensured_lists_not; [exact Hens|exact Hd|done|]. by apply Hs, Hsub.
  - apply wp_ok. intros q [= <-]. unfold live. simpl.
    destruct (decide (p = dir)) as [->|].
    + rewrite lookup_insert_eq. eauto.
    + by rewrite lookup_insert_ne.
Qed.

Lemma wp_get_child dir name (Q : World → Result FSError ptr → Prop) w :
  wf w → live w dir →
  (∀ r, (∀ p, r = Ok p → live w p) → Q w r) →
  wp (get_child dir name) Q w.
Proof.
  intros Hw [rf Hd] HQ. unfold get_child, with_dir. apply wp_bind.
  eapply wp_lock; [exact Hd|].
  destruct (node rf) as [l|f|d] eqn:Hn;
    try (apply wp_err; rewrite release_push; by apply HQ).
  apply wp_ok. rewrite release_push. apply wp_lift, HQ.
  intros p Hp. unfold ok_or in Hp. destruct (im_get d name) eqn:Hg; [|done].
  simplify_eq. destruct (Hw _ _ Hd) as [_ Hwf]. unfold wf_node in Hwf. rewrite Hn in Hwf.
  eapply im_get_live; [|exact Hg]. tauto.
Qed.

(** ** Traversal *)

Lemma wp_step_into options dir name (Q : World → Result FSError ptr → Prop) w :
  wf w → live w dir →
  (∀ w' r, evolves w w' → (∀ p, r = Ok p → live w' p) → Q w' r) →
  wp (step_into options dir name) Q w.
Proof.
  intros Hw Hd HQ. unfold step_into. destruct (contains _ _).
  - apply wp_with_mut_dir_ensure; auto with kernel.
  - apply wp_get_child; [done|done|]. intros r Hr. apply HQ; [apply evolves_refl|done].
Qed.

Lemma wp_walk options cs dir (Q : World → Result FSError ptr → Prop) w :
  wf w → live w dir →
  (∀ w' r, evolves w w' → (∀ p, r = Ok p → live w' p) → Q w' r) →
  wp (walk options cs dir) Q w.
Proof.
  revert dir Q w. induction cs as [|c cs IH]; intros dir Q w Hw Hd HQ; simpl.
  { apply wp_ok, HQ; [apply evolves_refl|]. by intros p [= <-]. }
  apply wp_bind, wp_step_into; [done|done|]. intros w1 [child|e] Hev Hl; [|by apply HQ].
  destruct (Hl child eq_refl) as [rf Hc]. pose proof (ev_wf _ _ Hev Hw) as Hw1.
  apply wp_bind. eapply wp_peek; [exact Hc|]. destruct (negb _).
  { apply wp_err, HQ; done. }
  apply wp_bind. eapply wp_peek; [exact Hc|]. destruct (negb _).
  { apply wp_err, HQ; done. }
  apply IH; [done|by exists rf|]. intros w2 r Hev2 Hr. apply HQ; [|done].
  by eapply evolves_trans.
Qed.

Lemma wp_traverse root path options (Q : World → Result FSError ptr → Prop) w :
  wf w → live w root →
  (∀ w' r, evolves w w' → (∀ p, r = Ok p → live w' p) → Q w' r) →
  wp (RamFS_traverse root path options) Q w.
Proof.
  intros Hw Hr HQ. unfold RamFS_traverse. destruct (parent path) as [par|].
  - apply wp_bind, wp_walk; [done|done|]. intros w1 [d|e] Hev Hl; [|by apply HQ].
    apply wp_step_into; [by apply Hev|by apply Hl|].
    intros w2 r Hev2 Hr2. apply HQ; [by eapply evolves_trans|done].
  - apply wp_ok, HQ; [apply evolves_refl|]. by intros p [= <-].
Qed.

(** ** Building the file *)

(** Same status permissions: truncation changes data, size and time only. *)
Definition same_perms (w w' : World) (p : ptr) : Prop :=
  permissions ∘ stat <$> store w' !! p = permissions ∘ stat <$> store w !! p.

Lemma wp_clear p rf (Q : World → Result FSError unit → Prop) w :
  store w !! p = Some rf →
  (∀ w' r, evolves w w' → same_perms w w' p → Q w' r) →
  wp (ram_clear p) Q w.
Proof.
  intros Hp HQ. eapply wp_mono with (Q := λ w' r, same_perms w w' p); [|by intros; apply HQ].
  eapply wp_lock; [exact Hp|].
  destruct (node rf) as [l|f|d] eqn:Hn; try by apply wp_err.
  apply wp_bind. split; [apply evolves_refl|]. apply wp_put.
  - by exists rf.
  - intros Hw. destruct (Hw _ _ Hp) as [_ Hwf]. unfold wf_node in *. rewrite Hn in Hwf.
    simpl. repeat split; [tauto|done].
  - done.
  - unfold same_perms. simpl. by rewrite lookup_insert_eq, Hp.
Qed.

Lemma wp_with_perms {prof : Profile} p perms0 rf (Q : World → Result FSError (File Repr) → Prop) w :
  store w !! p = Some rf →
  (∀ w' f, evolves w w' → same_perms w w' p → repr f = Shared (RamRepr p) →
     perms f = perms0 → Q w' (Ok f)) →
  wp (with_perms (as_file p) perms0) Q w.
Proof.
  intros Hp HQ. unfold with_perms.
  change (Z.lor (Fd.perms (as_file p)) perms0) with perms0.
  set (f0 := set_perms (as_file p) perms0).
  apply wp_bind.
  eapply wp_mono with (Q := λ w' r, w' = w ∧ ∃ f1, r = Ok f1 ∧
    repr f1 = Shared (RamRepr p) ∧ Fd.perms f1 = perms0).
  { destruct (contains (Fd.perms f0) FPerms_APPEND).
    - apply wp_bind. eapply wp_peek; [exact Hp|]. apply wp_ok.
      split; [done|]. eexists. done.
    - apply wp_ok. split; [done|]. by eexists. }
  intros w1 r _ (-> & f1 & -> & Hr & Hpm). cbn beta iota. rewrite Hpm.
  destruct (contains perms0 _); [|by apply wp_ok, HQ; [apply evolves_refl| | |]].
  unfold wp. rewrite Hr. simpl.
  pose proof (wp_clear p rf (λ w' _, same_perms w w' p) w Hp) as Hclr.
  unfold wp in Hclr. destruct (ram_clear p w) as [[w2 r2]| | |] eqn:Hrc; simpl.
  - destruct Hclr as [Hev Hsp]; [done|]. split; [done|]. by apply HQ.
  - by apply Hclr.
  - done.
  - done.
Qed.

(** ** Opening *)

(** Every access asked for is granted by the permission bits. *)
Definition grants (options perms : Z) : Prop :=
  (contains options OpenOptions_READ = true → perm_r perms = true) ∧
  (contains options OpenOptions_WRITE = true → perm_w perms = true) ∧
  (contains options OpenOptions_EXECUTE = true → perm_x perms = true).

Lemma chk_perms_grants options perms : chk_perms options perms = Ok tt → grants options perms.
Proof.
  unfold chk_perms, grants.
  destruct (contains options OpenOptions_READ), (contains options OpenOptions_WRITE),
    (contains options OpenOptions_EXECUTE), (perm_r perms), (perm_w perms), (perm_x perms);
    simpl; try done; naive_solver.
Qed.

(** What an opened file may do: the descriptor has the permissions asked
    for, and the node behind it grants them, unless it is the root of a
    mount, which is handed out unchecked. *)
Definition opened (w : World) (options : Z) (f : File Repr) : Prop :=
  perms f = FPerms_from options ∧
  match deref (repr f) with
  | VfsRepr => True
  | RamRepr p =>
      (∃ k, mounts w !! k = Some (RamFSObj p)) ∨
      ∃ rf, store w !! p = Some rf ∧ grants options (permissions (stat rf))
  end.

Definition opens (options : Z) (w : World) (r : Result FSError (File Repr)) : Prop :=
  ∀ f, r = Ok f → opened w options f.

Lemma opened_checked w w' p rf options f :
  store w !! p = Some rf → chk_perms options (permissions (stat rf)) = Ok tt →
  same_perms w w' p → repr f = Shared (RamRepr p) → perms f = FPerms_from options →
  opened w' options f.
Proof.
  intros Hp Hc Hs Hr Hpm. split; [done|]. rewrite Hr. simpl. right.
  unfold same_perms in Hs. rewrite Hp in Hs. simpl in Hs.
  destruct (store w' !! p) as [rf'|]; simpl in Hs; [|done].
  exists rf'. split; [done|]. apply chk_perms_grants. congruence.
Qed.

Section open.
Context {prof : Profile}.

Lemma wp_open_node p options w :
  live w p → wp (open_node p options) (opens options) w.
Proof.
  intros [rf Hp]. unfold open_node. apply wp_bind. eapply wp_peek; [exact Hp|].
  apply wp_bind, wp_lift. destruct (chk_perms _ _) as [[]|e] eqn:Hc; [|by intros f].
  eapply wp_with_perms; [exact Hp|]. intros w' f Hev Hs Hr Hpm f' [= <-].
  by eapply opened_checked.
Qed.

Lemma wp_open_create dir rf d name mk options w :
  creates mk → wf w → store w !! dir = Some rf → node rf = NDir d →
  wp (open_create dir rf d name mk options) (opens options) w.
Proof.
  intros Hmk Hw Hd Hn. destruct (Hw _ _ Hd) as [_ Hwf].
  unfold wf_node in Hwf. rewrite Hn in Hwf. destruct Hwf as (Hty & Hsz & Hnd & Hlv).
  apply wp_bind, wp_ensure; [done|done|done|done|].
  intros w1 d' p Hev Hw1 Hsub Hens. pose proof Hens as (Hnd' & Hlv' & Hlp & _).
  apply wp_bind, wp_put.
  - apply Hev. by exists rf.
  - intros _. done.
  - intros _ Hs. eapply ensured_lists_not; [exact Hens|exact Hd|done|]. by apply Hs, Hsub.
  - apply wp_open_node. by apply live_insert.
Qed.

Section ramfs_open.
Context (fs_open : str → Z → M World FSError (File Repr)).
Hypothesis Hfs : ∀ path options w,
  wf w → wf_mounts w → wp (fs_open path options) (opens options) w.

Lemma wp_open_existing d name options w :
  wf w → wf_mounts w → Forall (λ e, live w e.2) d →
  wp (open_existing fs_open d name options) (opens options) w.
Proof.
  intros Hw Hm Hd. unfold open_existing. destruct (im_get d name) as [entry|] eqn:Hg.
  2:{ apply wp_err. by intros f. }
  assert (He : live w entry) by (by eapply im_get_live). apply wp_bind.
  assert (Hlink : wp (if contains options OpenOptions_NO_FOLLOW_LINK then mok None
     else with_lock LRead entry (λ rf, match node rf with
           | SoftLink p => let? f := fs_open p options in mok (Some (with_path f p))
           | _ => mok None end))
     (λ w1 r, ∀ f, r = Ok (Some f) → opened w1 options f) w).
  { destruct (contains _ _); [by apply wp_ok|]. destruct He as [rf He].
    eapply wp_lock; [exact He|]. destruct (node rf) as [l| |]; try by apply wp_ok.
    apply wp_bind. eapply wp_mono; [by apply Hfs|].
    intros w1 [f|e] Hev Hf; [|done]. apply wp_ok. intros f' [= <-].
    exact (Hf f eq_refl). }
  eapply wp_mono; [exact Hlink|]. intros w1 [[f|]|e] Hev Hr; [..|done].
  - apply wp_ok. intros f' [= <-]. by apply Hr.
  - apply wp_open_node. by apply Hev.
Qed.

Lemma wp_open_in dir path options rf w :
  wf w → wf_mounts w → store w !! dir = Some rf →
  wp (open_in fs_open dir path options rf) (opens options) w.
Proof.
  intros Hw Hm Hd. unfold open_in.
  destruct (node rf) as [l|f|d] eqn:Hn; try (apply wp_err; by intros f').
  repeat match goal with
  | |- wp (if ?c then merr _ else _) _ _ => destruct c; [apply wp_err; by intros f'|]
  end.
  destruct (ends_with_sep path).
  { apply wp_bind, wp_lift. destruct (chk_perms _ _) as [[]|e] eqn:Hc; [|by intros f].
    eapply wp_with_perms; [exact Hd|]. intros w' f Hev Hs Hr Hpm f' [= <-].
    by eapply opened_checked. }
  repeat match goal with
  | |- wp (if ?c then open_create _ _ _ _ _ _ else _) _ _ =>
      destruct c; [apply wp_open_create; auto with kernel|]
  end.
  apply wp_open_existing; [done|done|].
  destruct (Hw _ _ Hd) as [_ Hwf]. unfold wf_node in Hwf. rewrite Hn in Hwf. tauto.
Qed.

Lemma wp_RamFS_open root path options k w :
  wf w → wf_mounts w → mounts w !! k = Some (RamFSObj root) →
  wp (RamFS_open fs_open root path options) (opens options) w.
Proof.
  intros Hw Hm Hk. pose proof (Hm _ _ Hk) as Hroot. unfold RamFS_open.
  destruct (parent path) as [par|].
  - apply wp_bind, wp_traverse; [done|done|]. intros w1 [d|e] Hev Hl; [|by intros f].
    destruct (Hl d eq_refl) as [rf Hd].
    eapply wp_lock; [exact Hd|].
    eapply wp_mono; [apply wp_open_in; [by apply Hev|exact (evolves_mounts _ _ Hev Hm)|exact Hd]|].
    intros w2 r Hev2 Hr. exact Hr.
  - destruct Hroot as [rf Hr]. eapply wp_with_perms; [exact Hr|].
    intros w' f Hev Hs Hrf Hpm f' [= <-]. split; [done|]. rewrite Hrf. simpl. left.
    exists k. by rewrite (ev_mounts _ _ Hev).
Qed.

End ramfs_open.

Lemma find_mount_Some m path ancs fs post :
  find_mount m path ancs = Ret (Some (fs, post)) →
  ∃ pre mp suf, ancs = pre ++ mp :: suf ∧ m !! mp = Some fs ∧
    path = mp ++ post ∧ Forall (λ a, m !! a = None) pre.
Proof.
  induction ancs as [|a ancs IH]; simpl; [done|].
  destruct (m !! a) as [fs'|] eqn:Ha.
  - destruct (strip_prefix path a) as [post'|] eqn:Hs; [|done]. intros [= <- <-].
    exists [], a, ancs. repeat split; [done| |constructor].
    by apply str_strip_prefix_Some in Hs.
  - intros (pre & mp & suf & -> & ? & ? & ?)%IH. exists (a :: pre), mp, suf.
    repeat split; try done. by constructor.
Qed.

Lemma find_mount_total m path ancs :
  Forall (λ a, a `prefix_of` path) ancs →
  (∃ r, find_mount m path ancs = Ret r) ∧
  (find_mount m path ancs = Ret None ↔ Forall (λ a, m !! a = None) ancs).
Proof.
  induction 1 as [|a ancs Ha _ [[r IH1] IH2]]; simpl.
  { split; [by eexists|]. split; [constructor|done]. }
  rewrite Forall_cons, <- IH2. destruct (m !! a) as [fs|] eqn:Hm.
  - destruct Ha as [post Hp]. unfold strip_prefix.
    rewrite (proj2 (str_strip_prefix_Some a path post)) by done.
    split; [by eexists|]. split; [done|]. by intros [? _].
  - split; [by eexists|]. tauto.
Qed.

Lemma wp_deepest path (Q : World → Result FSError (FsObj * str) → Prop) w :
  (∀ r, (∀ fs post, r = Ok (fs, post) → ∃ mp, mounts w !! mp = Some fs) → Q w r) →
  wp (deepest_matching_mount path) Q w.
Proof.
  intros HQ. unfold wp, deepest_matching_mount.
  destruct (find_mount_total (mounts w) path (ancestors path)) as [[r Hr] _].
  { apply Forall_forall. intros a Ha. by apply ancestors_prefix. }
  rewrite Hr. simpl. split; [apply evolves_refl|]. apply HQ.
  intros fs post. destruct r as [[fs' post']|]; simpl; [|done]. intros [= -> ->].
  apply find_mount_Some in Hr as (? & mp & ? & _ & ? & _). by eexists.
Qed.

Lemma with_perms_vfs p w :
  ∃ f, with_perms (FileBuilder_new (Shared VfsRepr)) p w = Ret (w, Ok f) ∧
       repr f = Shared VfsRepr ∧ perms f = p.
Proof.
  unfold with_perms. change (Z.lor (perms (FileBuilder_new (Shared VfsRepr))) p) with p.
  unfold mthen. simpl. destruct (contains p FPerms_APPEND); simpl;
    destruct (contains p _); simpl; by eexists.
Qed.

Lemma wp_VFS_open fuel path options w :
  wf w → wf_mounts w → wp (VFS_open fuel path options) (opens options) w.
Proof.
  revert path options w. induction fuel as [|fuel IH]; intros path options w Hw Hm; [done|].
  simpl. destruct (is_empty path).
  - destruct (with_perms_vfs (FPerms_from options) w) as (f & Hf & Hr & Hp).
    apply wp_bind. unfold wp at 1. rewrite Hf. split; [apply evolves_refl|].
    apply wp_ok. intros f' [= <-]. split; [done|]. simpl. by rewrite Hr.
  - apply wp_bind, wp_deepest. intros [[[root] post]|e] Hmp; [|by intros f].
    destruct (Hmp _ _ eq_refl) as [k Hk]. simpl. eapply wp_RamFS_open; [|done|done|exact Hk].
    intros. by apply IH.
Qed.

Lemma fs_open_eq path options w :
  fs_open path options w = VFS_open (S (S (base.size (store w)))) path options w.
Proof. unfold fs_open. reflexivity. Qed.

Lemma wp_fs_open path options w :
  wf w → wf_mounts w → wp (fs_open path options) (opens options) w.
Proof.
  intros Hw Hm. eapply wp_ext; [apply fs_open_eq|]. by apply wp_VFS_open.
Qed.

End open.

(** ** Opening terminates

    Following a link keeps the write guard of the directory it was found in,
    so the nodes not guarded for writing get fewer with each level. *)

Lemma nf_bind {E A B} (m : M World E A) (k : A → M World E B) w :
  m w ≠ NoFuel → (∀ w1 a, m w = Ret (w1, Ok a) → k a w1 ≠ NoFuel) →
  mthen m k w ≠ NoFuel.
Proof.
  unfold mthen. intros Hm Hk. destruct (m w) as [[w1 [a|e]]| | |] eqn:Hr; try done.
  by apply Hk.
Qed.

Lemma nf_lock {E A} mode p (body : RamFile → M World E A) w :
  (∀ rf, store w !! p = Some rf → conflicts mode p (held w) = false →
     body rf (set_held w ((mode, p) :: held w)) ≠ NoFuel) →
  with_lock mode p body w ≠ NoFuel.
Proof.
  unfold with_lock, acquire. intros Hb. destruct (conflicts _ _ _) eqn:Hc; [done|].
  destruct (store w !! p) as [rf|] eqn:Hs; [|done]. simpl. specialize (Hb rf eq_refl eq_refl).
  destruct (body _ _) as [[]| | |]; done.
Qed.

(** Operations that never run out of fuel in any state. *)
Definition total {E A} (m : M World E A) : Prop := ∀ w, m w ≠ NoFuel.

Lemma total_bind {E A B} (m : M World E A) (k : A → M World E B) :
  total m → (∀ a, total (k a)) → total (mthen m k).
Proof. intros Hm Hk w. apply nf_bind; [apply Hm|]. intros. apply Hk. Qed.

Lemma total_lock {E A} mode p (body : RamFile → M World E A) :
  (∀ rf, total (body rf)) → total (with_lock mode p body).
Proof. intros Hb w. apply nf_lock. intros. apply Hb. Qed.

Lemma total_ok {E A} (a : A) : @total E A (mok a).
Proof. done. Qed.
Lemma total_err {E A} (e : E) : @total E A (merr e).
Proof. done. Qed.
Lemma total_lift {E A} (r : Result E A) : total (mlift r).
Proof. done. Qed.
Lemma total_put {E} p rf : @total E unit (put_file p rf).
Proof. done. Qed.
Lemma total_alloc {E} mk : @total E ptr (alloc mk).
Proof. done. Qed.
Lemma total_get {E} : @total E World mget.
Proof. done. Qed.

Ltac solve_total :=
  repeat first
    [ apply total_bind; [|intros ?] | apply total_lock; intros ?
    | apply total_ok | apply total_err | apply total_lift | apply total_put
    | apply total_alloc | apply total_get
    | match goal with
      | |- total (match ?x with _ => _ end) => destruct x
      end ].

Lemma total_step_into options dir name : total (step_into options dir name).
Proof.
  unfold step_into, with_mut_dir, ensure_entry, get_child, with_dir, ram_dir. solve_total.
Qed.

Lemma total_walk options cs dir : total (walk options cs dir).
Proof.
  revert dir. induction cs as [|c cs IH]; intros dir; simpl; [apply total_ok|].
  apply total_bind; [apply total_step_into|intros]. solve_total. apply IH.
Qed.

Lemma total_traverse root path options : total (RamFS_traverse root path options).
Proof.
  unfold RamFS_traverse. destruct (parent path); [|apply total_ok].
  apply total_bind; [apply total_walk|intros; apply total_step_into].
Qed.

Lemma total_with_perms {prof : Profile} p perms : total (with_perms (as_file p) perms).
Proof.
  unfold with_perms. apply total_bind; [|intros a].
  { destruct (contains _ _); [|apply total_ok]. simpl. unfold ram_fstat. solve_total. }
  destruct (contains _ _); [|apply total_ok]. intros w. unfold obind.
  assert (Ht : total (fr_clear (deref (repr a)))).
  { simpl. destruct (deref (repr a)); [unfold ram_clear; solve_total|apply total_err]. }
  specialize (Ht w). by destruct (fr_clear _ w).
Qed.

Lemma total_open_node {prof : Profile} p options : total (open_node p options).
Proof.
  apply total_bind; [solve_total|intros]. apply total_bind; [apply total_lift|intros].
  apply total_with_perms.
Qed.

Lemma total_open_create {prof : Profile} dir rf d name mk options :
  total mk → total (open_create dir rf d name mk options).
Proof.
  intros Hmk. apply total_bind; [|intros].
  { unfold ensure_entry. destruct (im_get _ _); [apply total_ok|].
    apply total_bind; [done|intros; apply total_ok]. }
  apply total_bind; [apply total_put|intros; apply total_open_node].
Qed.

(** Without [CREATE_ALL] a traversal does not change the state. *)
Definition pure {E A} (m : M World E A) : Prop :=
  ∀ w w' r, m w = Ret (w', r) → w' = w.

Lemma pure_bind {E A B} (m : M World E A) (k : A → M World E B) :
  pure m → (∀ a, pure (k a)) → pure (mthen m k).
Proof.
  intros Hm Hk w w' r Hr. apply mthen_Ret_inv in Hr as [(w1 & a & H1 & H2)|(e & H1 & _)].
  - apply Hm in H1 as ->. by apply Hk in H2.
  - by apply Hm in H1.
Qed.

Lemma pure_lock {E A} mode p (body : RamFile → M World E A) :
  (∀ rf, pure (body rf)) → pure (with_lock mode p body).
Proof.
  intros Hb w w' r. unfold with_lock, acquire. destruct (conflicts _ _ _); [done|].
  destruct (store w !! p) as [rf|]; [|done]. simpl.
  destruct (body _ _) as [[w1 r1]| | |] eqn:Hr; simpl; try done.
  intros [= <- <-]. apply Hb in Hr as ->. apply release_push.
Qed.

Lemma pure_ret {E A} (r : Result E A) : pure (mlift r).
Proof. by intros w w' r' [= <- <-]. Qed.

Ltac solve_pure :=
  repeat first
    [ apply pure_bind; [|intros ?] | apply pure_lock; intros ?
    | apply pure_ret | by apply (pure_ret (Ok _)) | by apply (pure_ret (Err _))
    | match goal with |- pure (match ?x with _ => _ end) => destruct x end ].

Lemma pure_get_child dir name : pure (get_child dir name).
Proof. unfold get_child, with_dir. solve_pure. Qed.

Lemma pure_traverse root path options :
  contains options OpenOptions_CREATE_ALL = false →
  pure (RamFS_traverse root path options).
Proof.
  intros Hc. assert (Hs : ∀ d n, pure (step_into options d n)).
  { intros. unfold step_into. rewrite Hc. apply pure_get_child. }
  assert (Hw : ∀ cs d, pure (walk options cs d)).
  { induction cs as [|c cs IH]; intros d; simpl; [by apply (pure_ret (Ok _))|].
    apply pure_bind; [apply Hs|intros]. solve_pure. apply IH. }
  unfold RamFS_traverse. destruct (parent path); [|by apply (pure_ret (Ok _))].
  apply pure_bind; [apply Hw|intros; apply Hs].
Qed.

(** The nodes no guard of the call chain holds for writing. *)
Definition free_nodes (w : World) : gset ptr :=
  filter (λ p, (LWrite, p) ∉ held w) (dom (store w)).

Lemma free_nodes_lt w dir e :
  live w dir → conflicts LWrite dir (held w) = false →
  (base.size (free_nodes (set_held w ((LRead, e) :: (LWrite, dir) :: held w)))
     < base.size (free_nodes w))%nat.
Proof.
  intros Hd Hc. apply subset_size.
  unfold conflicts in Hc. apply orb_false_iff in Hc as [Hc _].
  apply bool_decide_eq_false in Hc. apply elem_of_dom in Hd.
  unfold free_nodes. simpl. split.
  - intros p. rewrite !elem_of_filter. intros [Hn Hp]. split; [|done].
    intros Hin. apply Hn. by do 2 right.
  - intros Hsub. specialize (Hsub dir). rewrite !elem_of_filter in Hsub.
    destruct Hsub as [Hn _]; [by split|]. apply Hn. right. left.
Qed.

Section terminates.
Context {prof : Profile}.

(** A creating [open] never follows a link. *)
Lemma creating_not_all options :
  intersects options (Z.lor OpenOptions_CREATE_ALL OpenOptions_CREATE) = false →
  contains options OpenOptions_CREATE_ALL = false.
Proof.
  unfold intersects. intros H%negb_false_iff%Z.eqb_eq.
  change OpenOptions_CREATE_ALL with (2 ^ 6). rewrite contains_bit by done.
  apply (f_equal (λ z, Z.testbit z 6)) in H. rewrite Z.land_spec, Z.bits_0 in H.
  change (Z.testbit (Z.lor OpenOptions_CREATE_ALL OpenOptions_CREATE) 6) with true in H.
  by rewrite andb_true_r in H.
Qed.

Lemma RamFS_open_nf go root path options w :
  (∀ dir e p,
     live w dir → conflicts LWrite dir (held w) = false →
     go p options (set_held w ((LRead, e) :: (LWrite, dir) :: held w)) ≠ NoFuel) →
  RamFS_open go root path options w ≠ NoFuel.
Proof.
  intros Hgo. unfold RamFS_open. destruct (parent path) as [par|]; [|apply total_with_perms].
  apply nf_bind; [apply total_traverse|]. intros w1 dir Htr.
  apply nf_lock. intros rf Hd Hc. unfold open_in.
  destruct (node rf) as [l|f|d]; try done. repeat case_match; try done.
  - apply total_bind; [apply total_lift|intros; apply total_with_perms].
  - apply total_open_create, total_alloc.
  - apply total_open_create, total_alloc.
  - apply total_open_create, total_alloc.
  - apply (pure_traverse _ _ _ (creating_not_all _ ltac:(eassumption))) in Htr as ->.
    unfold open_existing. destruct (im_get _ _) as [e|]; [|done].
    apply nf_bind; [|intros w2 [fl|] _; [done|apply total_open_node]].
    destruct (contains options OpenOptions_NO_FOLLOW_LINK); [done|].
    apply nf_lock. intros erf _ _. destruct (node erf) as [l| |]; [|done..].
    apply nf_bind; [|done]. apply Hgo; [by exists rf|done].
Qed.

Lemma VFS_open_nf fuel path options w :
  (base.size (free_nodes w) < fuel)%nat → VFS_open fuel path options w ≠ NoFuel.
Proof.
  revert path options w. induction fuel as [|fuel IH]; intros path options w Hf; [lia|].
  simpl. destruct (is_empty path).
  - apply nf_bind; [|done].
    destruct (with_perms_vfs (FPerms_from options) w) as (f & -> & _). done.
  - apply nf_bind.
    + unfold deepest_matching_mount. clear.
      induction (ancestors path) as [|a l IHl]; simpl; [done|].
      destruct (mounts w !! a); [by destruct (strip_prefix path a)|done].
    + intros w1 [[root] post] Hm. simpl.
      assert (w1 = w) as ->.
      { unfold deepest_matching_mount in Hm.
        destruct (find_mount _ _ _); simpl in Hm; by simplify_eq. }
      apply RamFS_open_nf. intros dir e p Hd Hc. apply IH.
      pose proof (free_nodes_lt w dir e Hd Hc). lia.
Qed.

Lemma fs_open_nf path options w : fs_open path options w ≠ NoFuel.
Proof.
  rewrite fs_open_eq. apply VFS_open_nf.
  assert (base.size (free_nodes w) ≤ base.size (dom (store w)))%nat.
  { apply subseteq_size. unfold free_nodes. set_solver. }
  rewrite size_dom in *. lia.
Qed.

Lemma open_nf path options w : VFS.open path options w ≠ NoFuel.
Proof. apply nf_bind; [apply fs_open_nf|done]. Qed.

End terminates.

Lemma wp_open {prof : Profile} path options w :
  wf w → wf_mounts w → wp (VFS.open path options) (opens options) w.
Proof.
  intros Hw Hm. apply wp_bind. eapply wp_mono; [by apply wp_fs_open|].
  intros w1 [f|e] Hev Hr; [|by intros f]. split; [apply evolves_refl|].
  intros f' [= <-]. exact (Hr f eq_refl).
Qed.

(** ** When opening returns

    A call blocks exactly on a guard that its own call chain holds.
    [spares S m]: [m] does not block while every guarded node is in [S], and
    releases what it takes. *)
Definition spares {E A} (S : ptr → Prop) (m : M World E A) : Prop :=
  ∀ w, (∀ mode p, (mode, p) ∈ held w → S p) →
    m w ≠ Blocked ∧ ∀ w' r, m w = Ret (w', r) → held w' = held w.

Lemma spares_bind_ok {E A B} S (m : M World E A) (k : A → M World E B) :
  spares S m → (∀ w w1 a, m w = Ret (w1, Ok a) → spares S (k a)) → spares S (mthen m k).
Proof.
  intros Hm Hk w Hw. destruct (Hm w Hw) as [Hb Hh]. unfold mthen.
  destruct (m w) as [[w1 [a|e]]| | |] eqn:Hr0; try done.
  - specialize (Hh w1 (Ok a) eq_refl).
    destruct (Hk w w1 a Hr0 w1) as [Hb1 Hh1]; [by rewrite Hh|].
    split; [done|]. intros w' r Hr. rewrite <- Hh. by eapply Hh1.
  - split; [done|]. intros w' r [= <- <-]. by eapply Hh.
Qed.

Lemma spares_bind {E A B} S (m : M World E A) (k : A → M World E B) :
  spares S m → (∀ a, spares S (k a)) → spares S (mthen m k).
Proof. intros Hm Hk. by apply spares_bind_ok. Qed.

Lemma spares_lock {E A} (S : ptr → Prop) mode p (body : RamFile → M World E A) :
  ¬ S p → (∀ rf, spares (λ q, q = p ∨ S q) (body rf)) → spares S (with_lock mode p body).
Proof.
  intros Hp Hbody w Hw. unfold with_lock, acquire.
  assert (conflicts mode p (held w) = false) as ->.
  { unfold conflicts. destruct mode; rewrite ?orb_false_iff, ?bool_decide_eq_false;
      repeat split; intros Hin; by apply Hw in Hin. }
  destruct (store w !! p) as [rf|]; [|done]. simpl.
  destruct (Hbody rf (set_held w ((mode, p) :: held w))) as [Hb Hh].
  { intros mode' q. simpl. rewrite elem_of_cons. intros [[= -> ->]|Hin]; [by left|].
    right. by eapply Hw. }
  destruct (body rf _) as [[w1 r1]| | |]; try done. split; [done|].
  intros w' r [= <- <-]. simpl. by rewrite (Hh w1 r1 eq_refl).
Qed.

Lemma spares_ret {E A} S (r : Result E A) : spares S (mlift r).
Proof. intros w _. split; [done|]. by intros w' r' [= <- <-]. Qed.
Lemma spares_ok {E A} S (a : A) : @spares E A S (mok a).
Proof. apply (spares_ret S (Ok a)). Qed.
Lemma spares_err {E A} S (e : E) : @spares E A S (merr e).
Proof. apply (spares_ret S (Err e)). Qed.
Lemma spares_put {E} S p rf : @spares E unit S (put_file p rf).
Proof. intros w _. split; [done|]. by intros w' r [= <- <-]. Qed.
Lemma spares_alloc {E} S mk : @spares E ptr S (alloc mk).
Proof. intros w _. split; [done|]. by intros w' r [= <- <-]. Qed.
Lemma spares_get {E} S : @spares E World S mget.
Proof. intros w _. split; [done|]. by intros w' r [= <- <-]. Qed.

Ltac solve_spares :=
  repeat first
    [ apply spares_bind; [|intros ?] | apply spares_lock; [tauto|intros ?]
    | apply spares_ok | apply spares_err | apply spares_ret | apply spares_put
    | apply spares_alloc | apply spares_get
    | match goal with
      | |- spares _ (match ?x with _ => _ end) => destruct x
      end ].

Definition nothing (p : ptr) : Prop := False.

Lemma spares_step_into options dir name : spares nothing (step_into options dir name).
Proof.
  unfold step_into, with_mut_dir, ensure_entry, get_child, with_dir, ram_dir. solve_spares.
Qed.

Lemma spares_walk options cs dir : spares nothing (walk options cs dir).
Proof.
  revert dir. induction cs as [|c cs IH]; intros dir; simpl; [apply spares_ok|].
  apply spares_bind; [apply spares_step_into|intros]. solve_spares. apply IH.
Qed.

Lemma spares_traverse root path options : spares nothing (RamFS_traverse root path options).
Proof.
  unfold RamFS_traverse. destruct (parent path); [|apply spares_ok].
  apply spares_bind; [apply spares_walk|intros; apply spares_step_into].
Qed.

(** Building the file asks for the node's status when appending, and for its
    write guard when truncating. *)
Definition touches (options : Z) : bool :=
  contains options OpenOptions_APPEND
  || contains options OpenOptions_WRITE && contains options OpenOptions_TRUNCATE.

Lemma spares_with_perms {prof : Profile} (S : ptr → Prop) p options :
  touches options = false ∨ ¬ S p → spares S (with_perms (as_file p) (FPerms_from options)).
Proof.
  intros Hor. unfold with_perms, touches in *.
  change (Z.lor (perms (as_file p)) (FPerms_from options)) with (FPerms_from options).
  destruct (FPerms_from_bits options) as (_ & _ & Ha & _).
  pose proof (FPerms_from_write_truncate options) as Hwt.
  apply spares_bind_ok.
  { simpl. rewrite Ha. destruct (contains options OpenOptions_APPEND); [|apply spares_ok].
    destruct Hor as [?|Hp]; [done|]. unfold ram_fstat. solve_spares. }
  intros w0 w1 a Hm.
  assert (Hrp : repr a = Shared (RamRepr p) ∧ perms a = FPerms_from options).
  { simpl in Hm. destruct (contains _ FPerms_APPEND); [|by injection Hm as <- <-].
    apply mthen_Ret_inv in Hm as [(? & st & _ & Hm)|(? & _ & ?)]; [|done].
    by injection Hm as <- <-. }
  destruct Hrp as [Hr Hp]. rewrite Hp, Hwt, Hr.
  destruct (contains options OpenOptions_WRITE && contains options OpenOptions_TRUNCATE).
  2:{ apply spares_ok. }
  destruct Hor as [Ht|Hn]; [by rewrite orb_true_r in Ht|]. simpl.
  assert (Hc : spares S (ram_clear p)) by (unfold ram_clear; solve_spares).
  intros w Hw. destruct (Hc w Hw) as [Hb Hh]. destruct (ram_clear p w) as [[w2 r2]| | |]; try done.
  split; [done|]. intros w' r [= <- <-]. by eapply Hh.
Qed.

Lemma spares_open_node {prof : Profile} (S : ptr → Prop) p options :
  ¬ S p → spares S (open_node p options).
Proof.
  intros Hp. unfold open_node. apply spares_bind; [solve_spares|intros].
  apply spares_bind; [apply spares_ret|intros]. apply spares_with_perms. by right.
Qed.

(** No link is followed: none is asked for, or there is none. *)
Definition follows_nothing (options : Z) (w : World) : Prop :=
  contains options OpenOptions_NO_FOLLOW_LINK = true ∨
  ∀ p rf l, store w !! p = Some rf → node rf ≠ SoftLink l.

Lemma find_mount_not_blocked m path ancs : find_mount m path ancs ≠ Blocked.
Proof.
  induction ancs as [|a ancs IH]; simpl; [done|].
  destruct (m !! a); [by destruct (strip_prefix path a)|done].
Qed.

Section returns.
Context {prof : Profile}.

Lemma ensure_not_self dir rf d name mk w w' d' p :
  (∀ w1 w2 q, mk w1 = Ret (w2, Ok q) → q = next_ptr w1) →
  wf w → lists_not dir rf → store w !! dir = Some rf → node rf = NDir d →
  ensure_entry name mk d w = Ret (w', Ok (d', p)) → p ≠ dir.
Proof.
  intros Hmk Hw Hs Hd Hn. unfold ensure_entry. destruct (im_get d name) as [q|] eqn:Hg.
  - intros [= _ _ ->]. unfold lists_not in Hs. rewrite Hn in Hs. intros ->. apply Hs.
    apply im_get_elem in Hg. apply list_elem_of_fmap. by exists (name, dir).
  - intros [(w1 & q & H1 & H2)|(? & _ & ?)]%mthen_Ret_inv; [|done].
    injection H2 as <- <- <-. apply Hmk in H1 as ->. apply Hw in Hd as [Hlt _]. intros <-. lia.
Qed.

Lemma alloc_ptr {E} mk w1 w2 q : @alloc E mk w1 = Ret (w2, Ok q) → q = next_ptr w1.
Proof. by intros [= _ <-]. Qed.

Lemma held_one (h : LockMode) (dir : ptr) mode p : (mode, p) ∈ [(h, dir)] → p = dir.
Proof. intros H%list_elem_of_singleton. congruence. Qed.

Lemma held_none (S : ptr → Prop) (mode : LockMode) p : (mode, p) ∈ [] → S p.
Proof. by intros H%not_elem_of_nil. Qed.

(** Under the guard of [dir], its entries can still be locked. *)
Lemma open_create_returns dir rf d name mk options w h :
  (∀ w1 w2 q, mk w1 = Ret (w2, Ok q) → q = next_ptr w1) → (∀ S, spares S mk) →
  wf w → lists_not dir rf → store w !! dir = Some rf → node rf = NDir d →
  open_create dir rf d name mk options (set_held w [(h, dir)]) ≠ Blocked.
Proof.
  intros Hmk Hsp Hw Hs Hd Hn. unfold open_create, mthen at 1.
  assert (He : spares (λ q, q = dir) (ensure_entry name mk d)).
  { unfold ensure_entry. destruct (im_get d name); [apply spares_ok|].
    apply spares_bind; [apply Hsp|intros; apply spares_ok]. }
  destruct (He (set_held w [(h, dir)]) (held_one h dir)) as [Hb Hheld].
  destruct (ensure_entry name mk d (set_held w [(h, dir)])) as [[w1 [[d' p]|e]]| | |] eqn:Hr; try done.
  specialize (Hheld w1 _ eq_refl).
  assert (p ≠ dir) by (by eapply (ensure_not_self dir rf d name mk (set_held w [(h, dir)]))).
  unfold mthen at 1, put_file. simpl. eapply (spares_open_node (λ q, q = dir)); [done|].
  simpl. rewrite Hheld. apply held_one.
Qed.

Lemma open_existing_returns go dir rf d name options w h :
  follows_nothing options w → lists_not dir rf → node rf = NDir d →
  open_existing go d name options (set_held w [(h, dir)]) ≠ Blocked.
Proof.
  intros Hf Hs Hn. unfold open_existing. destruct (im_get d name) as [e|] eqn:Hg; [|done].
  assert (Hne : e ≠ dir).
  { unfold lists_not in Hs. rewrite Hn in Hs. intros ->. apply Hs.
    apply im_get_elem in Hg. apply list_elem_of_fmap. by exists (name, dir). }
  assert (Hnode : open_node e options (set_held w [(h, dir)]) ≠ Blocked).
  { eapply (spares_open_node (λ q, q = dir)); [done|apply held_one]. }
  unfold mthen at 1. destruct (contains options OpenOptions_NO_FOLLOW_LINK) eqn:Hnf; [done|].
  destruct Hf as [?|Hf]; [congruence|]. unfold with_lock, acquire.
  assert (conflicts LRead e (held (set_held w [(h, dir)])) = false) as ->.
  { simpl. apply bool_decide_eq_false. intros Hin%list_elem_of_singleton. congruence. }
  change (store (set_held w [(h, dir)])) with (store w).
  destruct (store w !! e) as [erf|] eqn:Hse; [|done]. simpl.
  destruct (node erf) as [l| |] eqn:Hne'; [by destruct (Hf e erf l Hse)|done..].
Qed.

Lemma open_in_returns go dir path options rf w h :
  wf w → lists_not dir rf → store w !! dir = Some rf →
  (contains options OpenOptions_CREATE_ALL = false → follows_nothing options w) →
  ends_with_sep path = false ∨ touches options = false →
  open_in go dir path options rf (set_held w [(h, dir)]) ≠ Blocked.
Proof.
  intros Hw Hs Hd Hf Hsep. unfold open_in. destruct (node rf) as [l|f|d] eqn:Hn; try done.
  destruct (negb (perm_x _)); [done|]. destruct (_ && _ && _); [done|].
  destruct (ends_with_sep path).
  { destruct Hsep as [?|Ht]; [done|].
    apply (spares_bind (λ q, q = dir)); [apply spares_ret| |apply held_one].
    intros. apply spares_with_perms. by left. }
  destruct (contains options OpenOptions_CREATE_DIR).
  { apply open_create_returns; try done; [apply alloc_ptr|intros; apply spares_alloc]. }
  destruct (contains options OpenOptions_CREATE_LINK).
  { apply open_create_returns; try done; [apply alloc_ptr|intros; apply spares_alloc]. }
  destruct (intersects options _) eqn:Hc.
  { apply open_create_returns; try done; [apply alloc_ptr|intros; apply spares_alloc]. }
  eapply open_existing_returns; [|done|done]. apply Hf. by apply creating_not_all.
Qed.

Lemma RamFS_open_returns go root path options w :
  wf w → no_self w → live w root → held w = [] → follows_nothing options w →
  ends_with_sep path = false ∨ touches options = false →
  RamFS_open go root path options w ≠ Blocked.
Proof.
  intros Hw Hs Hroot Hh Hf Hsep. unfold RamFS_open.
  destruct (parent path) as [par|].
  2:{ eapply (spares_with_perms nothing); [by right; intros []|]. rewrite Hh. apply held_none. }
  destruct (spares_traverse root par options w) as [Hb Hheld].
  { rewrite Hh. apply held_none. }
  pose proof (wp_traverse root par options (λ w' r, ∀ p, r = Ok p → live w' p) w Hw Hroot
    (λ w' r _ H, H)) as Hwp.
  unfold wp in Hwp. unfold mthen.
  destruct (RamFS_traverse root par options w) as [[w1 [dir|e]]| | |] eqn:Htr; try done.
  specialize (Hheld w1 _ eq_refl). destruct Hwp as [Hev Hlive].
  destruct (Hlive dir eq_refl) as [rf Hd].
  assert (Hw1 : wf w1) by (by apply Hev). assert (Hs1 : no_self w1) by (by apply (ev_self _ _ Hev)).
  unfold with_lock, acquire. rewrite Hheld, Hh.
  change (conflicts LWrite dir []) with false. cbv iota. rewrite Hd. cbn [obind fst snd].
  assert (Hin : open_in go dir path options rf (set_held w1 [(LWrite, dir)]) ≠ Blocked).
  { apply open_in_returns; try done; [by apply Hs1|].
    intros Hca. by apply (pure_traverse _ _ _ Hca) in Htr as ->. }
  destruct (open_in go dir path options rf _) as [[]| | |]; done.
Qed.

Lemma open_returns path options w :
  wf w → wf_mounts w → no_self w → held w = [] → follows_nothing options w →
  ends_with_sep path = false ∨ touches options = false →
  VFS.open path options w ≠ Blocked.
Proof.
  intros Hw Hm Hs Hh Hf Hsep.
  assert (Ho : fs_open path options w ≠ Blocked).
  { rewrite fs_open_eq. cbn [VFS_open]. destruct (is_empty path).
    { unfold mthen. by destruct (with_perms_vfs (FPerms_from options) w) as (f & -> & _). }
    unfold mthen, deepest_matching_mount.
    destruct (find_mount (mounts w) path (ancestors path)) as [[[[root] post]|]| | |] eqn:Hfm;
      try done.
    - simpl. apply find_mount_Some in Hfm as (? & mp & ? & _ & Hmp & Hp & _).
      apply RamFS_open_returns; try done; [by apply (Hm mp)|].
      destruct Hsep as [Hsep|?]; [left|by right]. rewrite Hp in Hsep. revert Hsep.
      unfold ends_with_sep. destruct post as [|c post]; [done|].
      by rewrite last_app_cons.
    - by apply find_mount_not_blocked in Hfm. }
  unfold VFS.open, mthen. destruct (fs_open path options w) as [[w1 [f|e]]| | |]; try done.
Qed.

End returns.

(** C1: opening a path never panics and never runs without end through
    symbolic links.  When it returns, also with an error, the state invariant
    holds, every lock is as it was before, and a file it returns carries
    exactly the permissions asked for, which the node behind it grants, roots
    of mounts excepted.  It waits for ever only if the caller's chain already
    holds a lock, a directory lists itself (which no call brings about), it
    follows links and there are some, or it appends to or truncates a path
    with a trailing separator. *)
Theorem open_safe {prof : Profile} path options w :
  wf w → wf_mounts w →
  match VFS.open path options w with
  | Ret (w', r) =>
      wf w' ∧ wf_mounts w' ∧ (no_self w → no_self w') ∧ held w' = held w ∧
      match r with Ok f => opened w' options f | Err _ => True end
  | Panic => False
  | Blocked =>
      ¬ (held w = [] ∧ no_self w ∧ follows_nothing options w ∧
         (ends_with_sep path = false ∨ touches options = false))
  | NoFuel => False
  end.
Proof.
  intros Hw Hm. pose proof (wp_open path options w Hw Hm) as H.
  unfold wp in H. pose proof (open_nf path options w) as Hnf.
  destruct (VFS.open path options w) as [[w' r]| | |] eqn:Ho; try done.
  - destruct H as [Hev Hr]. split; [by apply Hev|]. split; [by eapply evolves_mounts|].
    split; [intros; by apply (ev_self _ _ Hev)|].
    split; [apply Hev|]. destruct r as [f|]; [by apply Hr|done].
  - intros (Hh & Hs & Hf & Hsep). by apply (open_returns path options w).
Qed.
