(* ===== verification/FsProps.v ===== *)
(** Properties of the file systems as a whole: mount resolution, creation
    and removal of entries, links and locks, descriptors and permissions. *)
From S2P Require Import Prelude Abi Path Io Fd Listing RamFile FsRepr RamFS VFS FsInv.
Open Scope Z_scope.

(** ** Concrete states for the witnesses *)

Lemma init_world_eq now :
  init_world now =
    mkWorld {[ 1%positive := RamFile_new now RamNode_dir perms_rwx ]} 2 [] now
      {[ lit "/ram" := RamFSObj 1 ]}.
Proof. reflexivity. Qed.

Lemma init_world_ok now : wf (init_world now) ∧ wf_mounts (init_world now).
Proof.
  rewrite init_world_eq. split.
  - intros p rf Hp. cbn [store] in Hp. apply lookup_singleton_Some in Hp as [<- <-].
    split; [done|]. repeat split; [apply NoDup_nil_2|constructor].
  - intros k root Hk. cbn [mounts] in Hk. apply lookup_singleton_Some in Hk as [<- [= <-]].
    eexists. by apply lookup_singleton_Some.
Qed.

Lemma init_world_plain now :
  no_self (init_world now) ∧ follows_nothing OpenOptions_CREATE (init_world now).
Proof.
  rewrite init_world_eq. split; [|right].
  - intros p rf Hp. cbn [store] in Hp. apply lookup_singleton_Some in Hp as [<- <-].
    apply not_elem_of_nil.
  - intros p rf l Hp. cbn [store] in Hp. by apply lookup_singleton_Some in Hp as [<- <-].
Qed.

Lemma open_safe_witness :
  match VFS.open (prof := Release) (lit "/ram/a") OpenOptions_CREATE (init_world 3) with
  | Ret (w', r) => wf w' ∧ no_self w' ∧ held w' = []
  | _ => False
  end.
Proof.
  destruct (init_world_ok 3) as [Hw Hm]. destruct (init_world_plain 3) as [Hs Hf].
  pose proof (open_safe (prof := Release) (lit "/ram/a") OpenOptions_CREATE _ Hw Hm) as H.
  destruct (VFS.open _ _ _) as [[w' r]| | |]; [|done| |done].
  - destruct H as (Hwf & _ & Hself & Hh & _). split; [exact Hwf|]. split; [by apply Hself|exact Hh].
  - exfalso. apply H. split; [reflexivity|]. split; [done|]. split; [done|]. by left.
Defined.

(** ** Mount resolution *)

(** A path is served by the deepest mounted ancestor: the mount
    point is a prefix of the path ending at a component boundary, the rest is
    what the mounted file system sees, no longer ancestor is mounted; without
    a mounted ancestor the error is [NotFound], and the [unreachable!()] of
    the code is unreachable. *)
Lemma deepest_mount_spec path w :
  match deepest_matching_mount path w with
  | Ret (w', Ok (fs, post)) =>
      w' = w ∧
      ∃ k, (0 < k ≤ length (traverse path))%nat ∧
        let mp := join PATH_SEP (take k (traverse path)) in
        mounts w !! mp = Some fs ∧ path = mp ++ post ∧
        ∀ j, (k < j ≤ length (traverse path))%nat →
             mounts w !! join PATH_SEP (take j (traverse path)) = None
  | Ret (w', Err e) =>
      w' = w ∧ kind e = NotFound ∧ Forall (λ a, mounts w !! a = None) (ancestors path)
  | _ => False
  end.
Proof.
  unfold deepest_matching_mount.
  destruct (find_mount_total (mounts w) path (ancestors path)) as [[r Hr] HN].
  { apply Forall_forall. intros a Ha. by apply ancestors_prefix. }
  rewrite Hr in HN. rewrite Hr. simpl. destruct r as [[fs post]|]; simpl.
  - split; [done|].
    apply find_mount_Some in Hr as (pre & mp & suf & Hanc & Hm & Hp & Hpre).
    rewrite ancestors_spec in Hanc.
    set (n := length (traverse path)) in *.
    set (g := λ k, join PATH_SEP (take k (traverse path))) in *.
    assert (Hg : ∀ i, (i < n)%nat → map g (reverse (seq 1 n)) !! i = Some (g (n - i)%nat)).
    { intros i Hi. rewrite list_lookup_fmap.
      rewrite reverse_lookup by (rewrite length_seq; lia).
      rewrite length_seq, lookup_seq_lt by lia. simpl. do 2 f_equal. lia. }
    assert (Hlen : length (map g (reverse (seq 1 n))) = n)
      by (by rewrite length_map, length_reverse, length_seq).
    assert (Hi : (length pre < n)%nat) by (rewrite <- Hlen, Hanc, length_app; simpl; lia).
    exists (n - length pre)%nat. split; [lia|].
    assert (mp = g (n - length pre)%nat) as ->.
    { apply Some_inj. rewrite <- Hg by done. rewrite Hanc.
      by rewrite list_lookup_middle. }
    split; [done|]. split; [done|]. intros j Hj.
    rewrite Forall_forall in Hpre. apply (Hpre (g j)).
    apply list_elem_of_lookup. exists (n - j)%nat.
    rewrite <- (lookup_app_l pre (g (n - length pre)%nat :: suf)) by lia.
    rewrite <- Hanc, Hg by lia. do 2 f_equal. lia.
  - split; [done|]. split; [done|]. by apply HN.
Qed.

(** Mounting makes the file system the one found at the mount point; over an
    existing mount the call reports [AlreadyExists] although it has replaced
    it; unmounting returns what was mounted and removes it. *)
Lemma mount_unmount p fs w :
  match VFS_mount p fs w with
  | Ret (w', r) =>
      mounts w' = <[p := fs]> (mounts w) ∧ store w' = store w ∧
      r = match mounts w !! p with
          | None => Ok tt
          | Some _ => Err (custom AlreadyExists MountExists)
          end ∧
      deepest_matching_mount p w' = Ret (w', Ok (fs, [])) ∧
      VFS_unmount p w' =
        Ret (set_mounts w (delete p (mounts w)), Ok fs)
  | _ => False
  end.
Proof.
  unfold VFS_mount.
  set (w' := set_mounts w (<[p := fs]> (mounts w))).
  assert (Hd : deepest_matching_mount p w' = Ret (w', Ok (fs, []))).
  { unfold deepest_matching_mount, ancestors. simpl. rewrite lookup_insert_eq.
    unfold strip_prefix. by rewrite (proj2 (str_strip_prefix_Some p p [])) by (by rewrite app_nil_r). }
  assert (Hu : VFS_unmount p w' = Ret (set_mounts w (delete p (mounts w)), Ok fs)).
  { unfold VFS_unmount. simpl. rewrite lookup_insert_eq, delete_insert_eq. done. }
  destruct (mounts w !! p); done.
Qed.

(** ** Inversion of guarded runs *)

Lemma with_lock_inv {E A} mode p (body : RamFile → M World E A) w w' r :
  with_lock mode p body w = Ret (w', r) →
  ∃ rf w1, store w !! p = Some rf ∧ conflicts mode p (held w) = false ∧
    body rf (set_held w ((mode, p) :: held w)) = Ret (w1, r) ∧ w' = release w1.
Proof.
  unfold with_lock, acquire. destruct (conflicts _ _ _); [done|].
  destruct (store w !! p) as [rf|]; [|done]. simpl.
  destruct (body _ _) as [[w1 r1]| | |] eqn:Hb; simpl; try done.
  intros [= <- <-]. by exists rf, w1.
Qed.

Lemma peek_inv {E A} mode p (g : RamFile → A) w w' (r : Result E A) :
  with_lock mode p (λ rf, mok (g rf)) w = Ret (w', r) →
  w' = w ∧ ∃ rf, store w !! p = Some rf ∧ r = Ok (g rf).
Proof.
  intros (rf & w1 & Hs & _ & Hb & ->)%with_lock_inv. injection Hb as <- <-.
  rewrite release_push. eauto.
Qed.

(** A successful [with_mut_dir] around an entry operation that touches nothing
    else rewrites exactly that directory. *)
Lemma with_mut_dir_inv {R} dir (g : DirData → DirData * R) w w' (x : R) :
  with_mut_dir dir (λ d, mok (g d)) w = Ret (w', Ok x) →
  ∃ rf d, store w !! dir = Some rf ∧ node rf = NDir d ∧ x = snd (g d) ∧
    w' = set_store w (<[dir := mkRamFile (NDir (fst (g d))) (stat rf)]> (store w)).
Proof.
  unfold with_mut_dir. intros H. run_inv H.
  apply peek_inv in Hrun as (-> & rf & Hs & [= ->]).
  destruct (negb _); [done|].
  apply with_lock_inv in H as (rf' & w1 & Hs' & _ & Hb & ->). simplify_eq.
  destruct (node rf) as [l|f|d] eqn:Hn; [done..|].
  unfold mthen in Hb. simpl in Hb. injection Hb as <- <-. exists rf, d. done.
Qed.

Lemma get_child_inv dir name w w' p :
  get_child dir name w = Ret (w', Ok p) →
  w' = w ∧ ∃ rf d, store w !! dir = Some rf ∧ node rf = NDir d ∧ im_get d name = Some p.
Proof.
  intros H. pose proof (pure_get_child _ _ _ _ _ H) as ->. split; [done|].
  unfold get_child, with_dir in H. run_inv H.
  apply with_lock_inv in Hrun as (rf & w1 & Hs & _ & Hb & ->).
  destruct (node rf) as [l|f|d] eqn:Hn; [done..|]. injection Hb as _ <-.
  exists rf, d. unfold mlift, ok_or in H. destruct (im_get d name) eqn:Hg; [|done].
  injection H as _ ->. done.
Qed.

Lemma unlink_from_inv dir name w w' p :
  unlink_from dir name w = Ret (w', Ok p) →
  ∃ rf d, store w !! dir = Some rf ∧ node rf = NDir d ∧ im_get d name = Some p ∧
    w' = set_store w (<[dir := mkRamFile (NDir (im_swap_remove d name)) (stat rf)]> (store w)).
Proof.
  unfold unlink_from. intros H. run_inv H.
  apply (with_mut_dir_inv dir (λ d, (im_swap_remove d name, im_get d name)))
    in Hrun as (rf & d & Hs & Hn & -> & ->).
  exists rf, d. unfold mlift, ok_or in H. simpl in H.
  destruct (im_get d name) eqn:Hg; simplify_eq. done.
Qed.

(** The reference for removal: the entry a path names, found by following the
    directory entries from the root. *)
Fixpoint find_dir (st : gmap ptr RamFile) (dir : ptr) (names : list str) : option ptr :=
  match names with
  | [] => Some dir
  | n :: names =>
      match node <$> st !! dir with
      | Some (NDir d) =>
          c ← im_get d n;
          rf ← st !! c;
          if is_dir rf && perm_x (permissions (stat rf)) then find_dir st c names else None
      | _ => None
      end
  end.

(** All segments of the path but the first, which stands for the root, and the
    last, which is the entry. *)
Definition dir_names (path : str) : list str :=
  let names := drop 1 (traverse path) in take (pred (length names)) names.

(** The directory, its node and entries, and the entry that [unlink] removes;
    none when it must refuse.  A path without a separator names the empty entry
    of the root and needs all three of the options. *)
Definition removal (w : World) (root : ptr) (path : str) (options : Z)
    : option (ptr * RamFile * DirData * ptr) :=
  dir ← find_dir (store w) root (dir_names path);
  rf ← store w !! dir;
  match node rf with
  | NDir d =>
      p ← im_get d (file path);
      crf ← store w !! p;
      if perm_w (permissions (stat rf)) && perm_x (permissions (stat rf))
         && (if is_dir crf then contains options UnlinkOptions_RECURSIVE
             else negb (ends_with_sep path))
         && (bool_decide (is_Some (parent path))
             || contains options
                  (Z.lor (Z.lor UnlinkOptions_NO_PRESERVE_ROOT UnlinkOptions_FORCE)
                     UnlinkOptions_RECURSIVE))
      then Some (dir, rf, d, p) else None
  | _ => None
  end.

(** Without guards held, a guard is granted. *)
Lemma lock_granted {E A} mode p (body : RamFile → M World E A) w rf :
  (∀ mode', (mode', p) ∉ held w) → store w !! p = Some rf →
  with_lock mode p body w =
    let! r := body rf (set_held w ((mode, p) :: held w)) in Ret (release (fst r), snd r).
Proof.
  intros Hh Hs. unfold with_lock, acquire. rewrite Hs.
  assert (conflicts mode p (held w) = false) as ->; [|done].
  unfold conflicts. destruct mode; rewrite ?orb_false_iff, ?bool_decide_eq_false; auto.
Qed.

Lemma peek_granted {E A} mode p (g : RamFile → A) w rf :
  (∀ mode', (mode', p) ∉ held w) → store w !! p = Some rf →
  with_lock (E := E) mode p (λ rf, mok (g rf)) w = Ret (w, Ok (g rf)).
Proof. intros Hh Hs. rewrite (lock_granted _ _ _ _ rf) by done. simpl. by rewrite release_push. Qed.

Lemma get_child_granted dir name w rf :
  (∀ mode', (mode', dir) ∉ held w) → store w !! dir = Some rf →
  get_child dir name w =
    Ret (w, match node rf with
            | NDir d => ok_or (simple NotFound) (im_get d name)
            | _ => Err (simple InvalidPath)
            end).
Proof.
  intros Hh Hs. unfold get_child, with_dir, mthen. rewrite (lock_granted _ _ _ _ rf) by done.
  destruct (node rf) as [l|f|d]; simpl; rewrite release_push; [done..|]. reflexivity.
Qed.

(** A walk that only reads follows the entries, or fails and changes nothing. *)
Lemma walk_find options names dir w :
  contains options OpenOptions_CREATE_ALL = false → wf w → live w dir → held w = [] →
  match find_dir (store w) dir names with
  | Some q => walk options names dir w = Ret (w, Ok q) ∧ live w q
  | None => ∃ e, walk options names dir w = Ret (w, Err e)
  end.
Proof.
  intros Hc Hw. revert dir. induction names as [|n names IH]; intros dir [rf Hd] Hh; simpl.
  { split; [done|]. by exists rf. }
  assert (Hn : ∀ p mode', (mode', p) ∉ held w) by (intros; rewrite Hh; apply not_elem_of_nil).
  pose proof (get_child_granted dir n w rf (Hn dir) Hd) as Hget.
  unfold step_into. rewrite Hc, Hd. simpl.
  destruct (node rf) as [l|f|d] eqn:Hnode; [eexists; unfold mthen; by rewrite Hget..|].
  destruct (im_get d n) as [c|] eqn:Hg; simpl; [|eexists; unfold mthen; by rewrite Hget].
  assert (Hlive : live w c).
  { destruct (Hw _ _ Hd) as [_ Hwf]. unfold wf_node in Hwf. rewrite Hnode in Hwf.
    eapply im_get_live; [|exact Hg]. tauto. }
  destruct Hlive as [crf Hcr]. rewrite Hcr. simpl.
  unfold mthen. rewrite Hget. simpl. rewrite (peek_granted _ _ _ _ crf) by done.
  destruct (is_dir crf); simpl; [|by eexists].
  rewrite (peek_granted _ _ _ _ crf) by done. destruct (perm_x _); simpl; [|by eexists].
  apply IH; [by exists crf|done].
Qed.

Lemma find_dir_app st dir names1 names2 :
  find_dir st dir (names1 ++ names2) = find_dir st dir names1 ≫= λ q, find_dir st q names2.
Proof.
  revert dir. induction names1 as [|n names1 IH]; intros dir; simpl; [done|].
  destruct (node <$> st !! dir) as [[]|]; try done.
  destruct (im_get _ n) as [c|]; simpl; [|done]. destruct (st !! c) as [rf|]; simpl; [|done].
  by destruct (is_dir rf && _).
Qed.

Lemma dir_names_parent path :
  dir_names path = match parent path with Some par => drop 1 (traverse par) | None => [] end.
Proof.
  unfold dir_names. destruct (parent path) as [par|] eqn:Hp.
  - rewrite (traverse_parent _ _ Hp). pose proof (split_not_nil PATH_SEP par) as Hne.
    unfold traverse. destruct (split PATH_SEP par) as [|x l]; [done|].
    change (drop 1 ((x :: l) ++ [file path])) with (l ++ [file path]).
    change (drop 1 (x :: l)) with l. cbv zeta.
    rewrite length_app, Nat.add_1_r, Nat.pred_succ. apply take_app_length.
  - apply parent_None in Hp. unfold traverse. by rewrite split_free.
Qed.

(** The directory [unlink] works in: the reference finds the same one, except
    that the last step of [traverse] checks neither kind nor permission, which
    [unlink] does itself. *)
Lemma unlink_dir root path options w :
  wf w → live w root → held w = [] →
  let dir_of :=
    match parent path with
    | Some par => RamFS_traverse root par OpenOptions_WRITE
    | None =>
        if contains options
             (Z.lor (Z.lor UnlinkOptions_NO_PRESERVE_ROOT UnlinkOptions_FORCE)
                UnlinkOptions_RECURSIVE)
        then mok root else merr (simple PermissionDenied)
    end in
  (∃ dir rf, dir_of w = Ret (w, Ok dir) ∧ store w !! dir = Some rf ∧
     (is_Some (parent path) ∨
      contains options
        (Z.lor (Z.lor UnlinkOptions_NO_PRESERVE_ROOT UnlinkOptions_FORCE)
           UnlinkOptions_RECURSIVE) = true) ∧
     (find_dir (store w) root (dir_names path) = Some dir ∨
      (find_dir (store w) root (dir_names path) = None ∧
       is_dir rf && perm_x (permissions (stat rf)) = false))) ∨
  (∃ e, dir_of w = Ret (w, Err e) ∧ removal w root path options = None).
Proof.
  intros Hw Hr Hh. unfold removal. rewrite dir_names_parent.
  destruct (parent path) as [par|] eqn:Hp; cbv zeta.
  2:{ destruct (contains options _) eqn:Hc; [left|right].
      - destruct Hr as [rf Hr]. exists root, rf. repeat split; auto.
      - eexists. split; [done|]. simpl. destruct (store w !! root) as [rf|]; simpl; [|done].
        destruct (node rf); try done. destruct (im_get _ _) as [p|]; simpl; [|done].
        destruct (store w !! p); simpl; [|done]. by rewrite !andb_false_r. }
  unfold RamFS_traverse. destruct (parent par) as [par'|] eqn:Hp'.
  2:{ left. destruct Hr as [rf Hr]. exists root, rf.
      split; [done|]. split; [done|]. split; [by left; eexists|]. left. apply parent_None in Hp'. unfold traverse. by rewrite split_free. }
  pose proof (split_not_nil PATH_SEP par') as Hne.
  assert (Hd : drop 1 (traverse par) = drop 1 (traverse par') ++ [file par]).
  { rewrite (traverse_parent _ _ Hp'). unfold traverse. by destruct (split PATH_SEP par'). }
  rewrite Hd, find_dir_app.
  pose proof (walk_find OpenOptions_WRITE (drop 1 (traverse par')) root w eq_refl Hw Hr Hh) as Hwk.
  unfold mthen. destruct (find_dir (store w) root (drop 1 (traverse par'))) as [q|].
  2:{ right. destruct Hwk as [e ->]. by exists e. }
  destruct Hwk as [-> [qrf Hq]]. simpl.
  assert (Hn : ∀ p mode', (mode', p) ∉ held w) by (intros; rewrite Hh; apply not_elem_of_nil).
  change (step_into OpenOptions_WRITE q (file par)) with (get_child q (file par)).
  rewrite (get_child_granted _ _ _ qrf) by done. rewrite Hq. simpl.
  destruct (node qrf) as [l|f|d] eqn:Hnode; [right; by eexists..|].
  destruct (im_get d (file par)) as [c|] eqn:Hg; simpl; [left|right; by eexists].
  assert (Hlive : live w c).
  { destruct (Hw _ _ Hq) as [_ Hwf]. unfold wf_node in Hwf. rewrite Hnode in Hwf.
    eapply im_get_live; [|exact Hg]. tauto. }
  destruct Hlive as [crf Hcr]. exists c, crf. rewrite Hcr. simpl.
  split; [done|]. split; [done|]. split; [by left; eexists|].
  destruct (is_dir crf && _) eqn:Hx; [by left|by right].
Qed.

(** The removal proper, under the read guard of the entry. *)
Lemma unlink_from_granted dir name w rf d p :
  (∀ mode', (mode', dir) ∉ held w) → store w !! dir = Some rf → node rf = NDir d →
  perm_w (permissions (stat rf)) = true → im_get d name = Some p →
  unlink_from dir name w =
    Ret (set_store w (<[dir := mkRamFile (NDir (im_swap_remove d name)) (stat rf)]> (store w)),
         Ok p).
Proof.
  intros Hh Hs Hn Hp Hg. unfold unlink_from, with_mut_dir, mthen.
  rewrite (peek_granted _ _ _ _ rf) by done. rewrite Hp. simpl.
  rewrite (lock_granted _ _ _ _ rf) by done. rewrite Hn. simpl. rewrite Hg. by destruct w.
Qed.

(** The entry [p] of [dir] is removed, or refused for its kind. *)
Lemma unlink_entry dir path options w rf d p crf :
  held w = [] → lists_not dir rf → store w !! dir = Some rf → node rf = NDir d →
  perm_w (permissions (stat rf)) = true → im_get d (file path) = Some p →
  store w !! p = Some crf →
  with_lock LRead p (λ rf,
    match node rf with
    | NDir _ =>
        if contains options UnlinkOptions_RECURSIVE
        then unlink_from dir (file path) else merr (simple IsADir)
    | SoftLink _ | NFile _ =>
        if ends_with_sep path then merr (simple NotADir)
        else unlink_from dir (file path)
    end) w =
  if (if is_dir crf then contains options UnlinkOptions_RECURSIVE
      else negb (ends_with_sep path))
  then Ret (set_store w (<[dir := mkRamFile (NDir (im_swap_remove d (file path))) (stat rf)]>
              (store w)), Ok p)
  else Ret (w, Err (simple (if is_dir crf then IsADir else NotADir))).
Proof.
  intros Hh Hself Hd Hn Hpw Hg Hp.
  assert (Hne : p ≠ dir).
  { unfold lists_not in Hself. rewrite Hn in Hself. intros ->. apply Hself.
    apply im_get_elem in Hg. apply list_elem_of_fmap. by exists (file path, dir). }
  assert (Hu : unlink_from dir (file path) (set_held w ((LRead, p) :: held w)) =
    Ret (set_store (set_held w ((LRead, p) :: held w))
           (<[dir := mkRamFile (NDir (im_swap_remove d (file path))) (stat rf)]> (store w)), Ok p)).
  { apply (unlink_from_granted dir (file path) (set_held w ((LRead, p) :: held w)) rf d p);
      try done. rewrite Hh. intros mode' Hin%held_one. congruence. }
  rewrite (lock_granted _ _ _ _ crf); [|intros; rewrite Hh; apply not_elem_of_nil|done].
  unfold is_dir. destruct (node crf);
    [destruct (ends_with_sep path)..|destruct (contains options UnlinkOptions_RECURSIVE)];
    cbn [negb]; rewrite ?Hu; by destruct w.
Qed.

(** C23: unlink removes exactly the entry the path names, found by following
    the directory entries from the root: that name is gone from that
    directory, every other name still leads to its node, the removed node is
    returned and still allocated, nothing else changes.  It does so exactly
    when the directories on the way are searchable, the last one is writable,
    the entry exists, and a directory is asked to be removed recursively; in
    all other cases it returns an error and changes nothing. *)
Theorem unlink_spec root path options w :
  wf w → no_self w → live w root → held w = [] →
  match removal w root path options with
  | Some (dir, rf, d, p) =>
      let d' := im_swap_remove d (file path) in
      RamFS_unlink root path options w =
        Ret (set_store w (<[dir := mkRamFile (NDir d') (stat rf)]> (store w)), Ok (as_file p)) ∧
      store w !! dir = Some rf ∧ node rf = NDir d ∧ im_get d (file path) = Some p ∧
      ∀ k, im_get d' k = if decide (file path = k) then None else im_get d k
  | None => ∃ e, RamFS_unlink root path options w = Ret (w, Err e)
  end.
Proof.
  intros Hw Hself Hr Hh. unfold RamFS_unlink, mthen.
  assert (Hn : ∀ p mode', (mode', p) ∉ held w) by (intros; rewrite Hh; apply not_elem_of_nil).
  destruct (unlink_dir root path options w Hw Hr Hh)
    as [(dir & rf & -> & Hd & Hopt & Hf)|(e & -> & ->)]; [|by exists e].
  rewrite (peek_granted _ _ _ _ rf) by done.
  assert (Hrm : is_dir rf && perm_x (permissions (stat rf)) = false →
    removal w root path options = None).
  { intros Hx. unfold removal, is_dir in *. destruct Hf as [-> |[-> _]]; [|done]. simpl. rewrite Hd.
    simpl. destruct (node rf); try done. destruct (im_get _ _) as [p|]; simpl; [|done].
    destruct (store w !! p); simpl; [|done]. simpl in Hx. rewrite Hx, andb_false_r. done. }
  destruct (is_dir rf && perm_x (permissions (stat rf))) eqn:Hx.
  2:{ rewrite Hrm by done. destruct (perm_w _); [|by eexists].
      destruct (perm_x _); [|by eexists]. rewrite andb_true_r in Hx. simpl.
      rewrite (get_child_granted _ _ _ rf) by done. unfold is_dir in Hx.
      destruct (node rf); [by eexists..|done]. }
  clear Hrm. apply andb_true_iff in Hx as [Hdir Hx]. destruct Hf as [Hf|[_ ?]]; [|congruence].
  unfold removal. rewrite Hf. simpl. rewrite Hd. simpl. unfold is_dir in Hdir.
  destruct (node rf) as [| |d] eqn:Hnode; try done.
  pose proof (get_child_granted dir (file path) w rf (Hn dir) Hd) as Hget. rewrite Hnode in Hget.
  rewrite Hx. destruct (perm_w (permissions (stat rf))) eqn:Hpw; simpl.
  2:{ destruct (im_get d (file path)) as [p|]; simpl; [|by eexists].
      destruct (store w !! p); simpl; by eexists. }
  rewrite Hget. destruct (im_get d (file path)) as [p|] eqn:Hg; simpl; [|by eexists].
  destruct (Hw _ _ Hd) as [_ Hwf]. unfold wf_node in Hwf. rewrite Hnode in Hwf.
  destruct Hwf as (_ & _ & Hnd & Hlv).
  destruct (im_get_live _ _ _ _ Hlv Hg) as [crf Hcr]. rewrite Hcr. simpl.
  erewrite unlink_entry; [|done|by apply Hself|done..].
  assert (bool_decide (is_Some (parent path)) || contains options
    (Z.lor (Z.lor UnlinkOptions_NO_PRESERVE_ROOT UnlinkOptions_FORCE)
       UnlinkOptions_RECURSIVE) = true) as ->.
  { destruct Hopt as [?| ->]; [by rewrite bool_decide_true|apply orb_true_r]. }
  rewrite andb_true_r. destruct (if is_dir crf then _ else _); [|by eexists].
  split; [done|]. split; [done|]. split; [done|]. split; [done|].
  intros k. by apply im_get_swap_remove.
Qed.

(** A RamFS with the file /ram/a. *)
Definition sample_world : World :=
  match VFS.open (prof := Release) (lit "/ram/a") OpenOptions_CREATE (init_world 0) with
  | Ret (w, _) => w
  | _ => init_world 0
  end.

Lemma sample_world_wf : wf sample_world.
Proof.
  destruct (init_world_ok 0) as [Hw Hm]. unfold sample_world.
  pose proof (wp_open (prof := Release) (lit "/ram/a") OpenOptions_CREATE _ Hw Hm) as H.
  unfold wp in H. destruct (VFS.open _ _ _) as [[w' r]| | |]; try done.
  by apply H.
Qed.

(** A RamFS with /a and /d/f. *)
Definition dir_file (d : DirData) : RamFile :=
  mkRamFile (NDir d) (stat (RamFile_new 0 RamNode_dir perms_rwx)).
Definition empty_file : RamFile := RamFile_new 0 (NFile []) perms_rwx.

Definition nested_world : World :=
  mkWorld (<[1%positive := dir_file [(lit "a", 4%positive); (lit "d", 2%positive)]]>
             (<[2%positive := dir_file [(lit "f", 3%positive)]]>
                (<[3%positive := empty_file]> {[4%positive := empty_file]}))) 5 [] 0 ∅.

Lemma nested_world_ok : wf nested_world ∧ no_self nested_world.
Proof.
  assert (H : ∀ p rf, store nested_world !! p = Some rf →
    (p < 5)%positive ∧ wf_node nested_world rf ∧ lists_not p rf).
  { intros p rf. unfold nested_world. cbn [store]. rewrite !lookup_insert_Some, lookup_singleton_Some.
    intros [[<- <-]|[_ [[<- <-]|[_ [[<- <-]|[_ [<- <-]]]]]]].
    1, 2: split; [done|]; split; [|by apply (bool_decide_unpack _)].
    1, 2: repeat split; [by apply (bool_decide_unpack _)|repeat constructor; by eexists].
    all: repeat split; done. }
  split; intros p rf Hp; apply H in Hp as (? & ? & ?); done.
Qed.

Lemma unlink_spec_witness :
  RamFS_unlink 1 (lit "/d/f") 0 nested_world =
    Ret (set_store nested_world (<[2%positive := dir_file []]> (store nested_world)),
         Ok (as_file 3)).
Proof.
  destruct nested_world_ok as [Hw Hs].
  pose proof (unlink_spec 1 (lit "/d/f") 0 nested_world Hw Hs) as H.
  replace (removal nested_world 1 (lit "/d/f") 0)
    with (Some (2%positive, dir_file [(lit "f", 3%positive)], [(lit "f", 3%positive)], 3%positive))
    in H by (vm_compute; reflexivity).
  apply H; [by eexists|reflexivity].
Defined.

(** ** Links and locks *)

Lemma lock_blocked {E A} mode p (body : RamFile → M World E A) w :
  conflicts mode p (held w) = true → with_lock mode p body w = Blocked.
Proof. intros Hc. unfold with_lock, acquire. by rewrite Hc. Qed.

Lemma step_into_blocked options dir name w :
  (LWrite, dir) ∈ held w → step_into options dir name w = Blocked.
Proof.
  intros Hh. unfold step_into, with_mut_dir, get_child, with_dir, mthen.
  destruct (contains _ _); rewrite lock_blocked; try done; by apply bool_decide_eq_true.
Qed.

(** While the root of a RamFS is guarded for writing, no path below it can be
    opened. *)
Lemma open_below_blocked {prof : Profile} go root path options w :
  (LWrite, root) ∈ held w → parent path ≠ None →
  RamFS_open go root path options w = Blocked.
Proof.
  intros Hh Hp. unfold RamFS_open. destruct (parent path) as [par|]; [|done].
  unfold RamFS_traverse, mthen. destruct (parent par) as [par'|].
  - destruct (drop 1 (traverse par')) as [|c cs]; simpl.
    + by rewrite step_into_blocked.
    + unfold mthen. by rewrite step_into_blocked.
  - simpl. apply lock_blocked. apply orb_true_iff. left. by apply bool_decide_eq_true.
Qed.

(** An ordinary lookup: none of the creating flags, links are followed. *)
Definition plain_lookup (options : Z) : Prop :=
  contains options OpenOptions_NO_FOLLOW_LINK = false ∧
  intersects options (foldr Z.lor 0 [OpenOptions_CREATE_ALL; OpenOptions_CREATE_DIR;
                                      OpenOptions_CREATE_LINK; OpenOptions_CREATE]) = false.

Lemma intersects_bit options mask i :
  0 ≤ i → intersects options mask = false → Z.testbit mask i = true →
  Z.testbit options i = false.
Proof.
  unfold intersects. intros Hi H%negb_false_iff%Z.eqb_eq Hm.
  apply (f_equal (λ z, Z.testbit z i)) in H.
  rewrite Z.land_spec, Z.bits_0, Hm, andb_true_r in H. done.
Qed.

Lemma plain_lookup_flags options :
  plain_lookup options →
  contains options OpenOptions_CREATE_DIR = false ∧
  contains options OpenOptions_CREATE_LINK = false ∧
  intersects options (Z.lor OpenOptions_CREATE_ALL OpenOptions_CREATE) = false ∧
  intersects options
    (Z.lor (Z.lor (Z.lor OpenOptions_CREATE_ALL OpenOptions_CREATE_DIR)
              OpenOptions_CREATE_LINK) OpenOptions_CREATE) = false.
Proof.
  intros [_ H]. split; [|split; [|split]].
  - change OpenOptions_CREATE_DIR with (2 ^ 5). rewrite contains_bit by done.
    by apply (intersects_bit _ _ 5 ltac:(lia) H).
  - change OpenOptions_CREATE_LINK with (2 ^ 7). rewrite contains_bit by done.
    by apply (intersects_bit _ _ 7 ltac:(lia) H).
  - unfold intersects in *. apply negb_false_iff, Z.eqb_eq in H.
    apply negb_false_iff, Z.eqb_eq.
    rewrite <- (Z.land_0_l (Z.lor OpenOptions_CREATE_ALL OpenOptions_CREATE)), <- H.
    rewrite <- Z.land_assoc. reflexivity.
  - exact H.
Qed.

(** [open] keeps the write guard of the directory while it follows
    a link found there.  Hence a link in the root directory of a mounted
    RamFS that leads to any path below the same mount can never be opened:
    the resolution of its target needs the guard that is already held, and
    the call blocks forever. *)
Lemma link_in_root_blocks {prof : Profile} path options w root sub rf d l lrf target post :
  held w = [] → plain_lookup options →
  is_empty path = false →
  deepest_matching_mount path w = Ret (w, Ok (RamFSObj root, sub)) →
  parent sub = Some [] → ends_with_sep sub = false →
  store w !! root = Some rf → node rf = NDir d → perm_x (permissions (stat rf)) = true →
  im_get d (file sub) = Some l → store w !! l = Some lrf → node lrf = SoftLink target →
  is_empty target = false →
  deepest_matching_mount target w = Ret (w, Ok (RamFSObj root, post)) →
  parent post ≠ None →
  VFS.open path options w = Blocked.
Proof.
  intros Hh Hpl He Hm Hpar Hsep Hr Hn Hx Hg Hl Hln Het Hmt Hpost.
  destruct (plain_lookup_flags _ Hpl) as (Hcd & Hcl & Hca & Hc). destruct Hpl as [Hnf _].
  assert (Hlr : l ≠ root) by congruence.
  unfold VFS.open, mthen. rewrite fs_open_eq.
  cbn [VFS_open]. rewrite He. unfold mthen at 1. rewrite Hm. cbn [fst snd].
  unfold RamFS_open at 1. rewrite Hpar. unfold mthen at 1.
  change (RamFS_traverse root [] options w) with (@Ret (World * Result FSError ptr) (w, Ok root)).
  cbn iota beta. unfold with_lock, acquire. rewrite Hh. simpl conflicts. cbn iota.
  rewrite Hr. cbn [obind fst snd]. unfold open_in. rewrite Hn, Hx, Hc. cbn [negb andb].
  rewrite Hsep, Hcd, Hcl, Hca. unfold open_existing. rewrite Hg, Hnf. unfold mthen at 1.
  unfold with_lock, acquire. cbn [held set_held conflicts].
  rewrite bool_decide_false by set_solver. cbn [store set_held]. rewrite Hl.
  cbn [obind fst snd]. rewrite Hln. unfold mthen at 1.
  set (w2 := set_held (set_held w _) _).
  assert (Hd2 : deepest_matching_mount target w2 = Ret (w2, Ok (RamFSObj root, post))).
  { unfold deepest_matching_mount in *. change (mounts w2) with (mounts w).
    destruct (find_mount (mounts w) target (ancestors target)) as [[[fs0 post0]|]| | |];
      simpl in Hmt |- *; congruence. }
  rewrite Het. unfold mthen at 1. rewrite Hd2. cbn [fst snd].
  rewrite open_below_blocked; [done| |done].
  unfold w2. cbn. set_solver.
Qed.

(** /ram/l is a link to the file /ram/a. *)
Definition link_world : World :=
  match symlink (prof := Release) (lit "/ram/l") (lit "/ram/a") sample_world with
  | Ret (w, _) => w
  | _ => sample_world
  end.

Lemma link_in_root_blocks_witness :
  VFS.open (prof := Release) (lit "/ram/l") OpenOptions_READ link_world = Blocked.
Proof.
  eapply (link_in_root_blocks (lit "/ram/l") OpenOptions_READ link_world 1 (lit "/l"));
    try (vm_compute; reflexivity).
  - split; reflexivity.
  - vm_compute. discriminate.
Defined.

(** Opening a directory by a path with a trailing separator returns the directory
    itself; asking to append makes the file query the status of the directory
    whose write guard [open] still holds, and asking to write and
    truncate makes it take that guard again: both calls block forever. *)
Theorem trailing_slash_blocks {prof : Profile} go dir path options rf d w :
  node rf = NDir d →
  ends_with_sep path = true → perm_x (permissions (stat rf)) = true →
  perm_w (permissions (stat rf)) = true →
  chk_perms options (permissions (stat rf)) = Ok tt →
  conflicts LWrite dir (held w) = false → store w !! dir = Some rf →
  (contains options OpenOptions_APPEND = true ∨
   contains options OpenOptions_WRITE && contains options OpenOptions_TRUNCATE = true) →
  with_lock LWrite dir (open_in go dir path options) w = Blocked.
Proof.
  intros Hn Hsep Hx Hw Hchk Hc Hs Hopt.
  destruct (FPerms_from_bits options) as (_ & _ & Happ & _).
  pose proof (FPerms_from_write_truncate options) as Hwt.
  unfold with_lock at 1. rewrite (acquire_ok _ _ _ rf) by done. cbn [obind fst snd].
  set (w1 := set_held w _).
  assert (Hin : (LWrite, dir) ∈ held w1) by (cbn; set_solver).
  unfold open_in. rewrite Hn, Hx, Hw, Hsep, Hchk. cbn [negb andb]. rewrite andb_false_r.
  unfold mthen at 1. cbn [mlift]. unfold with_perms.
  change (Z.lor (perms (as_file dir)) (FPerms_from options)) with (FPerms_from options).
  cbn [set_perms perms]. rewrite Happ. unfold mthen at 1.
  destruct (contains options OpenOptions_APPEND).
  - simpl. unfold mthen, ram_fstat. rewrite lock_blocked; [done|]. by apply bool_decide_eq_true.
  - destruct Hopt as [|Hopt]; [done|]. cbn. rewrite Hwt, Hopt.
    unfold ram_clear. rewrite lock_blocked; [done|].
    apply orb_true_iff. left. by apply bool_decide_eq_true.
Qed.

Lemma trailing_slash_blocks_witness :
  with_lock LWrite 1 (open_in (prof := Dev) (λ _ _, mpanic) 1 (lit "/")
                        (with_append OpenOptions_READ)) (init_world 0) = Blocked.
Proof.
  eapply (trailing_slash_blocks (λ _ _, mpanic) 1 (lit "/") (with_append OpenOptions_READ)
           (RamFile_new 0 RamNode_dir perms_rwx) []); try reflexivity.
  left. reflexivity.
Defined.

(** ** Descriptors *)

(** [write] checks that the descriptor may write, [write_all] goes
    straight to the node: through a descriptor without write permission
    [write] is denied while [write_all] stores the data. *)
Lemma write_all_unchecked {prof : Profile} (file : File Repr) p rf f buf offset w :
  repr file = Shared (RamRepr p) → may_write file = false →
  conflicts LWrite p (held w) = false → store w !! p = Some rf → node rf = NFile f →
  0 ≤ offset → offset + zlen buf ≤ ISIZE_MAX → zlen f ≤ ISIZE_MAX → buf ≠ [] →
  File_write file buf offset w = Ret (w, Err (simple PermissionDenied)) ∧
  ∃ w', File_write_all file buf offset w = Ret (w', Ok tt) ∧
        node <$> store w' !! p = Some (NFile (written f buf offset)).
Proof.
  intros Hr Hmw Hc Hs Hn Ho Hb Hf Hne. split.
  { unfold File_write. by rewrite Hmw. }
  unfold File_write_all. rewrite Hr. simpl. unfold ram_write_all.
  destruct buf as [|b buf]; [done|]. cbn [length write_all].
  unfold mthen. rewrite (ram_write_ok _ _ _ rf f) by done.
  rewrite decide_False by (unfold zlen; simpl; lia). rewrite decide_False by lia.
  unfold uadd. rewrite uarith_in_range.
  2:{ assert (ISIZE_MAX < USIZE_MAX) by reflexivity. unfold in_usize.
      pose proof (zlen_nonneg (b :: buf)). lia. }
  cbn [obind]. rewrite drop_ge by (unfold zlen; simpl; lia).
  eexists. split; [destruct (length buf); reflexivity|].
  cbn [store set_store]. by rewrite lookup_insert_eq.
Qed.

(** The file system with "ab" in the node 1. *)
Lemma write_all_unchecked_witness :
  ∃ w', File_write_all (H := Repr_FileRepr (prof := Release))
          (mkFile (Shared (RamRepr 1)) FCursor_default FPerms_READ None)
          (lit "xy") 0 (one_file (lit "ab")) = Ret (w', Ok tt) ∧
        node <$> store w' !! 1%positive = Some (NFile (lit "xy")).
Proof.
  apply (write_all_unchecked (prof := Release)
    (mkFile (Shared (RamRepr 1)) FCursor_default FPerms_READ None) 1
    (mkRamFile (NFile (lit "ab")) (set_size (new_fstat 0) 2)) (lit "ab"));
    try reflexivity; vm_compute; discriminate.
Defined.

(** C40: writing a file piece by piece through its cursor stores the same
    bytes as writing the concatenation at once, and the cursor ends behind
    the last byte. *)
Theorem write_continuous_stream {prof : Profile} (file : File Repr) p rf f a b w :
  repr file = Shared (RamRepr p) → may_write file = true →
  conflicts LWrite p (held w) = false → store w !! p = Some rf → node rf = NFile f →
  let c := cursor_get (cursor file) in
  0 ≤ c → c + zlen a + zlen b ≤ ISIZE_MAX → zlen f ≤ ISIZE_MAX →
  ∃ w' file',
    (let? n := write_continuous a in let? m := write_continuous b in mok (n + m)) (w, file)
      = Ret ((w', file'), Ok (zlen (a ++ b))) ∧
    node <$> store w' !! p = Some (NFile (written f (a ++ b) c)) ∧
    cursor file' = mkFCursor (c + zlen (a ++ b)).
Proof.
  intros Hr Hmw Hc Hs Hn c Hc0 Hb Hf.
  pose proof (zlen_nonneg a). pose proof (zlen_nonneg b).
  assert (HU : ISIZE_MAX < USIZE_MAX) by reflexivity.
  assert (Hadv : ∀ x n, 0 ≤ x → 0 ≤ n → x + n ≤ ISIZE_MAX →
                   advance (mkFCursor x) n = mkFCursor (x + n)).
  { intros x n ? ? ?. unfold advance, wrap64, wrap. cbn [inner].
    rewrite Z.mod_small; [done|]. unfold ISIZE_MAX in *. lia. }
  assert (Hcur : cursor file = mkFCursor c) by (unfold c; by destruct (cursor file)).
  unfold mthen at 1. unfold write_continuous at 1. cbn beta iota.
  unfold File_write at 1. rewrite Hmw, Hr. cbn [negb deref fr_write Repr_FileRepr].
  fold c. rewrite (ram_write_ok _ _ _ rf f) by (done || lia). cbn [obind].
  unfold mthen at 1. unfold write_continuous at 1. cbn beta iota.
  unfold File_write at 1.
  change (may_write (mkFile (Shared (RamRepr p)) (advance (cursor file) (zlen a)) (perms file) (path file)))
    with (may_write file).
  rewrite Hmw. cbn [negb deref fr_write Repr_FileRepr repr cursor perms path].
  rewrite Hcur, Hadv by lia. cbn [cursor_get inner].
  rewrite (ram_write_ok _ _ _ (mkRamFile (NFile (written f a c))
    (set_t_mod (set_size (stat rf) (zlen (written f a c))) (now w))) (written f a c)).
  - cbn [obind]. rewrite Hadv by lia. rewrite zlen_app. eexists _, _. split; [reflexivity|].
    cbn [store set_store]. rewrite lookup_insert_eq. cbn [cursor].
    split; [|f_equal; lia]. simpl. by rewrite written_app.
  - done.
  - cbn [store set_store]. apply lookup_insert_eq.
  - done.
  - lia.
  - lia.
  - rewrite zlen_written by done. lia.
Qed.

Lemma write_continuous_stream_witness :
  ∃ w' file',
    (let? n := write_continuous (H := Repr_FileRepr (prof := Dev)) (lit "ab") in
     let? m := write_continuous (H := Repr_FileRepr (prof := Dev)) (lit "cd") in
     mok (n + m))
      (one_file [], mkFile (Shared (RamRepr 1)) FCursor_default FPerms_WRITE None)
      = Ret ((w', file'), Ok 4) ∧
    node <$> store w' !! 1%positive = Some (NFile (lit "abcd")) ∧
    cursor file' = mkFCursor 4.
Proof.
  apply (write_continuous_stream (prof := Dev)
    (mkFile (Shared (RamRepr 1)) FCursor_default FPerms_WRITE None) 1
    (mkRamFile (NFile []) (set_size (new_fstat 0) 0)) [] (lit "ab") (lit "cd"));
    try reflexivity; vm_compute; discriminate.
Defined.

(** ** The invariant under I/O *)

(** A guarded body that ends in one assignment keeps the invariant when the
    new node is well formed. *)
Lemma put_keeps_wf w p rf rf' :
  wf w → store w !! p = Some rf → wf_node w rf' →
  wf (set_store w (<[p := rf']> (store w))).
Proof.
  intros Hw Hs Hn. by apply wf_insert; [|exists rf|].
Qed.

Lemma wf_node_same_kind w rf st :
  wf_node w rf → node_type st = node_type (stat rf) → size st = size (stat rf) →
  wf_node w (mkRamFile (node rf) st).
Proof. unfold wf_node. simpl. intros H -> ->. by destruct (node rf). Qed.

Lemma data_write_Ret prof f buf offset f' n :
  in_usize offset → zlen buf ≤ ISIZE_MAX → zlen f ≤ ISIZE_MAX →
  data_write prof f buf offset = Ret (f', n) → zlen f' ≤ ISIZE_MAX.
Proof.
  intros Ho Hb Hf Hd. destruct (decide (offset + zlen buf ≤ ISIZE_MAX)) as [Hle|Hgt].
  - rewrite data_write_ok in Hd by (unfold in_usize in Ho; lia). simplify_eq.
    rewrite zlen_written by (unfold in_usize in Ho; lia). lia.
  - rewrite data_write_far in Hd by (done || lia). done.
Qed.

(** C39: writing, truncating and changing permissions keep the invariant:
    the recorded size stays the length of the data, the type and the entries
    of every node stay consistent; all guards are released. *)
Theorem node_io_preserves_wf prof p w w' :
  wf w →
  (∀ buf offset n, in_usize offset → zlen buf ≤ ISIZE_MAX →
     ram_write prof p buf offset w = Ret (w', n) → wf w' ∧ held w' = held w) ∧
  (∀ r, ram_clear p w = Ret (w', r) → wf w' ∧ held w' = held w) ∧
  (∀ perms strategy r, ram_update_perms p perms strategy w = Ret (w', r) →
     wf w' ∧ held w' = held w).
Proof.
  intros Hw. split; [|split].
  - intros buf offset n Ho Hb (rf & w1 & Hs & _ & Hr & ->)%with_lock_inv.
    destruct (Hw _ _ Hs) as [_ Hn]. unfold wf_node in Hn. unfold mthen in Hr.
    destruct (node rf) as [l|f|d] eqn:Hnode; simpl in Hr.
    + destruct (utf8_valid buf); injection Hr as <- _; [|by rewrite release_push].
      split; [|done]. by apply (put_keeps_wf w p rf).
    + destruct (data_write prof f buf offset) as [[f' k]| | |] eqn:Hd; try done.
      simpl in Hr. injection Hr as <- _. split; [|done].
      apply (put_keeps_wf w p rf); [done|done|].
      repeat split; [tauto|]. simpl. eapply data_write_Ret; [| | |exact Hd]; tauto.
    + injection Hr as <- _. by rewrite release_push.
  - intros r (rf & w1 & Hs & _ & Hr & ->)%with_lock_inv.
    destruct (Hw _ _ Hs) as [_ Hn]. unfold wf_node in Hn.
    destruct (node rf) as [l|f|d] eqn:Hnode; injection Hr as <- _;
      try by rewrite release_push.
    split; [|done]. apply (put_keeps_wf w p rf); [done|done|]. repeat split; [tauto|done].
  - intros perms strategy r (rf & w1 & Hs & _ & Hr & ->)%with_lock_inv.
    destruct (Hw _ _ Hs) as [_ Hn]. injection Hr as <- _. split; [|done].
    apply (put_keeps_wf w p rf); [done|done|]. by apply wf_node_same_kind.
Qed.

Lemma node_io_preserves_wf_witness :
  ∃ w', ram_write Release 2 (lit "hi") 0 sample_world = Ret (w', Ok 2) ∧ wf w'.
Proof.
  destruct (ram_write Release 2 (lit "hi") 0 sample_world) as [[w' r]| | |] eqn:Hr;
    try (vm_compute in Hr; discriminate Hr).
  exists w'. split.
  - vm_compute in Hr. injection Hr as <- <-. reflexivity.
  - destruct (node_io_preserves_wf Release 2 sample_world w' sample_world_wf) as [H _].
    apply (H (lit "hi") 0 r); [| |exact Hr].
    + vm_compute. intuition discriminate.
    + vm_compute. discriminate.
Defined.
