(* ===== verification/ProcFS.v ===== *)
(** The process file system and the device registry
    (kernel/src/kernel/fs/procfs/mod.rs and register.rs).

    The registry maps paths to devices; [ProcFS] is a tree of nodes that is
    filled from it on demand: opening a path that is not in the tree yet asks
    the registry and keeps the answer as a node.  [Arc<ProcFile>] is a pointer
    into a store.  The guards of [DirData::inner] and of
    [DeviceRegistry::devices] never outlive the statement that takes them
    (edition 2024 drops the guard of an [if let] before its [else]), [flush]
    apart, which holds a read guard of the registry around write guards of a
    directory; no call blocks on a lock it holds itself, so locks are not part
    of the state.

    Devices are values of a type [D] with a [FileRepr] instance over a state
    [DS]; the two devices the module itself defines, [Null] and the registry,
    are added to them. *)
From S2P Require Import Prelude Abi Path Io Fd Listing RamFile FsRepr RamFS.
Open Scope Z_scope.

(** ** State *)

(** A [MaybeRefCounted] device: shared or borrowed forever. *)
Inductive MaybeRefCounted (T : Type) : Type :=
| MArc (t : T)
| MRef (t : T).
Arguments MArc {T} t.
Arguments MRef {T} t.

Definition MaybeRefCounted_deref {T} (self : MaybeRefCounted T) : T :=
  match self with MArc t => t | MRef t => t end.

(** [dyn FileRepr] as far as this module knows it. *)
Inductive Device (D : Type) : Type :=
| Null
| DeviceRegistry
| ExtDevice (d : D).
Arguments Null {D}.
Arguments DeviceRegistry {D}.
Arguments ExtDevice {D} d.

Abbreviation DirInner := (list (str * ptr)).

Inductive ProcNode (D : Type) : Type :=
| PDir (inner : DirInner)
| PFile (f : MaybeRefCounted (Device D)).
Arguments PDir {D} inner.
Arguments PFile {D} f.

(** [DeviceEntry] wraps its device. *)
Record DeviceEntry (D : Type) : Type := mkDeviceEntry {
  device : MaybeRefCounted (Device D)
}.
Arguments mkDeviceEntry {D} _.
Arguments device {D} _.

Record PWorld (DS D : Type) : Type := mkPWorld {
  nodes : gmap ptr (ProcNode D);
  pnext : ptr;
  devices : gmap str (DeviceEntry D);
  clock : Z;
  dev_state : DS
}.
Arguments mkPWorld {DS D} _ _ _ _ _.
Arguments nodes {DS D} _.
Arguments pnext {DS D} _.
Arguments devices {DS D} _.
Arguments clock {DS D} _.
Arguments dev_state {DS D} _.

#[export] Instance MaybeRefCounted_eq_dec {T} `{EqDecision T} : EqDecision (MaybeRefCounted T).
Proof. solve_decision. Defined.
#[export] Instance Device_eq_dec {D} `{EqDecision D} : EqDecision (Device D).
Proof. solve_decision. Defined.
#[export] Instance ProcNode_eq_dec {D} `{EqDecision D} : EqDecision (ProcNode D).
Proof. solve_decision. Defined.
#[export] Instance DeviceEntry_eq_dec {D} `{EqDecision D} : EqDecision (DeviceEntry D).
Proof. solve_decision. Defined.

Section procfs.
Context {prof : Profile} {DS D : Type} `{DevRepr : FileRepr DS D}.
Abbreviation PW := (PWorld DS D).
Abbreviation Dev := (MaybeRefCounted (Device D)).
Abbreviation Node := (ProcNode D).
Abbreviation Entry := (DeviceEntry D).
Implicit Types (w : PW) (p dir : ptr).

Definition set_nodes (w : PW) (n : gmap ptr Node) : PW :=
  mkPWorld n (pnext w) (devices w) (clock w) (dev_state w).
Definition set_devices (w : PW) (d : gmap str Entry) : PW :=
  mkPWorld (nodes w) (pnext w) d (clock w) (dev_state w).
Definition set_dev_state (w : PW) (s : DS) : PW :=
  mkPWorld (nodes w) (pnext w) (devices w) (clock w) s.

(** An operation of a device runs on its own state. *)
Definition on_dev {A} (m : M DS FSError A) : M PW FSError A :=
  λ w, let! r := m (dev_state w) in Ret (set_dev_state w (fst r), snd r).

Definition on_dev_buf {A} (m : M (DS * list u8) FSError A) : M (PW * list u8) FSError A :=
  λ '(w, buf),
    let! r := m (dev_state w, buf) in
    let '((s, buf), res) := r in Ret ((set_dev_state w s, buf), res).

(** ** Devices of the module: [Null], [DeviceRegistry], [DeviceEntry] *)

Definition Null_fstat : M PW FSError FStat := mok (set_size FStat_default 0).
Definition Null_read : Reader PW := λ offset, merr (simple NotSupported).
Definition Null_write : Writer PW := λ buf offset, merr (simple NotSupported).

Definition DeviceRegistry_fstat : M PW FSError FStat :=
  λ w, Ret (w, Ok (set_node_type (new_fstat (clock w)) NodeType_DIR)).
(** Reading and writing the registry are [todo!()]. *)
Definition DeviceRegistry_read : Reader PW := λ offset, mpanic.
Definition DeviceRegistry_write : Writer PW := λ buf offset, mpanic.

Definition DeviceEntry_fstat (self : Entry) : M PW FSError FStat :=
  λ w, Ret (w, Ok (set_node_type (new_fstat (clock w)) NodeType_FILE)).
Definition DeviceEntry_read (self : Entry) : Reader PW := λ offset, mpanic.
Definition DeviceEntry_write (self : Entry) : Writer PW := λ buf offset, mpanic.

Definition Device_fstat (d : Device D) : M PW FSError FStat :=
  match d with
  | Null => Null_fstat
  | DeviceRegistry => DeviceRegistry_fstat
  | ExtDevice d => on_dev (fr_fstat d)
  end.

Definition Device_read (d : Device D) : Reader PW :=
  match d with
  | Null => Null_read
  | DeviceRegistry => DeviceRegistry_read
  | ExtDevice d => λ offset, on_dev_buf (fr_read d offset)
  end.

Definition Device_write (d : Device D) : Writer PW :=
  match d with
  | Null => Null_write
  | DeviceRegistry => DeviceRegistry_write
  | ExtDevice d => λ buf offset, on_dev (fr_write d buf offset)
  end.

(** ** Nodes *)

Definition ProcNode_new_dir : Node := PDir [].
Definition ProcNode_new_file (file : Dev) : Node := PFile file.

Definition ProcFile_is_dir (n : Node) : bool :=
  match n with PDir _ => true | _ => false end.

(** [ProcFilePtr::new]. *)
Definition alloc_node {E} (n : Node) : M PW E ptr :=
  λ w, Ret (mkPWorld (<[pnext w := n]> (nodes w)) (Pos.succ (pnext w))
              (devices w) (clock w) (dev_state w), Ok (pnext w)).

Definition proc_file {E} (device_file : Dev) : M PW E ptr :=
  alloc_node (ProcNode_new_file device_file).
Definition empty_proc_file {E} : M PW E ptr := proc_file (MRef Null).
Definition proc_dir {E} : M PW E ptr := alloc_node ProcNode_new_dir.

(** The node behind an [Arc]; a pointer outside the store is the outcome
    [Panic], which [proc_wf] excludes. *)
Definition node_of {E} (p : ptr) : M PW E Node :=
  λ w, match nodes w !! p with Some n => Ret (w, Ok n) | None => Panic end.

(** [with_dir]: the closure gets the directory behind the pointer. *)
Definition with_proc_dir {R} (parent : ptr) (func : ptr → DirInner → M PW FSError R)
    : M PW FSError R :=
  let? n := node_of parent in
  match n with
  | PDir d => func parent d
  | PFile _ => merr (simple InvalidPath)
  end.

(** Assignment through the write guard of a directory. *)
Definition put_inner {E} (dir : ptr) (d : DirInner) : M PW E unit :=
  λ w, Ret (set_nodes w (<[dir := PDir d]> (nodes w)), Ok tt).

(** ** [DirData] *)

Definition proc_ensure_entry (name : str) (f : M PW FSError ptr) (dir : ptr) (d : DirInner)
    : M PW FSError ptr :=
  match im_get d name with
  | Some p => mok p
  | None => let? p := f in let? _ := put_inner dir (im_push d name p) in mok p
  end.

Definition proc_get_entry (name : str) (dir : ptr) (d : DirInner) : M PW FSError ptr :=
  mlift (ok_or (simple NotFound) (im_get d name)).

(** ** The registry *)

Definition DeviceExists : str :=
  lit "the device is already registered. the old device was swapped out and returned".

Definition registry_register (dev : Dev) (path : str) : M PW FSError unit :=
  λ w,
    let w' := set_devices w (<[path := mkDeviceEntry dev]> (devices w)) in
    match devices w !! path with
    | None => Ret (w', Ok tt)
    | Some _ => Ret (w', Err (custom AlreadyExists DeviceExists))
    end.

Definition registry_get (path : str) : M PW FSError Entry :=
  λ w, Ret (w, ok_or (simple NotFound) (devices w !! path)).

(** [self.devices.write().insert(..).ok_or(AlreadyExists)?]. *)
Definition put_back (path : str) (dev : Entry) : M PW FSError unit :=
  λ w, Ret (set_devices w (<[path := dev]> (devices w)),
            match devices w !! path with
            | Some _ => Ok tt
            | None => Err (simple AlreadyExists)
            end).

(** [vfs] is [VFS.get()]: the [unlink] of the mounted file systems, once they
    exist; [UnlinkOptions::empty()] is 0. *)
Definition deregister (vfs : option (str → Z → M PW FSError unit)) (path : str)
    : M PW FSError Entry :=
  λ w,
    match devices w !! path with
    | None => Ret (w, Err (simple InvalidPath))
    | Some dev =>
        let w := set_devices w (delete path (devices w)) in
        match vfs with
        | None => Ret (w, Ok dev)
        | Some unlink =>
            let! r := unlink path 0 w in
            match snd r with
            | Ok _ => Ret (fst r, Ok dev)
            | Err err =>
                match kind err with
                | PermissionDenied =>
                    (let? _ := put_back path dev in
                     merr (simple PermissionDenied)) (fst r)
                | NotFound => Ret (fst r, Ok dev)
                | e => (let? _ := put_back path dev in merr (simple e)) (fst r)
                end
            end
        end
    end.

(** [init]: the registry is its own first device. *)
Definition registry_path : str := lit "/self/registry".

Definition procfs_init : M PW FSError unit :=
  λ w, let! r := registry_register (MRef DeviceRegistry) registry_path w in
       Ret (fst r, Ok tt).

(** Look the name up in the directory, then in the registry. *)
Definition get_or_update (path name : str) (dir : ptr) (d : DirInner) : M PW FSError ptr :=
  match im_get d name with
  | Some node => mok node
  | None =>
      let? entry := registry_get path in
      let? node := proc_file (device entry) in
      let? _ := put_inner dir (im_insert d name node) in
      mok node
  end.

(** ** Listings *)

Definition bufferd_display (d : DirInner) (buf : list u8) (offset : Z)
    : Outcome (list u8 * (Z * bool)) :=
  buffered_display (im_keys d) buf offset.

Definition ProcDir_fmt (d : DirInner) : Outcome str :=
  fmt_loop (listing_fuel (im_keys d)) (im_keys d) (replicate 10 zero) 0 [].

Definition read_dir (d : DirInner) (buf : list u8) : Outcome (list u8 * Z) :=
  let! r := bufferd_display d buf 0 in Ret (fst r, fst (snd r)).

(** ** [FileRepr], [Read] and [Write] for [ProcFile] *)

Definition ProcFile_fstat (self : ptr) : M PW FSError FStat :=
  let? n := node_of self in
  match n with
  | PDir _ => mok (set_node_type FStat_default NodeType_DIR)
  | PFile f =>
      let? stat := Device_fstat (MaybeRefCounted_deref f) in
      mok (set_node_type stat NodeType_FILE)
  end.

Definition ProcFile_read (self : ptr) : Reader PW := λ offset '(w, buf),
  match nodes w !! self with
  | None => Panic
  | Some (PDir d) =>
      let! r := read_dir d buf in Ret ((w, fst r), Ok (snd r))
  | Some (PFile f) => Device_read (MaybeRefCounted_deref f) offset (w, buf)
  end.

(** The outer [loop] of the [File] arm is left in its first round. *)
Definition ProcFile_read_to_end (fuel : nat) (self : ptr) : Reader PW := λ offset '(w, buf),
  match nodes w !! self with
  | None => Panic
  | Some (PDir d) =>
      let! bytes := ProcDir_fmt d in
      Ret ((w, buf ++ bytes), Ok (zlen bytes))
  | Some (PFile _) => read_to_end prof fuel (ProcFile_read self) offset (w, buf)
  end.

Definition ProcFile_write (self : ptr) : Writer PW := λ buf offset,
  let? n := node_of self in
  match n with
  | PDir _ => merr (simple NotSupported)
  | PFile f => Device_write (MaybeRefCounted_deref f) buf offset
  end.

#[export] Instance ProcFile_FileRepr (fuel : nat) : FileRepr PW ptr := {
  fr_fstat := ProcFile_fstat;
  fr_update_perms _ := default_update_perms;
  fr_clear _ := default_clear;
  fr_read := ProcFile_read;
  fr_read_to_end := ProcFile_read_to_end fuel;
  fr_write := ProcFile_write;
  fr_write_all r buf offset := write_all prof (length buf) (ProcFile_write r) buf offset;
  fr_on_open _ := default_hook;
  fr_on_clone _ := default_hook;
  fr_on_drop _ := default_hook;
  fr_on_close _ := default_hook
}.

Definition as_proc_file (p : ptr) : File ptr := FileBuilder_new (Shared p).

(** ** [ProcFS]: its state is the root node *)

Definition ProcFS_new {E} : M PW E ptr := proc_dir.

(** The component lookup of [traverse]. *)
Definition proc_step (create : bool) (dir : ptr) (name : str) : M PW FSError ptr :=
  if create then with_proc_dir dir (proc_ensure_entry name proc_dir)
  else with_proc_dir dir (proc_get_entry name).

(** The [for] loop of [traverse]. *)
Fixpoint proc_walk (create : bool) (components : list str) (current_dir : ptr)
    : M PW FSError ptr :=
  match components with
  | [] => mok current_dir
  | component :: components =>
      let? child := proc_step create current_dir component in
      let? n := node_of child in
      if negb (ProcFile_is_dir n) then merr (simple InvalidPath)
      else proc_walk create components child
  end.

Definition ProcFS_traverse (root : ptr) (path : str) (create : bool) : M PW FSError ptr :=
  match parent path with
  | None => mok root
  | Some par =>
      let? current_dir := proc_walk create (drop 1 (traverse par)) root in
      proc_step create current_dir (file path)
  end.

(** [as_file(..).with_perms(options)]. *)
Definition proc_open_node (p : ptr) (options : Z) : M PW FSError (File ptr) :=
  @with_perms PW ptr (ProcFile_FileRepr 0) (as_proc_file p) (FPerms_from options).

Definition ProcFS_open (root : ptr) (path : str) (options : Z) : M PW FSError (File ptr) :=
  match parent path with
  | None => proc_open_node root options
  | Some par =>
      let create_all := contains options OpenOptions_CREATE_ALL in
      let? dir := ProcFS_traverse root par create_all in
      let? n := node_of dir in
      match n with
      | PFile _ => merr (simple InvalidPath)
      | PDir d =>
          if ends_with_sep path then proc_open_node dir options
          else if contains options OpenOptions_CREATE_DIR then
            let? child := proc_ensure_entry (file path) proc_dir dir d in
            proc_open_node child options
          else
            let? entry := get_or_update path (file path) dir d in
            proc_open_node entry options
      end
  end.

Definition proc_remove (name : str) (dir : ptr) (d : DirInner) : M PW FSError ptr :=
  match im_get d name with
  | None => merr (simple NotFound)
  | Some p => let? _ := put_inner dir (im_swap_remove d name) in mok p
  end.

Definition ProcFS_unlink (root : ptr) (path : str) (options : Z) : M PW FSError (File ptr) :=
  let? dir :=
    (match parent path with
     | Some par =>
         if ends_with_sep path then
           if contains options UnlinkOptions_RECURSIVE
           then ProcFS_traverse root par false
           else merr (simple PermissionDenied)
         else ProcFS_traverse root par false
     | None =>
         if contains options
              (Z.lor (Z.lor UnlinkOptions_NO_PRESERVE_ROOT UnlinkOptions_FORCE)
                 UnlinkOptions_RECURSIVE)
         then mok root else merr (simple PermissionDenied)
     end) in
  let? child := with_proc_dir dir (proc_get_entry (file path)) in
  let? n := node_of child in
  let? removed :=
    (match n with
     | PDir _ =>
         if contains options UnlinkOptions_RECURSIVE
         then with_proc_dir dir (proc_remove (file path))
         else merr (simple PermissionDenied)
     | PFile _ => with_proc_dir dir (proc_remove (file path))
     end) in
  mok (as_proc_file removed).

(** The name under which [flush] enters a device, if any. *)
Definition flush_name (path device_path : str) : option str :=
  postfix ← strip_prefix device_path path;
  if ends_with_sep path then str_strip_prefix (lit "/") postfix else Some postfix.

(** The [for] loop of [flush] over the registry, in the order of the map. *)
Fixpoint flush_loop (node : ptr) (path : str) (devs : list (str * Entry))
    : M PW FSError unit :=
  match devs with
  | [] => mok tt
  | (device_path, entry) :: devs =>
      let? _ :=
        (match flush_name path device_path with
         | None => mok tt
         | Some name =>
             let? p := proc_file (device entry) in
             with_proc_dir node (λ dir d, put_inner dir (im_insert d name p))
         end) in
      flush_loop node path devs
  end.

Definition ProcFS_flush (root : ptr) (path : str) : M PW FSError unit :=
  let? node := ProcFS_traverse root path true in
  let? n := node_of node in
  match n with
  | PFile _ => merr (simple NotADir)
  | PDir _ => λ w, flush_loop node path (map_to_list (devices w)) w
  end.

(** [FileRepr], [Read] and [Write] for [ProcFS]. *)
Definition ProcFS_fstat : M PW FSError FStat :=
  λ w, Ret (w, Ok (set_node_type (new_fstat (clock w)) NodeType_MOUNT)).
Definition ProcFS_read : Reader PW := λ offset '(w, buf),
  let bytes := lit "ProcFS" in
  let len := Z.min (zlen bytes) (zlen buf) in
  Ret ((w, fill buf (take (Z.to_nat len) bytes)), Ok len).
Definition ProcFS_write : Writer PW := λ buf offset, merr (simple NotSupported).

End procfs.
