(* ===== verification/ProcProps.v ===== *)
(** Properties of the process file system (ProcFS.v): the tree of nodes stays
    well formed under every operation, lookups agree with the tree, and the
    registry answers what the tree does not know. *)
From S2P Require Import Prelude Abi Path Io Fd Listing RamFile FsRepr RamFS VFS ProcFS.
Open Scope Z_scope.

(** [fstat] returns: its signature has no error, so a device promises this. *)
Class FstatTotal (DS D : Type) `{FileRepr DS D} : Prop :=
  fstat_total : ∀ (d : D) (s : DS), ∃ s' st, fr_fstat d s = Ret (s', Ok st).

Section procprops.
Context {prof : Profile} {DS D : Type} `{DevRepr : FileRepr DS D}.
Abbreviation PW := (PWorld DS D).
Implicit Types (w : PW) (p dir root : ptr).

(** ** The invariant: a forest of nodes below the root *)
Record proc_wf (root : ptr) (w : PW) : Prop := {
  wf_root : ∃ d, nodes w !! root = Some (PDir d);
  wf_next : ∀ p, is_Some (nodes w !! p) → (p < pnext w)%positive;
  wf_keys : ∀ p d, nodes w !! p = Some (PDir d) → NoDup (im_keys d);
  wf_child : ∀ p d k c, nodes w !! p = Some (PDir d) → (k, c) ∈ d →
    (p < c)%positive ∧ is_Some (nodes w !! c);
  wf_parent : ∀ p d k p' d' k' c,
    nodes w !! p = Some (PDir d) → nodes w !! p' = Some (PDir d') →
    (k, c) ∈ d → (k', c) ∈ d' → p = p' ∧ k = k'
}.

(** What never changes: a node keeps its kind and a file its device. *)
Definition ext (w w' : PW) : Prop :=
  ∀ p n, nodes w !! p = Some n →
    match n with
    | PDir _ => ∃ d, nodes w' !! p = Some (PDir d)
    | PFile f => nodes w' !! p = Some (PFile f)
    end.

#[export] Instance ext_preorder : PreOrder ext.
Proof.
  split.
  - intros w p [d|f] Hp; eauto.
  - intros w1 w2 w3 H1 H2 p [d|f] Hp.
    + destruct (H1 _ _ Hp) as [d' Hd]. exact (H2 _ _ Hd).
    + exact (H2 _ _ (H1 _ _ Hp)).
Qed.

Definition valid p w : Prop := is_Some (nodes w !! p).

Lemma valid_ext p w w' : ext w w' → valid p w → valid p w'.
Proof.
  intros He [[d|f] Hn]; unfold valid.
  - destruct (He _ _ Hn) as [d' ->]. eauto.
  - rewrite (He _ _ Hn). eauto.
Qed.

(** Partial specifications: the run ends, keeps the invariant and the nodes,
    and a success establishes [Q]. *)
Definition spec {A} root (P : PW → Prop) (m : M PW FSError A) (Q : A → PW → Prop) : Prop :=
  ∀ w, proc_wf root w → P w →
    ∃ w' r, m w = Ret (w', r) ∧ proc_wf root w' ∧ ext w w' ∧
      match r with Ok a => Q a w' | Err _ => True end.

Section triples.
Context (root : ptr).

Lemma spec_bind {A B} P Q (R : B → PW → Prop) (m : M PW FSError A) (k : A → M PW FSError B) :
  spec root P m Q → (∀ a, spec root (Q a) (k a) R) → spec root P (mthen m k) R.
Proof.
  intros Hm Hk w Hwf HP. unfold mthen.
  destruct (Hm w Hwf HP) as (w1 & [a|e] & -> & Hwf1 & He1 & HQ); [|eauto 10].
  destruct (Hk a w1 Hwf1 HQ) as (w2 & r & -> & ? & ? & ?).
  exists w2, r. split_and!; try done. by etrans.
Qed.

(** The frame: validity of another pointer survives. *)
Lemma spec_frame {A} P (m : M PW FSError A) Q p :
  spec root P m Q →
  spec root (λ w, P w ∧ valid p w) m (λ a w, Q a w ∧ valid p w).
Proof.
  intros Hm w Hwf [HP Hv]. destruct (Hm w Hwf HP) as (w' & [a|e] & -> & ? & He & ?).
  - exists w', (Ok a). split_and!; try done. by eapply valid_ext.
  - exists w', (Err e). done.
Qed.

Lemma spec_weaken {A} (P P' : PW → Prop) (m : M PW FSError A) (Q Q' : A → PW → Prop) :
  (∀ w, P' w → P w) → (∀ a w, Q a w → Q' a w) → spec root P m Q → spec root P' m Q'.
Proof.
  intros HP HQ Hm w Hwf HP'. destruct (Hm w Hwf (HP _ HP')) as (w' & [a|e] & -> & ? & ? & ?);
    eauto 10.
Qed.

Lemma spec_ret {A} P (a : A) (Q : A → PW → Prop) :
  (∀ w, P w → Q a w) → spec root P (mok a) Q.
Proof. intros HQ w Hwf HP. exists w, (Ok a). split_and!; [done|done|reflexivity|auto]. Qed.

Lemma spec_err {A} P e (Q : A → PW → Prop) : spec root P (merr e) Q.
Proof. intros w Hwf HP. exists w, (Err e). split_and!; [done|done|reflexivity|done]. Qed.

(** Reading a node. *)
Lemma spec_node_of p :
  spec root (valid p) (node_of p) (λ n w, nodes w !! p = Some n).
Proof.
  intros w Hwf [n Hn]. exists w, (Ok n). unfold node_of. rewrite Hn.
  split_and!; [done|done|reflexivity|done].
Qed.

(** ** The three ways the tree changes *)

(** A fresh node that holds nothing. *)
Lemma alloc_wf w n :
  proc_wf root w → (∀ d, n = PDir d → d = []) →
  proc_wf root (mkPWorld (<[pnext w := n]> (nodes w)) (Pos.succ (pnext w))
                  (devices w) (clock w) (dev_state w)).
Proof.
  intros [Hr Hx Hk Hc Hp] Hn.
  assert (Hfresh : nodes w !! pnext w = None).
  { destruct (nodes w !! pnext w) eqn:E; [|done].
    specialize (Hx (pnext w) ltac:(eauto)). lia. }
  assert (Hin : ∀ p d, <[pnext w := n]> (nodes w) !! p = Some (PDir d) →
                  d = [] ∨ nodes w !! p = Some (PDir d)).
  { intros p d. rewrite lookup_insert_Some. intros [[<- E]|[_ E]]; eauto. }
  split; cbn [nodes pnext].
  - destruct Hr as [d Hd]. exists d. rewrite lookup_insert_ne; [done|]. intros E. congruence.
  - intros p. rewrite lookup_insert_is_Some. intros [<-|[_ Hs]]; [lia|].
    specialize (Hx _ Hs). lia.
  - intros p d [->|Hd]%Hin; [constructor|eauto].
  - intros p d k c [->|Hd]%Hin Hkc; [by apply elem_of_nil in Hkc|].
    destruct (Hc _ _ _ _ Hd Hkc) as [? ?]. split; [done|].
    rewrite lookup_insert_is_Some. destruct (decide (pnext w = c)); auto.
  - intros p d k p' d' k' c [->|Hd]%Hin [->|Hd']%Hin H1 H2;
      try (by apply elem_of_nil in H1); try (by apply elem_of_nil in H2). eauto.
Qed.

Lemma alloc_ext w n :
  proc_wf root w →
  ext w (mkPWorld (<[pnext w := n]> (nodes w)) (Pos.succ (pnext w))
           (devices w) (clock w) (dev_state w)).
Proof.
  intros Hwf p n' Hp. cbn [nodes].
  assert (pnext w ≠ p).
  { pose proof (wf_next _ _ Hwf p ltac:(eauto)). lia. }
  destruct n'; rewrite lookup_insert_ne by done; eauto.
Qed.

Lemma put_ext w dir d d' :
  nodes w !! dir = Some (PDir d') → ext w (set_nodes w (<[dir := PDir d]> (nodes w))).
Proof.
  intros Hd p n Hp. cbn [nodes set_nodes]. destruct (decide (dir = p)) as [->|Hne].
  - rewrite lookup_insert_eq. rewrite Hd in Hp. injection Hp as <-. eauto.
  - rewrite lookup_insert_ne by done. destruct n; eauto.
Qed.

(** Rewriting a directory keeps the invariant when every new entry is an old
    one or a younger node that nobody holds. *)
Lemma put_wf w dir d d' :
  proc_wf root w → nodes w !! dir = Some (PDir d) →
  NoDup (im_keys d') → NoDup d'.*2 →
  (∀ k c, (k, c) ∈ d' → (k, c) ∈ d ∨
     ((dir < c)%positive ∧ valid c w ∧
      ∀ p1 d1 k1, nodes w !! p1 = Some (PDir d1) → (k1, c) ∉ d1)) →
  proc_wf root (set_nodes w (<[dir := PDir d']> (nodes w))).
Proof.
  intros Hwf Hd Hnk Hnc Hnew. destruct Hwf as [Hr Hx Hk Hc Hp].
  assert (Hv : ∀ c, is_Some (nodes w !! c) → is_Some (<[dir := PDir d']> (nodes w) !! c)).
  { intros c Hs. rewrite lookup_insert_is_Some. destruct (decide (dir = c)); auto. }
  assert (Huniq : ∀ k k' c, (k, c) ∈ d' → (k', c) ∈ d' → k = k').
  { intros k k' c H1 H2. apply list_elem_of_lookup in H1 as [i Hi], H2 as [j Hj].
    assert (i = j); [|subst; congruence].
    apply (NoDup_lookup d'.*2 i j c Hnc); rewrite list_lookup_fmap; by rewrite ?Hi, ?Hj. }
  split; cbn [nodes pnext set_nodes].
  - destruct Hr as [dr Hdr]. destruct (decide (dir = root)) as [->|].
    + exists d'. by rewrite lookup_insert_eq.
    + exists dr. by rewrite lookup_insert_ne.
  - intros p. rewrite lookup_insert_is_Some. intros [<-|[_ ?]]; eauto.
  - intros p d0. rewrite lookup_insert_Some. intros [[_ [= <-]]|[_ ?]]; eauto.
  - intros p d0 k c. rewrite lookup_insert_Some. intros [[<- [= <-]]|[_ Hp0]] Hkc.
    + destruct (Hnew _ _ Hkc) as [Ho|(? & ? & _)]; [|split; auto].
      destruct (Hc _ _ _ _ Hd Ho). auto.
    + destruct (Hc _ _ _ _ Hp0 Hkc). auto.
  - intros p d0 k p' d0' k' c. rewrite !lookup_insert_Some.
    intros [[<- [= <-]]|[Hn1 Hp1]] [[<- [= <-]]|[Hn2 Hp2]] H1 H2.
    + split; [done|]. by eapply Huniq.
    + destruct (Hnew _ _ H1) as [Ho|(_ & _ & Hf)].
      * destruct (Hp _ _ _ _ _ _ _ Hd Hp2 Ho H2). done.
      * by destruct (Hf _ _ _ Hp2 H2).
    + destruct (Hnew _ _ H2) as [Ho|(_ & _ & Hf)].
      * destruct (Hp _ _ _ _ _ _ _ Hp1 Hd H1 Ho). congruence.
      * by destruct (Hf _ _ _ Hp1 H1).
    + eauto.
Qed.

Lemma wf_children_NoDup w p d :
  proc_wf root w → nodes w !! p = Some (PDir d) → NoDup d.*2.
Proof.
  intros Hwf Hd. apply NoDup_alt. intros i j c Hi Hj.
  apply list_lookup_fmap_Some in Hi as ([k c1] & -> & Hi), Hj as ([k' c2] & Hc & Hj).
  simpl in Hc. subst c2.
  pose proof (wf_keys _ _ Hwf _ _ Hd) as Hnd.
  assert (k = k') as <-.
  { apply list_elem_of_lookup_2 in Hi, Hj.
    by destruct (wf_parent _ _ Hwf _ _ _ _ _ _ _ Hd Hd Hi Hj). }
  apply (NoDup_lookup _ i j k Hnd); unfold im_keys; rewrite list_lookup_fmap;
    by rewrite ?Hi, ?Hj.
Qed.

(** Entering a fresh leaf into a directory. *)
Definition leaf (n : ProcNode D) : Prop := ∀ d, n = PDir d → d = [].

Definition entered w dir d name n : PW :=
  mkPWorld (<[dir := PDir (im_insert d name (pnext w))]> (<[pnext w := n]> (nodes w)))
    (Pos.succ (pnext w)) (devices w) (clock w) (dev_state w).

Lemma wf_fresh w : proc_wf root w → nodes w !! pnext w = None.
Proof.
  intros Hwf. destruct (nodes w !! pnext w) eqn:E; [|done].
  pose proof (wf_next _ _ Hwf (pnext w) ltac:(eauto)). lia.
Qed.

Lemma entered_wf w dir d name n :
  proc_wf root w → nodes w !! dir = Some (PDir d) → leaf n →
  proc_wf root (entered w dir d name n) ∧ ext w (entered w dir d name n) ∧
  nodes (entered w dir d name n) !! pnext w = Some n.
Proof.
  intros Hwf Hd Hn. pose proof (wf_fresh _ Hwf) as Hfresh.
  assert (Hne : pnext w ≠ dir) by congruence.
  pose proof (alloc_wf w n Hwf Hn) as Hwf1. pose proof (alloc_ext w n Hwf) as He1.
  set (w1 := mkPWorld (<[pnext w := n]> (nodes w)) (Pos.succ (pnext w))
               (devices w) (clock w) (dev_state w)) in *.
  assert (Hd1 : nodes w1 !! dir = Some (PDir d)) by (cbn; by rewrite lookup_insert_ne).
  assert (Hnot : ∀ p1 d1 k1, nodes w1 !! p1 = Some (PDir d1) → (k1, pnext w) ∉ d1).
  { intros p1 d1 k1 Hp1 Hin. cbn in Hp1. apply lookup_insert_Some in Hp1 as [[_ ->%Hn]|[_ Hp1]].
    - by apply elem_of_nil in Hin.
    - destruct (wf_child _ _ Hwf _ _ _ _ Hp1 Hin) as [_ [? ?]]. congruence. }
  split_and!.
  - apply (put_wf w1 dir d); [done|done| | |].
    + apply im_keys_insert. by eapply wf_keys.
    + apply im_values_insert; [by eapply wf_children_NoDup|].
      intros ([k c] & Hc & Hin)%list_elem_of_fmap. simpl in Hc. subst c. by apply (Hnot _ _ k Hd1).
    + intros k c [[= -> ->]|Hin]%elem_of_im_insert; [right|by left]. split_and!.
      * apply (wf_next _ _ Hwf). eauto.
      * unfold valid. cbn. rewrite lookup_insert_eq. eauto.
      * done.
  - etrans; [exact He1|]. by apply (put_ext w1 dir _ d).
  - cbn. rewrite lookup_insert_ne by done. by rewrite lookup_insert_eq.
Qed.

Lemma spec_enter dir d name n :
  leaf n →
  spec root (λ w, nodes w !! dir = Some (PDir d))
    (let? p := alloc_node n in
     let? _ := put_inner dir (im_insert d name p) in mok p)
    (λ p w, nodes w !! p = Some n).
Proof.
  intros Hn w Hwf Hd. destruct (entered_wf w dir d name n Hwf Hd Hn) as (? & ? & ?).
  exists (entered w dir d name n), (Ok (pnext w)). done.
Qed.

Lemma spec_remove dir name :
  spec root (valid dir) (with_proc_dir dir (proc_remove name)) valid.
Proof.
  eapply spec_bind; [apply spec_node_of|]. intros [d|f]; [|apply spec_err].
  unfold proc_remove. destruct (im_get d name) as [p|] eqn:Hg; [|apply spec_err].
  intros w Hwf Hd. exists (set_nodes w (<[dir := PDir (im_swap_remove d name)]> (nodes w))), (Ok p).
  pose proof (im_swap_remove_perm d name p Hg) as Hp.
  split_and!; [done| | |].
  - apply (put_wf w dir d); [done|done| | |].
    + pose proof (wf_keys _ _ Hwf _ _ Hd) as Hnd. unfold im_keys in *.
      rewrite <- Hp in Hnd. by apply NoDup_cons in Hnd as [_ ?].
    + pose proof (wf_children_NoDup _ _ _ Hwf Hd) as Hnd.
      rewrite <- Hp in Hnd. by apply NoDup_cons in Hnd as [_ ?].
    + intros k c Hin. left. rewrite <- Hp. by right.
  - by apply (put_ext w dir _ d).
  - eapply valid_ext; [by apply (put_ext w dir _ d)|].
    apply im_get_elem in Hg. by destruct (wf_child _ _ Hwf _ _ _ _ Hd Hg).
Qed.

(** ** The directory operations *)

Lemma spec_known dir d name p :
  im_get d name = Some p → spec root (λ w, nodes w !! dir = Some (PDir d)) (mok p) valid.
Proof.
  intros Hg w Hwf Hd. exists w, (Ok p). split_and!; [done|done|reflexivity|].
  apply im_get_elem in Hg. by destruct (wf_child _ _ Hwf _ _ _ _ Hd Hg).
Qed.

Lemma spec_entered dir d name n :
  leaf n →
  spec root (λ w, nodes w !! dir = Some (PDir d))
    (let? p := alloc_node n in
     let? _ := put_inner dir (im_insert d name p) in mok p) valid.
Proof.
  intros Hn. eapply spec_weaken; [intros w Hw; exact Hw| |by apply spec_enter].
  intros p w Hp. exists n. exact Hp.
Qed.

Lemma spec_child dir d name :
  spec root (λ w, nodes w !! dir = Some (PDir d)) (proc_get_entry name dir d) valid.
Proof.
  unfold proc_get_entry. destruct (im_get d name) as [p|] eqn:Hg.
  - by apply (spec_known _ _ name).
  - apply spec_err.
Qed.

Lemma spec_ensure dir d name :
  spec root (λ w, nodes w !! dir = Some (PDir d)) (proc_ensure_entry name proc_dir dir d) valid.
Proof.
  unfold proc_ensure_entry. destruct (im_get d name) as [p|] eqn:Hg.
  - by apply (spec_known _ _ name).
  - intros w Hwf Hd.
    pose proof (spec_entered dir d name ProcNode_new_dir ltac:(by intros ? [= <-]) w Hwf Hd) as H.
    unfold mthen, proc_dir, alloc_node, put_inner, mok in *. cbn in *.
    by rewrite <- im_insert_vacant by done.
Qed.

Lemma spec_get_or_update dir d path name :
  spec root (λ w, nodes w !! dir = Some (PDir d)) (get_or_update path name dir d) valid.
Proof.
  unfold get_or_update. destruct (im_get d name) as [p|] eqn:Hg.
  - by apply (spec_known _ _ name).
  - eapply (spec_bind _ (λ _ w, nodes w !! dir = Some (PDir d))).
    + intros w Hwf Hd. unfold registry_get. eexists w, _.
      split_and!; [done|done|reflexivity|]. by destruct (ok_or _ _).
    + intros e. by apply (spec_entered dir d name).
Qed.

Lemma spec_step create dir name : spec root (valid dir) (proc_step create dir name) valid.
Proof.
  unfold proc_step, with_proc_dir. destruct create;
    (eapply spec_bind; [apply spec_node_of|]); intros [d|f]; try apply spec_err.
  - apply spec_ensure.
  - apply spec_child.
Qed.

Lemma spec_walk create comps dir : spec root (valid dir) (proc_walk create comps dir) valid.
Proof.
  revert dir. induction comps as [|c comps IH]; intros dir; simpl; [by apply spec_ret|].
  eapply spec_bind; [apply spec_step|]. intros child.
  eapply spec_bind; [apply spec_node_of|]. intros n.
  destruct (negb _); [apply spec_err|].
  eapply spec_weaken; [|intros p w Hp; exact Hp|apply IH]. intros w Hn. exists n. exact Hn.
Qed.

Lemma spec_root : ∀ w, proc_wf root w → valid root w.
Proof. intros w [[d Hd] _ _ _ _]. unfold valid. eauto. Qed.

Lemma spec_traverse path create :
  spec root (λ _, True) (ProcFS_traverse root path create) valid.
Proof.
  intros w Hwf _. pose proof (spec_root _ Hwf) as Hr. revert w Hwf Hr.
  change (spec root (valid root) (ProcFS_traverse root path create) valid).
  unfold ProcFS_traverse. destruct (parent path); [|by apply spec_ret].
  eapply spec_bind; [apply spec_walk|]. intros dir. apply spec_step.
Qed.

(** ** The operations of the file system and of the registry *)

(** Only nodes and the allocation pointer matter to the invariant. *)
Lemma wf_other w w' :
  nodes w' = nodes w → pnext w' = pnext w → proc_wf root w → proc_wf root w'.
Proof. intros Hn Hp [H1 H2 H3 H4 H5]. split; rewrite ?Hn, ?Hp; done. Qed.

Lemma ext_other w w' : nodes w' = nodes w → ext w w'.
Proof. intros Hn p n Hp. rewrite Hn. destruct n; eauto. Qed.

(** Operations that leave the tree alone. *)
Lemma spec_other {A} (P : PW → Prop) (m : M PW FSError A) (Q : A → PW → Prop) :
  (∀ w, P w → ∃ w' r, m w = Ret (w', r) ∧ nodes w' = nodes w ∧ pnext w' = pnext w ∧
     match r with Ok a => Q a w' | Err _ => True end) → spec root P m Q.
Proof.
  intros Hm w Hwf HP. destruct (Hm w HP) as (w' & r & Hr & Hn & Hp & HQ).
  exists w', r. split_and!; [done|by eapply wf_other|by apply ext_other|done].
Qed.

Lemma spec_register dev path :
  spec root (λ _, True) (registry_register dev path) (λ _ _, True).
Proof.
  apply spec_other. intros w _. unfold registry_register.
  destruct (devices w !! path); eauto 10.
Qed.

Lemma spec_put_back path e : spec root (λ _, True) (put_back path e) (λ _ _, True).
Proof.
  apply spec_other. intros w _. unfold put_back.
  eexists _, _. split_and!; [done|done|done|]. by destruct (devices w !! path).
Qed.

(** [unlink] of the mounted file systems keeps the invariant; it may end up
    in this very file system. *)
Lemma spec_deregister vfs path :
  (∀ unlink o, vfs = Some unlink → spec root (λ _, True) (unlink path o) (λ _ _, True)) →
  spec root (λ _, True) (deregister vfs path) (λ _ _, True).
Proof.
  intros Hvfs w Hwf _. unfold deregister.
  destruct (devices w !! path) as [dev|] eqn:Hdev; [|exists w; eauto 10 using ext_other].
  set (w1 := set_devices w _).
  assert (Hwf1 : proc_wf root w1) by by apply (wf_other w).
  assert (He1 : ext w w1) by by apply ext_other.
  destruct vfs as [unlink|]; [|exists w1; eauto 10].
  destruct (Hvfs unlink 0 eq_refl w1 Hwf1 I) as (w2 & r & -> & Hwf2 & He2 & _). simpl.
  assert (He : ext w w2) by by etrans.
  assert (Hback : ∀ k : FSErrorKind, ∃ w' r',
    mthen (put_back path dev) (λ _, @merr PW FSError (DeviceEntry D) (simple k)) w2 = Ret (w', r')
    ∧ proc_wf root w' ∧ ext w w' ∧ match r' with Ok _ => True | Err _ => True end).
  { intros k. destruct (spec_put_back path dev w2 Hwf2 I) as (w3 & r3 & Hr & Hwf3 & He3 & _).
    unfold mthen. rewrite Hr. exists w3. destruct r3 as [[]|e]; eexists _;
      split_and!; done || by etrans. }
  destruct r as [[]|err]; simpl; [exists w2; eauto 10|].
  destruct (kind err); try apply Hback. exists w2; eauto 10.
Qed.

Lemma spec_unlink path options :
  spec root (λ _, True) (ProcFS_unlink root path options) (λ f w, valid (deref (repr f)) w).
Proof.
  unfold ProcFS_unlink.
  eapply (spec_bind _ valid).
  { destruct (parent path); repeat case_match; try apply spec_err; try apply spec_traverse.
    intros w Hwf _. exists w, (Ok root). split_and!; [done|done|reflexivity|by apply spec_root]. }
  intros dir. eapply (spec_bind _ (λ c w, valid c w ∧ valid dir w)).
  { eapply spec_weaken; [|intros a w Ha; exact Ha|].
    - intros w Hv. exact (conj Hv Hv).
    - apply spec_frame. eapply spec_bind; [apply spec_node_of|].
      intros [d|f]; [apply spec_child|apply spec_err]. }
  intros c. eapply (spec_bind _ (λ _ w, valid dir w)).
  { apply (spec_weaken (λ w, valid c w ∧ valid dir w) _ _
             (λ n w, nodes w !! c = Some n ∧ valid dir w)); [done|by intros ? ? [_ ?]|].
    apply spec_frame, spec_node_of. }
  intros n. eapply (spec_bind _ valid); [|intros p; by apply spec_ret].
  destruct n; [destruct (contains _ _)|]; apply spec_remove || apply spec_err.
Qed.

Lemma spec_flush_loop path devs node :
  spec root (λ w, ∃ d, nodes w !! node = Some (PDir d)) (flush_loop node path devs)
    (λ _ _, True).
Proof.
  induction devs as [|[dp e] devs IH]; simpl; [by apply spec_ret|].
  eapply (spec_bind _ (λ _ w, ∃ d, nodes w !! node = Some (PDir d))); [|intros []; apply IH].
  destruct (flush_name path dp) as [name|]; [|by apply spec_ret].
  intros w Hwf [d Hd].
  destruct (entered_wf w node d name (PFile (device e)) Hwf Hd) as (Hwf' & He' & _); [done|].
  exists (entered w node d name (PFile (device e))), (Ok tt). split_and!; [|done|done|].
  - pose proof (wf_fresh _ Hwf).
    unfold mthen, proc_file, alloc_node, with_proc_dir, mthen, node_of. cbn.
    rewrite lookup_insert_ne by congruence. rewrite Hd. done.
  - destruct (He' _ _ Hd) as [d' ?]. eauto.
Qed.

Lemma spec_flush path : spec root (λ _, True) (ProcFS_flush root path) (λ _ _, True).
Proof.
  eapply spec_bind; [apply spec_traverse|]. intros node.
  eapply spec_bind; [apply spec_node_of|]. intros [d|f]; [|apply spec_err].
  intros w Hwf Hd. apply spec_flush_loop; eauto.
Qed.

Context `{!FstatTotal DS D}.

Lemma Device_fstat_total (d : Device D) w :
  ∃ w' st, Device_fstat d w = Ret (w', Ok st) ∧ nodes w' = nodes w ∧ pnext w' = pnext w.
Proof.
  destruct d as [| |d]; simpl; [by eauto..|].
  destruct (fstat_total d (dev_state w)) as (s' & st & Hs).
  unfold on_dev. rewrite Hs. simpl. eauto.
Qed.

Lemma ProcFile_fstat_total p w :
  valid p w → ∃ w' st, ProcFile_fstat p w = Ret (w', Ok st) ∧
    nodes w' = nodes w ∧ pnext w' = pnext w.
Proof.
  intros [n Hn]. unfold ProcFile_fstat, mthen, node_of. rewrite Hn.
  destruct n as [d|f]; [by eauto|].
  destruct (Device_fstat_total (MaybeRefCounted_deref f) w) as (w' & st & -> & ? & ?).
  unfold mok. eauto.
Qed.

Lemma proc_open_node_run p options w :
  valid p w →
  ∃ w' f, proc_open_node p options w = Ret (w', Ok f) ∧ repr f = Shared p ∧
    nodes w' = nodes w ∧ pnext w' = pnext w.
Proof.
  intros Hv. unfold proc_open_node, with_perms. cbn [perms as_proc_file FileBuilder_new File_new].
  set (f := set_perms _ _). unfold mthen. cbn [deref repr].
  destruct (contains (perms f) FPerms_APPEND).
  - destruct (ProcFile_fstat_total p w Hv) as (w' & st & Hs & ? & ?).
    change (fr_fstat (deref (repr f)) w) with (ProcFile_fstat p w). rewrite Hs.
    cbn. repeat case_match; simplify_eq; eauto 10.
  - cbn. case_match; eauto 10.
Qed.

Lemma spec_open_node p options :
  spec root (valid p) (proc_open_node p options) (λ f w, valid (deref (repr f)) w).
Proof.
  apply spec_other. intros w Hv.
  destruct (proc_open_node_run p options w Hv) as (w' & f & -> & Hf & Hn & Hp).
  exists w', (Ok f). split_and!; try done. rewrite Hf. simpl. unfold valid in *. by rewrite Hn.
Qed.

Lemma spec_open path options :
  spec root (λ _, True) (ProcFS_open root path options) (λ f w, valid (deref (repr f)) w).
Proof.
  unfold ProcFS_open. destruct (parent path) as [par|].
  - eapply spec_bind; [apply spec_traverse|]. intros dir.
    eapply (spec_bind _ (λ n w, nodes w !! dir = Some n)); [apply spec_node_of|].
    intros [d|f]; [|apply spec_err].
    repeat case_match.
    + eapply spec_weaken; [|intros a w Ha; exact Ha|apply spec_open_node].
      intros w Hd. unfold valid. eauto.
    + eapply spec_bind; [apply spec_ensure|]. intros child. apply spec_open_node.
    + eapply spec_bind; [apply spec_get_or_update|]. intros e. apply spec_open_node.
  - intros w Hwf _. apply (spec_open_node root options w Hwf). by apply spec_root.
Qed.

End triples.

(** ** Histories of calls *)

Inductive ProcCall : Type :=
| COpen (path : str) (options : Z)
| CUnlink (path : str) (options : Z)
| CFlush (path : str)
| CRegister (dev : MaybeRefCounted (Device D)) (path : str)
| CDeregister (path : str).

(** Run a call and drop what it returns. *)
Definition quiet {A} (m : M PW FSError A) : PW → Outcome PW :=
  λ w, let! r := m w in Ret (fst r).

Definition run_call (vfs : option (str → Z → M PW FSError unit)) root (c : ProcCall)
    : PW → Outcome PW :=
  match c with
  | COpen path options => quiet (ProcFS_open root path options)
  | CUnlink path options => quiet (ProcFS_unlink root path options)
  | CFlush path => quiet (ProcFS_flush root path)
  | CRegister dev path => quiet (registry_register dev path)
  | CDeregister path => quiet (deregister vfs path)
  end.

Fixpoint run_calls vfs root (cs : list ProcCall) (w : PW) : Outcome PW :=
  match cs with
  | [] => Ret w
  | c :: cs => let! w := run_call vfs root c w in run_calls vfs root cs w
  end.

(** The mounted file systems, as far as [deregister] calls them. *)
Definition vfs_ok root (vfs : option (str → Z → M PW FSError unit)) : Prop :=
  ∀ unlink path o, vfs = Some unlink → spec root (λ _, True) (unlink path o) (λ _ _, True).

Lemma quiet_spec {A} root (m : M PW FSError A) Q w :
  spec root (λ _, True) m Q → proc_wf root w →
  ∃ w', quiet m w = Ret w' ∧ proc_wf root w' ∧ ext w w'.
Proof.
  intros Hm Hwf. destruct (Hm w Hwf I) as (w' & r & Hr & ? & ? & _).
  exists w'. unfold quiet. by rewrite Hr.
Qed.

Lemma run_call_wf `{!FstatTotal DS D} root vfs c w :
  vfs_ok root vfs → proc_wf root w →
  ∃ w', run_call vfs root c w = Ret w' ∧ proc_wf root w' ∧ ext w w'.
Proof.
  intros Hv Hwf. destruct c; simpl; eapply quiet_spec; try exact Hwf.
  - exact (spec_open root path options).
  - exact (spec_unlink root path options).
  - exact (spec_flush root path).
  - exact (spec_register root dev path).
  - refine (spec_deregister root vfs path _). intros. by apply Hv.
Qed.

(** C20: whatever calls are made on a process file system and the registry, in
    any order and with any paths and options, every one returns, the nodes
    below the root stay a tree (each node has one parent and one name,
    younger nodes below older ones, no dangling pointers, no duplicate
    names), and a node once created keeps its kind and its device. *)
Theorem proc_calls_safe `{!FstatTotal DS D} root vfs cs w :
  vfs_ok root vfs → proc_wf root w →
  ∃ w', run_calls vfs root cs w = Ret w' ∧ proc_wf root w' ∧ ext w w'.
Proof.
  intros Hv. revert w. induction cs as [|c cs IH]; intros w Hwf; simpl.
  { exists w. split_and!; [done|done|reflexivity]. }
  destruct (run_call_wf root vfs c w Hv Hwf) as (w1 & -> & Hwf1 & He1). simpl.
  destruct (IH w1 Hwf1) as (w2 & -> & ? & ?). exists w2. split_and!; try done. by etrans.
Qed.

(** A new file system is well formed. *)
Lemma ProcFS_new_wf {E} w w' root :
  nodes w = ∅ → @ProcFS_new DS D E w = Ret (w', Ok root) → proc_wf root w'.
Proof.
  intros He [= <- <-]. split; cbn [nodes pnext]; rewrite He.
  - exists []. by rewrite lookup_insert_eq.
  - intros p. rewrite lookup_insert_is_Some, lookup_empty. intros [<-|[_ [? [=]]]]. lia.
  - intros p d [[_ [= <-]]|[_ ?]]%lookup_insert_Some; [constructor|done].
  - intros p d k c [[_ [= <-]]|[_ ?]]%lookup_insert_Some Hin; [by apply elem_of_nil in Hin|done].
  - intros p d k p' d' k' c [[_ [= <-]]|[_ ?]]%lookup_insert_Some _ Hin;
      [by apply elem_of_nil in Hin|done].
Qed.

(** ** Lookups against the tree *)

(** Follow names from a node. *)
Fixpoint resolve (ns : gmap ptr (ProcNode D)) (segs : list str) (p : ptr) : option ptr :=
  match segs with
  | [] => Some p
  | s :: segs =>
      match ns !! p with
      | Some (PDir d) => c ← im_get d s; resolve ns segs c
      | _ => None
      end
  end.

Lemma resolve_app ns segs1 segs2 p :
  resolve ns (segs1 ++ segs2) p = resolve ns segs1 p ≫= resolve ns segs2.
Proof.
  revert p. induction segs1 as [|s segs1 IH]; intros p; simpl; [done|].
  destruct (ns !! p) as [[d|f]|]; [|done|done].
  destruct (im_get d s) as [c|]; simpl; [apply IH|done].
Qed.

(** A lookup step without creation. *)
Lemma proc_step_lookup {A} p s w n (k : ptr → M PW FSError A) :
  nodes w !! p = Some n →
  mthen (proc_step false p s) k w =
    match n with
    | PFile _ => Ret (w, Err (simple InvalidPath))
    | PDir d =>
        match im_get d s with
        | Some c => k c w
        | None => Ret (w, Err (simple NotFound))
        end
    end.
Proof.
  intros Hn. unfold proc_step, with_proc_dir, mthen, node_of. rewrite Hn.
  destruct n as [d|f]; [|done]. unfold proc_get_entry, mlift.
  by destruct (im_get d s).
Qed.

(** The walk over directories only looks at the tree. *)
Lemma proc_walk_resolve root segs p w :
  proc_wf root w → valid p w →
  (∃ q, resolve (nodes w) segs p = Some q ∧ valid q w ∧
     (proc_walk false segs p w = Ret (w, Ok q) ∨
      (∃ f, nodes w !! q = Some (PFile f)) ∧
       ∃ e, proc_walk false segs p w = Ret (w, Err (simple e)))) ∨
  (resolve (nodes w) segs p = None ∧
   ∃ e, proc_walk false segs p w = Ret (w, Err (simple e))).
Proof.
  intros Hwf. revert p. induction segs as [|s segs IH]; intros p Hv;
    cbn [resolve proc_walk].
  { left. exists p. eauto. }
  destruct Hv as [n Hn]. rewrite !(proc_step_lookup _ _ _ _ _ Hn). rewrite Hn.
  destruct n as [d|f]; [|right; eauto].
  destruct (im_get d s) as [c|] eqn:Hg; simpl; [|right; eauto].
  assert (Hc : valid c w).
  { apply im_get_elem in Hg. by destruct (wf_child _ _ Hwf _ _ _ _ Hn Hg). }
  destruct Hc as [nc Hnc]. unfold mthen, node_of. rewrite Hnc.
  destruct nc as [dc|fc]; simpl.
  - apply IH. unfold valid. eauto.
  - destruct segs as [|s' segs].
    + left. exists c. simpl. split_and!; [done|unfold valid; eauto|right; split; eauto].
    + right. simpl. rewrite Hnc. unfold merr. eauto.
Qed.

Lemma parent_render segs s : PATH_SEP ∉ s → parent (render (segs ++ [s])) = Some (render segs).
Proof.
  intros Hs. rewrite render_snoc. unfold parent.
  by rewrite (proj2 (rsplit_once_Some _ _ (render segs) s)).
Qed.

Lemma file_render segs s : PATH_SEP ∉ s → file (render (segs ++ [s])) = s.
Proof.
  intros Hs. rewrite render_snoc. unfold file.
  by rewrite (proj2 (rsplit_once_Some _ _ (render segs) s)).
Qed.

Lemma plain_free s : plain s → PATH_SEP ∉ s.
Proof. by intros (_ & _ & _ & ?). Qed.

Lemma traverse_resolve root segs w :
  proc_wf root w → Forall plain segs →
  match resolve (nodes w) segs root with
  | Some q => ProcFS_traverse root (render segs) false w = Ret (w, Ok q) ∧ valid q w
  | None => ∃ e, ProcFS_traverse root (render segs) false w = Ret (w, Err (simple e))
  end.
Proof.
  intros Hwf. pose proof (spec_root _ _ Hwf) as Hr.
  destruct segs as [|s segs _] using rev_ind; intros Hp; [done|].
  apply Forall_app in Hp as [Hps Hs]. inversion Hs as [|? ? Hs1%plain_free _]; subst.
  unfold ProcFS_traverse. rewrite parent_render, file_render, traverse_render by done.
  change (drop 1 ([] :: segs)) with segs. rewrite resolve_app. unfold mthen.
  destruct (proc_walk_resolve root segs root w Hwf Hr)
    as [(q & -> & Hq & [->|[[f Hf] [e ->]]])|[-> [e ->]]]; simpl; [| |by eauto].
  - destruct Hq as [n Hn]. rewrite Hn. unfold proc_step, with_proc_dir, mthen, node_of. rewrite Hn.
    destruct n as [d|f]; [|unfold merr; eauto].
    unfold proc_get_entry, mlift. destruct (im_get d s) as [c|] eqn:Hg; simpl; [|eauto].
    split; [done|]. apply im_get_elem in Hg. by destruct (wf_child _ _ Hwf _ _ _ _ Hn Hg).
  - rewrite Hf. eauto.
Qed.

Lemma ends_with_sep_render segs s : plain s → ends_with_sep (render (segs ++ [s])) = false.
Proof.
  intros (Hne & _ & _ & Hs). rewrite render_snoc. unfold ends_with_sep.
  destruct s as [|c s _] using rev_ind; [done|].
  rewrite app_comm_cons, app_assoc, last_snoc. apply bool_decide_eq_false.
  intros ->. apply Hs, elem_of_app. right. left.
Qed.

(** [open] without creation flags.  The directory part must be a path of
    the tree; the last name is looked up in that directory, and only when it
    is missing there the registry is asked for the whole path: a registered
    device becomes a new node of the directory, an unknown path is [NotFound]. *)
Lemma proc_open_spec root segs name options w :
  proc_wf root w → Forall plain segs → plain name →
  contains options OpenOptions_CREATE_ALL = false →
  contains options OpenOptions_CREATE_DIR = false →
  let path := render (segs ++ [name]) in
  match resolve (nodes w) segs root with
  | None => ∃ e, ProcFS_open root path options w = Ret (w, Err (simple e))
  | Some dir =>
      match nodes w !! dir with
      | Some (PDir d) =>
          ProcFS_open root path options w =
            match im_get d name with
            | Some node => proc_open_node node options w
            | None =>
                match devices w !! path with
                | Some e => proc_open_node (pnext w) options
                              (entered w dir d name (PFile (device e)))
                | None => Ret (w, Err (simple NotFound))
                end
            end
      | _ => ProcFS_open root path options w = Ret (w, Err (simple InvalidPath))
      end
  end.
Proof.
  intros Hwf Hsegs Hname Ha Hd path. pose proof (plain_free _ Hname) as Hf.
  pose proof (traverse_resolve root segs w Hwf Hsegs) as Ht.
  unfold ProcFS_open, path. rewrite parent_render, Ha by done. cbv zeta.
  destruct (resolve (nodes w) segs root) as [dir|].
  - destruct Ht as [Ht [n Hn]]. rewrite Hn, (mthen_ok _ _ _ _ _ Ht).
    rewrite (mthen_ok _ _ w w n) by (unfold node_of; by rewrite Hn).
    destruct n as [d|f]; [|done].
    rewrite ends_with_sep_render, file_render, Hd by done. unfold get_or_update.
    destruct (im_get d name) as [c|]; [done|]. unfold mthen, registry_get.
    by destruct (devices w !! render (segs ++ [name])).
  - destruct Ht as [e He]. exists e. by apply mthen_err.
Qed.

(** What [entered] does to lookups. *)
Lemma resolve_entered root w segs p dir d name n :
  proc_wf root w → nodes w !! dir = Some (PDir d) → im_get d name = None →
  resolve (nodes w) segs p = Some dir →
  resolve (nodes (entered w dir d name n)) (segs ++ [name]) p = Some (pnext w).
Proof.
  intros Hwf Hd Hg. pose proof (wf_fresh _ _ Hwf) as Hfr.
  revert p. induction segs as [|s segs IH]; intros p.
  - intros [= ->]. cbn. rewrite lookup_insert_eq. rewrite im_get_insert.
    by rewrite decide_True.
  - cbn [app resolve]. destruct (nodes w !! p) as [[dp|f]|] eqn:Hp; try done.
    assert (pnext w ≠ p) by congruence.
    destruct (im_get dp s) as [c|] eqn:Hc; [|done]. cbn. intros Hr. apply IH in Hr.
    destruct (decide (dir = p)) as [->|Hne].
    + rewrite lookup_insert_eq. rewrite Hd in Hp. injection Hp as <-.
      rewrite im_get_insert. rewrite decide_False by congruence. by rewrite Hc.
    + rewrite !lookup_insert_ne by done. rewrite Hp, Hc. done.
Qed.

(** A device that is registered under a path of an existing directory is
    what the next [open] of that path finds: the node the file stands on
    holds this very device, it is now part of the tree, and a second [open]
    returns the same node. *)
Lemma registered_device_opens `{!FstatTotal DS D} root segs name dir d dev options w :
  proc_wf root w → Forall plain segs → plain name →
  contains options OpenOptions_CREATE_ALL = false →
  contains options OpenOptions_CREATE_DIR = false →
  resolve (nodes w) segs root = Some dir → nodes w !! dir = Some (PDir d) →
  im_get d name = None →
  let path := render (segs ++ [name]) in
  ∃ w1 w2 w3 f f',
    quiet (registry_register dev path) w = Ret w1 ∧
    ProcFS_open root path options w1 = Ret (w2, Ok f) ∧
    nodes w2 !! deref (repr f) = Some (PFile dev) ∧
    resolve (nodes w2) (segs ++ [name]) root = Some (deref (repr f)) ∧
    ProcFS_open root path options w2 = Ret (w3, Ok f') ∧ repr f' = repr f.
Proof.
  intros Hwf Hsegs Hname Ha Hc Hr Hd Hg path.
  set (w1 := set_devices w (<[path := mkDeviceEntry dev]> (devices w))).
  assert (Hwf1 : proc_wf root w1) by by apply (wf_other _ w).
  pose proof (proc_open_spec root segs name options w1 Hwf1 Hsegs Hname Ha Hc) as Ho.
  cbv zeta in Ho. change (nodes w1) with (nodes w) in Ho. rewrite Hr, Hd, Hg in Ho.
  assert (Hdev : devices w1 !! path = Some (mkDeviceEntry dev)) by apply lookup_insert_eq.
  unfold path in Hdev. rewrite Hdev in Ho. cbn [device] in Ho.
  destruct (entered_wf root w1 dir d name (PFile dev) Hwf1 Hd) as (Hwf2 & He2 & Hn2); [done|].
  set (w2 := entered w1 dir d name (PFile dev)) in *.
  destruct (proc_open_node_run (pnext w1) options w2) as (w2' & f & Hf & Hrep & Hns & Hpn).
  { unfold valid. eauto. }
  assert (Hres : resolve (nodes w2) (segs ++ [name]) root = Some (pnext w1))
    by by apply (resolve_entered root).
  clearbody w2. pose proof Hres as Hres2.
  assert (Hwf2' : proc_wf root w2') by by apply (wf_other _ w2).
  pose proof (proc_open_spec root segs name options w2' Hwf2' Hsegs Hname Ha Hc) as Ho'.
  cbv zeta in Ho'. rewrite Hns in Ho'. rewrite resolve_app in Hres.
  destruct (resolve (nodes w2) segs root) as [dir'|]; [|done]. cbn in Hres.
  destruct (nodes w2 !! dir') as [[d'|?]|]; try done.
  destruct (im_get d' name) as [c|]; [|done]. cbn in Hres. injection Hres as ->.
  destruct (proc_open_node_run (pnext w1) options w2') as (w3 & f' & Hf' & Hrep' & _ & _).
  { unfold valid. rewrite Hns. eauto. }
  exists w1, w2', w3, f, f'. rewrite Hrep, Hrep', Hns. cbn [deref]. split_and!.
  - unfold quiet, registry_register. by destruct (devices w !! path).
  - exact (eq_trans Ho Hf).
  - done.
  - exact Hres2.
  - exact (eq_trans Ho' Hf').
  - done.
Qed.

(** [read] on a directory of the process file system ignores its offset:
    every call returns the first names again, so a reader that advances by
    what it got never sees the end of a directory that is not empty. *)
Theorem procdir_read_never_ends p d w buf offset :
  nodes w !! p = Some (PDir d) → d ≠ [] →
  zlen (entry (hd [] (im_keys d))) ≤ zlen buf →
  ∃ buf' n, ProcFile_read p offset (w, buf) = Ret ((w, buf'), Ok n) ∧
    ProcFile_read p 0 (w, buf) = Ret ((w, buf'), Ok n) ∧ 0 < n.
Proof.
  intros Hn Hd Hlen. unfold ProcFile_read. rewrite Hn. unfold read_dir, bufferd_display.
  pose proof (buffered_display_spec [] (im_keys d) buf) as Hb. simpl in Hb.
  change (zlen (entries [])) with 0 in Hb. rewrite Hb. simpl. eexists _, _.
  split_and!; [done|done|].
  destruct d as [|[k c] d]; [done|]. simpl in *. rewrite zlen_entry in Hlen.
  rewrite decide_True by lia. rewrite zlen_entries_cons.
  pose proof (zlen_nonneg k). pose proof (zlen_nonneg (entries (take_fit (zlen buf - (zlen k + 1)) d.*1))).
  unfold im_keys. lia.
Qed.

(** ** The registry *)

(** When the unlink fails for another reason than a missing file,
    [deregister] puts the device back and means to report that reason, but
    the insertion finds the place empty and the call always fails with
    [AlreadyExists]. *)
Lemma deregister_masks_error unlink path e err w w' :
  devices w !! path = Some e →
  unlink path 0 (set_devices w (delete path (devices w))) = Ret (w', Err err) →
  devices w' !! path = None → kind err ≠ NotFound →
  ∃ w'', deregister (Some unlink) path w = Ret (w'', Err (simple AlreadyExists)) ∧
    devices w'' !! path = Some e.
Proof.
  intros He Hu Hd Hk. unfold deregister. rewrite He, Hu. simpl.
  exists (set_devices w' (<[path := e]> (devices w'))).
  assert (Hp : ∀ k : FSErrorKind,
    mthen (put_back path e) (λ _, @merr PW FSError (DeviceEntry D) (simple k)) w' =
    Ret (set_devices w' (<[path := e]> (devices w')), Err (simple AlreadyExists))).
  { intros k. unfold mthen, put_back. by rewrite Hd. }
  split; [|apply lookup_insert_eq]. destruct (kind err); try apply Hp. done.
Qed.

(** [flush] means to enter the registered children of a directory, but
    never under their own names: without a trailing slash in the path the
    name keeps its leading slash, with one the device is skipped. *)
Theorem flush_misses_children dirpath name :
  PATH_SEP ∉ name →
  ends_with_sep dirpath = false →
  flush_name dirpath (dirpath ++ PATH_SEP :: name) = Some (PATH_SEP :: name) ∧
  flush_name (dirpath ++ [PATH_SEP]) (dirpath ++ PATH_SEP :: name) = None.
Proof.
  intros Hn He. unfold flush_name, strip_prefix. split.
  - rewrite (proj2 (str_strip_prefix_Some dirpath _ (PATH_SEP :: name))) by done.
    cbn. by rewrite He.
  - rewrite (proj2 (str_strip_prefix_Some (dirpath ++ [PATH_SEP]) _ name)).
    2:{ by rewrite <- app_assoc. }
    cbn. unfold ends_with_sep. rewrite last_snoc, bool_decide_true by done.
    destruct name as [|c name]; [done|]. cbn. rewrite decide_False; [done|].
    intros E. apply Hn. rewrite <- E. left.
Qed.

End procprops.

(** ** A device over the mounted file systems *)

(** The device of the module's own tests: it reads its name and refuses
    writes. *)
Inductive TestDevice : Set := TestDev.

#[export] Instance TestDevice_FileRepr {DS} : FileRepr DS TestDevice := {
  fr_fstat _ := mok (new_fstat 0);
  fr_update_perms _ := default_update_perms;
  fr_clear _ := default_clear;
  fr_read _ := λ offset '(s, buf),
    let bytes := lit "Test Device" in
    let len := Z.min (zlen bytes) (zlen buf) in
    Ret ((s, fill buf (take (Z.to_nat len) bytes)), Ok len);
  fr_read_to_end _ := λ offset '(s, buf), Ret ((s, buf ++ lit "Test Device"), Ok 11);
  fr_write _ := λ buf offset, merr (simple NotSupported);
  fr_write_all _ := λ buf offset, merr (simple NotSupported);
  fr_on_open _ := default_hook;
  fr_on_clone _ := default_hook;
  fr_on_drop _ := default_hook;
  fr_on_close _ := default_hook
}.

#[export] Instance TestDevice_total {DS} : FstatTotal DS TestDevice.
Proof. intros d s. by exists s, (new_fstat 0). Qed.

Section vfs.
Context {prof : Profile} {D : Type} `{DevRepr : FileRepr World D}.

(** [vfs.unlink]: the mounted file systems are the state of the devices. *)
Definition unlink_in_vfs (path : str) (options : Z) : M (PWorld World D) FSError unit :=
  on_dev (let? _ := VFS_unlink path options in mok tt).

Lemma vfs_unlink_no_mount path options (w : PWorld World D) :
  find_mount (mounts (dev_state w)) path (ancestors path) = Ret None →
  ∃ e, unlink_in_vfs path options w = Ret (w, Err e) ∧ kind e = NotFound.
Proof.
  intros Hm. unfold unlink_in_vfs, on_dev, mthen, VFS_unlink, mthen, deepest_matching_mount.
  rewrite Hm. simpl. destruct w as [? ? ? ? v]. eexists. split; [done|done].
Qed.

(** [deregister] unlinks the path the device was registered under, which
    is relative to the process file system, in the whole VFS.  Where no other
    mount claims that path the call succeeds, the registry forgets the
    device, and yet [open] keeps finding the node it made of it. *)
Lemma deregistered_device_stays_open root segs name options e node (w : PWorld World D) :
  proc_wf root w → Forall plain segs → plain name →
  contains options OpenOptions_CREATE_ALL = false →
  contains options OpenOptions_CREATE_DIR = false →
  let path := render (segs ++ [name]) in
  devices w !! path = Some e →
  resolve (nodes w) (segs ++ [name]) root = Some node →
  find_mount (mounts (dev_state w)) path (ancestors path) = Ret None →
  ∃ w', deregister (Some unlink_in_vfs) path w = Ret (w', Ok e) ∧
    devices w' !! path = None ∧
    ProcFS_open root path options w' = proc_open_node node options w'.
Proof.
  intros Hwf Hsegs Hname Ha Hc path Hdev Hres Hm.
  set (w' := set_devices w (delete path (devices w))).
  exists w'. split_and!.
  - unfold deregister. rewrite Hdev. fold w'.
    destruct (vfs_unlink_no_mount path 0 w') as (err & -> & Hk); [done|].
    simpl. by rewrite Hk.
  - apply lookup_delete_eq.
  - pose proof (proc_open_spec root segs name options w') as Ho. cbv zeta in Ho.
    change (nodes w') with (nodes w) in Ho. rewrite resolve_app in Hres.
    specialize (Ho ltac:(by apply (wf_other _ w)) Hsegs Hname Ha Hc).
    destruct (resolve (nodes w) segs root) as [dir|]; [|done]. cbn in Hres.
    destruct (nodes w !! dir) as [[d|f]|]; try done.
    destruct (im_get d name) as [c|]; [|done]. cbn in Hres. by injection Hres as ->.
Qed.

End vfs.

(** ** Witnesses *)

(** The process file system and the registry after [fs::init]. *)
Definition pboot : PWorld World TestDevice :=
  mkPWorld {[ 1%positive := PDir [] ]} 2
    {[ registry_path := mkDeviceEntry (MRef DeviceRegistry) ]} 0 (init_world 0).

Lemma pboot_init :
  (let? _ := procfs_init in @ProcFS_new World TestDevice FSError)
    (mkPWorld ∅ 1 ∅ 0 (init_world 0)) = Ret (pboot, Ok 1%positive).
Proof. reflexivity. Qed.

Lemma pboot_wf : proc_wf 1 pboot.
Proof.
  by apply (@ProcFS_new_wf World TestDevice FSError (mkPWorld ∅ 1 (devices pboot) 0 (init_world 0))).
Qed.

Definition test_name : str := lit "Test.dev".
Definition test_dev : MaybeRefCounted (Device TestDevice) := MArc (ExtDevice TestDev).

(** [pboot] after the device was registered and opened once. *)
Definition popened : PWorld World TestDevice :=
  entered (set_devices pboot
             (<[render [test_name] := mkDeviceEntry test_dev]> (devices pboot)))
    1 [] test_name (PFile test_dev).

Lemma popened_wf : proc_wf 1 popened.
Proof.
  apply entered_wf; [|reflexivity|done]. by apply (wf_other _ pboot), pboot_wf.
Qed.

Lemma test_name_plain : plain test_name.
Proof. vm_compute. split_and!; try done. set_solver. Qed.

(** A [vfs] that sends every path to this file system. *)
Definition unlink_here (path : str) (options : Z)
    : M (PWorld World TestDevice) FSError unit :=
  let? _ := ProcFS_unlink 1 path options in mok tt.

Lemma unlink_here_ok : vfs_ok 1 (Some unlink_here).
Proof.
  intros u path o [= <-]. unfold unlink_here.
  eapply spec_bind; [exact (spec_unlink 1 path o)|]. intros f. by apply spec_ret.
Qed.

Lemma proc_calls_safe_witness :
  ∃ w', run_calls (prof := Release) (Some unlink_here) 1
          [CRegister test_dev (render [test_name]); COpen (render [test_name]) OpenOptions_READ;
           CFlush (lit "/"); CDeregister (render [test_name]);
           CUnlink (render [test_name]) 0] pboot = Ret w' ∧ proc_wf 1 w' ∧ ext pboot w'.
Proof.
  apply (proc_calls_safe (prof := Release)).
  - apply unlink_here_ok.
  - apply pboot_wf.
Defined.

Lemma proc_open_spec_witness :
  ProcFS_open (prof := Release) 1 (render [test_name]) OpenOptions_READ pboot =
    Ret (pboot, Err (simple NotFound)).
Proof.
  exact (proc_open_spec (prof := Release) 1 [] test_name OpenOptions_READ pboot
           pboot_wf (List.Forall_nil _) test_name_plain eq_refl eq_refl).
Defined.

Lemma registered_device_opens_witness :
  ∃ w1 w2 w3 f f',
    quiet (registry_register test_dev (render [test_name])) pboot = Ret w1 ∧
    ProcFS_open (prof := Release) 1 (render [test_name]) OpenOptions_READ w1 = Ret (w2, Ok f) ∧
    nodes w2 !! deref (repr f) = Some (PFile test_dev) ∧
    resolve (nodes w2) [test_name] 1 = Some (deref (repr f)) ∧
    ProcFS_open (prof := Release) 1 (render [test_name]) OpenOptions_READ w2 = Ret (w3, Ok f') ∧
    repr f' = repr f.
Proof.
  exact (registered_device_opens (prof := Release) 1 [] test_name 1 [] test_dev
           OpenOptions_READ pboot pboot_wf (List.Forall_nil _) test_name_plain
           eq_refl eq_refl eq_refl eq_refl eq_refl).
Defined.

Lemma procdir_read_never_ends_witness :
  ∃ buf' n, ProcFile_read 1 100 (popened, replicate 20 zero) = Ret ((popened, buf'), Ok n) ∧
    ProcFile_read 1 0 (popened, replicate 20 zero) = Ret ((popened, buf'), Ok n) ∧ 0 < n.
Proof.
  apply (procdir_read_never_ends 1 [(test_name, 2%positive)] popened); [reflexivity|done|].
  vm_compute. discriminate.
Defined.

Lemma deregister_masks_error_witness :
  ∃ w, deregister (Some (λ _ _, merr (simple InvalidPath))) (render [test_name]) popened =
    Ret (w, Err (simple AlreadyExists)) ∧
    devices w !! render [test_name] = Some (mkDeviceEntry test_dev).
Proof.
  apply (deregister_masks_error (λ _ _, merr (simple InvalidPath)) (render [test_name])
           (mkDeviceEntry test_dev) (simple InvalidPath) popened
           (set_devices popened (delete (render [test_name]) (devices popened))));
    [reflexivity|reflexivity|reflexivity|discriminate].
Defined.

Lemma flush_misses_children_witness :
  flush_name (lit "/dev") (lit "/dev/tty") = Some (lit "/tty") ∧
  flush_name (lit "/dev/") (lit "/dev/tty") = None.
Proof.
  apply (flush_misses_children (lit "/dev") (lit "tty")); [|reflexivity].
  apply (bool_decide_eq_true_1 (PATH_SEP ∉ lit "tty")). reflexivity.
Defined.

Lemma deregistered_device_stays_open_witness :
  ∃ w', deregister (Some unlink_in_vfs) (render [test_name]) popened =
      Ret (w', Ok (mkDeviceEntry test_dev)) ∧
    devices w' !! render [test_name] = None ∧
    ProcFS_open (prof := Release) 1 (render [test_name]) OpenOptions_READ w' =
      proc_open_node (prof := Release) 2 OpenOptions_READ w'.
Proof.
  apply (deregistered_device_stays_open (prof := Release) 1 [] test_name OpenOptions_READ
           (mkDeviceEntry test_dev) 2 popened); try reflexivity.
  - apply popened_wf.
  - constructor.
  - apply test_name_plain.
Defined.

(** A device registered under a path of another mount: deregistering it
    removes the user's file there. *)
Definition with_user_file : World :=
  match VFS.open (prof := Release) (lit "/ram/notes") OpenOptions_CREATE (init_world 0) with
  | Ret (v, _) => v
  | _ => init_world 0
  end.

Lemma deregister_removes_user_file :
  let w := mkPWorld (D := TestDevice) ∅ 1
             {[ lit "/ram/notes" := mkDeviceEntry test_dev ]} 0 with_user_file in
  let file_there (v : World) :=
    match VFS.open (prof := Release) (lit "/ram/notes") OpenOptions_READ v with
    | Ret (_, Ok _) => true
    | _ => false
    end in
  file_there (dev_state w) = true ∧
  match deregister (Some unlink_in_vfs) (lit "/ram/notes") w with
  | Ret (w', Ok _) => file_there (dev_state w') = false
  | _ => False
  end.
Proof. vm_compute. done. Qed.
