(* ===== verification/Tasks.v ===== *)
(** Threads, processes and the scheduler: kernel/src/kernel/threading/task.rs
    (states and ids), tls.rs ([TaskManager]) and schedule/round_robin.rs.

    A [GlobalTaskPtr] is an [Arc<Task>]; thread ids are unique, so the
    pointer is the id and the objects live in [objs].  The atomics of a task
    are fields of its record.  The lookup table is a hash map whose iteration
    order is unspecified: operations that iterate take the order as an
    argument.  [readable] says whether [try_read] on the table succeeds.
    Each operation is defined here as it runs when no other call falls in
    between its loads and stores; [TaskRaces] takes them apart. *)
From stdpp Require Import sorting.
From S2P Require Import Prelude Abi Fd.
Open Scope Z_scope.

(** ** task.rs: states and ids *)

Inductive TaskState : Set := Running | Ready | Blocking | Sleeping | Zombie.

#[export] Instance TaskState_eq_dec : EqDecision TaskState.
Proof. solve_decision. Defined.

Definition TaskState_new : TaskState := Ready.

(** [state as u8]. *)
Definition TaskState_as_u8 (s : TaskState) : Z :=
  match s with
  | Running => 0 | Ready => 1 | Blocking => 2 | Sleeping => 3 | Zombie => 4
  end.

Definition TaskState_from (value : Z) : Outcome TaskState :=
  if value =? 0 then Ret Running
  else if value =? 1 then Ret Ready
  else if value =? 2 then Ret Blocking
  else if value =? 3 then Ret Sleeping
  else if value =? 4 then Ret Zombie
  else Panic.

Record ExitInfo : Set := mkExitInfo { exit_code : Z; signal : option Z }.
Inductive TaskStateData : Set := DataExit (info : ExitInfo) | DataNone.

Abbreviation ThreadID := Z.
Abbreviation ProcessID := Z.
Abbreviation ProcessGroupID := Z.

(** [get_tid]: the static counter starts at 1 and is handed out with
    [fetch_add]. *)
Definition get_tid (counter : Z) : ThreadID * Z := (counter, wrap64 (counter + 1)).
Definition FIRST_TID : Z := 1.

(** The parts of [TaskCore] shared by the threads of a process; the
    descriptor table is in Syscalls.v. *)
Record TaskCore : Set := mkTaskCore {
  core_pid : ProcessID;
  core_pgrid : ProcessGroupID;
  core_state : TaskState
}.

(** The parts of [Task] the task manager uses; [t_pid] and [t_pgrid] are
    immutable fields of the shared core, [t_core] names that core. *)
Record Task : Set := mkTask {
  tid : ThreadID;
  t_pid : ProcessID;
  t_pgrid : ProcessGroupID;
  t_core : MaybeOwned Z;
  t_state : TaskState;
  t_data : TaskStateData;
  krsp : Z;
  kernel_stack_top : Z;
  user_stack_top : option Z;
  ursp : option Z;
  owns_pagedir : bool
}.

Definition set_state (s : TaskState) (t : Task) : Task :=
  mkTask (tid t) (t_pid t) (t_pgrid t) (t_core t) s (t_data t) (krsp t)
    (kernel_stack_top t) (user_stack_top t) (ursp t) (owns_pagedir t).
Definition set_data (d : TaskStateData) (t : Task) : Task :=
  mkTask (tid t) (t_pid t) (t_pgrid t) (t_core t) (t_state t) d (krsp t)
    (kernel_stack_top t) (user_stack_top t) (ursp t) (owns_pagedir t).
Definition set_krsp (k : Z) (t : Task) : Task :=
  mkTask (tid t) (t_pid t) (t_pgrid t) (t_core t) (t_state t) (t_data t) k
    (kernel_stack_top t) (user_stack_top t) (ursp t) (owns_pagedir t).
Definition set_ursp (u : option Z) (t : Task) : Task :=
  mkTask (tid t) (t_pid t) (t_pgrid t) (t_core t) (t_state t) (t_data t) (krsp t)
    (kernel_stack_top t) (user_stack_top t) u (owns_pagedir t).

(** ** tls.rs: processes and groups *)

Record Process : Type := mkProcess { threads : gset ThreadID; proc_leader : ThreadID }.

Definition Process_new (leader : Task) : Process := mkProcess {[ tid leader ]} (tid leader).

Record ProcessGroup : Type := mkProcessGroup {
  members : gmap ProcessID Process;
  group_leader : option ProcessID
}.

Definition ProcessGroup_new (id : ProcessID) (leader : Process) : ProcessGroup :=
  mkProcessGroup {[ id := leader ]} (Some id).

Definition ProcessGroup_add (self : ProcessGroup) (id : ProcessID) (p : Process) : ProcessGroup :=
  mkProcessGroup (<[id := p]> (members self)) (group_leader self).

Inductive QueueType : Set :=
| QTimer | QKeyBoard | QThread (id : ThreadID) | QProcess (id : ProcessID)
| QFile (h : Z) | QLock (a : Z).

#[export] Instance QueueType_eq_dec : EqDecision QueueType.
Proof. solve_decision. Defined.

(** The state of the task manager.  [events] are the events handed to
    [post_event], newest last; [freed_kstacks] and [freed_ustacks] are the
    stacks handed to the allocator. *)
Record TaskManager : Type := mkTM {
  current_running : ThreadID;
  lut : gset ThreadID;
  processes : gmap ProcessID Z;
  tree : gmap ProcessGroupID ProcessGroup;
  zombies : list ThreadID;
  objs : gmap ThreadID Task;
  cores : gmap Z TaskCore;
  events : list (QueueType * Z);
  freed_kstacks : list Z;
  freed_ustacks : list Z
}.

Definition TaskManager_new : TaskManager := mkTM 0 ∅ ∅ ∅ [] ∅ ∅ [] [] [].

Definition set_lut (m : TaskManager) (l : gset ThreadID) : TaskManager :=
  mkTM (current_running m) l (processes m) (tree m) (zombies m) (objs m) (cores m)
    (events m) (freed_kstacks m) (freed_ustacks m).
Definition set_tree (m : TaskManager) (t : gmap ProcessGroupID ProcessGroup) : TaskManager :=
  mkTM (current_running m) (lut m) (processes m) t (zombies m) (objs m) (cores m)
    (events m) (freed_kstacks m) (freed_ustacks m).
Definition set_processes (m : TaskManager) (p : gmap ProcessID Z) : TaskManager :=
  mkTM (current_running m) (lut m) p (tree m) (zombies m) (objs m) (cores m)
    (events m) (freed_kstacks m) (freed_ustacks m).
Definition set_zombies (m : TaskManager) (z : list ThreadID) : TaskManager :=
  mkTM (current_running m) (lut m) (processes m) (tree m) z (objs m) (cores m)
    (events m) (freed_kstacks m) (freed_ustacks m).
Definition set_objs (m : TaskManager) (o : gmap ThreadID Task) : TaskManager :=
  mkTM (current_running m) (lut m) (processes m) (tree m) (zombies m) o (cores m)
    (events m) (freed_kstacks m) (freed_ustacks m).
Definition set_cores (m : TaskManager) (c : gmap Z TaskCore) : TaskManager :=
  mkTM (current_running m) (lut m) (processes m) (tree m) (zombies m) (objs m) c
    (events m) (freed_kstacks m) (freed_ustacks m).
Definition post_event (m : TaskManager) (q : QueueType) (data : Z) : TaskManager :=
  mkTM (current_running m) (lut m) (processes m) (tree m) (zombies m) (objs m) (cores m)
    (events m ++ [(q, data)]) (freed_kstacks m) (freed_ustacks m).
Definition free_stacks (m : TaskManager) (ks us : list Z) : TaskManager :=
  mkTM (current_running m) (lut m) (processes m) (tree m) (zombies m) (objs m) (cores m)
    (events m) (freed_kstacks m ++ ks) (freed_ustacks m ++ us).

(** Updating the atomics of a task through its pointer. *)
Definition update_obj (m : TaskManager) (id : ThreadID) (f : Task → Task) : TaskManager :=
  set_objs m (alter f id (objs m)).

Definition thread (m : TaskManager) (id : ThreadID) : option Task :=
  if decide (id ∈ lut m) then objs m !! id else None.

Definition try_thread (readable : bool) (m : TaskManager) (id : ThreadID) : option Task :=
  if readable then thread m id else None.

Definition current_tid (m : TaskManager) : ThreadID := current_running m.

Definition current_thread (m : TaskManager) : option Task := thread m (current_tid m).

Definition try_current_thread (readable : bool) (m : TaskManager) : option Task :=
  try_thread readable m (current_tid m).

Definition current_pgr (m : TaskManager) : option ProcessGroup :=
  t ← current_thread m; tree m !! t_pgrid t.

Definition update_current (m : TaskManager) (id : ThreadID) : TaskManager :=
  mkTM id (lut m) (processes m) (tree m) (zombies m) (objs m) (cores m)
    (events m) (freed_kstacks m) (freed_ustacks m).

(** [TaskManager::add]; the task object is created by the caller.  The old
    entry of the lookup table is returned. *)
Definition add (m : TaskManager) (t : Task) : TaskManager * option ThreadID :=
  match try_clone (t_core t) with
  | None => (m, None)
  | Some core =>
      let m := set_processes m (<[t_pid t := deref core]> (processes m)) in
      let group := match tree m !! t_pgrid t with
                   | Some g => ProcessGroup_add g (t_pid t) (Process_new t)
                   | None => ProcessGroup_new (t_pid t) (Process_new t)
                   end in
      let m := set_tree m (<[t_pgrid t := group]> (tree m)) in
      let old := if decide (tid t ∈ lut m) then Some (tid t) else None in
      (set_lut m ({[tid t]} ∪ lut m), old)
  end.

Definition update (m : TaskManager) (t : Task) : TaskManager :=
  match t_state t with
  | Zombie => set_zombies m (zombies m ++ [tid t])
  | _ => fst (add m t)
  end.

(** [kill]: [signal as u32]. *)
Definition kill (m : TaskManager) (id : ThreadID) (sig : Z) : TaskManager * option unit :=
  match thread m id with
  | None => (m, None)
  | Some t =>
      let m := update_obj m id (set_state Zombie) in
      let m := update_obj m id (set_data (DataExit (mkExitInfo (wrap 32 sig) None))) in
      (update m (set_state Zombie t), Some tt)
  end.

Definition may_block (t : Task) : bool :=
  negb (bool_decide (t_state t = Zombie)) && negb (bool_decide (t_state t = Sleeping)).

Definition block (m : TaskManager) (id : ThreadID) : TaskManager * option unit :=
  match thread m id with
  | None => (m, None)
  | Some t =>
      if may_block t then (update_obj m id (set_state Blocking), Some tt) else (m, None)
  end.

Definition try_block (readable : bool) (m : TaskManager) (id : ThreadID)
    : TaskManager * option unit :=
  match try_thread readable m id with
  | None => (m, None)
  | Some t =>
      if may_block t then (update_obj m id (set_state Blocking), Some tt) else (m, None)
  end.

Definition may_wake (t : Task) : bool :=
  bool_decide (t_state t = Blocking) || bool_decide (t_state t = Sleeping).

Definition try_wake (readable : bool) (m : TaskManager) (id : ThreadID)
    : TaskManager * option unit :=
  match try_thread readable m id with
  | None => (m, None)
  | Some t => ((if may_wake t then update_obj m id (set_state Ready) else m), Some tt)
  end.

Definition wake (m : TaskManager) (id : ThreadID) : TaskManager * option unit :=
  match thread m id with
  | None => (m, None)
  | Some t => ((if may_wake t then update_obj m id (set_state Ready) else m), Some tt)
  end.

Definition EXIT : Z := TaskStateChange_EXIT.

(** Iteration over a [BTreeMap] follows the key order. *)
Definition sorted_elements (s : gset Z) : list Z := merge_sort Z.le (elements s).

Fixpoint kill_all (m : TaskManager) (ids : list ThreadID) : TaskManager * option unit :=
  match ids with
  | [] => (m, Some tt)
  | id :: ids =>
      match kill m id 0 with
      | (m, Some _) => kill_all m ids
      | (m, None) => (m, None)
      end
  end.

Definition set_process_state (m : TaskManager) (core : Z) (s : TaskState) : TaskManager :=
  set_cores m (alter (λ c, mkTaskCore (core_pid c) (core_pgrid c) s) core (cores m)).

Definition kill_process (m : TaskManager) (pid : ProcessID) : TaskManager * option unit :=
  match
    core ← processes m !! pid;
    c ← cores m !! core;
    g ← tree m !! core_pgrid c;
    p ← members g !! pid;
    Some (core, p)
  with
  | None => (m, None)
  | Some (core, p) =>
      match kill_all m (sorted_elements (threads p)) with
      | (m, None) => (m, None)
      | (m, Some _) =>
          (post_event (set_process_state m core Zombie) (QProcess pid) EXIT, Some tt)
      end
  end.

(** ** Cleanup *)

(** [cleanup_thread]: 0xDEAD marks a stack that was freed. *)
Definition DEAD : Z := 57005.

Definition cleanup_thread (m : TaskManager) (id : ThreadID) : TaskManager :=
  match objs m !! id with
  | None => m
  | Some t =>
      let m :=
        match user_stack_top t, ursp t with
        | Some top, Some rsp =>
            if negb (rsp =? DEAD) && owns_pagedir t
            then update_obj (free_stacks m [] [top]) id (set_ursp (Some DEAD))
            else m
        | _, _ => m
        end in
      if negb (krsp t =? DEAD)
      then update_obj (free_stacks m [kernel_stack_top t] []) id (set_krsp DEAD)
      else m
  end.

Definition is_zombie (m : TaskManager) (id : ThreadID) : bool :=
  match objs m !! id with Some t => bool_decide (t_state t = Zombie) | None => false end.

(** One process of [cleanup_tree]: events for its dead threads, which leave
    the process; without threads or without its leader the process is dead. *)
Definition cleanup_member (m : TaskManager) (pid : ProcessID) (p : Process)
    : TaskManager * Process * bool :=
  let dead := filter (λ id, is_zombie m id) (sorted_elements (threads p)) in
  let m := foldl (λ m id, post_event m (QThread id) EXIT) m dead in
  let leader_dead := bool_decide (proc_leader p ∈ dead) in
  let p := mkProcess (threads p ∖ list_to_set dead) (proc_leader p) in
  if bool_decide (threads p = ∅) || leader_dead then
    let m := match processes m !! pid with
             | Some core => set_process_state m core Zombie
             | None => m
             end in
    (m, p, true)
  else (m, p, false).

(** The members of one group, in key order. *)
Fixpoint cleanup_members (m : TaskManager) (g : ProcessGroup) (pids : list ProcessID)
    : TaskManager * ProcessGroup * list ProcessID :=
  match pids with
  | [] => (m, g, [])
  | pid :: pids =>
      match members g !! pid with
      | None => cleanup_members m g pids
      | Some p =>
          let '(m, p, dead) := cleanup_member m pid p in
          let g := ProcessGroup_add g pid p in
          let '(m, g, empty) := cleanup_members m g pids in
          (m, g, if dead then pid :: empty else empty)
      end
  end.

Definition cleanup_group (m : TaskManager) (g : ProcessGroup) : TaskManager * ProcessGroup :=
  let '(m, g, empty_members) := cleanup_members m g (sorted_elements (dom (members g))) in
  foldl (λ '(m, g) pid,
           (post_event m (QProcess pid) EXIT,
            mkProcessGroup (delete pid (members g)) (group_leader g)))
    (m, g) empty_members.

Definition cleanup_tree (m : TaskManager) : TaskManager :=
  let step (mt : TaskManager * list ProcessGroupID) (gid : ProcessGroupID) :=
    let '(m, empty_groups) := mt in
    match tree m !! gid with
    | None => (m, empty_groups)
    | Some g =>
        let '(m, g) := cleanup_group m g in
        let m := set_tree m (<[gid := g]> (tree m)) in
        (m, if bool_decide (members g = ∅) then empty_groups ++ [gid] else empty_groups)
    end in
  let '(m, empty_groups) := foldl step (m, []) (sorted_elements (dom (tree m))) in
  set_tree m (foldl (λ t gid, delete gid t) (tree m) empty_groups).

(** The final loop of [cleanup]: the queue of zombies is emptied. *)
Fixpoint reap (m : TaskManager) (queue : list ThreadID) : TaskManager :=
  match queue with
  | [] => set_zombies m []
  | z :: queue =>
      if decide (z ∈ lut m)
      then reap (cleanup_thread (set_lut m (lut m ∖ {[z]})) z) queue
      else reap m queue
  end.

(** [cleanup]: [order] is the iteration order of the lookup table. *)
Definition cleanup (m : TaskManager) (order : list ThreadID) : TaskManager :=
  let m := set_zombies m (zombies m ++ filter (λ id, is_zombie m id) order) in
  let m := cleanup_tree m in
  reap m (zombies m).

(** ** round_robin.rs *)

Record LazyRoundRobin : Set := mkRR { queue : list ThreadID }.

Definition RR_new : LazyRoundRobin := mkRR [].

Definition is_runnable (t : Task) : bool :=
  bool_decide (t_state t = Ready) || bool_decide (t_state t = Running).

Definition runnable_in (m : TaskManager) (id : ThreadID) : bool :=
  match thread m id with Some t => is_runnable t | None => false end.

(** [reschedule]: the queue becomes the runnable threads, in the iteration
    order of the table. *)
Definition reschedule (m : TaskManager) (order : list ThreadID) (self : LazyRoundRobin)
    : LazyRoundRobin :=
  mkRR (filter (λ id, runnable_in m id) order).

Definition is_ready (t : Task) : bool := bool_decide (t_state t = Ready).

(** The loop of [switch]. *)
Fixpoint switch_loop (readable : bool) (m : TaskManager) (q : list ThreadID)
    : TaskManager * list ThreadID * option ThreadID :=
  match q with
  | [] => (m, [], None)
  | id :: q =>
      match try_thread readable m id with
      | None => switch_loop readable m q
      | Some t =>
          if negb (is_ready t) then switch_loop readable m q
          else (update_current m id, q ++ [id], Some id)
      end
  end.

(** [switch]: [locked] says that [try_lock] on the queue fails. *)
Definition switch (locked readable : bool) (m : TaskManager) (self : LazyRoundRobin)
    : TaskManager * LazyRoundRobin * option ThreadID :=
  if locked then (m, self, None)
  else let '(m, q, r) := switch_loop readable m (queue self) in (m, mkRR q, r).

Definition add_task (self : LazyRoundRobin) (id : ThreadID) : LazyRoundRobin :=
  mkRR (queue self ++ [id]).

(** [add_task_ptr__]. *)
Definition add_task_ptr (m : TaskManager) (s : LazyRoundRobin) (t : Task)
    : TaskManager * LazyRoundRobin :=
  let s := add_task s (tid t) in
  (fst (add m t), s).

(** [context_switch_local]: [Ret (Some id)] leaves for the thread [id] and does
    not return to the caller.  The two lookups of the table can see it in
    different states. *)
Definition context_switch_local (locked r1 r2 r3 : bool) (rsp : Z)
    (m : TaskManager) (s : LazyRoundRobin)
    : Outcome (TaskManager * LazyRoundRobin * option ThreadID) :=
  let current : Outcome (option (TaskManager * ThreadID)) :=
    match try_current_thread r1 m with
    | Some t => Ret (Some (update_obj m (tid t) (set_krsp rsp), tid t))
    | None =>
        if current_tid m =? 0 then
          match thread m 1 with
          | Some t => Ret (Some (m, tid t))
          | None => Panic
          end
        else Ret None
    end in
  let! c := current in
  match c with
  | None => Ret (m, s, None)
  | Some (m, cur) =>
      let '(m, s, r) := switch locked r2 m s in
      match r with
      | None => Ret (m, s, None)
      | Some next =>
          match try_thread r3 m next with
          | None => Panic
          | Some _ =>
              let m := match objs m !! cur with
                       | Some c => if bool_decide (t_state c = Running)
                                   then update_obj m cur (set_state Ready) else m
                       | None => m
                       end in
              Ret (m, s, Some next)
          end
      end
  end.

(** ** The scheduler *)

Definition ready_in (m : TaskManager) (id : ThreadID) : bool :=
  match thread m id with Some t => is_ready t | None => false end.

Lemma switch_loop_spec m q :
  match switch_loop true m q with
  | (m', q', Some id) =>
      ∃ pre post, q = pre ++ id :: post ∧ Forall (λ i, ready_in m i = false) pre ∧
        ready_in m id = true ∧ q' = post ++ [id] ∧ m' = update_current m id
  | (m', q', None) => Forall (λ i, ready_in m i = false) q ∧ q' = [] ∧ m' = m
  end.
Proof.
  induction q as [|id q IH]; simpl; [done|].
  assert (Hnext : ready_in m id = false →
    match switch_loop true m q with
    | (m', q', Some id0) => ∃ pre post, id :: q = pre ++ id0 :: post ∧
        Forall (λ i, ready_in m i = false) pre ∧ ready_in m id0 = true ∧
        q' = post ++ [id0] ∧ m' = update_current m id0
    | (m', q', None) => Forall (λ i, ready_in m i = false) (id :: q) ∧ q' = [] ∧ m' = m
    end).
  { intros Hn. destruct (switch_loop true m q) as [[m' q'] [id0|]].
    - destruct IH as (pre & post & -> & ? & ? & -> & ->). exists (id :: pre), post.
      repeat split; try done. by constructor.
    - destruct IH as (? & -> & ->). repeat split; try done. by constructor. }
  destruct (thread m id) as [t|] eqn:Ht.
  - destruct (is_ready t) eqn:Hr; simpl.
    + exists [], q. unfold ready_in. rewrite Ht. repeat split; try done.
    + apply Hnext. unfold ready_in. by rewrite Ht.
  - apply Hnext. unfold ready_in. by rewrite Ht.
Qed.

(** With the queue and the table available, [switch] selects the
    first queued thread that is alive and [Ready], makes it current, moves it
    to the end of the queue and drops the entries in front of it, which are
    all dead or not ready; it returns nothing only if no queued thread is
    ready. *)
Lemma switch_spec m s :
  match switch false true m s with
  | (m', s', Some id) =>
      current_running m' = id ∧ objs m' = objs m ∧ lut m' = lut m ∧
      (∃ t, thread m id = Some t ∧ t_state t = Ready) ∧
      ∃ pre post, queue s = pre ++ id :: post ∧ queue s' = post ++ [id] ∧
        Forall (λ i, ready_in m i = false) pre
  | (m', s', None) => m' = m ∧ queue s' = [] ∧ Forall (λ i, ready_in m i = false) (queue s)
  end.
Proof.
  unfold switch. pose proof (switch_loop_spec m (queue s)) as H.
  destruct (switch_loop true m (queue s)) as [[m' q'] [id|]].
  - destruct H as (pre & post & Hq & Hpre & Hr & -> & ->). repeat split; try done.
    + unfold ready_in in Hr. destruct (thread m id) as [t|]; [|done].
      exists t. split; [done|]. by apply bool_decide_eq_true in Hr.
    + by exists pre, post.
  - destruct H as (Hf & -> & ->). done.
Qed.

(** [n] timer ticks in a row. *)
Fixpoint run_switches (n : nat) (m : TaskManager) (s : LazyRoundRobin)
    : TaskManager * LazyRoundRobin * list (option ThreadID) :=
  match n with
  | O => (m, s, [])
  | S n =>
      let '(m, s, r) := switch false true m s in
      let '(m, s, rs) := run_switches n m s in
      (m, s, r :: rs)
  end.

Lemma ready_in_update_current m id i : ready_in (update_current m id) i = ready_in m i.
Proof. done. Qed.

Lemma run_switches_rotate m a b :
  Forall (λ i, ready_in m i = true) (a ++ b) →
  ∃ m', run_switches (length a) m (mkRR (a ++ b)) = (m', mkRR (b ++ a), Some <$> a) ∧
        (∀ i, ready_in m' i = ready_in m i).
Proof.
  revert m b. induction a as [|x a IH]; intros m b Hr; simpl.
  { exists m. by rewrite app_nil_r. }
  inversion Hr as [|? ? Hx Hr']; subst. unfold switch. simpl.
  unfold ready_in in Hx. destruct (thread m x) as [t|] eqn:Ht; [|done]. rewrite Hx. simpl.
  destruct (IH (update_current m x) (b ++ [x])) as (m' & Hm & Hi).
  { rewrite app_assoc. apply Forall_app. split; [done|]. repeat constructor.
    rewrite ready_in_update_current. unfold ready_in. by rewrite Ht. }
  rewrite <- app_assoc. rewrite Hm. exists m'. split; [|done].
  by rewrite <- app_assoc.
Qed.

(** Round robin is fair: while all queued threads stay ready, as many
    switches as there are threads run each of them exactly once, in queue
    order, and restore the queue. *)
Lemma round_robin_fair m q :
  Forall (λ i, ready_in m i = true) q →
  ∃ m', run_switches (length q) m (mkRR q) = (m', mkRR q, Some <$> q).
Proof.
  intros Hr. destruct (run_switches_rotate m q []) as (m' & Hm & _).
  { by rewrite app_nil_r. }
  exists m'. by rewrite app_nil_r in Hm.
Qed.

(** A manager with ready threads, for the witnesses. *)
Definition sample_task (id pid : Z) : Task :=
  mkTask id pid 0 (Shared pid) Ready DataNone 4096 4096 None None false.
Definition sample_manager (ids : list Z) : TaskManager :=
  foldl (λ m id, fst (add (set_objs (set_cores m (<[id := mkTaskCore id 0 Ready]> (cores m)))
                             (<[id := sample_task id id]> (objs m))) (sample_task id id)))
    TaskManager_new ids.

Lemma round_robin_fair_witness :
  ∃ m', run_switches 3 (sample_manager [1; 2; 3]) (mkRR [1; 2; 3]) =
          (m', mkRR [1; 2; 3], [Some 1; Some 2; Some 3]).
Proof.
  apply (round_robin_fair (sample_manager [1; 2; 3]) [1; 2; 3]).
  repeat constructor.
Defined.

Lemma switch_loop_unreadable m q : switch_loop false m q = (m, [], None).
Proof. by induction q. Qed.

(** [switch] treats a failed [try_read] of the table like a thread
    that no longer exists: one tick that meets a writer of the table returns
    nothing and throws every thread out of the run queue. *)
Lemma switch_drops_queue_under_writer m s :
  switch false false m s = (m, mkRR [], None).
Proof. unfold switch. by rewrite switch_loop_unreadable. Qed.

(** ** Frames *)

Definition state_of (m : TaskManager) (id : ThreadID) : option TaskState :=
  t_state <$> objs m !! id.

Lemma is_zombie_state m id : is_zombie m id = bool_decide (state_of m id = Some Zombie).
Proof.
  unfold is_zombie, state_of. destruct (objs m !! id) as [t|]; simpl.
  - apply bool_decide_ext. split; congruence.
  - done.
Qed.

(** What the traversal of the process tree leaves alone. *)
Record tree_only (m m' : TaskManager) : Prop := {
  to_objs : objs m' = objs m;
  to_lut : lut m' = lut m;
  to_zombies : zombies m' = zombies m;
  to_freed : freed_kstacks m' = freed_kstacks m
}.

#[export] Instance tree_only_preorder : PreOrder tree_only.
Proof.
  split; [by split|]. intros m1 m2 m3 [] []. split; congruence.
Qed.

Lemma foldl_tree_only {A} (f : TaskManager → A → TaskManager) l m :
  (∀ m a, tree_only m (f m a)) → tree_only m (foldl f m l).
Proof.
  intros Hf. revert m. induction l as [|a l IH]; intros m; simpl; [done|].
  by rewrite <- IH.
Qed.

Lemma foldl_fst_tree_only {A B} (f : TaskManager * B → A → TaskManager * B) l mb :
  (∀ m b a, tree_only m (fst (f (m, b) a))) → tree_only (fst mb) (fst (foldl f mb l)).
Proof.
  intros Hf. revert mb. induction l as [|a l IH]; intros [m b]; simpl; [done|].
  etrans; [|apply IH]. apply Hf.
Qed.

Lemma cleanup_member_tree m pid p : tree_only m (fst (fst (cleanup_member m pid p))).
Proof.
  unfold cleanup_member.
  set (dead := filter _ _). set (m1 := foldl _ m dead).
  assert (Hm1 : tree_only m m1) by (by apply foldl_tree_only).
  destruct (bool_decide _ || bool_decide _); simpl; [|done].
  destruct (processes m1 !! pid); [|done]. etrans; [exact Hm1|done].
Qed.

Lemma cleanup_members_tree m g pids : tree_only m (fst (fst (cleanup_members m g pids))).
Proof.
  revert m g. induction pids as [|pid pids IH]; intros m g; simpl; [done|].
  destruct (members g !! pid) as [p|]; [|apply IH].
  pose proof (cleanup_member_tree m pid p) as H1.
  destruct (cleanup_member m pid p) as [[m1 p1] dead]; simpl in *.
  pose proof (IH m1 (ProcessGroup_add g pid p1)) as H2.
  destruct (cleanup_members m1 _ pids) as [[m2 g2] e]; simpl in *. by etrans.
Qed.

Lemma cleanup_group_tree m g : tree_only m (fst (cleanup_group m g)).
Proof.
  unfold cleanup_group.
  pose proof (cleanup_members_tree m g (sorted_elements (dom (members g)))) as H1.
  destruct (cleanup_members m g _) as [[m1 g1] e]. simpl in H1.
  etrans; [exact H1|]. by apply (foldl_fst_tree_only _ e (m1, g1)).
Qed.

Lemma cleanup_tree_only m : tree_only m (cleanup_tree m).
Proof.
  unfold cleanup_tree. set (step := λ (mt : TaskManager * list ProcessGroupID) gid, _).
  pose proof (foldl_fst_tree_only step (sorted_elements (dom (tree m))) (m, [])) as H.
  destruct (foldl step (m, []) _) as [m1 e]. simpl in H. etrans; [apply H|done].
  intros m2 b gid. unfold step. destruct (tree m2 !! gid) as [g|]; [|done].
  pose proof (cleanup_group_tree m2 g) as Hg. destruct (cleanup_group m2 g) as [m3 g3].
  simpl in *. etrans; [exact Hg|done].
Qed.

(** Freeing the stacks changes neither states nor tables. *)
Definition view (t : Task) : ThreadID * TaskState := (tid t, t_state t).
Definition view_of (m : TaskManager) (id : ThreadID) : option (ThreadID * TaskState) :=
  view <$> objs m !! id.

Lemma view_state m m' id : view_of m' id = view_of m id → state_of m' id = state_of m id.
Proof.
  unfold view_of, state_of. destruct (objs m' !! id), (objs m !! id); intros H; simplify_eq/=;
    congruence.
Qed.

Lemma alter_view (f : Task → Task) (o : gmap ThreadID Task) i j :
  (∀ t, view (f t) = view t) → view <$> alter f i o !! j = view <$> o !! j.
Proof.
  intros Hf. destruct (decide (i = j)) as [->|].
  - rewrite lookup_alter_eq. destruct (o !! j); simpl; [by rewrite Hf|done].
  - by rewrite lookup_alter_ne.
Qed.

(** The kernel stack a thread still owns. *)
Definition kstack_of (m : TaskManager) (id : ThreadID) : option Z :=
  t ← objs m !! id; if krsp t =? DEAD then None else Some (kernel_stack_top t).

Lemma cleanup_thread_frame m id :
  let m' := cleanup_thread m id in
  lut m' = lut m ∧ zombies m' = zombies m ∧ (∀ j, view_of m' j = view_of m j) ∧
  (∀ j, j ≠ id → objs m' !! j = objs m !! j) ∧
  freed_kstacks m' = freed_kstacks m ++ option_list (kstack_of m id).
Proof.
  unfold cleanup_thread, kstack_of. destruct (objs m !! id) as [t|] eqn:Ht; simpl.
  2:{ by rewrite app_nil_r. }
  set (m1 := match user_stack_top t with Some _ => _ | None => m end).
  assert (H1 : lut m1 = lut m ∧ zombies m1 = zombies m ∧
    (∀ j, view_of m1 j = view_of m j) ∧ (∀ j, j ≠ id → objs m1 !! j = objs m !! j) ∧
    freed_kstacks m1 = freed_kstacks m).
  { unfold m1. destruct (user_stack_top t), (ursp t); try done.
    destruct (negb _ && _); [|done]. repeat split.
    - intros j. by apply alter_view.
    - intros j Hj. simpl. by rewrite lookup_alter_ne.
    - simpl. by rewrite app_nil_r. }
  destruct H1 as (Hl & Hz & Hs & Ho & Hf). destruct (krsp t =? DEAD); simpl.
  - by rewrite app_nil_r.
  - repeat split; try done.
    + intros j. rewrite <- Hs. by apply alter_view.
    + intros j Hj. simpl. rewrite lookup_alter_ne by done. by apply Ho.
    + by rewrite Hf.
Qed.

Lemma kstack_of_frame m m' id : objs m' !! id = objs m !! id → kstack_of m' id = kstack_of m id.
Proof. unfold kstack_of. by intros ->. Qed.

Lemma omap_ext' {A B} (f g : A → option B) (l : list A) :
  (∀ x, x ∈ l → f x = g x) → omap f l = omap g l.
Proof.
  induction l as [|x l IH]; intros H; csimpl; [done|].
  rewrite (H x) by left. rewrite IH; [done|]. intros y Hy. apply H. by right.
Qed.

Lemma reap_spec m q :
  ∃ removed, NoDup removed ∧ (∀ id, id ∈ removed ↔ id ∈ q ∧ id ∈ lut m) ∧
    let m' := reap m q in
    lut m' = lut m ∖ list_to_set removed ∧ zombies m' = [] ∧
    (∀ j, view_of m' j = view_of m j) ∧
    freed_kstacks m' = freed_kstacks m ++ omap (kstack_of m) removed.
Proof.
  revert m. induction q as [|z q IH]; intros m; simpl.
  { exists []. rewrite app_nil_r. repeat split; try done; [constructor|set_solver..]. }
  destruct (decide (z ∈ lut m)) as [Hz|Hz].
  - set (m1 := set_lut m (lut m ∖ {[z]})).
    destruct (cleanup_thread_frame m1 z) as (Hl & Hzo & Hs & Ho & Hf).
    destruct (IH (cleanup_thread m1 z)) as (r & Hnd & Hr & Hl' & Hz' & Hs' & Hf').
    rewrite Hl in Hr, Hl'. simpl in Hr, Hl'.
    exists (z :: r). split; [|split; [|split; [|split; [|split]]]].
    + constructor; [|done]. intros Hin. apply Hr in Hin. set_solver.
    + intros id. rewrite elem_of_cons, Hr, elem_of_cons. set_unfold.
      destruct (decide (id = z)) as [->|]; [tauto|]. tauto.
    + rewrite Hl'. set_solver.
    + done.
    + intros j. rewrite Hs', Hs. done.
    + rewrite Hf', Hf. simpl. rewrite <- app_assoc. f_equal.
      change (kstack_of m1 z) with (kstack_of m z).
      rewrite (omap_ext' (kstack_of (cleanup_thread m1 z)) (kstack_of m)).
      * by destruct (kstack_of m z).
      * intros x Hx. apply Hr in Hx. apply kstack_of_frame. rewrite Ho; [done|]. set_solver.
  - destruct (IH m) as (r & Hnd & Hr & Hrest). exists r. split; [done|]. split; [|done].
    intros id. rewrite Hr. set_solver.
Qed.

(** ** The invariant of the task manager *)

Definition tm_inv (m : TaskManager) : Prop :=
  (∀ id, id ∈ lut m → is_Some (objs m !! id)) ∧
  (∀ id, id ∈ zombies m → is_zombie m id = true) ∧
  (∀ id t, objs m !! id = Some t → tid t = id).

(** Cleanup removes from the table exactly the threads that are
    zombies, empties the zombie queue, changes no thread's state, and frees
    the kernel stack of each removed thread exactly once. *)
Lemma cleanup_spec m order :
  tm_inv m → order ≡ₚ elements (lut m) →
  let m' := cleanup m order in
  ∃ removed, NoDup removed ∧
    (∀ id, id ∈ removed ↔ id ∈ lut m ∧ is_zombie m id = true) ∧
    lut m' = lut m ∖ list_to_set removed ∧ zombies m' = [] ∧
    (∀ j, state_of m' j = state_of m j) ∧
    freed_kstacks m' = freed_kstacks m ++ omap (kstack_of m) removed.
Proof.
  intros (Hlut & Hzq & _) Hord. unfold cleanup.
  set (m1 := set_zombies m _). destruct (cleanup_tree_only m1) as [Ho Hl Hz Hf].
  destruct (reap_spec (cleanup_tree m1) (zombies (cleanup_tree m1)))
    as (r & Hnd & Hr & Hl' & Hz' & Hs' & Hf').
  assert (Hks : ∀ id, kstack_of (cleanup_tree m1) id = kstack_of m id).
  { intros id. apply kstack_of_frame. by rewrite Ho. }
  exists r. split; [done|]. split; [|split; [|split; [done|split]]].
  - intros id. rewrite Hr, Hz, Hl. simpl. rewrite elem_of_app, list_elem_of_filter, Hord.
    rewrite elem_of_elements. split.
    + intros [[Hq|[Hq ?]] ?]; split; try done; [by apply Hzq|by apply Is_true_true].
    + intros [? Hq]. split; [|done]. right. split; [by rewrite Hq|done].
  - by rewrite Hl', Hl.
  - intros j. etrans; [by apply view_state, Hs'|]. unfold state_of. by rewrite Ho.
  - rewrite Hf', Hf. simpl. f_equal. apply omap_ext'. intros x _. apply Hks.
Qed.

Lemma cleanup_spec_witness :
  let m := fst (kill (sample_manager [1; 2]) 2 0) in
  lut (cleanup m [2; 1]) = {[1]} ∧ freed_kstacks (cleanup m [2; 1]) = [4096].
Proof.
  intros m.
  destruct (cleanup_spec m [2; 1]) as (r & _ & _ & _ & _ & _ & _).
  - split; [|split].
    + intros id Hid. apply (bool_decide_unpack _).
      assert (Hin : id ∈ [1; 2]) by set_solver.
      repeat (apply elem_of_cons in Hin as [->|Hin]; [reflexivity|]).
      by apply not_elem_of_nil in Hin.
    + intros id Hid. apply elem_of_cons in Hid as [->|Hid]; [reflexivity|].
      by apply not_elem_of_nil in Hid.
    + apply map_Forall_to_list. vm_compute. repeat constructor.
  - vm_compute. apply reflexivity.
  - split; vm_compute; reflexivity.
Defined.

(** ** Transitions *)

(** Every operation the rest of the kernel performs on the task manager and
    the run queue, each as one uninterrupted step.  A new thread gets a fresh
    id and starts [Ready]. *)
Inductive step : TaskManager * LazyRoundRobin → TaskManager * LazyRoundRobin → Prop :=
| step_spawn m s t :
    objs m !! tid t = None → t_state t = Ready →
    step (m, s) (add_task_ptr (set_objs m (<[tid t := t]> (objs m))) s t)
| step_kill m s id sig : step (m, s) (fst (kill m id sig), s)
| step_block m s id : step (m, s) (fst (block m id), s)
| step_try_block m s r id : step (m, s) (fst (try_block r m id), s)
| step_wake m s id : step (m, s) (fst (wake m id), s)
| step_try_wake m s r id : step (m, s) (fst (try_wake r m id), s)
| step_kill_process m s pid : step (m, s) (fst (kill_process m pid), s)
| step_cleanup m s order :
    order ≡ₚ elements (lut m) → step (m, s) (cleanup m order, s)
| step_reschedule m s order :
    order ≡ₚ elements (lut m) → step (m, s) (m, reschedule m order s)
| step_context_switch m s l r1 r2 r3 rsp m' s' id :
    context_switch_local l r1 r2 r3 rsp m s = Ret (m', s', id) → step (m, s) (m', s').

(** A transition of the manager that keeps the invariant and the dead dead. *)
Definition sound (m m' : TaskManager) : Prop :=
  tm_inv m → tm_inv m' ∧ ∀ id, is_zombie m id = true → is_zombie m' id = true.

Lemma sound_refl m : sound m m.
Proof. done. Qed.

Lemma sound_trans m1 m2 m3 : sound m1 m2 → sound m2 m3 → sound m1 m3.
Proof.
  intros H1 H2 Hi. destruct (H1 Hi) as [Hi2 Hz1]. destruct (H2 Hi2) as [Hi3 Hz2]. auto.
Qed.

Lemma sound_tree_only m m' : tree_only m m' → sound m m'.
Proof.
  intros [Ho Hl Hz _] Hi. unfold tm_inv, is_zombie in *. by rewrite Ho, Hl, Hz.
Qed.

Lemma is_zombie_true m id :
  is_zombie m id = true ↔ ∃ t, objs m !! id = Some t ∧ t_state t = Zombie.
Proof.
  unfold is_zombie. destruct (objs m !! id) as [t|]; [rewrite bool_decide_eq_true|];
    naive_solver.
Qed.

Lemma sound_update_obj m id f :
  (∀ t, tid (f t) = tid t) →
  (∀ t, objs m !! id = Some t → t_state t = Zombie → t_state (f t) = Zombie) →
  sound m (update_obj m id f).
Proof.
  intros Htid Hst (Hl & Hz & Ht).
  assert (Hzom : ∀ j, is_zombie m j = true → is_zombie (update_obj m id f) j = true).
  { intros j. rewrite !is_zombie_true. intros (t & Hj & Hs). simpl.
    destruct (decide (id = j)) as [->|].
    - exists (f t). rewrite lookup_alter_eq, Hj. split; [done|]. by apply Hst.
    - exists t. by rewrite lookup_alter_ne. }
  split; [|exact Hzom]. split; [|split].
  - intros j Hj. simpl. apply lookup_alter_is_Some. by apply Hl.
  - intros j Hj. by apply Hzom, Hz.
  - intros j t. simpl. rewrite lookup_alter_Some.
    intros [(-> & t0 & Hj & ->)|[_ Hj]]; [rewrite Htid|]; by apply Ht.
Qed.

Lemma sound_zombie m id :
  is_zombie m id = true → sound m (set_zombies m (zombies m ++ [id])).
Proof.
  intros Hid (Hl & Hz & Ht). split; [|done]. split; [done|]. split; [|done].
  intros j. simpl. rewrite elem_of_app, list_elem_of_singleton. intros [Hj| ->]; [exact (Hz j Hj)|exact Hid].
Qed.

Lemma sound_kill m id sig : sound m (fst (kill m id sig)).
Proof.
  unfold kill, thread. destruct (decide (id ∈ lut m)); [|apply sound_refl].
  destruct (objs m !! id) as [t|] eqn:Ht; [|apply sound_refl]. simpl.
  intros Hi. assert (Hid : tid t = id) by (by apply Hi in Ht).
  revert Hi. change (sound m (update (update_obj (update_obj m id (set_state Zombie)) id
    (set_data (DataExit (mkExitInfo (wrap 32 sig) None)))) (set_state Zombie t))).
  set (m1 := update_obj m id (set_state Zombie)).
  apply (sound_trans _ m1); [by apply (sound_update_obj m id)|].
  eapply sound_trans; [|apply sound_zombie].
  - by apply (sound_update_obj m1 id).
  - simpl. rewrite Hid. apply is_zombie_true. simpl.
    rewrite !lookup_alter_eq, Ht. simpl. by eexists.
Qed.

Lemma sound_set_live m id t s :
  objs m !! id = Some t → t_state t ≠ Zombie → sound m (update_obj m id (set_state s)).
Proof. intros Ht Hs. apply sound_update_obj; [done|]. intros t' Ht' Hz. congruence. Qed.

Lemma may_block_live t : may_block t = true → t_state t ≠ Zombie.
Proof.
  unfold may_block. intros [H _]%andb_true_iff.
  by apply negb_true_iff, bool_decide_eq_false in H.
Qed.

Lemma may_wake_live t : may_wake t = true → t_state t ≠ Zombie.
Proof.
  unfold may_wake. intros [H|H]%orb_true_iff; apply bool_decide_eq_true in H; congruence.
Qed.

Lemma thread_Some m id t : thread m id = Some t → id ∈ lut m ∧ objs m !! id = Some t.
Proof. unfold thread. case_decide; [done|congruence]. Qed.

Lemma try_thread_Some r m id t : try_thread r m id = Some t → thread m id = Some t.
Proof. unfold try_thread. by destruct r. Qed.

Lemma sound_block m id : sound m (fst (block m id)).
Proof.
  unfold block. destruct (thread m id) as [t|] eqn:Ht; [|apply sound_refl].
  apply thread_Some in Ht as [_ Ht]. destruct (may_block t) eqn:Hb; [|apply sound_refl].
  eapply sound_set_live; [exact Ht|]. by apply may_block_live.
Qed.

Lemma sound_try_block r m id : sound m (fst (try_block r m id)).
Proof.
  unfold try_block. destruct (try_thread r m id) as [t|] eqn:Ht; [|apply sound_refl].
  apply try_thread_Some, thread_Some in Ht as [_ Ht].
  destruct (may_block t) eqn:Hb; [|apply sound_refl].
  eapply sound_set_live; [exact Ht|]. by apply may_block_live.
Qed.

Lemma sound_wake m id : sound m (fst (wake m id)).
Proof.
  unfold wake. destruct (thread m id) as [t|] eqn:Ht; [|apply sound_refl].
  apply thread_Some in Ht as [_ Ht]. simpl. destruct (may_wake t) eqn:Hb; [|apply sound_refl].
  eapply sound_set_live; [exact Ht|]. by apply may_wake_live.
Qed.

Lemma sound_try_wake r m id : sound m (fst (try_wake r m id)).
Proof.
  unfold try_wake. destruct (try_thread r m id) as [t|] eqn:Ht; [|apply sound_refl].
  apply try_thread_Some, thread_Some in Ht as [_ Ht]. simpl.
  destruct (may_wake t) eqn:Hb; [|apply sound_refl].
  eapply sound_set_live; [exact Ht|]. by apply may_wake_live.
Qed.

Lemma sound_kill_all m ids : sound m (fst (kill_all m ids)).
Proof.
  revert m. induction ids as [|id ids IH]; intros m; simpl; [apply sound_refl|].
  pose proof (sound_kill m id 0) as Hk. destruct (kill m id 0) as [m1 [u|]]; simpl in *; [|done].
  eapply sound_trans; [exact Hk|apply IH].
Qed.

Lemma sound_kill_process m pid : sound m (fst (kill_process m pid)).
Proof.
  unfold kill_process. destruct (_ ≫= _) as [[core p]|]; [|apply sound_refl].
  pose proof (sound_kill_all m (sorted_elements (threads p))) as Hk.
  destruct (kill_all m _) as [m1 [u|]]; simpl in *; [|done].
  eapply sound_trans; [exact Hk|]. by apply sound_tree_only.
Qed.

Lemma sound_add m t : is_Some (objs m !! tid t) → sound m (fst (add m t)).
Proof.
  intros Ht. unfold add. destruct (try_clone (t_core t)); [|apply sound_refl].
  intros (Hl & Hz & Htid). split; [|done]. split; [|done].
  intros id. simpl. rewrite elem_of_union, elem_of_singleton. intros [->|Hid]; [done|auto].
Qed.

Lemma sound_insert_fresh m t :
  objs m !! tid t = None → sound m (set_objs m (<[tid t := t]> (objs m))).
Proof.
  intros Hn (Hl & Hz & Htid).
  assert (Hzom : ∀ j, is_zombie m j = true →
    is_zombie (set_objs m (<[tid t := t]> (objs m))) j = true).
  { intros j. rewrite !is_zombie_true. intros (t0 & Hj & Hs). exists t0. simpl.
    rewrite lookup_insert_ne; [done|]. intros <-. congruence. }
  split; [|exact Hzom]. split; [|split].
  - intros j Hj. simpl. apply lookup_insert_is_Some'. right. by apply Hl.
  - intros j Hj. by apply Hzom, Hz.
  - intros j t0. simpl. rewrite lookup_insert_Some.
    intros [[<- <-]|[_ Hj]]; [done|by apply Htid].
Qed.

Lemma sound_cleanup m order : order ≡ₚ elements (lut m) → sound m (cleanup m order).
Proof.
  intros Hord Hi. unfold cleanup. set (m1 := set_zombies m _).
  destruct (cleanup_tree_only m1) as [Ho Hl Hz _].
  destruct (reap_spec (cleanup_tree m1) (zombies (cleanup_tree m1)))
    as (r & _ & _ & Hl' & Hz' & Hs' & _).
  set (m' := reap _ _) in *.
  assert (Hv : ∀ j, view_of m' j = view_of m j).
  { intros j. rewrite Hs'. unfold view_of. by rewrite Ho. }
  destruct Hi as (Hil & Hiz & Hit).
  assert (Hzom : ∀ j, is_zombie m' j = is_zombie m j).
  { intros j. rewrite !is_zombie_state. apply bool_decide_ext. by rewrite (view_state m m'). }
  split; [|intros id; by rewrite Hzom]. split; [|split].
  - intros id Hid. rewrite Hl', Hl in Hid. apply elem_of_difference in Hid as [Hid _].
    apply Hil in Hid. specialize (Hv id). unfold view_of in Hv.
    destruct Hid as [t Ht]. rewrite Ht in Hv. by destruct (objs m' !! id); [eexists|].
  - rewrite Hz'. intros id Hid. by apply not_elem_of_nil in Hid.
  - intros id t Ht. specialize (Hv id). unfold view_of in Hv. rewrite Ht in Hv.
    destruct (objs m !! id) as [t0|] eqn:Ht0; simpl in Hv; [|done].
    apply Hit in Ht0. unfold view in Hv. congruence.
Qed.

Lemma sound_update_current m id : sound m (update_current m id).
Proof. by apply sound_tree_only. Qed.

Lemma sound_switch l r m s m' s' id : switch l r m s = (m', s', id) → sound m m'.
Proof.
  unfold switch. destruct l; [intros [= <- _ _]; apply sound_refl|].
  destruct (switch_loop r m (queue s)) as [[m1 q1] r1] eqn:Hs. intros [= <- _ _].
  revert m1 q1 r1 Hs. induction (queue s) as [|x q IH]; simpl; intros m1 q1 r1.
  - intros [= <- _ _]. apply sound_refl.
  - destruct (try_thread r m x) as [t|]; [|by apply IH].
    destruct (negb (is_ready t)); [by apply IH|]. intros [= <- _ _]. apply sound_update_current.
Qed.

Lemma sound_context_switch l r1 r2 r3 rsp m s m' s' id :
  context_switch_local l r1 r2 r3 rsp m s = Ret (m', s', id) → sound m m'.
Proof.
  unfold context_switch_local.
  set (cur := match try_current_thread r1 m with Some _ => _ | None => _ end).
  assert (Hc : ∀ m1 c, cur = Ret (Some (m1, c)) → sound m m1).
  { intros m1 c. unfold cur. destruct (try_current_thread r1 m) as [t|].
    - intros [= <- _]. by apply sound_update_obj.
    - destruct (current_tid m =? 0); [|done]. destruct (thread m 1); [|done].
      intros [= <- _]. apply sound_refl. }
  destruct cur as [[[m1 c]|]| | |]; simpl; try done.
  2:{ intros [= <- _ _]. apply sound_refl. }
  specialize (Hc m1 c eq_refl).
  destruct (switch l r2 m1 s) as [[m2 s2] [next|]] eqn:Hs; apply sound_switch in Hs.
  2:{ intros [= <- _ _]. by eapply sound_trans. }
  destruct (try_thread r3 m2 next); [|done]. intros [= <- _ _].
  eapply sound_trans; [exact Hc|]. eapply sound_trans; [exact Hs|].
  destruct (objs m2 !! c) as [tc|] eqn:Htc; [|apply sound_refl].
  case_bool_decide; [|apply sound_refl]. eapply sound_set_live; [exact Htc|congruence].
Qed.

Lemma step_sound m s m' s' : step (m, s) (m', s') → sound m m'.
Proof.
  intros H. inversion H as [? ? t Hn Hr|? ? id sig|? ? id|? ? r id|? ? id|? ? r id|? ? pid
    |? ? order Ho|? ? order Ho|? ? l r1 r2 r3 rsp ? ? id Hcs]; subst.
  - eapply sound_trans; [by apply (sound_insert_fresh m t)|].
    apply sound_add. simpl. rewrite lookup_insert_eq. eauto.
  - apply sound_kill.
  - apply sound_block.
  - apply sound_try_block.
  - apply sound_wake.
  - apply sound_try_wake.
  - apply sound_kill_process.
  - by apply sound_cleanup.
  - apply sound_refl.
  - by eapply sound_context_switch.
Qed.

(** Operations that run one after the other, none inside another, keep the
    tables consistent and the dead dead. *)
Lemma steps_sound c c' : rtc step c c' → sound (fst c) (fst c').
Proof.
  induction 1 as [c|[m1 s1] [m2 s2] [m3 s3] H1 _ IH]; [apply sound_refl|].
  eapply sound_trans; [by eapply step_sound|exact IH].
Qed.

Lemma tm_inv_new : tm_inv TaskManager_new.
Proof.
  split; [|split]; simpl; try set_solver.
Qed.

(** ** Processes with several threads *)

(** The manager after a thread of a process registered itself. *)
Lemma add_process m t m' o :
  try_clone (t_core t) = Some (t_core t) → add m t = (m', o) →
  objs m' = objs m ∧ zombies m' = zombies m ∧ cores m' = cores m ∧
  processes m' !! t_pid t = Some (deref (t_core t)) ∧ tid t ∈ lut m' ∧ lut m ⊆ lut m' ∧
  ∃ g, tree m' !! t_pgrid t = Some g ∧ members g !! t_pid t = Some (Process_new t).
Proof.
  intros Hc. unfold add. rewrite Hc. intros [= <- <-]. simpl.
  repeat split; try done; [by rewrite lookup_insert_eq|set_solver..|].
  rewrite lookup_insert_eq. eexists. split; [done|].
  destruct (tree m !! t_pgrid t); simpl; apply lookup_insert_eq.
Qed.

Lemma sorted_singleton x : sorted_elements {[x]} = [x].
Proof. unfold sorted_elements. rewrite elements_singleton. reflexivity. Qed.

(** [add] registers a process under a fresh thread list each time,
    so after a second thread of the same process has started, killing the
    process reports success but kills only the thread that was added last;
    the earlier thread keeps its state. *)
Lemma kill_process_misses_threads m t1 t2 core :
  t_pid t1 = t_pid t2 → t_pgrid t1 = t_pgrid t2 → tid t1 ≠ tid t2 →
  t_core t1 = Shared core → t_core t2 = Shared core →
  core_pgrid <$> cores m !! core = Some (t_pgrid t2) →
  objs m !! tid t1 = Some t1 → objs m !! tid t2 = Some t2 →
  let m2 := fst (add (fst (add m t1)) t2) in
  let r := kill_process m2 (t_pid t1) in
  snd r = Some tt ∧
  state_of (fst r) (tid t2) = Some Zombie ∧
  state_of (fst r) (tid t1) = Some (t_state t1).
Proof.
  intros Hpid Hpg Hne Hc1 Hc2 Hcore Ho1 Ho2. cbv zeta.
  destruct (add m t1) as [m1 o1] eqn:Ha1. cbn [fst].
  apply add_process in Ha1 as (Hobj1 & _ & Hco1 & _ & _ & _ & _); [|by rewrite Hc1].
  destruct (add m1 t2) as [m2 o2] eqn:Ha2. cbn [fst].
  apply add_process in Ha2 as (Hobj2 & _ & Hco2 & Hp2 & Hin2 & _ & g & Hg & Hmem);
    [|by rewrite Hc2].
  destruct (cores m !! core) as [c|] eqn:Hcr; simpl in Hcore; [|done].
  injection Hcore as Hcg.
  assert (Hlk : processes m2 !! t_pid t1 ≫= (λ core, cores m2 !! core ≫= λ c,
      tree m2 !! core_pgrid c ≫= λ g, members g !! t_pid t1 ≫= λ p, Some (core, p))
      = Some (core, Process_new t2)).
  { rewrite Hpid, Hp2, Hc2. simpl. rewrite Hco2, Hco1, Hcr. simpl. rewrite Hcg, Hg. simpl.
    by rewrite Hmem. }
  assert (Hthread : thread m2 (tid t2) = Some t2).
  { unfold thread. rewrite decide_True by done. by rewrite Hobj2, Hobj1. }
  assert (Hr : kill_process m2 (t_pid t1) = (post_event (set_process_state (fst (kill m2 (tid t2) 0)) core Zombie)
                      (QProcess (t_pid t1)) EXIT, Some tt)).
  { unfold kill_process. rewrite Hlk. simpl. rewrite sorted_singleton. simpl.
    unfold kill. rewrite Hthread. done. }
  rewrite Hr. split; [done|]. unfold state_of. simpl.
  unfold kill. rewrite Hthread. simpl. rewrite Hobj2, Hobj1. split.
  - rewrite !lookup_alter_eq, Ho2. done.
  - rewrite !lookup_alter_ne, Ho1 by done. done.
Qed.

Lemma kill_process_misses_threads_witness :
  let m := set_objs (set_cores TaskManager_new {[ 7 := mkTaskCore 7 0 Ready ]})
             (<[1 := sample_task 1 7]> {[2 := sample_task 2 7]}) in
  state_of (fst (kill_process (fst (add (fst (add m (sample_task 1 7))) (sample_task 2 7))) 7)) 1
    = Some Ready.
Proof.
  intros m.
  apply (kill_process_misses_threads m (sample_task 1 7) (sample_task 2 7) 7);
    reflexivity || discriminate.
Defined.
