(* ===== verification/TaskRaces.v ===== *)
(** The calls of [TaskManager] (kernel/src/kernel/threading/tls.rs), action by
    action.

    A thread's state is an atomic byte; [kill], [block], [wake] and the
    [try_] variants load it, compare, and store in separate instructions, with
    interrupts enabled, so another thread's call can fall in between.  Here a
    call in progress is the list of the actions it still has to perform, each
    of which is one load, one store or one access under a lock; any number of
    calls are in progress and any of them takes the next action.  [Tasks.step]
    is the special case of calls that are not interrupted ([step_uninterrupted]).

    The context switch runs in an interrupt handler with interrupts off and
    stays one step, as do the rebuilding of the run queue and the start of a
    thread, which store to no thread's state. *)
From S2P Require Import Prelude Abi Fd Tasks.
Open Scope Z_scope.

(** ** Actions *)

Inductive action : Set :=
| FindBlock (readable : bool) (id : ThreadID)
| FindWake (readable : bool) (id : ThreadID)
| FindKill (id : ThreadID) (sig : Z)
| FindProcess (pid : ProcessID)
| BlockNotZombie (id : ThreadID)
| BlockNotSleeping (id : ThreadID)
| WakeIfBlocking (id : ThreadID)
| WakeIfSleeping (id : ThreadID)
| StoreBlocking (id : ThreadID)
| StoreReady (id : ThreadID)
| KillStore (id : ThreadID)
| KillData (id : ThreadID) (sig : Z)
| KillUpdate (id : ThreadID)
| ProcessDead (core : Z) (pid : ProcessID)
| ScanZombie (id : ThreadID)
| CleanTree
| ReapOne.

(** [block], [try_block], [wake] and [try_wake]: the result is the state of
    the manager and the actions that follow, [None] when the call returns.
    The caller holds the [Arc] it looked up, so the later actions reach the
    object whether or not the table still has it. *)
Definition gate_act (m : TaskManager) (a : action) : TaskManager * option (list action) :=
  match a with
  | FindBlock r id => (m, match try_thread r m id with
                          | Some _ => Some [BlockNotZombie id] | None => None end)
  | FindWake r id => (m, match try_thread r m id with
                         | Some _ => Some [WakeIfBlocking id] | None => None end)
  | BlockNotZombie id =>
      (m, match state_of m id with
          | None | Some Zombie => None
          | Some _ => Some [BlockNotSleeping id] end)
  | BlockNotSleeping id =>
      (m, match state_of m id with
          | None | Some Sleeping => None
          | Some _ => Some [StoreBlocking id] end)
  | WakeIfBlocking id =>
      (m, match state_of m id with
          | None => None
          | Some Blocking => Some [StoreReady id]
          | Some _ => Some [WakeIfSleeping id] end)
  | WakeIfSleeping id =>
      (m, match state_of m id with
          | Some Sleeping => Some [StoreReady id]
          | _ => None end)
  | StoreBlocking id => (update_obj m id (set_state Blocking), Some [])
  | StoreReady id => (update_obj m id (set_state Ready), Some [])
  | _ => (m, None)
  end.

(** [kill] and [kill_process]. [update] loads the state again. *)
Definition kill_act (m : TaskManager) (a : action) : TaskManager * option (list action) :=
  match a with
  | FindKill id sig =>
      (m, match thread m id with
          | Some _ => Some [KillStore id; KillData id sig; KillUpdate id] | None => None end)
  | KillStore id => (update_obj m id (set_state Zombie), Some [])
  | KillData id sig =>
      (update_obj m id (set_data (DataExit (mkExitInfo (wrap 32 sig) None))), Some [])
  | KillUpdate id => (match objs m !! id with Some t => update m t | None => m end, Some [])
  | FindProcess pid =>
      (m, match
            core ← processes m !! pid;
            c ← cores m !! core;
            g ← tree m !! core_pgrid c;
            p ← members g !! pid;
            Some (core, p)
          with
          | Some (core, p) =>
              Some (((λ id, FindKill id 0) <$> sorted_elements (threads p))
                    ++ [ProcessDead core pid])
          | None => None end)
  | ProcessDead core pid =>
      (post_event (set_process_state m core Zombie) (QProcess pid) EXIT, Some [])
  | _ => (m, None)
  end.

(** [cleanup]: the scan of the table, the tree, and one turn of the loop that
    empties the queue of zombies. *)
Definition cleanup_act (m : TaskManager) (a : action) : TaskManager * option (list action) :=
  match a with
  | ScanZombie id =>
      (if is_zombie m id then set_zombies m (zombies m ++ [id]) else m, Some [])
  | CleanTree => (cleanup_tree m, Some [])
  | ReapOne =>
      match zombies m with
      | [] => (m, None)
      | z :: q =>
          let m := set_zombies m q in
          (if decide (z ∈ lut m) then cleanup_thread (set_lut m (lut m ∖ {[z]})) z else m,
           Some [ReapOne])
      end
  | _ => (m, None)
  end.

Definition act (m : TaskManager) (a : action) : TaskManager * option (list action) :=
  match a with
  | FindBlock _ _ | FindWake _ _ | BlockNotZombie _ | BlockNotSleeping _
  | WakeIfBlocking _ | WakeIfSleeping _ | StoreBlocking _ | StoreReady _ => gate_act m a
  | FindKill _ _ | KillStore _ | KillData _ _ | KillUpdate _
  | FindProcess _ | ProcessDead _ _ => kill_act m a
  | ScanZombie _ | CleanTree | ReapOne => cleanup_act m a
  end.

(** One action of a call with [rest] still to do. *)
Definition advance (m : TaskManager) (a : action) (rest : list action)
    : TaskManager * list action :=
  match act m a with
  | (m', Some more) => (m', more ++ rest)
  | (m', None) => (m', [])
  end.

(** ** Calls *)

Inductive call : TaskManager → list action → Prop :=
| call_block m r id : call m [FindBlock r id]
| call_wake m r id : call m [FindWake r id]
| call_kill m id sig : call m [FindKill id sig]
| call_kill_process m pid : call m [FindProcess pid]
| call_cleanup m order :
    order ≡ₚ elements (lut m) → call m ((ScanZombie <$> order) ++ [CleanTree; ReapOne]).

(** The action leads to a store to [id] that was decided on an earlier load of
    its state and does not look for [Zombie] any more. *)
Definition threat (id : ThreadID) (a : action) : bool :=
  match a with
  | BlockNotSleeping j | StoreBlocking j | StoreReady j => bool_decide (j = id)
  | _ => false
  end.

Definition threatened (P : list (list action)) (id : ThreadID) : bool :=
  existsb (existsb (threat id)) P.

(** [calls]: the calls in progress.  [raced] is not state of the kernel: it
    records the threads that were killed while a store to their state was
    outstanding. *)
Record conf : Type := mkConf {
  tm : TaskManager;
  rr : LazyRoundRobin;
  calls : list (list action);
  raced : gset ThreadID
}.

Definition init : conf := mkConf TaskManager_new RR_new [] ∅.

Definition race (P : list (list action)) (a : action) (R : gset ThreadID) : gset ThreadID :=
  match a with
  | KillStore id => if threatened P id then {[id]} ∪ R else R
  | _ => R
  end.

Inductive fstep : conf → conf → Prop :=
| f_call m s P R c : call m c → fstep (mkConf m s P R) (mkConf m s (c :: P) R)
| f_act m s P1 a rest P2 R m' rest' :
    advance m a rest = (m', rest') →
    fstep (mkConf m s (P1 ++ (a :: rest) :: P2) R)
      (mkConf m' s (P1 ++ rest' :: P2) (race (P1 ++ (a :: rest) :: P2) a R))
| f_spawn m s P R t :
    objs m !! tid t = None → t_state t = Ready →
    fstep (mkConf m s P R)
      (let '(m', s') := add_task_ptr (set_objs m (<[tid t := t]> (objs m))) s t in
       mkConf m' s' P R)
| f_reschedule m s P R order :
    order ≡ₚ elements (lut m) → fstep (mkConf m s P R) (mkConf m (reschedule m order s) P R)
| f_context_switch m s P R l r1 r2 r3 rsp m' s' id :
    context_switch_local l r1 r2 r3 rsp m s = Ret (m', s', id) →
    fstep (mkConf m s P R) (mkConf m' s' P R).

(** ** Calls that are not interrupted *)

(** A call that runs alone: its actions in a row. *)
Fixpoint alone (n : nat) (m : TaskManager) (c : list action) : TaskManager * list action :=
  match n, c with
  | S n, a :: rest => let '(m, c) := advance m a rest in alone n m c
  | _, _ => (m, c)
  end.

Lemma alone_add n k m c :
  alone (n + k) m c = let '(m, c) := alone n m c in alone k m c.
Proof.
  revert m c. induction n as [|n IH]; intros m c; simpl; [by destruct (alone k m c)|].
  destruct c as [|a rest]; [by destruct k|]. destruct (advance m a rest). apply IH.
Qed.

Lemma alone_block r m id :
  ∃ n, alone n m [FindBlock r id] = (fst (try_block r m id), []).
Proof.
  unfold try_block. destruct (try_thread r m id) as [t|] eqn:Ht.
  2:{ exists 1%nat. simpl. unfold advance. simpl. by rewrite Ht. }
  pose proof (try_thread_Some _ _ _ _ Ht) as Ho. apply thread_Some in Ho as [_ Ho].
  exists 4%nat. simpl. unfold advance, act, gate_act. rewrite Ht. simpl.
  unfold state_of, may_block. rewrite Ho. simpl.
  destruct (t_state t) eqn:Hs; simpl; rewrite ?Ho; simpl; by rewrite ?Hs.
Qed.

Lemma alone_wake r m id : ∃ n, alone n m [FindWake r id] = (fst (try_wake r m id), []).
Proof.
  unfold try_wake. destruct (try_thread r m id) as [t|] eqn:Ht.
  2:{ exists 1%nat. simpl. unfold advance. simpl. by rewrite Ht. }
  pose proof (try_thread_Some _ _ _ _ Ht) as Ho. apply thread_Some in Ho as [_ Ho].
  exists 4%nat. simpl. unfold advance, act, gate_act. rewrite Ht. simpl.
  unfold state_of, may_wake. rewrite Ho. simpl.
  destruct (t_state t) eqn:Hs; simpl; rewrite ?Ho; simpl; by rewrite ?Hs.
Qed.

(** [kill] followed by the rest of the call it belongs to, which is dropped
    when the thread is not found. *)
Lemma alone_kill m id sig rest :
  ∃ n, alone n m (FindKill id sig :: rest) =
       (fst (kill m id sig), match snd (kill m id sig) with Some _ => rest | None => [] end).
Proof.
  unfold kill. destruct (thread m id) as [t|] eqn:Ht.
  2:{ exists 1%nat. simpl. unfold advance. simpl. by rewrite Ht. }
  pose proof (thread_Some _ _ _ Ht) as [_ Ho].
  exists 4%nat. simpl. unfold advance, act, kill_act. rewrite Ht. simpl.
  rewrite !lookup_alter_eq, Ho. simpl. unfold update. by destruct rest.
Qed.

Lemma alone_kill_all m ids rest :
  ∃ n, alone n m (((λ id, FindKill id 0) <$> ids) ++ rest) =
       (fst (kill_all m ids), match snd (kill_all m ids) with Some _ => rest | None => [] end).
Proof.
  revert m. induction ids as [|id ids IH]; intros m; [by exists O|]. csimpl.
  destruct (alone_kill m id 0 (((λ id, FindKill id 0) <$> ids) ++ rest)) as [n Hn].
  destruct (kill m id 0) as [m1 [u|]]; simpl in *; [|by exists n].
  destruct (IH m1) as [k Hk]. exists (n + k)%nat. by rewrite alone_add, Hn.
Qed.

Lemma alone_kill_process m pid :
  ∃ n, alone n m [FindProcess pid] = (fst (kill_process m pid), []).
Proof.
  unfold kill_process. destruct (_ ≫= _) as [[core p]|] eqn:Hf.
  2:{ exists 1%nat. simpl. unfold advance, act, kill_act. by rewrite Hf. }
  destruct (alone_kill_all m (sorted_elements (threads p)) [ProcessDead core pid]) as [n Hn].
  exists (1 + n + 1)%nat. rewrite !alone_add. simpl. unfold advance, act, kill_act at 1.
  rewrite Hf, app_nil_r, Hn. by destruct (kill_all m _) as [m1 [u|]].
Qed.

Lemma alone_scan m order rest :
  alone (length order) m ((ScanZombie <$> order) ++ rest) =
  (set_zombies m (zombies m ++ filter (λ id, is_zombie m id) order), rest).
Proof.
  revert m. induction order as [|id order IH]; intros m; simpl.
  { rewrite app_nil_r. by destruct m. }
  rewrite filter_cons. unfold advance, act, cleanup_act. destruct (is_zombie m id) eqn:Hz; simpl.
  - rewrite IH. simpl. by rewrite <- app_assoc.
  - by rewrite IH.
Qed.

Lemma set_zombies_same m : set_zombies m (zombies m) = m.
Proof. by destruct m. Qed.

Lemma cleanup_thread_set_zombies m z id :
  cleanup_thread (set_zombies m z) id = set_zombies (cleanup_thread m id) z.
Proof.
  unfold cleanup_thread. simpl. destruct (objs m !! id) as [t|]; [|done].
  destruct (negb (krsp t =? DEAD)), (user_stack_top t), (ursp t); try done;
    by destruct (negb _ && _).
Qed.

Lemma reap_set_zombies m z q : reap (set_zombies m z) q = reap m q.
Proof.
  revert m z. induction q as [|x q IH]; intros m z; simpl; [done|].
  destruct (decide (x ∈ lut m)); [|apply IH].
  change (set_lut (set_zombies m z) _) with (set_zombies (set_lut m (lut m ∖ {[x]})) z).
  by rewrite cleanup_thread_set_zombies, IH.
Qed.

Lemma cleanup_thread_zombies m id : zombies (cleanup_thread m id) = zombies m.
Proof. apply cleanup_thread_frame. Qed.

Lemma alone_reap m q : zombies m = q → alone (S (length q)) m [ReapOne] = (reap m q, []).
Proof.
  revert m. induction q as [|z q IH]; intros m Hz.
  { simpl. unfold advance. simpl. rewrite Hz. by rewrite <- Hz, set_zombies_same. }
  change (alone (S (length (z :: q))) m [ReapOne])
    with (let '(m1, c) := advance m ReapOne [] in alone (S (length q)) m1 c).
  unfold advance, act, cleanup_act. rewrite Hz. cbn [reap lut set_zombies].
  destruct (decide (z ∈ lut m)) as [Hin|Hin].
  - change (set_lut (set_zombies m q) _) with (set_zombies (set_lut m (lut m ∖ {[z]})) q).
    rewrite cleanup_thread_set_zombies. change ([ReapOne] ++ []) with [ReapOne].
    by rewrite IH, reap_set_zombies.
  - change ([ReapOne] ++ []) with [ReapOne]. by rewrite IH, reap_set_zombies.
Qed.

Lemma alone_cleanup m order :
  ∃ n, alone n m ((ScanZombie <$> order) ++ [CleanTree; ReapOne]) = (cleanup m order, []).
Proof.
  set (m1 := set_zombies m (zombies m ++ filter (λ id, is_zombie m id) order)).
  exists (length order + (1 + S (length (zombies (cleanup_tree m1)))))%nat.
  rewrite alone_add, alone_scan. fold m1. rewrite alone_add.
  change (alone 1 m1 [CleanTree; ReapOne]) with (cleanup_tree m1, [ReapOne]).
  cbv beta match. by rewrite (alone_reap _ _ eq_refl).
Qed.

(** A call run alone is a run of the fine-grained system. *)
Lemma alone_fsteps n m c m' c' s P R :
  alone n m c = (m', c') → ∃ R', rtc fstep (mkConf m s (c :: P) R) (mkConf m' s (c' :: P) R').
Proof.
  revert m c R. induction n as [|n IH]; intros m c R; simpl.
  { intros [= <- <-]. eexists. apply rtc_refl. }
  destruct c as [|a rest]; [intros [= <- <-]; eexists; apply rtc_refl|].
  destruct (advance m a rest) as [m1 c1] eqn:Ha. intros H.
  apply (IH _ _ (race ((a :: rest) :: P) a R)) in H as [R' H]. exists R'.
  eapply rtc_l; [|exact H]. by apply (f_act m s [] a rest P R m1 c1).
Qed.

Lemma call_uninterrupted m c m' s P R :
  call m c → (∃ n, alone n m c = (m', [])) →
  ∃ R', rtc fstep (mkConf m s P R) (mkConf m' s ([] :: P) R').
Proof.
  intros Hc [n Hn]. eapply alone_fsteps in Hn as [R' Hn]. exists R'.
  eapply rtc_l; [|exact Hn]. by apply f_call.
Qed.

(** The operations of [Tasks] are the calls that no other call interrupts. *)
Lemma step_uninterrupted m s m' s' P R :
  step (m, s) (m', s') →
  ∃ P' R', rtc fstep (mkConf m s P R) (mkConf m' s' P' R').
Proof.
  intros H. inversion H as [? ? t Hn Hr|? ? id sig|? ? id|? ? r id|? ? id|? ? r id|? ? pid
    |? ? order Ho|? ? order Ho|? ? l r1 r2 r3 rsp ? ? id Hcs]; subst.
  - exists P, R. apply rtc_once. by apply (f_spawn m s P R t).
  - exists ([] :: P). eapply call_uninterrupted; [by apply (call_kill m id sig)|].
    destruct (alone_kill m id sig []) as [n Hn]. exists n. rewrite Hn.
    by destruct (snd _).
  - exists ([] :: P). eapply call_uninterrupted; [by apply (call_block m true id)|].
    apply (alone_block true).
  - exists ([] :: P). eapply call_uninterrupted; [by apply (call_block m r id)|]. apply alone_block.
  - exists ([] :: P). eapply call_uninterrupted; [by apply (call_wake m true id)|].
    apply (alone_wake true).
  - exists ([] :: P). eapply call_uninterrupted; [by apply (call_wake m r id)|]. apply alone_wake.
  - exists ([] :: P). eapply call_uninterrupted; [by apply call_kill_process|].
    apply alone_kill_process.
  - exists ([] :: P). eapply call_uninterrupted; [by apply call_cleanup|]. apply alone_cleanup.
  - exists P, R. apply rtc_once. by apply f_reschedule.
  - exists P, R. apply rtc_once. by eapply f_context_switch.
Qed.

(** ** What one action does *)

Definition tables_ok (m : TaskManager) : Prop :=
  (∀ id, id ∈ lut m → is_Some (objs m !! id)) ∧
  (∀ id t, objs m !! id = Some t → tid t = id).

(** Between [m] and [m'] no thread's state changed and no thread left the
    table. *)
Record quiet (m m' : TaskManager) : Prop := {
  q_view : ∀ id, view_of m' id = view_of m id;
  q_lut : lut m ⊆ lut m';
  q_new : ∀ id, id ∈ lut m' → id ∈ lut m ∨ is_Some (objs m !! id)
}.

Lemma view_is_zombie m m' id : view_of m' id = view_of m id → is_zombie m' id = is_zombie m id.
Proof. intros Hv. rewrite !is_zombie_state. apply bool_decide_ext. by rewrite (view_state m m'). Qed.

Lemma view_dom m m' id :
  view_of m' id = view_of m id → is_Some (objs m !! id) → is_Some (objs m' !! id).
Proof.
  unfold view_of. intros Hv [t Ht]. rewrite Ht in Hv. by destruct (objs m' !! id); [eexists|].
Qed.

Lemma tables_ok_view m m' :
  (∀ id, view_of m' id = view_of m id) →
  (∀ id, id ∈ lut m' → id ∈ lut m ∨ is_Some (objs m !! id)) → tables_ok m → tables_ok m'.
Proof.
  intros Hv Hn [Hl Ht]. split.
  - intros id Hid. apply (view_dom m); [done|]. destruct (Hn id Hid); [by apply Hl|done].
  - intros id t Ho. specialize (Hv id). unfold view_of in Hv. rewrite Ho in Hv.
    destruct (objs m !! id) as [t0|] eqn:H0; simpl in Hv; [|done].
    apply Ht in H0. unfold view in Hv. congruence.
Qed.

Lemma quiet_refl m : quiet m m.
Proof. split; [done|done|by left]. Qed.

Lemma quiet_tree_only m m' : tree_only m m' → quiet m m'.
Proof.
  intros [Ho Hl _ _]. split; [intros id; unfold view_of; by rewrite Ho| |]; rewrite Hl;
    [done|by left].
Qed.

Lemma quiet_add m t : tables_ok m → objs m !! tid t = Some t → quiet m (fst (add m t)).
Proof.
  intros _ Ho. unfold add. destruct (try_clone (t_core t)); [|apply quiet_refl].
  split; simpl; [done|set_solver|]. intros id [->%elem_of_singleton|Hid]%elem_of_union;
    [right; by rewrite Ho|by left].
Qed.

Lemma quiet_alter m id f :
  (∀ t, view (f t) = view t) → quiet m (update_obj m id f).
Proof. intros Hf. split; [intros j; by apply alter_view|done|by left]. Qed.

(** The effect of an action on the states, the table and the queue of zombies,
    and where a threat can come from. *)
Record effect (m : TaskManager) (a : action) (m' : TaskManager) (o : option (list action))
    : Prop := {
  e_tables : tables_ok m → tables_ok m';
  e_dead : ∀ id, is_zombie m id = true →
             is_zombie m' id = true ∨ threat id a = true;
  e_born : ∀ id, is_zombie m' id = true → is_zombie m id = true ∨ a = KillStore id;
  e_queue : ∀ id, id ∈ zombies m' → id ∈ zombies m ∨ is_zombie m' id = true;
  e_table : ∀ id, id ∈ lut m → id ∈ lut m' ∨ id ∈ zombies m;
  e_threat : ∀ id b more, o = Some more → b ∈ more → threat id b = true →
               threat id a = true ∨ is_zombie m id = false
}.

Lemma effect_quiet m a m' o :
  quiet m m' → (∀ id, id ∈ zombies m' → id ∈ zombies m ∨ is_zombie m id = true) →
  (∀ id b more, o = Some more → b ∈ more → threat id b = true →
     threat id a = true ∨ is_zombie m id = false) → effect m a m' o.
Proof.
  intros [Hv Hl Hn] Hq Ht. split.
  - by apply tables_ok_view.
  - intros id Hz. left. by rewrite (view_is_zombie m).
  - intros id. rewrite (view_is_zombie m) by done. by left.
  - intros id Hid. rewrite (view_is_zombie m) by done. by apply Hq.
  - intros id Hid. left. by apply Hl.
  - done.
Qed.

Lemma effect_none m a : effect m a m None.
Proof. apply effect_quiet; [apply quiet_refl|by left|done]. Qed.

Lemma effect_same m a more :
  (∀ id b, b ∈ more → threat id b = true → threat id a = true ∨ is_zombie m id = false) →
  effect m a m (Some more).
Proof.
  intros Ht. apply effect_quiet; [apply quiet_refl|by left|]. intros id b ? [= <-]. apply Ht.
Qed.

Lemma state_of_live m id s : state_of m id = Some s → s ≠ Zombie → is_zombie m id = false.
Proof. intros Hs Hn. rewrite is_zombie_state, Hs. apply bool_decide_eq_false. congruence. Qed.

Lemma update_obj_zombie m id s j :
  is_zombie (update_obj m id (set_state s)) j = true →
  (j ≠ id ∧ is_zombie m j = true) ∨ (j = id ∧ s = Zombie).
Proof.
  rewrite !is_zombie_true. intros (t & Ht & Hs). simpl in Ht.
  destruct (decide (id = j)) as [->|Hne].
  - rewrite lookup_alter_Some in Ht. destruct Ht as [(_ & t0 & _ & ->)|[? _]]; [|done]. by right.
  - rewrite lookup_alter_ne in Ht by done. left. split; [done|]. by eexists.
Qed.

Lemma update_obj_keeps_zombie m id s j :
  j ≠ id ∨ s = Zombie → is_zombie m j = true → is_zombie (update_obj m id (set_state s)) j = true.
Proof.
  rewrite !is_zombie_true. intros Hj (t & Ht & Hs). simpl.
  destruct (decide (id = j)) as [->|Hne].
  - rewrite lookup_alter_eq, Ht. simpl. eexists. split; [done|]. destruct Hj; [done|by subst].
  - rewrite lookup_alter_ne by done. by eexists.
Qed.

Lemma tables_ok_alter m id f :
  (∀ t, tid (f t) = tid t) → tables_ok m → tables_ok (update_obj m id f).
Proof.
  intros Hf [Hl Ht]. split.
  - intros j Hj. simpl. apply lookup_alter_is_Some. by apply Hl.
  - intros j t. simpl. rewrite lookup_alter_Some.
    intros [(-> & t0 & Hj & ->)|[_ Hj]]; [rewrite Hf|]; by apply Ht.
Qed.

(** A store to the state of [id]: of a live state, which is a threat, or of
    [Zombie]. *)
Lemma effect_store m a id s :
  (if bool_decide (s = Zombie) then a = KillStore id else threat id a = true) →
  tables_ok m → effect m a (update_obj m id (set_state s)) (Some []).
Proof.
  intros Ha Hok. split.
  - by apply tables_ok_alter.
  - intros j Hj. destruct (decide (j = id)) as [->|].
    + case_bool_decide; [|by right]. left. apply update_obj_keeps_zombie; [by right|done].
    + left. apply update_obj_keeps_zombie; [by left|done].
  - intros j [[_ Hj]|[-> ->]]%update_obj_zombie; [by left|].
    rewrite bool_decide_eq_true_2 in Ha by done. by right.
  - by left.
  - by left.
  - intros j b more [= <-] Hb. by apply not_elem_of_nil in Hb.
Qed.

(** One action follows: it is no threat, or it is decided on a state that is
    not [Zombie], or it was a threat already. *)
Ltac next_action :=
  let j := fresh "j" in
  try apply effect_none; apply effect_same; intros j ? ->%list_elem_of_singleton; simpl;
  first [ done | by left | by intros <-%bool_decide_eq_true; right; eapply state_of_live ].

Lemma gate_effect m a : tables_ok m → effect m a (fst (gate_act m a)) (snd (gate_act m a)).
Proof.
  intros Hok. destruct a as [r id|r id| | |id|id|id|id|id|id| | | | | | |]; simpl;
    try apply effect_none.
  - destruct (try_thread r m id); next_action.
  - destruct (try_thread r m id); next_action.
  - destruct (state_of m id) as [[]|] eqn:Hs; next_action.
  - destruct (state_of m id) as [[]|] eqn:Hs; next_action.
  - destruct (state_of m id) as [[]|] eqn:Hs; next_action.
  - destruct (state_of m id) as [[]|] eqn:Hs; next_action.
  - apply effect_store; [|done]. simpl. by apply bool_decide_eq_true.
  - apply effect_store; [|done]. simpl. by apply bool_decide_eq_true.
Qed.

Lemma effect_done m a m' :
  quiet m m' → (∀ id, id ∈ zombies m' → id ∈ zombies m ∨ is_zombie m id = true) →
  effect m a m' (Some []).
Proof.
  intros Hq Hz. apply effect_quiet; [done..|]. intros id b more [= <-] Hb.
  by apply not_elem_of_nil in Hb.
Qed.

(** [update] queues the thread when its state is [Zombie] at that moment and
    registers it again otherwise. *)
Lemma effect_update m a t :
  tables_ok m → objs m !! tid t = Some t → effect m a (update m t) (Some []).
Proof.
  intros Hok Ho. unfold update. destruct (t_state t) eqn:Hs;
    try (apply effect_done; [by apply quiet_add|]; intros id;
         unfold add; destruct (try_clone (t_core t)); by left).
  apply effect_done; [split; [done|done|by left]|]. intros id. simpl.
  rewrite elem_of_app, list_elem_of_singleton. intros [?| ->]; [by left|right].
  apply is_zombie_true. by eexists.
Qed.

Lemma kill_effect m a : tables_ok m → effect m a (fst (kill_act m a)) (snd (kill_act m a)).
Proof.
  intros Hok. destruct a as [| |id sig|pid| | | | | | |id|id sig|id|core pid| | |]; simpl;
    try apply effect_none.
  - destruct (thread m id); [|apply effect_none]. apply effect_same.
    intros j b Hb. repeat (apply elem_of_cons in Hb as [->|Hb]; [done|]).
    by apply not_elem_of_nil in Hb.
  - destruct (_ ≫= _) as [[core p]|]; [|apply effect_none]. apply effect_same.
    intros j b [(id & -> & _)%list_elem_of_fmap|Hb]%elem_of_app; [done|].
    by apply list_elem_of_singleton in Hb as ->.
  - by apply effect_store.
  - apply effect_done; [by apply quiet_alter|by left].
  - destruct (objs m !! id) as [t|] eqn:Ho; [|apply effect_done; [apply quiet_refl|by left]].
    apply effect_update; [done|]. by rewrite (proj2 Hok id t Ho).
  - apply effect_done; [by apply quiet_tree_only|by left].
Qed.

Lemma effect_reap m z q :
  zombies m = z :: q → tables_ok m →
  effect m ReapOne
    (if decide (z ∈ lut m) then cleanup_thread (set_lut (set_zombies m q) (lut m ∖ {[z]})) z
     else set_zombies m q) (Some [ReapOne]).
Proof.
  intros Hz Hok. set (m1 := set_lut (set_zombies m q) (lut m ∖ {[z]})).
  destruct (cleanup_thread_frame m1 z) as (Hl & Hzo & Hv & _ & _). cbv zeta in *.
  assert (Hview : ∀ j, view_of (cleanup_thread m1 z) j = view_of m j) by (intros j; by rewrite Hv).
  destruct (decide (z ∈ lut m)) as [Hin|Hin].
  - split.
    + apply tables_ok_view; [done|]. rewrite Hl. simpl. intros id. set_solver.
    + intros id. rewrite (view_is_zombie m _ id (Hview id)). by left.
    + intros id. rewrite (view_is_zombie m _ id (Hview id)). by left.
    + intros id. rewrite Hzo, Hz. simpl. intros Hid. left. by right.
    + intros id Hid. rewrite Hl, Hz. simpl. destruct (decide (id = z)) as [->|];
        [right; left|left; set_solver].
    + intros id b more [= <-] ->%list_elem_of_singleton. done.
  - apply effect_quiet; [split; [done|done|by left]|..].
    + intros id. rewrite Hz. simpl. left. by right.
    + intros id b more [= <-] ->%list_elem_of_singleton. done.
Qed.

Lemma cleanup_effect m a :
  tables_ok m → effect m a (fst (cleanup_act m a)) (snd (cleanup_act m a)).
Proof.
  intros Hok. destruct a as [| | | | | | | | | | | | | |id| |]; simpl; try apply effect_none.
  - destruct (is_zombie m id) eqn:Hz; [|apply effect_done; [apply quiet_refl|by left]].
    apply effect_done; [split; [done|done|by left]|]. intros j. simpl.
    rewrite elem_of_app, list_elem_of_singleton. intros [?| ->]; [by left|by right].
  - apply effect_done; [apply quiet_tree_only, cleanup_tree_only|].
    intros id. rewrite (to_zombies _ _ (cleanup_tree_only m)). by left.
  - destruct (zombies m) as [|z q] eqn:Hz; [apply effect_none|]. by apply effect_reap.
Qed.

Lemma act_effect m a : tables_ok m → effect m a (fst (act m a)) (snd (act m a)).
Proof.
  intros Hok. destruct a; first [by apply gate_effect|by apply kill_effect|by apply cleanup_effect].
Qed.

(** ** The steps that are not calls *)

Record calm (m m' : TaskManager) : Prop := {
  c_tables : tables_ok m → tables_ok m';
  c_zombie : ∀ id, is_zombie m' id = is_zombie m id;
  c_queue : zombies m' = zombies m;
  c_lut : lut m ⊆ lut m'
}.

#[export] Instance calm_preorder : PreOrder calm.
Proof.
  split; [by split|]. intros m1 m2 m3 [T1 Z1 Q1 L1] [T2 Z2 Q2 L2]. split; [by auto| |congruence|].
  - intros id. by rewrite Z2.
  - by etrans.
Qed.

Lemma calm_set_krsp m id k : calm m (update_obj m id (set_krsp k)).
Proof.
  split; [by apply tables_ok_alter| |done|done].
  intros j. apply view_is_zombie. by apply alter_view.
Qed.

Lemma calm_set_ready m id t :
  objs m !! id = Some t → t_state t = Running → calm m (update_obj m id (set_state Ready)).
Proof.
  intros Ho Hr. split; [by apply tables_ok_alter| |done|done].
  intros j. destruct (is_zombie m j) eqn:Hz.
  - apply update_obj_keeps_zombie; [|done]. left. intros ->.
    apply is_zombie_true in Hz as (t' & ? & ?). congruence.
  - apply not_true_iff_false. intros [[_ ?]|[_ ?]]%update_obj_zombie; congruence.
Qed.

Lemma calm_switch l r m s m' s' o : switch l r m s = (m', s', o) → calm m m'.
Proof.
  unfold switch. destruct l; [intros [= <- _ _]; reflexivity|].
  destruct (switch_loop r m (queue s)) as [[m1 q1] r1] eqn:Hs. intros [= <- _ _].
  revert m1 q1 r1 Hs. induction (queue s) as [|x q IH]; simpl; intros m1 q1 r1.
  - intros [= <- _ _]. reflexivity.
  - destruct (try_thread r m x) as [t|]; [|by apply IH].
    destruct (negb (is_ready t)); [by apply IH|]. intros [= <- _ _]. by split.
Qed.

Lemma calm_context_switch l r1 r2 r3 rsp m s m' s' o :
  context_switch_local l r1 r2 r3 rsp m s = Ret (m', s', o) → calm m m'.
Proof.
  unfold context_switch_local.
  set (cur := match try_current_thread r1 m with Some _ => _ | None => _ end).
  assert (Hc : ∀ m1 c, cur = Ret (Some (m1, c)) → calm m m1).
  { intros m1 c. unfold cur. destruct (try_current_thread r1 m) as [t|].
    - intros [= <- _]. apply calm_set_krsp.
    - destruct (current_tid m =? 0); [|done]. destruct (thread m 1); [|done].
      intros [= <- _]. reflexivity. }
  destruct cur as [[[m1 c]|]| | |]; simpl; try done.
  2:{ intros [= <- _ _]. reflexivity. }
  specialize (Hc m1 c eq_refl).
  destruct (switch l r2 m1 s) as [[m2 s2] [next|]] eqn:Hs; apply calm_switch in Hs.
  2:{ intros [= <- _ _]. by etrans. }
  destruct (try_thread r3 m2 next); [|done]. intros [= <- _ _].
  etrans; [exact Hc|]. etrans; [exact Hs|].
  destruct (objs m2 !! c) as [tc|] eqn:Htc; [|reflexivity].
  case_bool_decide; [by eapply calm_set_ready|reflexivity].
Qed.

Lemma calm_spawn m s t m' s' :
  objs m !! tid t = None → t_state t = Ready →
  add_task_ptr (set_objs m (<[tid t := t]> (objs m))) s t = (m', s') → calm m m'.
Proof.
  intros Hn Hr [= <- _]. set (m1 := set_objs m _).
  assert (H1 : calm m m1).
  { split; [|intros j|done|done].
    - intros [Hl Ht]. split; simpl.
      + intros id Hid. apply lookup_insert_is_Some'. right. by apply Hl.
      + intros id t0. rewrite lookup_insert_Some. intros [[<- <-]|[_ ?]]; [done|by apply Ht].
    - unfold is_zombie, m1. simpl. destruct (decide (tid t = j)) as [<-|].
      + rewrite lookup_insert_eq, Hn. apply bool_decide_eq_false. congruence.
      + by rewrite lookup_insert_ne. }
  etrans; [exact H1|]. unfold add. destruct (try_clone (t_core t)); [|reflexivity].
  split; simpl; [|done|done|set_solver]. intros [Hl Ht]. split; [|done].
  intros id [->%elem_of_singleton|Hid]%elem_of_union; [|by apply Hl].
  simpl. rewrite lookup_insert_eq. eauto.
Qed.

(** ** The invariant *)

Record finv (c : conf) : Prop := {
  f_tables : tables_ok (tm c);
  f_threat : ∀ id, is_zombie (tm c) id = true → id ∈ raced c ∨ threatened (calls c) id = false;
  f_queue : ∀ id, id ∈ zombies (tm c) → id ∈ raced c ∨ is_zombie (tm c) id = true
}.

(** A thread that is dead for good. *)
Definition dead (c : conf) (id : ThreadID) : Prop :=
  is_zombie (tm c) id = true ∧ threatened (calls c) id = false.

Lemma threatened_spec P id :
  threatened P id = true ↔ ∃ c a, c ∈ P ∧ a ∈ c ∧ threat id a = true.
Proof.
  unfold threatened. rewrite existsb_exists. split.
  - intros (c & Hc & H). apply existsb_exists in H as (a & Ha & Ht). exists c, a.
    by rewrite !list_elem_of_In.
  - intros (c & a & Hc & Ha & Ht). exists c. split; [by apply list_elem_of_In|].
    apply existsb_exists. exists a. split; [by apply list_elem_of_In|done].
Qed.

Lemma threatened_call m c P id : call m c → threatened (c :: P) id = threatened P id.
Proof.
  intros Hc. unfold threatened. simpl.
  assert (existsb (threat id) c = false) as ->; [|done].
  destruct Hc; try done. rewrite existsb_app. simpl. rewrite orb_false_r.
  clear. by induction order.
Qed.

Lemma threatened_middle P1 c P2 id :
  threatened (P1 ++ c :: P2) id = existsb (threat id) c || threatened (P1 ++ P2) id.
Proof.
  unfold threatened. rewrite !existsb_app. simpl.
  destruct (existsb (existsb (threat id)) P1), (existsb (threat id) c); done.
Qed.

(** A threat to a dead thread does not come from nowhere. *)
Lemma threatened_advance m a rest m' rest' P1 P2 id :
  tables_ok m → advance m a rest = (m', rest') → is_zombie m id = true →
  threatened (P1 ++ (a :: rest) :: P2) id = false → threatened (P1 ++ rest' :: P2) id = false.
Proof.
  intros Hok Ha Hz. rewrite !threatened_middle. simpl. intros [[Hta Htr]%orb_false_iff Hp]%orb_false_iff.
  rewrite Hp, orb_false_r. unfold advance in Ha. pose proof (act_effect m a Hok) as He.
  destruct (act m a) as [m1 [more|]]; injection Ha as <- <-; [|done]. simpl in He.
  rewrite existsb_app, Htr, orb_false_r. apply not_true_iff_false.
  intros (b & Hb%list_elem_of_In & Ht)%existsb_exists.
  destruct (e_threat _ _ _ _ He id b more eq_refl Hb Ht); congruence.
Qed.

Lemma race_mono P a R : R ⊆ race P a R.
Proof. destruct a; simpl; try done. destruct (threatened P id); set_solver. Qed.

Lemma f_act_inv m s P1 a rest P2 R m' rest' :
  let P := P1 ++ (a :: rest) :: P2 in
  let c' := mkConf m' s (P1 ++ rest' :: P2) (race P a R) in
  finv (mkConf m s P R) → advance m a rest = (m', rest') →
  finv c' ∧ ∀ id, dead (mkConf m s P R) id → dead c' id.
Proof.
  intros P c' [Hok Hth Hq] Ha. simpl in *.
  pose proof (race_mono P a R) as Hmono. pose proof (act_effect m a Hok) as He.
  assert (Hm : m' = fst (act m a)).
  { unfold advance in Ha. by destruct (act m a) as [m1 [more|]]; injection Ha as <- _. }
  rewrite <- Hm in He.
  assert (Hdead : ∀ id, is_zombie m id = true → threatened P id = false →
    is_zombie m' id = true ∧ threatened (P1 ++ rest' :: P2) id = false).
  { intros id Hz Hn. split; [|by eapply threatened_advance].
    destruct (e_dead _ _ _ _ He id Hz) as [?|Ht]; [done|].
    unfold P in Hn. rewrite threatened_middle in Hn. simpl in Hn. by rewrite Ht in Hn. }
  split; [split; simpl|intros id [Hz Hn]; by apply Hdead].
  - by apply (e_tables _ _ _ _ He).
  - intros id Hz'. destruct (e_born _ _ _ _ He id Hz') as [Hz| ->].
    + destruct (Hth id Hz) as [?|Hn]; [left; set_solver|right; by apply Hdead].
    + simpl. destruct (threatened P id) eqn:Ht; [left; set_solver|right].
      injection Ha as <- <-. unfold P in Ht. rewrite threatened_middle in *. done.
  - intros id Hid. destruct (e_queue _ _ _ _ He id Hid) as [Hz|?]; [|by right].
    destruct (Hq id Hz) as [?|Hzo]; [left; set_solver|].
    destruct (Hth id Hzo) as [?|Hn]; [left; set_solver|right; by apply Hdead].
Qed.

Lemma calm_inv m m' s s' P R :
  calm m m' → finv (mkConf m s P R) →
  finv (mkConf m' s' P R) ∧ ∀ id, dead (mkConf m s P R) id → dead (mkConf m' s' P R) id.
Proof.
  intros [Ht Hz Hq _] [Hok Hth Hqu]. unfold dead. simpl in *.
  split; [split; simpl|intros id; by rewrite Hz].
  - by apply Ht.
  - intros id. rewrite Hz. apply Hth.
  - intros id. rewrite Hq, Hz. apply Hqu.
Qed.

Lemma fstep_inv c c' : fstep c c' → finv c → finv c' ∧ ∀ id, dead c id → dead c' id.
Proof.
  intros [m s P R cl Hc|m s P1 a rest P2 R m' rest' Ha|m s P R t Hn Hr|m s P R order _
    |m s P R l r1 r2 r3 rsp m' s' id Hcs] Hi.
  - destruct Hi as [Hok Hth Hq]. unfold dead. cbn [tm calls raced] in *.
    split; [split; cbn [tm calls raced]; try done|].
    + intros id. rewrite (threatened_call _ _ _ _ Hc). apply Hth.
    + intros id. by rewrite (threatened_call _ _ _ _ Hc).
  - by apply f_act_inv.
  - destruct (add_task_ptr _ s t) as [m' s'] eqn:Ha. eapply calm_inv; [|done].
    by eapply calm_spawn.
  - by eapply calm_inv.
  - eapply calm_inv; [|done]. by eapply calm_context_switch.
Qed.

Lemma fsteps_inv c c' : rtc fstep c c' → finv c → finv c' ∧ ∀ id, dead c id → dead c' id.
Proof.
  induction 1 as [c|c1 c2 c3 H1 _ IH]; intros Hi; [done|].
  destruct (fstep_inv _ _ H1 Hi) as [Hi2 Hd]. destruct (IH Hi2) as [Hi3 Hd3]. auto.
Qed.

Lemma finv_init : finv init.
Proof. split; simpl; [split; simpl; set_solver|done|]. intros id Hid. by apply not_elem_of_nil in Hid. Qed.

Lemma switch_not_zombie l r m s id : is_zombie m id = true → snd (switch l r m s) ≠ Some id.
Proof.
  intros Hz. unfold switch. destruct l; [done|].
  induction (queue s) as [|x q IH]; simpl; [done|].
  destruct (try_thread r m x) as [t|] eqn:Ht; [|done].
  destruct (is_ready t) eqn:Hr; simpl; [|done]. intros [= ->].
  apply try_thread_Some, thread_Some in Ht as [_ Ht].
  apply is_zombie_true in Hz as (t' & Ht' & Hs). apply bool_decide_eq_true in Hr. congruence.
Qed.

(** Only threads from the queue of zombies leave the table. *)
Lemma fstep_lut c c' id :
  fstep c c' → tables_ok (tm c) → id ∈ lut (tm c) → id ∈ lut (tm c') ∨ id ∈ zombies (tm c).
Proof.
  intros [m s P R cl Hc|m s P1 a rest P2 R m' rest' Ha|m s P R t Hn Hr|m s P R order _
    |m s P R l r1 r2 r3 rsp m' s' o Hcs] Hok Hid; cbn [tm] in *.
  - by left.
  - pose proof (act_effect m a Hok) as He. unfold advance in Ha.
    destruct (act m a) as [m1 [more|]]; injection Ha as <- _; by apply (e_table _ _ _ _ He).
  - destruct (add_task_ptr _ s t) as [m' s'] eqn:Ha. left. cbn [tm].
    apply (c_lut _ _ (calm_spawn _ _ _ _ _ Hn Hr Ha)), Hid.
  - by left.
  - left. by apply (c_lut _ _ (calm_context_switch _ _ _ _ _ _ _ _ _ _ Hcs)).
Qed.

(** C3: with the loads and stores of all calls interleaved freely: the tables
    stay consistent; a killed thread with no store to its state outstanding
    stays dead and is never selected; and every thread that is waiting to be
    reaped or leaves the table is dead, unless it was killed while a [block]
    or [wake] had loaded its state and not yet stored. *)
Theorem killed_stays_dead c :
  rtc fstep init c →
  tables_ok (tm c) ∧
  (∀ c' id, rtc fstep c c' → is_zombie (tm c) id = true → threatened (calls c) id = false →
     is_zombie (tm c') id = true ∧ ∀ l r, snd (switch l r (tm c') (rr c')) ≠ Some id) ∧
  (∀ id, id ∈ zombies (tm c) → id ∈ raced c ∨ is_zombie (tm c) id = true) ∧
  (∀ c' id, fstep c c' → id ∈ lut (tm c) → id ∉ lut (tm c') →
     id ∈ raced c ∨ is_zombie (tm c) id = true).
Proof.
  intros H. destruct (fsteps_inv _ _ H finv_init) as [Hi _]. split; [by apply f_tables|].
  split; [|split; [by apply f_queue|]].
  - intros c' id H' Hz Hn. destruct (fsteps_inv _ _ H' Hi) as [_ Hd].
    destruct (Hd id (conj Hz Hn)) as [Hz' _]. split; [done|]. intros l r. by apply switch_not_zombie.
  - intros c' id Hs Hin Hout. destruct (fstep_lut _ _ id Hs (f_tables _ Hi) Hin) as [?|Hq]; [done|].
    by apply (f_queue _ Hi).
Qed.

(** One thread has started. *)
Definition started : conf :=
  mkConf (fst (add_task_ptr (set_objs TaskManager_new (<[1 := sample_task 1 1]> ∅)) RR_new
                 (sample_task 1 1))) (mkRR [1]) [] ∅.

(** An executable run: new calls, and a turn of the call at a position. *)
Inductive move : Set := Call (c : list action) | Turn (i : nat).

Definition turn (c : conf) (v : move) : conf :=
  match v with
  | Call a => mkConf (tm c) (rr c) (a :: calls c) (raced c)
  | Turn i =>
      match calls c !! i with
      | Some (a :: rest) =>
          let '(m, rest') := advance (tm c) a rest in
          mkConf m (rr c) (take i (calls c) ++ rest' :: drop (S i) (calls c))
            (race (calls c) a (raced c))
      | _ => c
      end
  end.

Definition simple (v : move) : bool :=
  match v with
  | Call [FindBlock _ _] | Call [FindWake _ _] | Call [FindKill _ _] | Turn _ => true
  | _ => false
  end.

Lemma turn_fsteps c vs : forallb simple vs = true → rtc fstep c (foldl turn c vs).
Proof.
  revert c. induction vs as [|v vs IH]; intros [m s P R]; simpl; [intros; apply rtc_refl|].
  intros [Hv Hvs]%andb_true_iff. etrans; [|by apply IH]. clear IH Hvs.
  destruct v as [a|i]; simpl.
  - apply rtc_once, f_call.
    destruct a as [|[] [|]]; try done; constructor.
  - destruct (P !! i) as [[|a rest]|] eqn:Hi; [apply rtc_refl| |apply rtc_refl].
    destruct (advance m a rest) as [m' rest'] eqn:Ha. apply rtc_once.
    rewrite <- (take_drop_middle P i _ Hi) at 1 4. by apply f_act.
Qed.

Lemma started_reachable : rtc fstep init started.
Proof. apply rtc_once. by apply (f_spawn TaskManager_new RR_new [] ∅ (sample_task 1 1)). Qed.

Definition kill_then_wake : list move :=
  [Call [FindBlock true 1]; Turn 0; Turn 0; Turn 0; Turn 0;
   Call [FindWake true 1]; Turn 0; Call [FindKill 1 9]; Turn 0; Turn 0].

Lemma killed_stays_dead_witness :
  let c := foldl turn started kill_then_wake in
  let c' := foldl turn c [Turn 0; Turn 1; Turn 0; Turn 1; Turn 1]%nat in
  is_zombie (tm c') 1 = true ∧ zombies (tm c') = [1] ∧ calls c' = [[]; []; []].
Proof.
  intros c c'. split; [|by vm_compute].
  destruct (killed_stays_dead c) as (_ & H & _).
  - etrans; [apply started_reachable|]. by apply turn_fsteps.
  - apply (H c' 1); [by apply turn_fsteps|by vm_compute..].
Defined.

(** The kill falls between the load and the store of [wake]: the dead thread is
    [Ready] again while it waits to be reaped. *)
Definition wake_around_kill : list move :=
  [Call [FindBlock true 1]; Turn 0; Turn 0; Turn 0; Turn 0;
   Call [FindWake true 1]; Turn 0; Turn 0;
   Call [FindKill 1 9]; Turn 0; Turn 0; Turn 0; Turn 0; Turn 1].

(** It is selected to run. *)
Definition revived : conf :=
  let c := foldl turn started wake_around_kill in
  match context_switch_local false true true true 64 (tm c) (rr c) with
  | Ret (m, s, _) => mkConf m s (calls c) (raced c)
  | _ => c
  end.

Lemma revived_reachable : rtc fstep init revived.
Proof.
  etrans; [apply started_reachable|].
  etrans; [apply (turn_fsteps _ wake_around_kill); reflexivity|]. apply rtc_once.
  unfold revived. set (c := foldl turn started wake_around_kill).
  destruct (context_switch_local _ _ _ _ _ _ _) as [[[m s] o]| | |] eqn:Hs;
    [|exfalso; revert Hs; by vm_compute..].
  destruct c as [m0 s0 P0 R0]. by eapply f_context_switch.
Qed.

(** The next [cleanup] takes it out of the table and frees the kernel stack it
    runs on. *)
Lemma killed_thread_revived :
  ∃ c, rtc fstep init c ∧ state_of (tm c) 1 = Some Ready ∧ current_running (tm c) = 1 ∧
    bool_decide (1 ∈ lut (tm c)) = false ∧ freed_kstacks (tm c) = [4096].
Proof.
  set (scan := ((ScanZombie <$> [1]) ++ [CleanTree; ReapOne])).
  exists (foldl turn (turn revived (Call scan)) [Turn 0; Turn 0; Turn 0; Turn 0]%nat).
  split; [|by vm_compute].
  etrans; [apply revived_reachable|].
  etrans; [|by apply turn_fsteps]. apply rtc_once.
  assert (Hc : call (tm revived) scan).
  { apply call_cleanup. replace (elements (lut (tm revived))) with [1] by (by vm_compute). done. }
  revert Hc. destruct revived as [m s P R]. apply f_call.
Qed.
