(* ===== verification/Wait.v ===== *)
(** Wait queues: kernel/src/kernel/threading/wait/{mod,condition,queues/mod}.rs.

    The [BinaryHeap<Reverse<WaitNode>>] of the timer queue hands out its
    least node first: it is the list of its nodes in ascending order.  The
    clock and the emptiness of the keyboard buffer are part of the
    environment [Env]. *)
From S2P Require Import Prelude Abi Tasks.
Open Scope Z_scope.

Record Env : Type := mkEnv { env_now : Z; keyboard_empty : bool }.

(** ** condition.rs *)

(** The callback of [Generic] is a function; it may read the task tables. *)
Inductive WaitCondition : Type :=
| CTime (t : Z)
| CKeyboard
| CThread (id : ThreadID) (config : Z)
| CGeneric (val : Z) (callback : TaskManager → Z → bool)
| CNone.

Definition is_given (env : Env) (m : TaskManager) (c : WaitCondition) : bool :=
  match c with
  | CTime t => t <=? env_now env
  | CKeyboard => negb (keyboard_empty env)
  | CThread id config =>
      match thread m id with
      | None => true
      | Some t =>
          (contains config TaskWaitOptions_W_EXIT && bool_decide (t_state t = Zombie))
          || (contains config TaskWaitOptions_W_WAKEUP &&
              (bool_decide (t_state t = Ready) || bool_decide (t_state t = Running)))
          || (contains config TaskWaitOptions_W_BLOCK && bool_decide (t_state t = Blocking))
      end
  | CGeneric val callback => callback m val
  | CNone => true
  end.

(** ** queues/mod.rs *)

Record WaitNode : Type := mkWaitNode { node_id : ThreadID; node_cond : WaitCondition }.

(** Nodes of the timer queue: deadline and thread, compared in this order. *)
Definition time_leb (a b : Z * ThreadID) : bool :=
  (fst a <? fst b) || ((fst a =? fst b) && (snd a <=? snd b)).

Fixpoint heap_push (n : Z * ThreadID) (q : list (Z * ThreadID)) : list (Z * ThreadID) :=
  match q with
  | [] => [n]
  | x :: q => if time_leb n x then n :: x :: q else x :: heap_push n q
  end.

(** [TimeWaitQueue::enqueue] accepts time conditions only. *)
Definition TimeWaitQueue_enqueue (q : list (Z * ThreadID)) (id : ThreadID) (c : WaitCondition)
    : list (Z * ThreadID) * option unit :=
  match c with
  | CTime t => (heap_push (t, id) q, Some tt)
  | _ => (q, None)
  end.

(** [TimeWaitQueue::signal]: wake and pop while the least deadline passed. *)
Fixpoint TimeWaitQueue_signal (env : Env) (m : TaskManager) (q : list (Z * ThreadID))
    : TaskManager * list (Z * ThreadID) :=
  match q with
  | [] => (m, [])
  | (t, id) :: q' =>
      if t <=? env_now env
      then TimeWaitQueue_signal env (fst (wake m id)) q'
      else (m, q)
  end.

Definition KeyBoardQueue_enqueue (q : list WaitNode) (id : ThreadID) (c : WaitCondition)
    : list WaitNode * option unit := (q ++ [mkWaitNode id c], Some tt).

Definition KeyBoardQueue_signal (m : TaskManager) (q : list WaitNode)
    : TaskManager * list WaitNode :=
  (foldl (λ m n, fst (wake m (node_id n))) m q, []).

Definition GenericWaitQueue_enqueue (q : list WaitNode) (id : ThreadID) (c : WaitCondition)
    : list WaitNode * option unit := (q ++ [mkWaitNode id c], Some tt).

(** [GenericWaitQueue::signal]: [drain(..)] takes every node out; a node is
    woken only if its condition holds. *)
Definition GenericWaitQueue_signal (env : Env) (m : TaskManager) (q : list WaitNode)
    : TaskManager * list WaitNode :=
  (foldl (λ m n, if is_given env m (node_cond n) then fst (wake m (node_id n)) else m) m q, []).

(** ** mod.rs: [WaitObserver] *)

(** [QueueHandle]: a queue behind the [WaitQueue] trait. *)
Inductive Queue : Type :=
| TimeQ (q : list (Z * ThreadID))
| KeyQ (q : list WaitNode)
| GenQ (q : list WaitNode).

Definition queue_enqueue (q : Queue) (id : ThreadID) (c : WaitCondition) : Queue :=
  match q with
  | TimeQ q => TimeQ (fst (TimeWaitQueue_enqueue q id c))
  | KeyQ q => KeyQ (fst (KeyBoardQueue_enqueue q id c))
  | GenQ q => GenQ (fst (GenericWaitQueue_enqueue q id c))
  end.

(** Signalling a queue.  The message on standard error for a thread that can
    not be woken is left out: the wait manager has the default files, so it
    changes nothing here. *)
Definition queue_signal (env : Env) (m : TaskManager) (q : Queue) : TaskManager * Queue :=
  match q with
  | TimeQ q => let '(m, q) := TimeWaitQueue_signal env m q in (m, TimeQ q)
  | KeyQ q => let '(m, q) := KeyBoardQueue_signal m q in (m, KeyQ q)
  | GenQ q => let '(m, q) := GenericWaitQueue_signal env m q in (m, GenQ q)
  end.

Record WaitObserver : Type := mkWaitObserver { queues : list (QueueType * Queue) }.

Fixpoint q_get (l : list (QueueType * Queue)) (k : QueueType) : option Queue :=
  match l with
  | [] => None
  | (k', q) :: l => if decide (k' = k) then Some q else q_get l k
  end.

Fixpoint q_set (l : list (QueueType * Queue)) (k : QueueType) (q : Queue)
    : list (QueueType * Queue) :=
  match l with
  | [] => []
  | (k', q') :: l => if decide (k' = k) then (k', q) :: l else (k', q') :: q_set l k q
  end.

(** [add_queue]: [try_insert] keeps an existing queue and drops the new one. *)
Definition add_queue (self : WaitObserver) (q : Queue) (k : QueueType)
    : WaitObserver * option unit :=
  match q_get (queues self) k with
  | Some _ => (self, None)
  | None => (mkWaitObserver ((k, q) :: queues self), Some tt)
  end.

Definition remove_queue (self : WaitObserver) (k : QueueType) : WaitObserver :=
  mkWaitObserver (filter (λ e, fst e ≠ k) (queues self)).

(** [process_signals]: [pending] are the events of the message queue. *)
Fixpoint process_signals (env : Env) (m : TaskManager) (self : WaitObserver)
    (pending : list QueueType) : TaskManager * WaitObserver :=
  match pending with
  | [] => (m, self)
  | k :: pending =>
      match q_get (queues self) k with
      | None => process_signals env m self pending
      | Some q =>
          let '(m, q) := queue_signal env m q in
          process_signals env m (mkWaitObserver (q_set (queues self) k q)) pending
      end
  end.

Record QueuTypeCondition : Type := mkQTC { q_type : QueueType; q_cond : WaitCondition }.

(** The first loop of [enqueue]: [None] when a condition already holds. *)
Fixpoint enqueue_all (env : Env) (m : TaskManager) (self : WaitObserver) (id : ThreadID)
    (data : list QueuTypeCondition) : WaitObserver * bool :=
  match data with
  | [] => (self, true)
  | q :: data =>
      if is_given env m (q_cond q) then (self, false)
      else
        let self :=
          match q_get (queues self) (q_type q) with
          | Some queue =>
              mkWaitObserver (q_set (queues self) (q_type q) (queue_enqueue queue id (q_cond q)))
          | None => self
          end in
        enqueue_all env m self id data
  end.

Definition any_given (env : Env) (m : TaskManager) (data : list QueuTypeCondition) : bool :=
  existsb (λ c, is_given env m (q_cond c)) data.

(** The retry loop of [enqueue]; each element of [tries] says whether that
    attempt of [try_block] can read the table. *)
Fixpoint block_retry (env : Env) (m : TaskManager) (id : ThreadID)
    (data : list QueuTypeCondition) (tries : list bool) : TaskManager :=
  match tries with
  | [] => m
  | r :: tries =>
      if any_given env m data then m
      else match try_block r m id with
           | (m, Some _) =>
               if any_given env m data then fst (wake m id) else m
           | (m, None) => block_retry env m id data tries
           end
  end.

(** [WaitObserver::enqueue]: at most five attempts. *)
Definition enqueue (env : Env) (m : TaskManager) (self : WaitObserver) (id : ThreadID)
    (data : list QueuTypeCondition) (tries : list bool) : TaskManager * WaitObserver :=
  let '(self, go) := enqueue_all env m self id data in
  if go then (block_retry env m id data (take 5 tries), self) else (m, self).

(** ** Timer queue *)

Definition time_le (a b : Z * ThreadID) : Prop := fst a ≤ fst b.

Lemma heap_push_sorted n q : Sorted.StronglySorted time_le q → Sorted.StronglySorted time_le (heap_push n q).
Proof.
  induction 1 as [|x q Hs IH Hx]; simpl; [repeat constructor|].
  destruct (time_leb n x) eqn:Hc.
  - assert (time_le n x).
    { unfold time_leb in Hc. unfold time_le.
      apply orb_true_iff in Hc as [H%Z.ltb_lt|[H%Z.eqb_eq _]%andb_true_iff]; lia. }
    constructor; [by constructor|]. constructor; [done|].
    eapply Forall_impl; [exact Hx|]. intros y Hy. unfold time_le in *. lia.
  - constructor; [done|]. assert (time_le x n).
    { unfold time_leb in Hc. unfold time_le. apply orb_false_iff in Hc as [H%Z.ltb_ge _]. done. }
    clear -Hx H. induction q as [|y q IH]; simpl; [by repeat constructor|].
    inversion Hx; subst. destruct (time_leb n y); constructor; auto.
Qed.

(** States after waking a list of threads. *)
Definition wake_all (m : TaskManager) (ids : list ThreadID) : TaskManager :=
  foldl (λ m id, fst (wake m id)) m ids.

(** A signal of the timer queue wakes exactly the threads whose
    deadline has passed, in deadline order, and keeps exactly the others. *)
Lemma timer_signal_spec env m q :
  Sorted.StronglySorted time_le q →
  let due := filter (λ n, fst n ≤ env_now env) q in
  TimeWaitQueue_signal env m q =
    (wake_all m due.*2, filter (λ n, env_now env < fst n) q).
Proof.
  intros Hs. revert m. induction Hs as [|[t id] q Hs IH Hx]; intros m; simpl; [done|].
  destruct (Z.leb_spec t (env_now env)) as [Hle|Hgt].
  - rewrite IH. rewrite filter_cons_True by done. rewrite filter_cons_False by (simpl; lia).
    done.
  - rewrite filter_cons_False by (simpl; lia). rewrite filter_cons_True by done.
    assert (Hall : Forall (λ n : Z * ThreadID, env_now env < fst n) q).
    { eapply Forall_impl; [exact Hx|]. intros n Hn. unfold time_le in Hn. simpl in Hn. lia. }
    rewrite (filter_all (λ n, env_now env < fst n) q) by done.
    rewrite (filter_none (λ n, fst n ≤ env_now env) q); [done|].
    eapply Forall_impl; [exact Hall|]. intros n Hn. simpl in *. lia.
Qed.

Lemma timer_signal_spec_witness :
  snd (TimeWaitQueue_signal (mkEnv 5 true) (sample_manager [1; 2])
         (heap_push (3, 1) (heap_push (9, 2) []))) = [(9, 2)].
Proof.
  rewrite (timer_signal_spec (mkEnv 5 true) (sample_manager [1; 2])
             (heap_push (3, 1) (heap_push (9, 2) []))).
  - reflexivity.
  - apply heap_push_sorted, heap_push_sorted. constructor.
Defined.

(** ** Generic queues *)

Lemma wake_state m id j :
  state_of (fst (wake m id)) j =
    if decide (j = id ∧ j ∈ lut m) then
      match state_of m j with
      | Some Blocking | Some Sleeping => Some Ready
      | s => s
      end
    else state_of m j.
Proof.
  unfold wake, thread, state_of. destruct (decide (id ∈ lut m)) as [Hin|Hin].
  - destruct (objs m !! id) as [t|] eqn:Ht; simpl.
    + unfold may_wake. destruct (decide (j = id ∧ j ∈ lut m)) as [[-> _]|Hne].
      * rewrite Ht. simpl.
        destruct (t_state t) eqn:Hs; simpl; rewrite ?lookup_alter_eq, ?Ht; simpl; congruence.
      * assert (j ≠ id) by (intros ->; tauto).
        destruct (bool_decide _ || bool_decide _); simpl; [|done].
        by rewrite lookup_alter_ne.
    + case_decide as Hd; [|done]. destruct Hd as [-> _]. by rewrite Ht.
  - case_decide as Hd; [|done]. destruct Hd as [-> ?]. done.
Qed.

Lemma wake_lut m id : lut (fst (wake m id)) = lut m.
Proof.
  unfold wake. destruct (thread m id); [|done]. simpl. by destruct (may_wake _).
Qed.

(** A signal of a generic queue empties the queue, but wakes a
    thread only through a node whose condition holds: a blocked thread none of
    whose nodes is satisfied stays blocked and is no longer in the queue, so
    no later signal of this queue can wake it. *)
Lemma generic_signal_strands env m q id :
  state_of m id = Some Blocking →
  (∀ n, n ∈ q → node_id n = id → ∀ m', is_given env m' (node_cond n) = false) →
  state_of (fst (GenericWaitQueue_signal env m q)) id = Some Blocking ∧
  snd (GenericWaitQueue_signal env m q) = [].
Proof.
  intros Hs Hq. split; [|done]. unfold GenericWaitQueue_signal. cbn [fst].
  revert m Hs. induction q as [|n q IH]; intros m Hs; simpl; [done|].
  apply IH; [intros; apply Hq; [by right|done]|].
  destruct (is_given env m (node_cond n)) eqn:Hg; [|done].
  rewrite wake_state. rewrite decide_False; [done|]. intros [Heq _].
  rewrite (Hq n) in Hg; [done|left|done].
Qed.

Lemma generic_signal_strands_witness :
  let m := fst (block (sample_manager [1; 2]) 1) in
  let q := [mkWaitNode 1 (CTime 100)] in
  state_of (fst (GenericWaitQueue_signal (mkEnv 5 true) m q)) 1 = Some Blocking.
Proof.
  intros m q.
  apply (generic_signal_strands (mkEnv 5 true) m q 1).
  - reflexivity.
  - intros n Hn _ m'. apply list_elem_of_singleton in Hn as ->. reflexivity.
Defined.

(** ** Going to sleep *)

Definition in_queue (id : ThreadID) (q : Queue) : Prop :=
  match q with
  | TimeQ l => id ∈ l.*2
  | KeyQ l | GenQ l => id ∈ node_id <$> l
  end.

Lemma heap_push_elem n q x : x ∈ heap_push n q ↔ x = n ∨ x ∈ q.
Proof.
  induction q as [|y q IH]; simpl; [set_solver|].
  destruct (time_leb n y); rewrite !elem_of_cons; [tauto|]. rewrite IH. tauto.
Qed.

Lemma queue_enqueue_in q id c :
  (match q with TimeQ _ => ∃ t, c = CTime t | _ => True end) →
  in_queue id (queue_enqueue q id c).
Proof.
  destruct q as [l|l|l]; simpl.
  - intros [t ->]. simpl. apply list_elem_of_fmap. exists (t, id). split; [done|].
    apply heap_push_elem. by left.
  - intros _. rewrite fmap_app. apply elem_of_app. right. left.
  - intros _. rewrite fmap_app. apply elem_of_app. right. left.
Qed.

Lemma queue_enqueue_mono q id id' c : in_queue id q → in_queue id (queue_enqueue q id' c).
Proof.
  destruct q as [l|l|l]; simpl.
  - destruct c; simpl; try done. rewrite !list_elem_of_fmap. intros ([t' i] & -> & Hin).
    exists (t', i). split; [done|]. apply heap_push_elem. by right.
  - rewrite fmap_app, elem_of_app. by left.
  - rewrite fmap_app, elem_of_app. by left.
Qed.

Lemma q_get_set l k q k' :
  q_get (q_set l k q) k' =
    if decide (k = k') then (match q_get l k with Some _ => Some q | None => None end)
    else q_get l k'.
Proof.
  induction l as [|[k1 q1] l IH]; simpl; [by case_decide|].
  destruct (decide (k1 = k)) as [->|]; simpl.
  - repeat case_decide; congruence.
  - rewrite IH. repeat case_decide; congruence.
Qed.

(** A node for [id] is in the queue of type [k], if there is one. *)
Definition waits_in (self : WaitObserver) (id : ThreadID) (k : QueueType) : Prop :=
  match q_get (queues self) k with Some q => in_queue id q | None => True end.

(** A condition fits its queue: timer queues take deadlines. *)
Definition fits (self : WaitObserver) (c : QueuTypeCondition) : Prop :=
  match q_get (queues self) (q_type c) with
  | Some (TimeQ _) => ∃ t, q_cond c = CTime t
  | _ => True
  end.

Lemma enqueue_all_spec env m self id data self' :
  Forall (fits self) data → enqueue_all env m self id data = (self', true) →
  Forall (λ c, is_given env m (q_cond c) = false) data ∧
  Forall (λ c, waits_in self' id (q_type c)) data ∧
  (∀ k, waits_in self id k → waits_in self' id k).
Proof.
  revert self. induction data as [|c data IH]; intros self Hf; simpl.
  { intros [= <-]. done. }
  destruct (is_given env m (q_cond c)) eqn:Hg; [done|].
  inversion Hf as [|? ? Hc Hf']; subst.
  set (self1 := match q_get _ _ with Some _ => _ | None => self end).
  assert (Hfits : Forall (fits self1) data).
  { eapply Forall_impl; [exact Hf'|]. intros d Hd. unfold self1.
    destruct (q_get (queues self) (q_type c)) as [qc|] eqn:Hq; [|done].
    unfold fits in *. simpl. rewrite q_get_set. case_decide as He; [|done].
    rewrite Hq. rewrite <- He, Hq in Hd. by destruct qc. }
  assert (Hmono : ∀ k, waits_in self id k → waits_in self1 id k).
  { intros k Hk. unfold self1. destruct (q_get (queues self) (q_type c)) as [qc|] eqn:Hq; [|done].
    unfold waits_in in *. simpl. rewrite q_get_set. case_decide as He; [|done].
    subst k. rewrite Hq in Hk |- *. by apply queue_enqueue_mono. }
  assert (Hnow : waits_in self1 id (q_type c)).
  { unfold self1, waits_in. destruct (q_get (queues self) (q_type c)) as [qc|] eqn:Hq.
    - simpl. rewrite q_get_set, decide_True by done. rewrite Hq.
      apply queue_enqueue_in. unfold fits in Hc. rewrite Hq in Hc. by destruct qc.
    - by rewrite Hq. }
  intros He. destruct (IH self1 Hfits He) as (H1 & H2 & H3).
  split; [by constructor|]. split; [constructor; auto|]. auto.
Qed.

Lemma any_given_false env m data :
  any_given env m data = false ↔ Forall (λ c, is_given env m (q_cond c) = false) data.
Proof.
  unfold any_given. induction data as [|c data IH]; simpl; [done|].
  rewrite orb_false_iff, Forall_cons, IH. done.
Qed.

Lemma block_retry_spec env m id data tries :
  let m' := block_retry env m id data tries in
  m' = m ∨ (any_given env m' data = false ∧ state_of m' id = Some Blocking) ∨
  state_of m' id = Some Ready.
Proof.
  revert m. induction tries as [|r tries IH]; intros m; simpl; [by left|].
  destruct (any_given env m data) eqn:Hg; [by left|].
  unfold try_block. destruct (try_thread r m id) as [t|] eqn:Ht; [|apply IH].
  destruct (may_block t) eqn:Hb; [|apply IH].
  apply try_thread_Some, thread_Some in Ht as [Hl Ht].
  set (m1 := update_obj m id (set_state Blocking)).
  assert (Hs : state_of m1 id = Some Blocking).
  { unfold state_of, m1. simpl. rewrite lookup_alter_eq, Ht. done. }
  destruct (any_given env m1 data) eqn:Hg1; [|by right; left].
  right. right. rewrite wake_state, decide_True by done. by rewrite Hs.
Qed.

(** When [enqueue] puts a running thread to sleep, none of
    its conditions holds at that moment and every existing queue it named has
    a node for it, so the event it waits for finds it. *)
Lemma enqueue_blocks_safely env m self id data tries m' self' :
  Forall (fits self) data → state_of m id ≠ Some Blocking →
  enqueue env m self id data tries = (m', self') →
  state_of m' id = Some Blocking →
  Forall (λ c, is_given env m' (q_cond c) = false) data ∧
  Forall (λ c, waits_in self' id (q_type c)) data.
Proof.
  intros Hf Hnb. unfold enqueue.
  destruct (enqueue_all env m self id data) as [s1 [|]] eqn:He.
  - intros [= <- <-] Hb.
    destruct (enqueue_all_spec _ _ _ _ _ _ Hf He) as (_ & Hw & _). split; [|done].
    destruct (block_retry_spec env m id data (take 5 tries)) as [Hr|[[Hr _]|Hr]].
    + rewrite Hr in Hb. done.
    + by apply any_given_false.
    + congruence.
  - intros [= <- <-] Hb. done.
Qed.

Lemma enqueue_blocks_safely_witness :
  let m := sample_manager [1] in
  let self := mkWaitObserver [(QTimer, TimeQ [])] in
  let r := enqueue (mkEnv 5 true) m self 1 [mkQTC QTimer (CTime 9)] [true] in
  waits_in (snd r) 1 QTimer.
Proof.
  intros m self r.
  destruct (enqueue_blocks_safely (mkEnv 5 true) m self 1 [mkQTC QTimer (CTime 9)] [true]
    (fst r) (snd r)) as [_ H].
  - repeat constructor. by exists 9.
  - discriminate.
  - reflexivity.
  - reflexivity.
  - by apply Forall_inv in H.
Defined.
