(* ===== verification/Sync.v ===== *)
(** Counting semaphores and the locks built on them: kernel/src/utils/sync/
    (mod.rs, primitive/semaphore.rs, mutex.rs, rwlock.rs).

    Every access of the counter is one atomic read-modify-write, so the
    operations are functions on the counter; threads interleave between
    them.  [sys_step] is that interleaving: one step is one atomic action
    of one thread, or an arbitrary change of the task table by the rest of
    the kernel.  What a waiter does is the [WaitStrategy] class. *)
From S2P Require Import Prelude Abi Fd Tasks.
Open Scope Z_scope.

(** ** The counter *)

Inductive SyncErr : Set := LockContended.

#[export] Instance SyncErr_eq_dec : EqDecision SyncErr.
Proof. solve_decision. Defined.

(** [AtomicUsize::fetch_update]: the closure's value is stored, or nothing
    is and the call fails. *)
Definition fetch_update (counter : Z) (f : Z → option Z) : Z * Result Z Z :=
  match f counter with
  | Some c => (c, Ok counter)
  | None => (counter, Err counter)
  end.

Definition map_contended (r : Z * Result Z Z) : Z * Result SyncErr unit :=
  (fst r, match snd r with Ok _ => Ok tt | Err _ => Err LockContended end).

Definition try_down (counter : Z) : Z * Result SyncErr unit :=
  map_contended (fetch_update counter (λ c, checked_sub c 1)).

Definition try_down_n (counter n : Z) : Z * Result SyncErr unit :=
  map_contended (fetch_update counter (λ c, checked_sub c n)).

(** The [fetch_add] of [up] and [up_n]; the call of [signal] follows. *)
Definition up_add (counter : Z) : Z := wrap64 (counter + 1).
Definition up_n_add (counter n : Z) : Z := wrap64 (counter + n).

(** [down] and [up] are [down_n] and [up_n] for one permit. *)
Lemma down_up_one c : try_down c = try_down_n c 1 ∧ up_add c = up_n_add c 1.
Proof. done. Qed.

(** ** Waiting *)

(** [wait] and [signal] as sequences of atomic actions on the strategy's
    own data and on the task table, run by thread [me].  [Loc] is the point
    reached in the code; [None] is the return. *)
Class WaitStrategy (S : Type) := {
  Loc : Type;
  INIT : S;
  wait_start : Loc;
  signal_start : option Loc;
  act : ThreadID → Loc → S * TaskManager → Outcome (S * TaskManager * option Loc)
}.
Arguments Loc S {_}.

(** [StatelessWaitStrategy]: [wait] is one call, [signal] is the empty
    default. *)
Class StatelessWaitStrategy (S : Type) := {
  zero_sized : S;
  stateless_wait : TaskManager → Outcome TaskManager
}.

#[export] Instance WaitStrategy_stateless {S} `{StatelessWaitStrategy S} : WaitStrategy S := {
  Loc := unit;
  INIT := zero_sized;
  wait_start := tt;
  signal_start := None;
  act := λ _ _ w, let! m := stateless_wait (snd w) in Ret (fst w, m, None)
}.

(** [arch::hlt] and [yield_now] change neither the lock nor the state of
    any thread; which thread runs next is the choice of the step relation. *)
Inductive SpinWaiter : Set := SpinWaiter_new.
#[export] Instance SpinWaiter_wait : StatelessWaitStrategy SpinWaiter :=
  { zero_sized := SpinWaiter_new; stateless_wait := Ret }.

Inductive YieldWaiter : Set := YieldWaiter_new.
#[export] Instance YieldWaiter_wait : StatelessWaitStrategy YieldWaiter :=
  { zero_sized := YieldWaiter_new; stateless_wait := Ret }.

Inductive NoBlock : Set := NoBlock_new.
#[export] Instance NoBlock_wait : StatelessWaitStrategy NoBlock :=
  { zero_sized := NoBlock_new; stateless_wait := λ _, Panic }.

(** [BlockingWaiter]: its data is the queue. *)
Record BlockingWaiter : Type := mkBlockingWaiter { queue : list ThreadID }.

Inductive BlockingLoc : Type :=
| WPush | WBlock | WYield
| SPop | SWake (next : ThreadID).

(** [wait]: push, block, yield (which returns when the thread runs
    again). [signal]: pop, then wake. *)
Definition BlockingWaiter_act (me : ThreadID) (l : BlockingLoc) (w : BlockingWaiter * TaskManager)
    : Outcome (BlockingWaiter * TaskManager * option BlockingLoc) :=
  let '(q, m) := w in
  match l with
  | WPush => Ret (mkBlockingWaiter (queue q ++ [me]), m, Some WBlock)
  | WBlock => Ret (q, fst (block m me), Some WYield)
  | WYield => Ret (q, m, None)
  | SPop => match queue q with
            | [] => Ret (q, m, None)
            | next :: rest => Ret (mkBlockingWaiter rest, m, Some (SWake next))
            end
  | SWake next => Ret (q, fst (wake m next), None)
  end.

#[export] Instance BlockingWaiter_wait : WaitStrategy BlockingWaiter := {
  Loc := BlockingLoc;
  INIT := mkBlockingWaiter [];
  wait_start := WPush;
  signal_start := Some SPop;
  act := BlockingWaiter_act
}.

(** ** The operations of a lock *)

Inductive SemaOp : Set := TryDown (n : Z) | Down (n : Z) | Up (n : Z).

Definition Mutex_try_lock : SemaOp := TryDown 1.
Definition Mutex_lock : SemaOp := Down 1.
Definition Mutex_unlock : SemaOp := Up 1.
Definition Mutex_permits : Z := 1.

Definition RwLock_lock_shared : SemaOp := Down 1.
Definition RwLock_try_lock_shared : SemaOp := TryDown 1.
Definition RwLock_unlock_shared : SemaOp := Up 1.
Definition RwLock_lock_exclusive : SemaOp := Down USIZE_MAX.
Definition RwLock_try_lock_exclusive : SemaOp := TryDown USIZE_MAX.
Definition RwLock_unlock_exclusive : SemaOp := Up USIZE_MAX.
Definition RwLock_downgrade : SemaOp := Up (USIZE_MAX - 1).
Definition RwLock_permits : Z := USIZE_MAX.

(** ** Threads at a lock *)

Section Lock.
Context {S : Type} `{WaitStrategy S}.

(** Where a thread is: outside the lock's code, in the loop of [down_n], in
    [wait], in [signal], or dead after a panic. *)
Inductive Where : Type :=
| Outside | AtTry (n : Z) | InWait (n : Z) (l : Loc S) | InSignal (l : Loc S) | Crashed.

(** [permits]: what the thread has taken and not given back. *)
Record Thr : Type := mkThr { permits : Z; pc : Where }.

Record Sys : Type := mkSys {
  counter : Z;
  strategy : S;
  tm : TaskManager;
  thrs : gmap ThreadID Thr
}.

(** [DynamicSemaphore::new] with every thread outside. *)
Definition sema_new (N : Z) (m : TaskManager) (tids : gset ThreadID) : Sys :=
  mkSys N INIT m (gset_to_gmap (mkThr 0 Outside) tids).

(** One pass of the loop of [down_n]. *)
Definition down_n_iter (c n : Z) : Z * (Z → Thr) :=
  match try_down_n c n with
  | (c, Ok _) => (c, λ p, mkThr (p + n) Outside)
  | (c, Err _) => (c, λ p, mkThr p (InWait n wait_start))
  end.

(** A call of a lock operation by a thread that has [p] permits.  A guard
    gives back what it took, or all but one on a downgrade: [unlock] is
    unsafe and demands it. *)
Definition invoke (c : Z) (p : Z) (op : SemaOp) : option (Z * Thr) :=
  match op with
  | TryDown n => let '(c, r) := try_down_n c n in
      Some (c, mkThr (if is_ok r then p + n else p) Outside)
  | Down n => Some (c, mkThr p (AtTry n))
  | Up n =>
      if decide (n <= p) then
        Some (up_n_add c n,
              mkThr (p - n) (match signal_start with Some l => InSignal l | None => Outside end))
      else None
  end.

(** The next action of a thread inside the lock's code. *)
Definition continue (me : ThreadID) (s : Sys) (t : Thr) : option Sys :=
  let set w m t := mkSys (counter s) w m (<[me := t]> (thrs s)) in
  match pc t with
  | Outside | Crashed => None
  | AtTry n => let '(c, k) := down_n_iter (counter s) n in
      Some (mkSys c (strategy s) (tm s) (<[me := k (permits t)]> (thrs s)))
  | InWait n l =>
      match act me l (strategy s, tm s) with
      | Ret (w, m, Some l) => Some (set w m (mkThr (permits t) (InWait n l)))
      | Ret (w, m, None) => Some (set w m (mkThr (permits t) (AtTry n)))
      | _ => Some (set (strategy s) (tm s) (mkThr (permits t) Crashed))
      end
  | InSignal l =>
      match act me l (strategy s, tm s) with
      | Ret (w, m, Some l) => Some (set w m (mkThr (permits t) (InSignal l)))
      | Ret (w, m, None) => Some (set w m (mkThr (permits t) Outside))
      | _ => Some (set (strategy s) (tm s) (mkThr (permits t) Crashed))
      end
  end.

(** The request of a down is a [usize]; an up gives back at least nothing. *)
Definition op_size (op : SemaOp) : Z :=
  match op with TryDown n | Down n | Up n => n end.

(** A thread acts only while the task table calls it runnable. *)
Inductive thr_step (me : ThreadID) : Sys → Sys → Prop :=
| step_invoke s t op c t' :
    thrs s !! me = Some t → pc t = Outside → runnable_in (tm s) me = true →
    0 <= op_size op → invoke (counter s) (permits t) op = Some (c, t') →
    thr_step me s (mkSys c (strategy s) (tm s) (<[me := t']> (thrs s)))
| step_continue s t s' :
    thrs s !! me = Some t → runnable_in (tm s) me = true →
    continue me s t = Some s' → thr_step me s s'.

Inductive sys_step : Sys → Sys → Prop :=
| step_thread me s s' : thr_step me s s' → sys_step s s'
| step_kernel s m : sys_step s (mkSys (counter s) (strategy s) m (thrs s)).

Definition own (me : ThreadID) (s : Sys) : Z :=
  match thrs s !! me with Some t => permits t | None => 0 end.

(** ** Conservation of permits *)

Definition held (ts : gmap ThreadID Thr) : Z := map_fold (λ _ t acc, permits t + acc) 0 ts.

(** Permits and pending requests are [usize] values. *)
Definition thr_ok (t : Thr) : Prop :=
  0 <= permits t ∧ match pc t with AtTry n | InWait n _ => 0 <= n | _ => True end.

Definition sys_inv (N : Z) (s : Sys) : Prop :=
  counter s + held (thrs s) = N ∧ 0 <= counter s ∧
  map_Forall (λ _, thr_ok) (thrs s).

Lemma held_split ts me t :
  ts !! me = Some t → held ts = permits t + held (delete me ts).
Proof.
  intros Ht. unfold held. rewrite (map_fold_delete_L (λ _ t acc, permits t + acc) 0 me t ts); [done| |done].
  intros. lia.
Qed.

Lemma held_insert ts me t t' :
  ts !! me = Some t → held (<[me := t']> ts) = held ts - permits t + permits t'.
Proof.
  intros Ht. rewrite (held_split (<[me := t']> ts) me t') by apply lookup_insert_eq.
  rewrite (held_split ts me t) by done. rewrite delete_insert_eq. lia.
Qed.

Lemma held_nonneg ts : map_Forall (λ _, thr_ok) ts → 0 <= held ts.
Proof.
  induction ts as [|me t ts Hn IH] using map_ind.
  - intros _. unfold held. by rewrite map_fold_empty.
  - intros Hp. rewrite (held_split _ me t) by apply lookup_insert_eq.
    rewrite delete_insert_id by done. apply map_Forall_insert in Hp as [Hp1 Hp2]; [|done].
    specialize (IH Hp2). destruct Hp1. lia.
Qed.

Lemma own_le_held ts me t :
  map_Forall (λ _, thr_ok) ts → ts !! me = Some t → permits t <= held ts.
Proof.
  intros Hp Ht. rewrite (held_split ts me t Ht).
  assert (0 <= held (delete me ts)); [|lia]. by apply held_nonneg, map_Forall_delete.
Qed.

Lemma two_owners ts i j ti tj :
  map_Forall (λ _, thr_ok) ts → i ≠ j → ts !! i = Some ti → ts !! j = Some tj →
  permits ti + permits tj <= held ts.
Proof.
  intros Hp Hij Hi Hj. rewrite (held_split ts i ti Hi).
  assert (permits tj <= held (delete i ts)); [|lia].
  apply (own_le_held _ j); [by apply map_Forall_delete|]. by rewrite lookup_delete_ne.
Qed.

Lemma try_down_n_cases c n :
  (n <= c ∧ try_down_n c n = (c - n, Ok tt)) ∨
  (c < n ∧ try_down_n c n = (c, Err LockContended)).
Proof.
  unfold try_down_n, map_contended, fetch_update, checked_sub. case_decide.
  - by left.
  - right. split; [lia|done].
Qed.

(** A thread's move that trades permits with the counter keeps the
    invariant. *)
Lemma inv_trade N s me t c w m t' :
  sys_inv N s → thrs s !! me = Some t → 0 <= c → thr_ok t' →
  c + permits t' = counter s + permits t →
  sys_inv N (mkSys c w m (<[me := t']> (thrs s))).
Proof.
  intros (Hsum & Hc & Hp) Ht Hc' Hp' Heq. split; [|split]; simpl; [|done|].
  - rewrite (held_insert _ _ t t') by done. lia.
  - by apply map_Forall_insert_2.
Qed.

Lemma inv_invoke N s me t op c t' w m :
  sys_inv N s → N <= USIZE_MAX → thrs s !! me = Some t → 0 <= op_size op →
  invoke (counter s) (permits t) op = Some (c, t') →
  sys_inv N (mkSys c w m (<[me := t']> (thrs s))).
Proof.
  intros Hinv HN Ht Hop Hi. destruct (Hinv) as (Hsum & Hc & Hp).
  pose proof (Hp me t Ht) as [Hpt _].
  pose proof (own_le_held _ _ _ Hp Ht) as Hle.
  destruct op as [n|n|n]; cbn [invoke op_size] in Hi, Hop.
  - destruct (try_down_n_cases (counter s) n) as [[Hn Htd]|[Hn Htd]]; rewrite Htd in Hi;
      injection Hi as <- <-; eapply inv_trade; eauto; try split; simpl; lia.
  - injection Hi as <- <-. eapply inv_trade; eauto. by split.
  - case_decide; [|done]. injection Hi as <- <-.
    assert (up_n_add (counter s) n = counter s + n) as ->.
    { unfold up_n_add, wrap64, wrap. apply Z.mod_small. unfold USIZE_MAX in HN. lia. }
    eapply inv_trade; eauto; try split; simpl; try lia. by destruct signal_start.
Qed.

Lemma inv_continue N s me t s' :
  sys_inv N s → thrs s !! me = Some t → continue me s t = Some s' → sys_inv N s'.
Proof.
  intros Hinv Ht Hc. destruct (Hinv) as (Hsum & Hcn & Hp).
  pose proof (Hp me t Ht) as [Hpt Hok]. unfold continue in Hc.
  destruct (pc t) as [|n|n l|l|] eqn:Hpc; try done.
  - unfold down_n_iter in Hc.
    destruct (try_down_n_cases (counter s) n) as [[Hn Htd]|[Hn Htd]]; rewrite Htd in Hc;
      injection Hc as <-; eapply inv_trade; eauto; try split; simpl; try lia.
  - destruct (act me l (strategy s, tm s)) as [[[w m] [l'|]]| | |];
      injection Hc as <-; eapply inv_trade; eauto; split; simpl; done || lia.
  - destruct (act me l (strategy s, tm s)) as [[[w m] [l'|]]| | |];
      injection Hc as <-; eapply inv_trade; eauto; split; simpl; done || lia.
Qed.

Lemma inv_step N s s' : N <= USIZE_MAX → sys_inv N s → sys_step s s' → sys_inv N s'.
Proof.
  intros HN Hinv Hs. destruct Hs as [me s s' Hs|s m]; [|exact Hinv].
  destruct Hs; [by eapply inv_invoke|by eapply inv_continue].
Qed.

Lemma held_outside tids : held (gset_to_gmap (mkThr 0 Outside) tids) = 0.
Proof.
  induction tids as [|i tids Hi IH] using set_ind_L; [done|].
  rewrite gset_to_gmap_union_singleton.
  rewrite (held_split _ i (mkThr 0 Outside)) by apply lookup_insert_eq.
  rewrite delete_insert_id; [exact IH|].
  apply lookup_gset_to_gmap_None. done.
Qed.

Lemma inv_new N m tids : 0 <= N → sys_inv N (sema_new N m tids).
Proof.
  intros HN. unfold sema_new. split; [|split]; simpl; [|done|].
  - rewrite held_outside. lia.
  - intros i t [_ <-]%lookup_gset_to_gmap_Some. by split.
Qed.

Lemma inv_reachable N m tids s :
  0 <= N <= USIZE_MAX → rtc sys_step (sema_new N m tids) s → sys_inv N s.
Proof.
  intros [H0 HN] Hr. remember (sema_new N m tids) as s0 eqn:Heq.
  assert (Hinv : sys_inv N s0) by (subst; by apply inv_new). clear Heq.
  induction Hr as [|s0 s1 s2 Hs _ IH]; [done|]. eauto using inv_step.
Qed.

End Lock.

(** ** Running a schedule *)

Section Run.
Context {S : Type} `{WaitStrategy S}.

(** One entry of a schedule: the thread, and the operation it calls when it
    is outside the lock. *)
Definition sched_step (s : Sys (S := S)) (e : ThreadID * option SemaOp) : option Sys :=
  let '(me, o) := e in
  t ← thrs s !! me;
  if negb (runnable_in (tm s) me) then None else
  match o with
  | None => continue me s t
  | Some op =>
      match pc t with
      | Outside =>
          if decide (0 <= op_size op) then
            '(c, t') ← invoke (counter s) (permits t) op;
            Some (mkSys c (strategy s) (tm s) (<[me := t']> (thrs s)))
          else None
      | _ => None
      end
  end.

Fixpoint run_sched (s : Sys (S := S)) (es : list (ThreadID * option SemaOp)) : option Sys :=
  match es with
  | [] => Some s
  | e :: es => s ← sched_step s e; run_sched s es
  end.

Lemma sched_step_sound s e s' : sched_step s e = Some s' → thr_step (fst e) s s'.
Proof.
  destruct e as [me o]. unfold sched_step. intros Hs.
  destruct (thrs s !! me) as [t|] eqn:Ht; [|done]. cbn [mbind option_bind] in Hs.
  destruct (runnable_in (tm s) me) eqn:Hr; [|done]. cbn [negb] in Hs.
  destruct o as [op|]; [|by eapply step_continue].
  destruct (pc t) eqn:Hpc; try done. case_decide; [|done].
  destruct (invoke _ _ op) as [[c t']|] eqn:Hi; [|done]. injection Hs as <-.
  by eapply step_invoke.
Qed.

Lemma run_sched_sound s es s' :
  run_sched s es = Some s' → rtc (λ s s', ∃ me, thr_step me s s') s s'.
Proof.
  revert s. induction es as [|e es IH]; intros s Hr; simpl in Hr; [injection Hr as <-; done|].
  destruct (sched_step s e) as [s1|] eqn:Hs; [|done].
  eapply rtc_l; [|by apply IH]. exists (fst e). by apply sched_step_sound.
Qed.

Lemma threads_are_system s s' :
  rtc (λ s s', ∃ me, thr_step me s s') s s' → rtc (sys_step (S := S)) s s'.
Proof. apply rtc_subrel. intros a b [me Hs]. by econstructor. Qed.

(** C5: in every reachable state of a semaphore, whatever its wait strategy
    and whatever the rest of the kernel does to the task table, permits are
    conserved: the counter and what the threads own add up to the initial
    count and no [fetch_add] wraps.  So a mutex has at most one owner, and
    a read-write lock with an exclusive owner has no other owner of any
    kind, downgrades included. *)
Theorem lock_exclusion N m tids s :
  0 <= N <= USIZE_MAX → rtc (sys_step (S := S)) (sema_new N m tids) s →
  counter s + held (thrs s) = N ∧ 0 <= counter s ∧
  (N = Mutex_permits → ∀ i j, i ≠ j → own i s ≤ 1 ∧ (own i s = 0 ∨ own j s = 0)) ∧
  (N = RwLock_permits → ∀ i j, i ≠ j → own i s = USIZE_MAX → own j s = 0).
Proof.
  intros HN Hr. destruct (inv_reachable N m tids s HN Hr) as (Hsum & Hc & Hp).
  assert (Htwo : ∀ i j, i ≠ j → own i s + own j s <= N ∧ 0 <= own i s ∧ 0 <= own j s).
  { intros i j Hij. unfold own.
    pose proof (held_nonneg _ Hp) as Hh.
    destruct (thrs s !! i) as [ti|] eqn:Hi; destruct (thrs s !! j) as [tj|] eqn:Hj.
    - pose proof (two_owners _ i j ti tj Hp Hij Hi Hj).
      pose proof (Hp i ti Hi) as [? _]. pose proof (Hp j tj Hj) as [? _]. lia.
    - pose proof (own_le_held _ i ti Hp Hi). pose proof (Hp i ti Hi) as [? _]. lia.
    - pose proof (own_le_held _ j tj Hp Hj). pose proof (Hp j tj Hj) as [? _]. lia.
    - lia. }
  do 2 (split; [done|]). unfold Mutex_permits, RwLock_permits.
  split; intros -> i j Hij; specialize (Htwo i j Hij); lia.
Qed.

End Run.

(** A writer that downgrades beside a reader that must wait first. *)
Definition downgrade_schedule : list (ThreadID * option SemaOp) :=
  [(1, Some RwLock_lock_exclusive); (1, None); (2, Some RwLock_lock_shared); (2, None);
   (1, Some RwLock_downgrade); (2, None); (2, None)].

Lemma lock_exclusion_witness :
  ∃ s : Sys (S := YieldWaiter),
    run_sched (sema_new RwLock_permits (sample_manager [1; 2]) {[1; 2]}) downgrade_schedule = Some s ∧
    own 1 s = 1 ∧ own 2 s = 1 ∧ counter s + held (thrs s) = RwLock_permits.
Proof.
  eexists. split; [vm_compute; reflexivity|]. do 2 (split; [vm_compute; reflexivity|]).
  eapply (lock_exclusion RwLock_permits (sample_manager [1; 2]) {[1; 2]}); [by split|].
  eapply threads_are_system, (run_sched_sound _ downgrade_schedule). vm_compute. reflexivity.
Defined.

(** A thread in the loop of [down_n] on a lock whose waiter returns
    without side effect ([SpinWaiter], [YieldWaiter]) owns the permits after
    at most two of its own steps once the counter covers its request and no
    other thread intervenes: a free lock is never waited for. *)
Lemma stateless_progress {S} `{StatelessWaitStrategy S} (s : Sys (S := S)) me t n :
  (∀ m, stateless_wait m = Ret m) →
  thrs s !! me = Some t → runnable_in (tm s) me = true →
  (pc t = AtTry n ∨ ∃ l, pc t = InWait n l) → n <= counter s →
  rtc (thr_step me) s
    (mkSys (counter s - n) (strategy s) (tm s)
       (<[me := mkThr (permits t + n) Outside]> (thrs s))).
Proof.
  intros Hw Ht Hr Hpc Hn.
  assert (Htry : ∀ (s' : Sys (S := S)) t', thrs s' !! me = Some t' → runnable_in (tm s') me = true →
            pc t' = AtTry n → n <= counter s' →
            thr_step me s' (mkSys (counter s' - n) (strategy s') (tm s')
              (<[me := mkThr (permits t' + n) Outside]> (thrs s')))).
  { intros s' t' Ht' Hr' Hp' Hn'. apply (step_continue me s' t'); [done|done|].
    unfold continue. rewrite Hp'. unfold down_n_iter.
    destruct (try_down_n_cases (counter s') n) as [[_ ->]|[? _]]; [done|lia]. }
  destruct Hpc as [Hpc|[l Hpc]]; [apply rtc_once; by apply Htry|].
  eapply (rtc_l _ _ (mkSys (counter s) (strategy s) (tm s) (<[me := mkThr (permits t) (AtTry n)]> (thrs s)))).
  - apply (step_continue me s t); [done|done|]. unfold continue. rewrite Hpc. simpl.
    by rewrite Hw.
  - apply rtc_once.
    pose proof (Htry (mkSys (counter s) (strategy s) (tm s)
      (<[me := mkThr (permits t) (AtTry n)]> (thrs s))) (mkThr (permits t) (AtTry n))) as Hlast.
    cbn [thrs tm counter strategy permits pc] in Hlast. rewrite insert_insert_eq in Hlast.
    apply Hlast; [apply lookup_insert_eq|done..].
Qed.

Definition yield_waiting : Sys (S := YieldWaiter) :=
  mkSys 1 YieldWaiter_new (sample_manager [1; 2])
    (<[2 := mkThr (S := YieldWaiter) 0 (InWait (S := YieldWaiter) 1 wait_start)]> ∅).

Lemma stateless_progress_witness :
  rtc (thr_step 2) yield_waiting
    (mkSys 0 YieldWaiter_new (sample_manager [1; 2])
       (<[2 := mkThr (S := YieldWaiter) 1 Outside]> (thrs yield_waiting))).
Proof.
  apply (stateless_progress yield_waiting 2
           (mkThr (S := YieldWaiter) 0 (InWait (S := YieldWaiter) 1 wait_start)) 1).
  - reflexivity.
  - vm_compute; reflexivity.
  - vm_compute; reflexivity.
  - right. eexists. reflexivity.
  - simpl. lia.
Defined.

(** The write lock of the mount table: thread 1 finds it taken, thread 2
    releases it and signals an empty queue, then thread 1 queues itself and
    blocks. *)
Definition lost_wakeup_schedule : list (ThreadID * option SemaOp) :=
  [(2, Some RwLock_lock_exclusive); (2, None); (1, Some RwLock_lock_exclusive); (1, None);
   (2, Some RwLock_unlock_exclusive); (2, None); (1, None); (1, None)].

(** A free lock has no owners. *)
Lemma free_no_owner {S} `{WaitStrategy S} N m tids (s : Sys (S := S)) i :
  0 <= N <= USIZE_MAX → rtc sys_step (sema_new N m tids) s → counter s = N → own i s = 0.
Proof.
  intros HN Hr Hc. destruct (inv_reachable N m tids s HN Hr) as (Hsum & _ & Hp).
  unfold own. destruct (thrs s !! i) as [t|] eqn:Hi; [|done].
  pose proof (own_le_held _ i t Hp Hi). pose proof (Hp i t Hi) as [? _]. lia.
Qed.

Lemma not_runnable_stuck {S} `{WaitStrategy S} (s s' : Sys (S := S)) me :
  runnable_in (tm s) me = false → ¬ thr_step me s s'.
Proof. intros Hr Hs. inversion Hs; congruence. Qed.

(** With [BlockingWaiter] a wake-up can be lost: between the failed
    attempt of [down_n] and the push on the wait queue the owner can release
    the lock and signal nobody.  The waiter then sleeps although the lock is
    free and every other thread has left it, and it cannot move by itself. *)
Lemma blocking_waiter_lost_wakeup :
  ∃ s : Sys (S := BlockingWaiter),
    rtc (λ s s', ∃ me, thr_step me s s')
      (sema_new RwLock_permits (sample_manager [1; 2]) {[1; 2]}) s ∧
    counter s = RwLock_permits ∧ (∀ i, own i s = 0) ∧
    thrs s !! 2 = Some (mkThr 0 Outside) ∧
    thrs s !! 1 = Some (mkThr 0 (InWait USIZE_MAX (WYield : Loc BlockingWaiter))) ∧
    (∀ s', ¬ thr_step 1 s s').
Proof.
  pose (s0 := sema_new RwLock_permits (sample_manager [1; 2]) {[1; 2]} : Sys (S := BlockingWaiter)).
  assert (Hobs : (λ s, (counter s, thrs s !! 2, thrs s !! 1, runnable_in (tm s) 1)) <$>
      run_sched s0 lost_wakeup_schedule =
    Some (RwLock_permits, Some (mkThr 0 Outside),
     Some (mkThr 0 (InWait USIZE_MAX (WYield : Loc BlockingWaiter))), false)).
  { vm_compute. reflexivity. }
  apply fmap_Some in Hobs as (s & Hrun & Hobs). injection Hobs as Hc H2 H1 Hr.
  apply run_sched_sound in Hrun. exists s. do 2 (split; [done|]). split.
  - intros i. eapply free_no_owner; [|by apply threads_are_system|done]. done.
  - do 2 (split; [done|]). intros s'. by apply not_runnable_stuck.
Qed.
