(* ===== verification/TermRender.v ===== *)
(** The text terminal: kernel/src/term/render/mod.rs.

    A character buffer of [Y] rows and [X] columns, a cursor, and a drawing
    backend.  The backend is a third-party trait ([DrawTarget] of
    embedded-graphics): the class [DrawTarget] has its operations, the class
    [CellLaws] what the terminal relies on, seen as character cells.  The
    results of drawing calls are ignored by the code. *)
From S2P Require Import Prelude.
Open Scope nat_scope.

Abbreviation char := Z.

Definition SPACE : char := 32%Z.
Definition NEWLINE : char := 10%Z.
Definition TAB : char := 9%Z.
Definition CARRIAGE_RETURN : char := 13%Z.
Definition BACKSPACE : char := 8%Z.

Definition CHAR_WIDTH : Z := 10.
Definition CHAR_HEIGHT : Z := 20.
Definition MAX_CHARS_X : nat := 127.
Definition MAX_CHARS_Y : nat := 39.

(** [as i32]. *)
Definition as_i32 (z : Z) : Z := ((z + 2 ^ 31) mod 2 ^ 32 - 2 ^ 31)%Z.

(** [TermPixel::as_ipixel]. *)
Definition as_ipixel (inner : nat) (multiplier : Z) : Z := as_i32 (Z.of_nat inner * multiplier).

(** [TermPosition]; [max_row] and [max_col] are written by [new] and read by
    nothing that runs. *)
Record TermPosition : Type := mkPos { row : nat; col : nat }.

(** [From<TermPosition> for Point]. *)
Definition Point_of (p : TermPosition) : Z * Z :=
  (as_ipixel (col p) CHAR_WIDTH, as_ipixel (row p) CHAR_HEIGHT).

Inductive PositionError : Type :=
| NewLine | PrevLine | OutOfBounds (p : TermPosition).

(** ** The drawing backend *)

Class DrawTarget (G : Type) := {
  bounding_width : G → Z;
  fill_solid : Z * Z → Z * Z → G → G;     (* top left, size *)
  draw_char : char → Z * Z → G → G;       (* top left *)
  gfx_clear : G → G
}.

(** The screen as character cells: [cell g r c] is the character visible in
    column [c] of row [r], a space where the background shows. *)
Class CellView (G : Type) := cell : G → nat → nat → char.

(** What the font shows for a character.  The terminal draws with an ASCII
    font: the characters it does not have all look like one replacement. *)
Class Font := glyph : char → char.

Definition printable (c : char) : Prop := (32 <= c <= 126)%Z.

(** On backends of at least [X] by [Y] characters, a glyph of the 10x20 font
    paints its whole cell, and a filled rectangle of one row's height blanks
    the cells it covers and leaves those it does not touch. *)
Class CellLaws (X Y : nat) (G : Type) `{Font} `{DrawTarget G} `{CellView G} : Prop := {
  glyph_printable : ∀ c, printable c → glyph c = c;
  width_fits : ∀ g, (Z.of_nat X * CHAR_WIDTH <= bounding_width g)%Z;
  cell_draw_char : ∀ g ch r c r' c', r < Y → c < X → r' < Y → c' < X →
    cell (draw_char ch (Z.of_nat c * CHAR_WIDTH, Z.of_nat r * CHAR_HEIGHT)%Z g) r' c' =
    if decide (r' = r ∧ c' = c) then glyph ch else cell g r' c';
  cell_fill_in : ∀ g r c w c', r < Y → c <= c' < X →
    ((Z.of_nat c' + 1) * CHAR_WIDTH <= Z.of_nat c * CHAR_WIDTH + w)%Z →
    cell (fill_solid (Z.of_nat c * CHAR_WIDTH, Z.of_nat r * CHAR_HEIGHT)%Z (w, CHAR_HEIGHT) g) r c' = SPACE;
  cell_fill_out : ∀ g r c w r' c', r < Y → c < X → r' < Y → c' < X →
    r' ≠ r ∨ c' < c ∨ (Z.of_nat c * CHAR_WIDTH + w <= Z.of_nat c' * CHAR_WIDTH)%Z →
    cell (fill_solid (Z.of_nat c * CHAR_WIDTH, Z.of_nat r * CHAR_HEIGHT)%Z (w, CHAR_HEIGHT) g) r' c' =
    cell g r' c';
  cell_clear : ∀ g r c, r < Y → c < X → cell (gfx_clear g) r c = SPACE
}.

(** ** TermCharBuffer *)

Abbreviation Row := (list (option char)).
Abbreviation TermCharBuffer := (list Row).

Section Term.
Context (X Y : nat) {G : Type} `{DrawTarget G}.

Definition empty_row : Row := replicate X None.

Definition TermCharBuffer_new : TermCharBuffer := replicate Y empty_row.

Definition in_bounds (p : TermPosition) : bool := bool_decide (row p < Y) && bool_decide (col p < X).

(** [self.inner[y][x]]. *)
Definition at_cell (b : TermCharBuffer) (y x : nat) : option (option char) :=
  r ← b !! y; r !! x.

Definition TermCharBuffer_get (b : TermCharBuffer) (p : TermPosition)
    : Outcome (Result PositionError (option char)) :=
  if in_bounds p then
    match at_cell b (row p) (col p) with Some o => Ret (Ok o) | None => Panic end
  else Ret (Err (OutOfBounds p)).

(** [self.inner[y][x].replace(ch)]; the array index panics out of range. *)
Definition set_cell (b : TermCharBuffer) (y x : nat) (ch : char) : Outcome TermCharBuffer :=
  match b !! y with
  | Some r => if decide (x < length r) then Ret (<[y := <[x := Some ch]> r]> b) else Panic
  | None => Panic
  end.

(** [push_dumb] through [get_mut]. *)
Definition push_dumb (b : TermCharBuffer) (ch : char) (p : TermPosition)
    : Outcome (TermCharBuffer * Result PositionError unit) :=
  if in_bounds p then let! b := set_cell b (row p) (col p) ch in Ret (b, Ok tt)
  else Ret (b, Err (OutOfBounds p)).

(** [self.inner[dst] = self.inner[src]], for indices the loop bounds keep in
    range. *)
Definition copy_row (b : TermCharBuffer) (dst src : nat) : TermCharBuffer :=
  match b !! src with Some r => <[dst := r]> b | None => b end.

Definition clear_line (b : TermCharBuffer) (line : nat) : Outcome TermCharBuffer :=
  if decide (line < length b) then Ret (<[line := empty_row]> b) else Panic.

Definition shift_up (b : TermCharBuffer) : Outcome TermCharBuffer :=
  clear_line (foldl (λ b row, copy_row b row (row + 1)) b (seq 0 (Y - 1))) (Y - 1).

Definition shift_down (b : TermCharBuffer) : Outcome TermCharBuffer :=
  clear_line (foldl (λ b row, copy_row b row (row - 1)) b (rev (seq 1 (Y - 1)))) 0.

(** The length of the range returned by [get_range_from_row], which starts
    at 0. *)
Fixpoint get_range (r : Row) : nat :=
  match r with
  | [] => 0
  | None :: _ => 0
  | Some _ :: r => S (get_range r)
  end.

Definition get_range_from_row (b : TermCharBuffer) (row : nat) : nat :=
  match b !! row with Some r => get_range r | None => 0 end.

Definition clear_col (b : TermCharBuffer) (c : nat) : TermCharBuffer :=
  (λ r, <[c := None]> r) <$> b.

Definition redraw_empty_row (row : nat) (g : G) : G :=
  fill_solid (0%Z, as_ipixel row CHAR_HEIGHT) (bounding_width g, CHAR_HEIGHT) g.

Definition redraw_row_with_range (b : TermCharBuffer) (row : nat) (range : nat) (g : G) : G :=
  foldl (λ g col,
      draw_char (default SPACE (default None (at_cell b row col)))
        (as_ipixel col CHAR_WIDTH, as_ipixel row CHAR_HEIGHT) g)
    g (seq 0 range).

(** The inner loop of [redraw]: it stops at the first empty cell. *)
Fixpoint redraw_cells (r : Row) (y x : nat) (g : G) : G :=
  match r with
  | [] => g
  | None :: _ => g
  | Some ch :: r => redraw_cells r y (S x) (draw_char ch (Point_of (mkPos y x)) g)
  end.

(** [redraw] restores the cursor it uses. *)
Definition redraw (b : TermCharBuffer) (g : G) : G :=
  foldl (λ g y, redraw_cells (default [] (b !! y)) y 0 g) (gfx_clear g) (seq 0 Y).

Definition shift_up_and_redraw (b : TermCharBuffer) (g : G) : Outcome (TermCharBuffer * G) :=
  let '(b, g) := foldl (λ '(b, g) row,
      let range1 := get_range_from_row b row in
      let range2 := get_range_from_row b (row + 1) in
      let range := if decide (range2 < range1) then range1 else range2 in
      let b := copy_row b row (row + 1) in
      (b, redraw_row_with_range b row range g)) (b, g) (seq 0 (Y - 1)) in
  let! b := clear_line b (Y - 1) in
  Ret (b, redraw_empty_row (Y - 1) g).

(** The [while] loop of [force_push_smart]; [n] bounds its iterations. *)
Fixpoint scroll_while (n : nat) (b : TermCharBuffer) (r : nat) (redraw_all : bool)
    : Outcome (TermCharBuffer * nat * bool) :=
  if decide (Y <= r) then
    match n with
    | O => NoFuel
    | S n => let! b := shift_up b in scroll_while n b (r - 1) true
    end
  else Ret (b, r, redraw_all).

Definition force_push_smart (b : TermCharBuffer) (ch : char) (cursor : TermPosition)
    : Outcome (TermCharBuffer * TermPosition * Result PositionError unit) :=
  let '(r, c, should_redraw) :=
    if decide (X <= col cursor) then (row cursor + 1, 0, true)
    else (row cursor, col cursor, false) in
  let! x := scroll_while r b r false in
  let '(b, r, should_redraw_all) := x in
  let! b := set_cell b r c ch in
  Ret (b, mkPos r c,
       if should_redraw && negb should_redraw_all then Err NewLine
       else if should_redraw_all then Err PrevLine
       else Ok tt).

Definition TermCharBuffer_is_empty (b : TermCharBuffer) : bool :=
  negb (existsb (λ r : Row, existsb (λ o, match o with Some _ => true | None => false end) r) b).

(** ** BasicTermRender *)

Record BasicTermRender : Type := mkTerm {
  backend : G;
  cursor : TermPosition;
  buffer : TermCharBuffer
}.

Definition BasicTermRender_new (g : G) (b : TermCharBuffer) : BasicTermRender :=
  mkTerm g (mkPos 0 0) b.

Definition line_clear (t : BasicTermRender) : Outcome BasicTermRender :=
  let! b := clear_line (buffer t) (row (cursor t)) in
  Ret (mkTerm (redraw_empty_row (row (cursor t)) (backend t)) (cursor t) b).

(** The loop of [clear_one]; [n] bounds its iterations. *)
Fixpoint clear_one_loop (n : nat) (b : TermCharBuffer) (p : TermPosition) : Outcome TermPosition :=
  match n with
  | O => NoFuel
  | S n =>
      let move := if decide (0 < col p) then Some (mkPos (row p) (col p - 1))
                  else if decide (0 < row p) then Some (mkPos (row p - 1) (X - 1))
                  else None in
      match move with
      | None => Ret p
      | Some p =>
          let! o := TermCharBuffer_get b p in
          match o with
          | Err _ => Panic
          | Ok (Some _) => Ret p
          | Ok None => clear_one_loop n b p
          end
      end
  end.

Definition clear_one_fuel (p : TermPosition) : nat := S (row p * X + col p).

Definition clear_one (t : BasicTermRender) : Outcome BasicTermRender :=
  let! p := clear_one_loop (clear_one_fuel (cursor t)) (buffer t) (cursor t) in
  Ret (mkTerm (fill_solid (Point_of p) (CHAR_WIDTH, CHAR_HEIGHT) (backend t)) p (buffer t)).

Definition newline (t : BasicTermRender) : Outcome BasicTermRender :=
  if decide (Y - 1 <= row (cursor t)) then
    let! x := shift_up_and_redraw (buffer t) (backend t) in
    let '(b, g) := x in
    Ret (mkTerm g (mkPos (row (cursor t)) 0) b)
  else Ret (mkTerm (backend t) (mkPos (row (cursor t) + 1) 0) (buffer t)).

Definition prevline (t : BasicTermRender) : Outcome BasicTermRender :=
  let! b := shift_down (buffer t) in
  Ret (mkTerm (redraw b (backend t)) (cursor t) b).

Definition cursor_advance (p : TermPosition) : TermPosition := mkPos (row p) (col p + 1).

(** The last arm of [write_char]. *)
Definition write_plain (t : BasicTermRender) (c : char) : Outcome BasicTermRender :=
  let! x := force_push_smart (buffer t) c (cursor t) in
  let '(b, p, r) := x in
  Ret (match r with
       | Err NewLine =>
           mkTerm (redraw_row_with_range b (row p) (get_range_from_row b (row p)) (backend t))
             (cursor_advance p) b
       | Err PrevLine => mkTerm (redraw b (backend t)) (cursor_advance p) b
       | Ok _ => mkTerm (draw_char c (Point_of p) (backend t)) (cursor_advance p) b
       | Err (OutOfBounds _) => mkTerm (backend t) p b
       end).

(** A tab is three calls of [write_char] with a space, which takes the last
    arm. *)
Definition write_tab (t : BasicTermRender) : Outcome BasicTermRender :=
  let! t := write_plain t SPACE in
  let! t := write_plain t SPACE in
  write_plain t SPACE.

Definition write_char (t : BasicTermRender) (c : char) : Outcome BasicTermRender :=
  if decide (c = NEWLINE) then newline t
  else if decide (c = TAB) then write_tab t
  else if decide (c = CARRIAGE_RETURN) then line_clear t
  else if decide (c = BACKSPACE) then clear_one t
  else write_plain t c.

(** [write_char_iter]; [write_str] is it on the characters of the string. *)
Fixpoint write_char_iter (t : BasicTermRender) (cs : list char) : Outcome BasicTermRender :=
  match cs with
  | [] => Ret t
  | c :: cs => let! t := write_char t c in write_char_iter t cs
  end.

End Term.

(** ** Reference: a scrolling document

    The text written so far as wrapped lines, the finished ones and the one
    being written; the terminal shows its last [Y] lines from the top. *)
Abbreviation Doc := (list (list char) * list char)%type.

Definition doc_newline (d : Doc) : Doc := (d.1 ++ [d.2], []).

Definition doc_put (X : nat) (d : Doc) (c : char) : Doc :=
  if decide (X <= length d.2) then (d.1 ++ [d.2], [c]) else (d.1, d.2 ++ [c]).

Definition doc_char (X : nat) (d : Doc) (c : char) : Doc :=
  if decide (c = NEWLINE) then doc_newline d
  else if decide (c = TAB) then doc_put X (doc_put X (doc_put X d SPACE) SPACE) SPACE
  else doc_put X d c.

Definition doc_lines (d : Doc) : nat := S (length d.1).

Definition doc_rows (Y : nat) (d : Doc) : list (list char) :=
  drop (doc_lines d - Y) (d.1 ++ [d.2]) ++ replicate (Y - doc_lines d) [].

Definition doc_cursor (Y : nat) (d : Doc) : TermPosition :=
  mkPos (min (doc_lines d) Y - 1) (length d.2).

(** The character of row [r] and column [c] of a page. *)
Definition page_char (V : list (list char)) (r c : nat) : char :=
  default SPACE (l ← V !! r; l !! c).

Section DocLemmas.
Context (Y : nat) (HY : 0 < Y).

Lemma doc_rows_length d : length (doc_rows Y d) = Y.
Proof.
  destruct d as [ls l]. unfold doc_rows, doc_lines.
  rewrite length_app, length_drop, length_app, length_replicate. simpl. lia.
Qed.

Lemma doc_rows_split ls l :
  doc_rows Y (ls, l) =
  drop (S (length ls) - Y) ls ++ l :: replicate (Y - S (length ls)) [].
Proof.
  unfold doc_rows, doc_lines; simpl fst; simpl snd.
  rewrite drop_app_le by lia. rewrite <-app_assoc. done.
Qed.

Lemma doc_prefix_length (ls : list (list char)) :
  length (drop (S (length ls) - Y) ls) = min (S (length ls)) Y - 1.
Proof. rewrite length_drop. lia. Qed.

Lemma doc_rows_current d : doc_rows Y d !! row (doc_cursor Y d) = Some d.2.
Proof.
  destruct d as [ls l]. change (row (doc_cursor Y (ls, l))) with (min (S (length ls)) Y - 1).
  rewrite doc_rows_split. apply list_lookup_middle. by rewrite doc_prefix_length.
Qed.

Lemma doc_rows_set ls l l' :
  doc_rows Y (ls, l') = <[row (doc_cursor Y (ls, l)) := l']> (doc_rows Y (ls, l)).
Proof.
  change (row (doc_cursor Y (ls, l))) with (min (S (length ls)) Y - 1). rewrite !doc_rows_split.
  rewrite insert_app_r_alt by (rewrite doc_prefix_length; lia).
  by rewrite doc_prefix_length, Nat.sub_diag.
Qed.

Lemma doc_rows_newline d :
  doc_rows Y (doc_newline d) =
  if decide (doc_lines d < Y) then doc_rows Y d else drop 1 (doc_rows Y d) ++ [[]].
Proof.
  destruct d as [ls l]. unfold doc_newline, doc_lines. simpl fst; simpl snd.
  rewrite !doc_rows_split, length_app. simpl length. case_decide.
  - replace (S (length ls + 1) - Y) with 0 by lia. replace (S (length ls) - Y) with 0 by lia.
    rewrite !drop_0, <-app_assoc. simpl. do 2 f_equal.
    replace (Y - S (length ls)) with (S (Y - S (length ls + 1))) by lia. done.
  - replace (S (length ls + 1) - Y) with (S (S (length ls) - Y)) by lia.
    replace (Y - S (length ls + 1)) with 0 by lia. replace (Y - S (length ls)) with 0 by lia.
    simpl replicate. rewrite <-(drop_app_le ls [l] (S (length ls) - Y)) by lia.
    rewrite drop_drop. by replace (S (length ls) - Y + 1) with (S (S (length ls) - Y)) by lia.
Qed.

Lemma doc_cursor_newline d :
  doc_cursor Y (doc_newline d) =
  mkPos (if decide (doc_lines d < Y) then S (row (doc_cursor Y d)) else row (doc_cursor Y d)) 0.
Proof.
  unfold doc_cursor, doc_newline, doc_lines. cbn [fst snd row]. rewrite length_app.
  cbn [length]. f_equal. case_decide; lia.
Qed.

Lemma doc_cursor_row_lt d : row (doc_cursor Y d) < Y.
Proof. unfold doc_cursor. cbn [row]. lia. Qed.

Lemma doc_put_over X d c :
  doc_put X d c =
  if decide (X <= length d.2) then ((doc_newline d).1, (doc_newline d).2 ++ [c]) else (d.1, d.2 ++ [c]).
Proof. done. Qed.

End DocLemmas.

(** ** The buffer and the screen as a page of lines *)

Lemma as_ipixel_small n m : (0 <= Z.of_nat n * m < 2 ^ 31)%Z → as_ipixel n m = (Z.of_nat n * m)%Z.
Proof. intros Hn. unfold as_ipixel, as_i32. rewrite Z.mod_small; lia. Qed.

Section Page.
Context (X Y : nat) (HX : 0 < X) (HY : 0 < Y).
Context (HXi : (Z.of_nat X * CHAR_WIDTH < 2 ^ 31)%Z) (HYi : (Z.of_nat Y * CHAR_HEIGHT < 2 ^ 31)%Z).
Context {G : Type} `{FT : Font} `{CD : DrawTarget G} `{CV : CellView G} `{CL : !CellLaws X Y G}.

Definition pad (l : list char) : Row := (Some <$> l) ++ replicate (X - length l) None.

Definition page_ok (V : list (list char)) : Prop := length V = Y ∧ Forall (λ l, length l <= X) V.

Definition shows (g : G) (V : list (list char)) : Prop :=
  ∀ r c, r < Y → c < X → cell g r c = glyph (page_char V r c).

Lemma glyph_space : glyph SPACE = SPACE.
Proof. apply (glyph_printable (X := X) (Y := Y) (G := G)). unfold printable, SPACE. lia. Qed.

Lemma col_pixel c : c <= X → as_ipixel c CHAR_WIDTH = (Z.of_nat c * CHAR_WIDTH)%Z.
Proof. intros Hc. apply as_ipixel_small. unfold CHAR_WIDTH in *. lia. Qed.

Lemma row_pixel r : r <= Y → as_ipixel r CHAR_HEIGHT = (Z.of_nat r * CHAR_HEIGHT)%Z.
Proof. intros Hr. apply as_ipixel_small. unfold CHAR_HEIGHT in *. lia. Qed.

Lemma pad_nil : pad [] = empty_row X.
Proof. unfold pad. simpl. by rewrite Nat.sub_0_r. Qed.

Lemma pad_length l : length l <= X → length (pad l) = X.
Proof. intros Hl. unfold pad. rewrite length_app, length_fmap, length_replicate. lia. Qed.

Lemma get_range_prefix (l : list char) n :
  get_range ((Some <$> l) ++ replicate n None) = length l.
Proof. induction l as [|c l IH]; csimpl; [by destruct n|by rewrite IH]. Qed.

Lemma pad_lookup l c : default None (pad l !! c) = l !! c.
Proof.
  unfold pad. destruct (decide (c < length l)) as [Hc|Hc].
  - rewrite lookup_app_l by (rewrite length_fmap; lia). rewrite list_lookup_fmap.
    destruct (lookup_lt_is_Some_2 l c Hc) as [ch ->]. done.
  - rewrite lookup_app_r by (rewrite length_fmap; lia). rewrite (lookup_ge_None_2 l c) by lia.
    rewrite length_fmap. destruct (replicate (X - length l) None !! (c - length l)) as [o|] eqn:Ho; [|done].
    by apply lookup_replicate in Ho as [-> _].
Qed.

Lemma pad_set l c : length l < X → <[length l := Some c]> (pad l) = pad (l ++ [c]).
Proof.
  intros Hl. unfold pad. rewrite insert_app_r_alt by (rewrite length_fmap; lia).
  rewrite length_fmap, Nat.sub_diag, fmap_app, length_app, <-app_assoc. simpl.
  replace (X - length l) with (S (X - (length l + 1))) by lia. done.
Qed.

Lemma page_at (V : list (list char)) r c :
  default SPACE (default None (at_cell (pad <$> V) r c)) = page_char V r c.
Proof.
  unfold at_cell, page_char. rewrite list_lookup_fmap.
  destruct (V !! r) as [l|] eqn:Hr; simpl; [|done]. f_equal. apply pad_lookup.
Qed.

Lemma page_range V r l : V !! r = Some l → get_range_from_row (pad <$> V) r = length l.
Proof.
  intros Hr. unfold get_range_from_row. rewrite list_lookup_fmap, Hr. simpl.
  apply get_range_prefix.
Qed.

Lemma set_cell_page V r l c :
  V !! r = Some l → length l < X →
  set_cell (pad <$> V) r (length l) c = Ret (pad <$> <[r := l ++ [c]]> V).
Proof.
  intros Hr Hl. unfold set_cell. rewrite list_lookup_fmap, Hr. simpl.
  rewrite decide_True by (rewrite pad_length; lia).
  by rewrite pad_set, list_fmap_insert by done.
Qed.

(** One step of the copying loop. *)
Lemma copy_step (b : TermCharBuffer) k :
  S k < length b →
  copy_row (take k (drop 1 b) ++ drop k b) k (k + 1) = take (S k) (drop 1 b) ++ drop (S k) b.
Proof.
  intros Hk. unfold copy_row.
  assert (Hlen : length (take k (drop 1 b)) = k) by (rewrite length_take, length_drop; lia).
  rewrite lookup_app_r by lia. rewrite Hlen, lookup_drop.
  replace (k + (k + 1 - k)) with (S k) by lia.
  destruct (lookup_lt_is_Some_2 b (S k) Hk) as [r Hr]. rewrite Hr.
  rewrite insert_app_r_alt by lia. rewrite Hlen, Nat.sub_diag.
  destruct (lookup_lt_is_Some_2 b k ltac:(lia)) as [r0 Hr0].
  rewrite (drop_S b r0 k) by done. simpl.
  rewrite (take_S_r _ k r) by (by rewrite lookup_drop). by rewrite <-app_assoc.
Qed.

(** The copying loop of the two shifts. *)
Lemma copy_loop (b : TermCharBuffer) k :
  k < length b →
  foldl (λ b row, copy_row b row (row + 1)) b (seq 0 k) = take k (drop 1 b) ++ drop k b.
Proof.
  induction k as [|k IH]; intros Hk; [done|].
  rewrite seq_S, foldl_app, IH by lia. simpl. apply copy_step; lia.
Qed.

Definition scrolled (V : list (list char)) : list (list char) := drop 1 V ++ [[]].

Lemma scrolled_ok V : page_ok V → page_ok (scrolled V).
Proof.
  intros [HL HF]. split.
  - unfold scrolled. rewrite length_app, length_drop. simpl. lia.
  - apply Forall_app. split; [by apply Forall_drop|]. repeat constructor. simpl. lia.
Qed.

Lemma last_cleared (V : list (list char)) :
  length V = Y →
  <[Y - 1 := empty_row X]> (take (Y - 1) (drop 1 (pad <$> V)) ++ drop (Y - 1) (pad <$> V)) =
  pad <$> scrolled V.
Proof.
  intros HL. unfold scrolled. rewrite fmap_app. csimpl. rewrite pad_nil, fmap_drop.
  rewrite take_ge by (rewrite length_drop, length_fmap; lia).
  rewrite insert_app_r_alt by (rewrite length_drop, length_fmap; lia).
  rewrite length_drop, length_fmap, HL, Nat.sub_diag.
  destruct (lookup_lt_is_Some_2 (pad <$> V) (Y - 1)) as [r Hr]; [rewrite length_fmap; lia|].
  rewrite (drop_S _ r (Y - 1)) by done. rewrite (drop_ge _ (S (Y - 1))) by (rewrite length_fmap; lia).
  done.
Qed.

Lemma loop_length (V : list (list char)) :
  length V = Y →
  length (take (Y - 1) (drop 1 (pad <$> V)) ++ drop (Y - 1) (pad <$> V)) = Y.
Proof.
  intros HL. rewrite length_app, length_take, !length_drop, length_fmap. lia.
Qed.

Lemma shift_up_page V :
  length V = Y → shift_up X Y (pad <$> V) = Ret (pad <$> scrolled V).
Proof.
  intros HL. unfold shift_up, clear_line. rewrite copy_loop by (rewrite length_fmap; lia).
  rewrite decide_True by (rewrite loop_length; lia). by rewrite last_cleared.
Qed.

(** Drawing part of a row changes that part only. *)
Lemma cell_redraw_row b r k g r' c' :
  r < Y → k <= X → r' < Y → c' < X →
  cell (redraw_row_with_range b r k g) r' c' =
  if decide (r' = r ∧ c' < k) then glyph (default SPACE (default None (at_cell b r c'))) else cell g r' c'.
Proof.
  intros Hr Hk Hr' Hc'. unfold redraw_row_with_range. rewrite row_pixel by lia. revert Hk.
  induction k as [|k IH]; intros Hk; [rewrite decide_False by lia; done|].
  rewrite seq_S, foldl_app, Nat.add_0_l. cbn [foldl]. rewrite col_pixel by lia.
  rewrite cell_draw_char, IH by lia.
  repeat case_decide; try lia; try done. by destruct_and?; subst.
Qed.

Lemma cell_redraw_cells (l : list char) n y x g r c :
  y < Y → r < Y → c < X → x + length l <= X →
  cell (redraw_cells ((Some <$> l) ++ replicate n None) y x g) r c =
  if decide (r = y ∧ x <= c < x + length l) then glyph (default SPACE (l !! (c - x))) else cell g r c.
Proof.
  intros Hy Hr Hc. revert x g. induction l as [|ch l IH]; intros x g Hx; csimpl.
  - rewrite decide_False by lia. by destruct n.
  - simpl in Hx. rewrite IH by lia. unfold Point_of. simpl row. simpl col.
    rewrite row_pixel, col_pixel, cell_draw_char by lia.
    destruct (decide (r = y ∧ c = x)) as [[-> ->]|Hne].
    + rewrite decide_False, decide_True by lia. by rewrite Nat.sub_diag.
    + destruct (decide (r = y ∧ S x <= c < S x + length l)).
      * rewrite decide_True by lia. by replace (c - x) with (S (c - S x)) by lia.
      * rewrite decide_False by lia. done.
Qed.

Lemma page_char_beyond V r l c : V !! r = Some l → length l <= c → page_char V r c = SPACE.
Proof. intros Hr Hc. unfold page_char. rewrite Hr. simpl. by rewrite lookup_ge_None_2. Qed.

Lemma page_char_row V r l c : V !! r = Some l → page_char V r c = default SPACE (l !! c).
Proof. intros Hr. unfold page_char. by rewrite Hr. Qed.

(** A full redraw shows the page. *)
Lemma redraw_shows V g : page_ok V → shows (redraw Y (pad <$> V) g) V.
Proof.
  intros [HL HF].
  assert (Hk : ∀ k, k <= Y → ∀ r c, r < Y → c < X →
    cell (foldl (λ g y, redraw_cells (default [] ((pad <$> V) !! y)) y 0 g) (gfx_clear g) (seq 0 k)) r c =
    if decide (r < k) then glyph (page_char V r c) else SPACE).
  { induction k as [|k IH]; intros Hk r c Hr Hc.
    { cbn [seq foldl]. rewrite cell_clear, decide_False by lia. done. }
    rewrite seq_S, foldl_app, Nat.add_0_l. cbn [foldl].
    destruct (lookup_lt_is_Some_2 V k ltac:(lia)) as [l Hl].
    pose proof (proj1 (Forall_lookup _ _) HF k l Hl) as Hlen. simpl in Hlen.
    rewrite list_lookup_fmap, Hl. simpl. unfold pad at 1.
    rewrite cell_redraw_cells by lia. rewrite IH by lia.
    destruct (decide (r = k)) as [->|Hne].
    - rewrite (decide_True (P := k < S k)) by lia. case_decide.
      + by rewrite (page_char_row V k l), Nat.sub_0_r.
      + rewrite decide_False by lia. rewrite (page_char_beyond V k l) by (done || lia).
        by rewrite glyph_space.
    - rewrite decide_False by lia. repeat case_decide; try lia; done. }
  intros r c Hr Hc. unfold redraw. rewrite Hk by lia. by rewrite decide_True.
Qed.

(** Blanking a row. *)
Lemma cell_empty_row r g r' c' :
  r < Y → r' < Y → c' < X →
  cell (redraw_empty_row r g) r' c' = if decide (r' = r) then SPACE else cell g r' c'.
Proof.
  intros Hr Hr' Hc. unfold redraw_empty_row. rewrite row_pixel by lia.
  pose proof (width_fits g) as HW.
  change 0%Z with (Z.of_nat 0 * CHAR_WIDTH)%Z. case_decide as Heq.
  - subst. apply cell_fill_in; [lia|lia|]. unfold CHAR_WIDTH in *. lia.
  - apply cell_fill_out; [lia..|]. by left.
Qed.

(** The body of the loop of [shift_up_and_redraw]. *)
Definition scroll_body : TermCharBuffer * G → nat → TermCharBuffer * G :=
  λ '(b, g) row,
    let range1 := get_range_from_row b row in
    let range2 := get_range_from_row b (row + 1) in
    let range := if decide (range2 < range1) then range1 else range2 in
    let b := copy_row b row (row + 1) in
    (b, redraw_row_with_range b row range g).

Definition half (V : list (list char)) (k : nat) : list (list char) := take k (drop 1 V) ++ drop k V.

Lemma half_pad V k : pad <$> half V k = take k (drop 1 (pad <$> V)) ++ drop k (pad <$> V).
Proof. unfold half. by rewrite fmap_app, fmap_take, !fmap_drop. Qed.

Lemma half_old V k r : k < length V → k <= r → half V k !! r = V !! r.
Proof.
  intros Hk Hr. unfold half.
  assert (Hlen : length (take k (drop 1 V)) = k) by (rewrite length_take, length_drop; lia).
  rewrite lookup_app_r by lia. rewrite Hlen, lookup_drop. f_equal. lia.
Qed.

Lemma half_new V k r : k < length V → r < k → half V k !! r = V !! S r.
Proof.
  intros Hk Hr. unfold half.
  rewrite lookup_app_l by (rewrite length_take, length_drop; lia).
  rewrite lookup_take_lt by lia. by rewrite lookup_drop.
Qed.

(** One row of the scroll: the buffer is copied and the row redrawn over the
    longer of the old and the new line. *)
Lemma scroll_body_page V k g :
  page_ok V → S k < Y → shows g (half V k) →
  (scroll_body (pad <$> half V k, g) k).1 = pad <$> half V (S k) ∧
  shows (scroll_body (pad <$> half V k, g) k).2 (half V (S k)).
Proof.
  intros [HL HF] Hk Hs. unfold scroll_body.
  assert (Hcopy : copy_row (pad <$> half V k) k (k + 1) = pad <$> half V (S k)).
  { rewrite !half_pad. apply copy_step. rewrite length_fmap. lia. }
  destruct (lookup_lt_is_Some_2 V k ltac:(lia)) as [l1 Hl1].
  destruct (lookup_lt_is_Some_2 V (S k) ltac:(lia)) as [l2 Hl2].
  pose proof (proj1 (Forall_lookup _ _) HF k l1 Hl1) as Hlen1.
  pose proof (proj1 (Forall_lookup _ _) HF (S k) l2 Hl2) as Hlen2. simpl in Hlen1, Hlen2.
  assert (Hrow1 : half V k !! k = Some l1) by (rewrite half_old by lia; done).
  assert (Hrow2 : half V k !! (k + 1) = Some l2)
    by (rewrite half_old by lia; by rewrite Nat.add_1_r).
  assert (Hrow3 : half V (S k) !! k = Some l2) by (rewrite half_new by lia; done).
  rewrite (page_range _ _ l1 Hrow1), (page_range _ _ l2 Hrow2), Hcopy. cbn [fst snd].
  split; [done|].
  intros r c Hr Hc. rewrite cell_redraw_row by (try case_decide; lia). rewrite page_at.
  destruct (decide (r = k)) as [->|Hne].
  - case_decide as Hin; [done|]. rewrite Hs by lia.
    rewrite (page_char_beyond _ k l1), (page_char_beyond _ k l2);
      [done|done| |done|]; revert Hin; case_decide; lia.
  - rewrite decide_False by lia. rewrite Hs by lia. unfold page_char.
    destruct (decide (r < k)); [by rewrite !half_new by lia|by rewrite !half_old by lia].
Qed.

Lemma shift_up_and_redraw_page V g :
  page_ok V → shows g V →
  ∃ g', shift_up_and_redraw X Y (pad <$> V) g = Ret (pad <$> scrolled V, g') ∧
        shows g' (scrolled V).
Proof.
  intros HV Hs. destruct (HV) as [HL HF].
  assert (Hloop : ∀ k, k < Y → ∃ g',
    foldl scroll_body (pad <$> V, g) (seq 0 k) = (pad <$> half V k, g') ∧
    shows g' (half V k)).
  { induction k as [|k IH]; intros Hk.
    - exists g. unfold half. by rewrite !drop_0.
    - destruct IH as (g1 & Heq & Hs1); [lia|].
      destruct (scroll_body_page V k g1 HV Hk Hs1) as (Hb & Hs2).
      exists (scroll_body (pad <$> half V k, g1) k).2.
      rewrite seq_S, foldl_app, Nat.add_0_l, Heq. cbn [foldl].
      split; [by rewrite <-Hb, <-surjective_pairing|done]. }
  destruct (Hloop (Y - 1) ltac:(lia)) as (g1 & Heq & Hs1).
  exists (redraw_empty_row (Y - 1) g1). unfold shift_up_and_redraw.
  change (foldl _ (pad <$> V, g) (seq 0 (Y - 1))) with (foldl scroll_body (pad <$> V, g) (seq 0 (Y - 1))).
  rewrite Heq. unfold clear_line. rewrite half_pad.
  rewrite decide_True by (rewrite loop_length; lia). rewrite last_cleared by done.
  split; [done|].
  intros r c Hr Hc. rewrite cell_empty_row by lia.
  unfold page_char, scrolled. case_decide as Hlast.
  - rewrite lookup_app_r by (rewrite length_drop; lia). rewrite length_drop.
    replace (r - (length V - 1)) with 0 by lia. symmetry. exact glyph_space.
  - rewrite Hs1 by lia. unfold page_char. rewrite half_new by lia.
    rewrite lookup_app_l by (rewrite length_drop; lia). by rewrite lookup_drop.
Qed.

(** ** The terminal refines the document *)

Definition doc_ok (d : Doc) : Prop := Forall (λ l, length l <= X) d.1 ∧ length d.2 <= X.

Definition refines (t : BasicTermRender) (d : Doc) : Prop :=
  buffer t = pad <$> doc_rows Y d ∧ cursor t = doc_cursor Y d ∧
  shows (backend t) (doc_rows Y d) ∧ doc_ok d.

Lemma doc_rows_ok d : doc_ok d → page_ok (doc_rows Y d).
Proof.
  intros [H1 H2]. split; [by apply doc_rows_length|]. unfold doc_rows.
  apply Forall_app. split.
  - apply Forall_drop, Forall_app. split; [done|]. by constructor.
  - apply Forall_replicate. simpl. lia.
Qed.

Lemma doc_newline_ok d : doc_ok d → doc_ok (doc_newline d).
Proof.
  intros [H1 H2]. split; simpl; [|lia]. apply Forall_app. split; [done|]. by constructor.
Qed.

(** Appending a character to the current line, on the page. *)
Lemma append_ok d c : doc_ok d → length d.2 < X → doc_ok (d.1, d.2 ++ [c]).
Proof. intros [H1 H2] Hl. split; [done|]. simpl. rewrite length_app. simpl. lia. Qed.

Lemma append_cursor d c :
  doc_cursor Y (d.1, d.2 ++ [c]) = cursor_advance (doc_cursor Y d).
Proof. unfold doc_cursor, cursor_advance, doc_lines. simpl. by rewrite length_app. Qed.

Lemma append_rows d c :
  doc_rows Y (d.1, d.2 ++ [c]) = <[row (doc_cursor Y d) := d.2 ++ [c]]> (doc_rows Y d).
Proof. destruct d as [ls l]. by apply doc_rows_set. Qed.

Lemma append_set_cell d c :
  length d.2 < X →
  set_cell (pad <$> doc_rows Y d) (row (doc_cursor Y d)) (length d.2) c =
  Ret (pad <$> doc_rows Y (d.1, d.2 ++ [c])).
Proof.
  intros Hl. rewrite (set_cell_page _ _ d.2) by (done || by apply doc_rows_current).
  by rewrite append_rows.
Qed.

(** Painting the appended character completes the screen. *)
Lemma append_shows d c g g' :
  shows g (doc_rows Y d) → length d.2 < X →
  (∀ r' c', r' < Y → c' < X → cell g' r' c' =
     if decide (r' = row (doc_cursor Y d) ∧ c' = length d.2) then glyph c else cell g r' c') →
  shows g' (doc_rows Y (d.1, d.2 ++ [c])).
Proof.
  intros Hs Hl Hg r k Hr Hk. rewrite Hg, append_rows by done. unfold page_char.
  pose proof (doc_rows_current Y HY d) as Hcur.
  pose proof (doc_cursor_row_lt Y HY d) as Hrow.
  destruct (decide (r = row (doc_cursor Y d))) as [->|Hne].
  - rewrite list_lookup_insert_eq by (rewrite doc_rows_length; lia). cbn [mbind option_bind].
    destruct (decide (k = length d.2)) as [->|Hk'].
    + rewrite decide_True by done. by rewrite list_lookup_middle.
    + rewrite decide_False by tauto. rewrite Hs by lia. unfold page_char. rewrite Hcur. cbn [mbind option_bind].
      destruct (decide (k < length d.2)); [by rewrite lookup_app_l|].
      rewrite !lookup_ge_None_2; [done|rewrite length_app; simpl; lia|lia].
  - rewrite decide_False by tauto. rewrite list_lookup_insert_ne by done. by apply Hs.
Qed.

Lemma scroll_while_done n b r f : r < Y → scroll_while X Y n b r f = Ret (b, r, f).
Proof. intros Hr. destruct n; simpl; by rewrite decide_False by lia. Qed.

Lemma scroll_while_once n V :
  0 < n → length V = Y →
  scroll_while X Y n (pad <$> V) Y false = Ret (pad <$> scrolled V, Y - 1, true).
Proof.
  intros Hn HL. destruct n as [|n]; [lia|]. cbn [scroll_while]. rewrite decide_True by lia.
  rewrite shift_up_page by done. cbn [obind]. apply scroll_while_done. lia.
Qed.

(** The line has room. *)
Lemma write_plain_append t d c :
  refines t d → length d.2 < X →
  ∃ t', write_plain X Y t c = Ret t' ∧ refines t' (d.1, d.2 ++ [c]).
Proof.
  intros (Hb & Hcur & Hs & Hok) Hl.
  pose proof (doc_cursor_row_lt Y HY d) as Hrow.
  unfold write_plain, force_push_smart. rewrite Hb, Hcur.
  rewrite decide_False by (simpl; lia). rewrite scroll_while_done by done. cbn [obind].
  change (col (doc_cursor Y d)) with (length d.2). rewrite append_set_cell by done. cbn [obind andb negb].
  eexists. split; [done|]. split; [done|]. split; [by rewrite append_cursor|].
  split; [|by apply append_ok].
  eapply append_shows; [exact Hs|done|]. intros r' c' Hr' Hc'. unfold Point_of. cbn [row col backend].
  change (col (doc_cursor Y d)) with (length d.2).
  rewrite row_pixel, col_pixel by lia. by rewrite cell_draw_char by lia.
Qed.

(** The line is full: the character opens the next line. *)
Lemma write_plain_wrap t d c :
  refines t d → length d.2 = X →
  ∃ t', write_plain X Y t c = Ret t' ∧ refines t' ((doc_newline d).1, [c]).
Proof.
  intros (Hb & Hcur & Hs & Hok) Hl.
  pose proof (doc_cursor_row_lt Y HY d) as Hrow.
  pose proof (doc_rows_newline Y HY d) as HN. pose proof (doc_cursor_newline Y HY d) as HC.
  pose proof (doc_newline_ok d Hok) as Hok'.
  change ([c]) with ((doc_newline d).2 ++ [c]). set (d' := doc_newline d) in *.
  assert (Hl' : length d'.2 < X) by (simpl; lia).
  pose proof (doc_cursor_row_lt Y HY d') as Hrow'.
  unfold write_plain, force_push_smart. rewrite Hb, Hcur.
  rewrite decide_True by (simpl; lia).
  destruct (decide (doc_lines d < Y)) as [Hlt|Hge].
  - replace (row (doc_cursor Y d) + 1) with (row (doc_cursor Y d')) by (rewrite HC; simpl; lia).
    rewrite <-HN. rewrite scroll_while_done by done. cbn [obind].
    change 0 with (length d'.2) at 1. rewrite append_set_cell by done. cbn [obind andb negb].
    eexists. split; [done|]. split; [done|]. split; [by rewrite append_cursor, HC|].
    split; [|by apply append_ok].
    eapply (append_shows d' c (backend t)); [by rewrite HN|done|].
    intros r' c' Hr' Hc'. cbn [row backend].
    pose proof (doc_rows_current Y HY (d'.1, d'.2 ++ [c]) :
      doc_rows Y (d'.1, d'.2 ++ [c]) !! row (doc_cursor Y d') = Some (d'.2 ++ [c])) as Happ.
    rewrite (page_range _ _ (d'.2 ++ [c]) Happ).
    rewrite cell_redraw_row by (rewrite ?length_app; cbn [length]; lia). rewrite page_at. cbn [length app snd d' doc_newline].
    destruct (decide (r' = row (doc_cursor Y d') ∧ c' < 1)) as [[-> Hc1]|Hn].
    + replace c' with 0 by lia. rewrite decide_True by done.
      by rewrite (page_char_row _ _ (d'.2 ++ [c]) _ Happ).
    + rewrite decide_False; [done|]. intros [-> ->]. apply Hn. split; [done|lia].
  - assert (Hr1 : row (doc_cursor Y d) = Y - 1) by (unfold doc_cursor; cbn [row]; lia).
    rewrite Hr1. replace (Y - 1 + 1) with Y by lia.
    rewrite scroll_while_once by (lia || by apply doc_rows_length). cbn [obind].
    unfold scrolled. rewrite <-HN.
    replace (Y - 1) with (row (doc_cursor Y d')) by (rewrite HC; cbn [row]; lia).
    change 0 with (length d'.2) at 1. rewrite append_set_cell by done. cbn [obind andb negb].
    eexists. split; [done|]. split; [done|]. split; [by rewrite append_cursor, HC|].
    assert (Hfin : doc_ok (d'.1, d'.2 ++ [c])) by (by apply append_ok).
    split; [|done].
    apply redraw_shows. by apply doc_rows_ok.
Qed.

Lemma write_plain_refines t d c :
  refines t d → ∃ t', write_plain X Y t c = Ret t' ∧ refines t' (doc_put X d c).
Proof.
  intros Ht. unfold doc_put. destruct (Ht) as (_ & _ & _ & [_ Hl]).
  case_decide; [|by apply write_plain_append; [done|lia]].
  destruct (write_plain_wrap t d c Ht) as (t' & Hw & Hr); [lia|by exists t'].
Qed.

Lemma write_tab_refines t d :
  refines t d → ∃ t', write_tab X Y t = Ret t' ∧
    refines t' (doc_put X (doc_put X (doc_put X d SPACE) SPACE) SPACE).
Proof.
  intros Ht. unfold write_tab.
  destruct (write_plain_refines t d SPACE Ht) as (t1 & -> & H1). cbn [obind].
  destruct (write_plain_refines t1 _ SPACE H1) as (t2 & -> & H2). cbn [obind].
  exact (write_plain_refines t2 _ SPACE H2).
Qed.

Lemma newline_refines t d :
  refines t d → ∃ t', newline X Y t = Ret t' ∧ refines t' (doc_newline d).
Proof.
  intros (Hb & Hcur & Hs & Hok). unfold newline. rewrite Hb, Hcur.
  pose proof (doc_rows_newline Y HY d) as HN. pose proof (doc_cursor_newline Y HY d) as HC.
  pose proof (doc_newline_ok d Hok) as Hok'.
  assert (Hrow : row (doc_cursor Y d) = min (doc_lines d) Y - 1) by done.
  assert (0 < doc_lines d) by (unfold doc_lines; lia).
  destruct (decide (doc_lines d < Y)) as [Hlt|Hge].
  - rewrite decide_False by lia. eexists. split; [done|].
    split; [cbn [buffer]; by rewrite HN|]. split; [cbn [cursor]; rewrite HC; f_equal; lia|].
    split; [by rewrite HN|done].
  - rewrite decide_True by lia.
    destruct (shift_up_and_redraw_page (doc_rows Y d) (backend t)) as (g & Hg & Hs');
      [by apply doc_rows_ok|done|].
    rewrite Hg. cbn [obind]. eexists. split; [done|].
    split; [cbn [buffer]; by rewrite HN|]. split; [cbn [cursor]; by rewrite HC|].
    split; [by rewrite HN|done].
Qed.

(** Characters that neither erase nor clear. *)
Definition plain (c : char) : Prop := c ≠ CARRIAGE_RETURN ∧ c ≠ BACKSPACE.

Lemma write_char_refines t d c :
  plain c → refines t d → ∃ t', write_char X Y t c = Ret t' ∧ refines t' (doc_char X d c).
Proof.
  intros [Hcr Hbs] Ht. unfold write_char, doc_char.
  case_decide; [by apply newline_refines|]. case_decide; [by apply write_tab_refines|].
  rewrite !decide_False by done. by apply write_plain_refines.
Qed.

Lemma write_char_iter_refines cs t d :
  Forall plain cs → refines t d →
  ∃ t', write_char_iter X Y t cs = Ret t' ∧ refines t' (foldl (doc_char X) d cs).
Proof.
  intros Hp. revert t d. induction Hp as [|c cs Hc _ IH]; intros t d Ht; [by exists t|].
  cbn [write_char_iter foldl]. destruct (write_char_refines t d c Hc Ht) as (t1 & -> & H1).
  by apply IH.
Qed.

Lemma new_refines g :
  (∀ r c, r < Y → c < X → cell g r c = SPACE) →
  refines (BasicTermRender_new g (TermCharBuffer_new X Y)) ([], []).
Proof.
  intros Hg. unfold refines, doc_rows, doc_cursor, doc_lines. cbn [fst snd length app].
  assert (Hrows : drop (1 - Y) [[]] ++ replicate (Y - 1) [] = replicate Y ([] : list char)).
  { replace (1 - Y) with 0 by lia. rewrite drop_0. by destruct Y; [lia|rewrite Nat.sub_succ, Nat.sub_0_r]. }
  rewrite Hrows. split.
  { unfold BasicTermRender_new, TermCharBuffer_new. cbn [buffer]. by rewrite fmap_replicate, pad_nil. }
  split; [unfold BasicTermRender_new; cbn [cursor]; f_equal; lia|].
  split; [|by split; [|simpl; lia]].
  intros r c Hr Hc. rewrite Hg by done. unfold page_char. rewrite lookup_replicate_2 by done.
  symmetry. exact glyph_space.
Qed.
End Page.

(** ** Every text is accepted *)

Section Total.
Context (X Y : nat) (HX : 0 < X) (HY : 0 < Y) {G : Type} `{DrawTarget G}.

Definition dims (b : TermCharBuffer) : Prop := length b = Y ∧ Forall (λ r : Row, length r = X) b.

(** The cursor is on the page, or just behind the end of a line. *)
Definition term_wf (t : BasicTermRender (G := G)) : Prop :=
  dims (buffer t) ∧ row (cursor t) < Y ∧ col (cursor t) <= X.

Lemma dims_insert b y r : dims b → length r = X → dims (<[y := r]> b).
Proof.
  intros [HL HF] Hr. split; [by rewrite length_insert|]. by apply Forall_insert.
Qed.

Lemma dims_copy b y y' : dims b → dims (copy_row b y y').
Proof.
  intros Hb. unfold copy_row. destruct (b !! y') as [r|] eqn:Hr; [|done].
  apply dims_insert; [done|]. destruct Hb as [_ HF]. by apply (proj1 (Forall_lookup _ _) HF y').
Qed.

Lemma dims_at b y x : dims b → y < Y → x < X → ∃ o, at_cell b y x = Some o.
Proof.
  intros [HL HF] Hy Hx. unfold at_cell.
  destruct (lookup_lt_is_Some_2 b y) as [r Hr]; [lia|]. rewrite Hr. simpl.
  apply lookup_lt_is_Some_2. rewrite (proj1 (Forall_lookup _ _) HF y r Hr). done.
Qed.

Lemma clear_line_total b y : dims b → y < Y → ∃ b', clear_line X b y = Ret b' ∧ dims b'.
Proof.
  intros Hb Hy. unfold clear_line. destruct (Hb) as [HL _]. rewrite decide_True by lia.
  eexists. split; [done|]. apply dims_insert; [done|]. apply length_replicate.
Qed.

Lemma dims_foldl {A} (f : TermCharBuffer → A → TermCharBuffer) xs b :
  (∀ b x, dims b → dims (f b x)) → dims b → dims (foldl f b xs).
Proof. intros Hf. revert b. induction xs as [|x xs IH]; intros b Hb; simpl; eauto. Qed.

Lemma shift_up_total b : dims b → ∃ b', shift_up X Y b = Ret b' ∧ dims b'.
Proof.
  intros Hb. apply clear_line_total; [|lia]. apply dims_foldl; [|done].
  intros. by apply dims_copy.
Qed.

Lemma set_cell_total b y x ch :
  dims b → y < Y → x < X → ∃ b', set_cell b y x ch = Ret b' ∧ dims b'.
Proof.
  intros Hb Hy Hx. destruct (Hb) as [HL HF]. unfold set_cell.
  destruct (lookup_lt_is_Some_2 b y) as [r Hr]; [lia|]. rewrite Hr.
  pose proof (proj1 (Forall_lookup _ _) HF y r Hr) as Hlen. simpl in Hlen.
  rewrite decide_True by lia. eexists. split; [done|].
  apply dims_insert; [done|]. by rewrite length_insert.
Qed.

Lemma scroll_while_total n b r f :
  dims b → r <= n → ∃ b' f', scroll_while X Y n b r f = Ret (b', min r (Y - 1), f') ∧ dims b'.
Proof.
  revert b r f. induction n as [|n IH]; intros b r f Hb Hr; cbn [scroll_while].
  - rewrite decide_False by lia. exists b, f. split; [|done]. by replace (min r (Y - 1)) with r by lia.
  - case_decide as Hge.
    + destruct (shift_up_total b Hb) as (b1 & -> & Hb1). cbn [obind].
      destruct (IH b1 (r - 1) true Hb1) as (b2 & f2 & -> & Hb2); [lia|].
      exists b2, f2. split; [|done]. by replace (min (r - 1) (Y - 1)) with (min r (Y - 1)) by lia.
    + exists b, f. split; [|done]. by replace (min r (Y - 1)) with r by lia.
Qed.

Lemma write_plain_total t c : term_wf t → ∃ t', write_plain X Y t c = Ret t' ∧ term_wf t'.
Proof.
  intros (Hb & Hr & Hc). unfold write_plain, force_push_smart.
  set (p := if decide (X <= col (cursor t)) then (row (cursor t) + 1, 0, true)
            else (row (cursor t), col (cursor t), false)).
  assert (Hp : p.1.2 < X) by (unfold p; case_decide; simpl; lia).
  destruct p as [[r k] f]. simpl in Hp.
  destruct (scroll_while_total r (buffer t) r false Hb) as (b1 & f1 & -> & Hb1); [lia|]. cbn [obind].
  destruct (set_cell_total b1 (min r (Y - 1)) k c Hb1) as (b2 & -> & Hb2); [lia|done|]. cbn [obind].
  eexists. split; [done|].
  destruct (f && negb f1); [|destruct f1]; repeat split; simpl; try apply Hb2; lia.
Qed.

Lemma write_tab_total t : term_wf t → ∃ t', write_tab X Y t = Ret t' ∧ term_wf t'.
Proof.
  intros Ht. unfold write_tab.
  destruct (write_plain_total t SPACE Ht) as (t1 & -> & H1). cbn [obind].
  destruct (write_plain_total t1 SPACE H1) as (t2 & -> & H2). by apply write_plain_total.
Qed.

Lemma shift_up_and_redraw_total b (g : G) :
  dims b → ∃ b' g', shift_up_and_redraw X Y b g = Ret (b', g') ∧ dims b'.
Proof.
  intros Hb. unfold shift_up_and_redraw.
  assert (Hf : ∀ xs b g, dims b → dims (foldl scroll_body (b, g) xs).1).
  { induction xs as [|x xs IH]; intros b0 g0 Hb0; [done|]. cbn [foldl scroll_body].
    apply IH. by apply dims_copy. }
  specialize (Hf (seq 0 (Y - 1)) b g Hb). unfold scroll_body in Hf.
  destruct (foldl _ (b, g) (seq 0 (Y - 1))) as [b1 g1].
  destruct (clear_line_total b1 (Y - 1) Hf) as (b2 & -> & Hb2); [lia|]. by eexists _, _.
Qed.

Lemma newline_total t : term_wf t → ∃ t', newline X Y t = Ret t' ∧ term_wf t'.
Proof.
  intros (Hb & Hr & Hc). unfold newline. case_decide.
  - destruct (shift_up_and_redraw_total (buffer t) (backend t) Hb) as (b & g & -> & Hb').
    eexists. split; [done|]. repeat split; simpl; try apply Hb'; lia.
  - eexists. split; [done|]. repeat split; simpl; try apply Hb; lia.
Qed.

(** The backspace loop walks to the previous used cell or to the origin. *)
Lemma clear_one_loop_total n b p :
  dims b → row p < Y → col p <= X → row p * X + col p < n →
  ∃ p', clear_one_loop X Y n b p = Ret p' ∧ row p' < Y ∧ col p' <= X.
Proof.
  intros Hb. revert p. induction n as [|n IH]; intros p Hr Hc Hn; [lia|].
  cbn [clear_one_loop].
  assert (Hgo : ∀ q, row q < Y → col q < X → row q * X + col q < n →
    ∃ p', (let! o := TermCharBuffer_get X Y b q in
           match o with
           | Err _ => Panic | Ok (Some _) => Ret q | Ok None => clear_one_loop X Y n b q
           end) = Ret p' ∧ row p' < Y ∧ col p' <= X).
  { intros q Hq1 Hq2 Hqn. unfold TermCharBuffer_get, in_bounds.
    rewrite !bool_decide_eq_true_2 by done. cbn [andb].
    destruct (dims_at b (row q) (col q) Hb Hq1 Hq2) as [[ch|] ->]; cbn [obind].
    - exists q. split; [done|lia].
    - apply IH; lia. }
  case_decide; [|case_decide]; [apply Hgo; simpl; lia| |by exists p].
  apply Hgo; simpl; nia.
Qed.

Lemma clear_one_total t : term_wf t → ∃ t', clear_one X Y t = Ret t' ∧ term_wf t'.
Proof.
  intros (Hb & Hr & Hc). unfold clear_one.
  destruct (clear_one_loop_total (clear_one_fuel X (cursor t)) (buffer t) (cursor t))
    as (p & -> & Hp1 & Hp2); [done..|unfold clear_one_fuel; lia|].
  eexists. split; [done|]. by split.
Qed.

Lemma line_clear_total t : term_wf t → ∃ t', line_clear X t = Ret t' ∧ term_wf t'.
Proof.
  intros (Hb & Hr & Hc). unfold line_clear.
  destruct (clear_line_total (buffer t) (row (cursor t)) Hb Hr) as (b & -> & Hb').
  eexists. split; [done|]. by split.
Qed.

Lemma write_char_total t c : term_wf t → ∃ t', write_char X Y t c = Ret t' ∧ term_wf t'.
Proof.
  intros Ht. unfold write_char.
  repeat case_decide; eauto using newline_total, write_tab_total, line_clear_total,
    clear_one_total, write_plain_total.
Qed.

(** C38: whatever text is written, control characters included, the terminal
    finishes (the scrolling and the backspace loops end), never indexes its
    buffer out of range, and keeps the cursor on the page. *)
Theorem terminal_total cs t :
  term_wf t → ∃ t', write_char_iter X Y t cs = Ret t' ∧ term_wf t'.
Proof.
  revert t. induction cs as [|c cs IH]; intros t Ht; [by exists t|].
  cbn [write_char_iter]. destruct (write_char_total t c Ht) as (t1 & -> & H1). by apply IH.
Qed.

End Total.

(** C9: for text without carriage returns and backspaces, the terminal shows
    the last [Y] lines of the text wrapped at [X] columns: its buffer and its
    cursor are those of the reference document, and every cell on the screen
    has the glyph of the document's character there, which for printable ASCII
    is the character itself, although the code redraws only the parts it
    believes changed.  The backend and its font are any that satisfy
    [CellLaws]. *)
Theorem terminal_refines_document X Y `{CellLaws X Y G} (g : G) cs :
  0 < X → 0 < Y → (Z.of_nat X * CHAR_WIDTH < 2 ^ 31)%Z → (Z.of_nat Y * CHAR_HEIGHT < 2 ^ 31)%Z →
  (∀ r c, r < Y → c < X → cell g r c = SPACE) →
  Forall plain cs →
  let d := foldl (doc_char X) ([], []) cs in
  ∃ t, write_char_iter X Y (BasicTermRender_new g (TermCharBuffer_new X Y)) cs = Ret t ∧
    cursor t = doc_cursor Y d ∧
    buffer t = pad X <$> doc_rows Y d ∧
    (∀ r c, r < Y → c < X →
       let ch := page_char (doc_rows Y d) r c in
       cell (backend t) r c = glyph ch ∧ (printable ch → cell (backend t) r c = ch)).
Proof.
  intros HX HY HXi HYi Hg Hcs.
  destruct (write_char_iter_refines X Y HX HY HXi HYi cs
              (BasicTermRender_new g (TermCharBuffer_new X Y)) ([], []) Hcs)
    as (t & Ht & Hb & Hc & Hs & _); [by eapply new_refines|].
  exists t. split; [done|]. split; [done|]. split; [done|]. intros r c Hr Hc' ch.
  assert (E : cell (backend t) r c = glyph ch) by (by apply Hs).
  split; [done|]. intros Hp. rewrite E. by apply (glyph_printable (X := X) (Y := Y) (G := G)).
Qed.

(** A font with the printable characters and a question mark for the rest. *)
#[export] Instance ascii_font : Font :=
  λ c, if decide (32 <= c <= 126)%Z then c else 63%Z.

(** A backend that is a grid of characters. *)
Definition Grid : Type := nat → nat → char.

#[export] Instance Grid_target : DrawTarget Grid := {
  bounding_width := λ _, 1280%Z;
  fill_solid := λ p s g r c,
    if decide (p.2 <= Z.of_nat r * CHAR_HEIGHT < p.2 + s.2 ∧
               p.1 <= Z.of_nat c * CHAR_WIDTH < p.1 + s.1)%Z
    then SPACE else g r c;
  draw_char := λ ch p g r c,
    if decide (Z.of_nat r * CHAR_HEIGHT = p.2 ∧ Z.of_nat c * CHAR_WIDTH = p.1)%Z then glyph ch else g r c;
  gfx_clear := λ _ _ _, SPACE
}.

#[export] Instance Grid_view : CellView Grid := λ g, g.

Lemma Grid_laws X Y : X <= 128 → CellLaws X Y Grid.
Proof.
  intros HX. constructor; unfold cell, Grid_view; simpl; unfold CHAR_HEIGHT, CHAR_WIDTH; try done.
  - intros c Hc. unfold glyph, ascii_font. by rewrite decide_True.
  - intros. lia.
  - intros. repeat case_decide; try lia; done.
  - intros. case_decide; [done|lia].
  - intros. case_decide; [lia|done].
Qed.

#[export] Instance Grid_laws_3_2 : CellLaws 3 2 Grid.
Proof. apply Grid_laws. lia. Qed.

Definition blank_grid : Grid := λ _ _, SPACE.

(** Three columns, two rows: "ab", a newline, "cdef" wraps and scrolls; then a
    character the font does not have. *)
Definition sample_text : list char := [97; 98; NEWLINE; 99; 100; 101; 102; 228]%Z.

Lemma terminal_refines_document_witness :
  ∃ t, write_char_iter 3 2 (BasicTermRender_new blank_grid (TermCharBuffer_new 3 2)) sample_text = Ret t ∧
    cursor t = mkPos 1 2 ∧
    (∀ r c, r < 2 → c < 3 → cell (backend t) r c = page_char [[99; 100; 101]; [102; 63]]%Z r c).
Proof.
  destruct (terminal_refines_document 3 2 blank_grid sample_text) as (t & Ht & Hc & _ & Hs).
  - lia.
  - lia.
  - unfold CHAR_WIDTH. lia.
  - unfold CHAR_HEIGHT. lia.
  - reflexivity.
  - repeat constructor; done.
  - exists t. split; [exact Ht|]. split; [exact Hc|]. intros r c Hr Hc'.
    destruct (Hs r c Hr Hc') as [-> _].
    assert (Hrc : (r = 0 ∨ r = 1) ∧ (c = 0 ∨ c = 1 ∨ c = 2)) by lia.
    destruct Hrc as [[-> | ->] [-> |[-> | ->]]]; vm_compute; reflexivity.
Defined.

Lemma terminal_total_witness :
  ∃ t, write_char_iter MAX_CHARS_X MAX_CHARS_Y
         (BasicTermRender_new blank_grid (TermCharBuffer_new MAX_CHARS_X MAX_CHARS_Y))
         [97; BACKSPACE; BACKSPACE; TAB; CARRIAGE_RETURN; NEWLINE; BACKSPACE]%Z = Ret t ∧
       term_wf MAX_CHARS_X MAX_CHARS_Y t.
Proof.
  apply (terminal_total MAX_CHARS_X MAX_CHARS_Y).
  - unfold MAX_CHARS_X. lia.
  - unfold MAX_CHARS_Y. lia.
  - split; [split|split]; simpl; [reflexivity| |unfold MAX_CHARS_Y; lia|lia].
    by repeat constructor.
Defined.

Lemma appended_at X Y (HY : 0 < Y) (d : Doc) ch :
  length d.2 < X →
  at_cell (pad X <$> doc_rows Y (d.1, d.2 ++ [ch])) (row (doc_cursor Y d)) (length d.2) = Some (Some ch).
Proof.
  intros Hl. unfold at_cell. rewrite list_lookup_fmap.
  rewrite (doc_rows_current Y HY (d.1, d.2 ++ [ch]) :
    doc_rows Y (d.1, d.2 ++ [ch]) !! row (doc_cursor Y d) = Some (d.2 ++ [ch])).
  cbn [fmap option_fmap option_map mbind option_bind]. unfold pad.
  rewrite lookup_app_l by (rewrite length_fmap, length_app; simpl; lia).
  by rewrite list_lookup_fmap, list_lookup_middle.
Qed.

(** A backspace right behind a character stops at it. *)
Lemma clear_one_loop_back X Y n b p ch :
  row p < Y → col p < X → at_cell b (row p) (col p) = Some (Some ch) →
  clear_one_loop X Y (S n) b (cursor_advance p) = Ret p.
Proof.
  intros Hr Hc Hat. destruct p as [r c]. cbn [clear_one_loop cursor_advance row col] in *.
  rewrite decide_True by lia. rewrite Nat.add_sub. unfold TermCharBuffer_get, in_bounds.
  cbn [row col]. rewrite !bool_decide_eq_true_2 by done. cbn [andb]. by rewrite Hat.
Qed.

(** A backspace blanks the cell on the screen and steps the cursor back,
    but leaves the character in the buffer: screen and buffer disagree, and
    the next full redraw paints the deleted character again. *)
Lemma backspace_keeps_buffer X Y `{CellLaws X Y G} (t : BasicTermRender (G := G)) d ch :
  0 < Y → (Z.of_nat X * CHAR_WIDTH < 2 ^ 31)%Z → (Z.of_nat Y * CHAR_HEIGHT < 2 ^ 31)%Z →
  refines X Y t d → length d.2 < X → plain ch → ch ≠ NEWLINE → ch ≠ TAB → ch ≠ SPACE →
  ∃ t', write_char_iter X Y t [ch; BACKSPACE] = Ret t' ∧
    cursor t' = cursor t ∧
    at_cell (buffer t') (row (cursor t')) (col (cursor t')) = Some (Some ch) ∧
    cell (backend t') (row (cursor t')) (col (cursor t')) = SPACE ∧
    cell (redraw Y (buffer t') (backend t')) (row (cursor t')) (col (cursor t')) = glyph ch.
Proof.
  intros HY HXi HYi Ht Hl [Hcr Hbs] Hnl Htab Hsp. destruct (Ht) as (_ & Hcur & _).
  assert (HX : 0 < X) by lia.
  assert (Hw : write_char X Y t ch = write_plain X Y t ch)
    by (unfold write_char; by rewrite !decide_False by done).
  cbn [write_char_iter]. rewrite Hw.
  destruct (write_plain_append X Y HX HY HXi HYi t d ch Ht Hl) as (t1 & -> & Hb1 & Hc1 & Hs1 & Hok1).
  cbn [obind]. change (write_char X Y t1 BACKSPACE) with (clear_one X Y t1).
  pose proof (appended_at X Y HY d ch Hl) as Hat.
  pose proof (doc_cursor_row_lt Y HY d) as Hrow.
  unfold clear_one, clear_one_fuel. rewrite Hc1, append_cursor, (clear_one_loop_back X Y _ _ _ ch);
    [|done|done|by rewrite Hb1].
  cbn [obind]. eexists. split; [done|]. cbn [cursor buffer backend]. split; [done|].
  rewrite Hb1. split; [done|]. split.
  - unfold Point_of. change (col (doc_cursor Y d)) with (length d.2).
    rewrite (col_pixel X Y), (row_pixel X Y) by (done || lia).
    eapply cell_fill_in; [lia|lia|]. unfold CHAR_WIDTH. lia.
  - assert (Hall : shows X Y (redraw Y (pad X <$> doc_rows Y (d.1, d.2 ++ [ch]))
      (fill_solid (Point_of (doc_cursor Y d)) (CHAR_WIDTH, CHAR_HEIGHT) (backend t1)))
      (doc_rows Y (d.1, d.2 ++ [ch]))) by (apply redraw_shows; [done..|by apply doc_rows_ok]).
    rewrite Hall by done. rewrite <-(page_at X Y) by done. change (col (doc_cursor Y d)) with (length d.2). by rewrite Hat.
Qed.

Lemma backspace_keeps_buffer_witness :
  ∃ t' : BasicTermRender (G := Grid),
    write_char_iter 3 2 (BasicTermRender_new blank_grid (TermCharBuffer_new 3 2)) [97%Z; BACKSPACE] = Ret t' ∧
    cell (backend t') 0 0 = SPACE ∧ cell (redraw 2 (buffer t') (backend t')) 0 0 = 97%Z.
Proof.
  destruct (backspace_keeps_buffer 3 2 (BasicTermRender_new blank_grid (TermCharBuffer_new 3 2))
              ([], []) 97%Z) as (t' & Ht & Hc & _ & H1 & H2).
  - lia.
  - unfold CHAR_WIDTH. lia.
  - unfold CHAR_HEIGHT. lia.
  - eapply new_refines; first [lia|apply Grid_laws_3_2|unfold CHAR_WIDTH, CHAR_HEIGHT; lia|reflexivity].
  - simpl. lia.
  - split; done.
  - done.
  - done.
  - done.
  - rewrite Hc in H1, H2. exists t'. done.
Defined.
