(* ===== verification/Syscalls.v ===== *)
(** System calls: kernel/src/kernel/abi/syscalls/{mod,utils,funcs}.rs, the
    register context (kernel/src/arch/x86/context/mod.rs) and the descriptor
    table of a process (kernel/src/kernel/threading/task.rs).

    User memory is a total function from addresses to bytes.  A [FileHandle]
    is an [Arc<File>]: handles are pointers to shared files, so descriptors
    made by [dup] share one cursor. *)
From S2P Require Import Prelude Abi Path Io Fd RamFile FsRepr RamFS VFS Tasks.
Open Scope Z_scope.

(** ** Register context *)

Record SysCallCtx : Set := mkCtx {
  rax : Z; rdi : Z; rsi : Z; rdx : Z; r10 : Z; r9 : Z; r8 : Z;
  rbx : Z; rcx : Z; r11 : Z; rbp : Z
}.

Definition ret (self : SysCallCtx) (val : Z) : SysCallCtx :=
  mkCtx val (rdi self) (rsi self) (rdx self) (r10 self) (r9 self) (r8 self)
    (rbx self) (rcx self) (r11 self) (rbp self).
Definition num (self : SysCallCtx) : Z := rax self.
Definition first (self : SysCallCtx) : Z := rdi self.
Definition second (self : SysCallCtx) : Z := rsi self.
Definition third (self : SysCallCtx) : Z := rdx self.
Definition fourth (self : SysCallCtx) : Z := r10 self.
Definition fifth (self : SysCallCtx) : Z := r9 self.
Definition sixth (self : SysCallCtx) : Z := r8 self.
Definition ret2 (self : SysCallCtx) (val : Z) : SysCallCtx :=
  mkCtx (rax self) (rdi self) (rsi self) val (r10 self) (r9 self) (r8 self)
    (rbx self) (rcx self) (r11 self) (rbp self).

(** ** Kernel state *)

Abbreviation FDMap := (gmap Z ptr).

Record Kernel : Type := mkKernel {
  k_tm : TaskManager;
  k_fs : World;
  k_mem : Z → u8;
  k_fds : gmap Z FDMap;
  k_handles : gmap ptr (File Repr);
  k_next : ptr;
  k_millis : Z
}.

Definition set_tm (k : Kernel) (m : TaskManager) : Kernel :=
  mkKernel m (k_fs k) (k_mem k) (k_fds k) (k_handles k) (k_next k) (k_millis k).
Definition set_fs (k : Kernel) (w : World) : Kernel :=
  mkKernel (k_tm k) w (k_mem k) (k_fds k) (k_handles k) (k_next k) (k_millis k).
Definition set_mem (k : Kernel) (mem : Z → u8) : Kernel :=
  mkKernel (k_tm k) (k_fs k) mem (k_fds k) (k_handles k) (k_next k) (k_millis k).
Definition set_fds (k : Kernel) (f : gmap Z FDMap) : Kernel :=
  mkKernel (k_tm k) (k_fs k) (k_mem k) f (k_handles k) (k_next k) (k_millis k).
Definition set_handles (k : Kernel) (h : gmap ptr (File Repr)) : Kernel :=
  mkKernel (k_tm k) (k_fs k) (k_mem k) (k_fds k) h (k_next k) (k_millis k).

(** ** The descriptor table of a process (task.rs) *)

Definition fd_get (t : FDMap) (descriptor : Z) : option ptr := t !! descriptor.

Definition add_fd (t : FDMap) (descriptor : Z) (f : ptr) : FDMap * option ptr :=
  (<[descriptor := f]> t, t !! descriptor).

Definition remove_fd (t : FDMap) (descriptor : Z) : FDMap * option ptr :=
  (delete descriptor t, t !! descriptor).

(** [last_key_value]: the greatest key. *)
Definition last_key (t : FDMap) : option Z :=
  match (map_to_list t).*1 with
  | [] => None
  | k :: ks => Some (foldr Z.max k ks)
  end.

(** [next_fd]: the sum is a [u32]. *)
Definition next_fd (prof : Profile) (t : FDMap) : Outcome Z :=
  match last_key t with
  | None => Ret 0
  | Some k =>
      if decide (k + 1 ≤ U32_MAX) then Ret (k + 1)
      else match prof with Dev => Panic | Release => Ret (wrap 32 (k + 1)) end
  end.

Definition add_next_file (prof : Profile) (t : FDMap) (f : ptr) : Outcome (FDMap * Z) :=
  let! fd := next_fd prof t in
  Ret (fst (add_fd t fd f), fd).

(** ** utils.rs *)

(** [valid_ptr::<T>]: [size] is [size_of::<T>()], [hhdm] the start of the
    kernel half; the sum is evaluated only if the first two tests pass. *)
Definition valid_ptr (prof : Profile) (hhdm : Z) (base len size : Z) : Outcome bool :=
  if base =? 0 then Ret false
  else if negb (base <? hhdm) then Ret false
  else
    let! bytes := umul prof len size in
    let! stop := uadd prof base bytes in
    Ret (stop <? hhdm).

(** ** Values in user memory *)

(** [u32] in memory, least byte first. *)
Definition le32 (z : Z) : list u8 :=
  map (λ i, byte (Z.to_nat (Z.land (Z.shiftr z (8 * i)) 255))) [0; 1; 2; 3].

Definition le64 (z : Z) : list u8 := le32 z ++ le32 (Z.shiftr z 32).

(** [FStat] is [repr(C)]: three words and two bytes; the padding is left. *)
Definition fstat_bytes (s : FStat) : list u8 :=
  le64 (t_create s) ++ le64 (t_mod s) ++ le64 (size s) ++
  [byte (Z.to_nat (permissions s)); byte (Z.to_nat (node_type s))].

(** The calls that work on more than the state of this file: they are modelled
    in Mmap.v, TaskBuild.v, WaitCalls.v and PipeCall.v, each on the state it
    needs.  [c_read] is [read] after its fast path, [c_gone] the last yield
    of a thread that exits, [c_pt_mask] the flags the page-table library
    knows. *)
Record OtherCalls : Type := mkOther {
  c_read : Z → Z → Z → Z → M Kernel SysErrCode Z;
  c_yield : M Kernel SysErrCode unit;
  c_gone : M Kernel SysErrCode Z;
  c_mmap : Z → Z → Z → Z → M Kernel SysErrCode Z;
  c_munmap : Z → Z → M Kernel SysErrCode unit;
  c_waittime : Z → M Kernel SysErrCode unit;
  c_spawn : Z → Z → M Kernel SysErrCode unit;
  c_serial_print : list u8 → M Kernel SysErrCode unit;
  c_thread_create : Z → Z → M Kernel SysErrCode Z;
  c_thread_join : Z → Z → Z → Z → M Kernel SysErrCode Z;
  c_wait_pid : Z → Z → Z → Z → M Kernel SysErrCode Z;
  c_pipe : Z → Z → M Kernel SysErrCode unit;
  c_spawn_process : Z → Z → Z → Z → Z → M Kernel SysErrCode Z;
  c_pt_mask : Z
}.

(** ** funcs.rs *)

Section calls.
Context {prof : Profile} (hhdm : Z).

Abbreviation Sys := (M Kernel SysErrCode).

(** The checks every call with a user buffer starts with. *)
Definition check_ptr (base len size : Z) : Sys unit :=
  λ k, let! ok := valid_ptr prof hhdm base len size in
       if ok then mok tt k else merr AddrNotValid k.

(** [slice::from_raw_parts] on user memory. *)
Definition user_bytes (base len : Z) : Sys (list u8) :=
  λ k, Ret (k, Ok (map (λ i, k_mem k (base + Z.of_nat i)) (seq 0 (Z.to_nat len)))).

Definition mem_write (mem : Z → u8) (base : Z) (bytes : list u8) : Z → u8 :=
  λ a, match (if decide (base ≤ a) then bytes !! Z.to_nat (a - base) else None) with
       | Some b => b
       | None => mem a
       end.

(** Run a file-system operation; errors become system-call codes. *)
Definition fs_call {A} (m : M World FSError A) : Sys A :=
  λ k, let! r := m (k_fs k) in
       let k := set_fs k (fst r) in
       Ret (k, match snd r with Ok a => Ok a | Err e => Err (FSError_into e) end).

(** [task_data().current_thread().ok_or(NoProcess)]. *)
Definition current_or_err : Sys Task :=
  λ k, Ret (k, ok_or NoProcess (current_thread (k_tm k))).

Definition core_of (t : Task) : Z := deref (t_core t).

Definition fd_table (k : Kernel) (t : Task) : FDMap := default ∅ (k_fds k !! core_of t).

Definition put_fd_table (t : Task) (m : FDMap) : Sys unit :=
  λ k, Ret (set_fds k (<[core_of t := m]> (k_fds k)), Ok tt).

(** [current.fd(fd).ok_or(BadFd)]. *)
Definition handle_or_err (t : Task) (fd : Z) : Sys ptr :=
  λ k, Ret (k, ok_or BadFd (fd_get (fd_table k t) fd)).

(** [Arc::new(file)]. *)
Definition new_handle (f : File Repr) : Sys ptr :=
  λ k, Ret (mkKernel (k_tm k) (k_fs k) (k_mem k) (k_fds k) (<[k_next k := f]> (k_handles k))
              (Pos.succ (k_next k)) (k_millis k), Ok (k_next k)).

Definition get_handle (h : ptr) : Sys (File Repr) :=
  λ k, match k_handles k !! h with Some f => Ret (k, Ok f) | None => Panic end.

Definition put_handle (h : ptr) (f : File Repr) : Sys unit :=
  λ k, Ret (set_handles k (<[h := f]> (k_handles k)), Ok tt).

Definition sys_open (path len flags : Z) : Sys Z :=
  let? _ := check_ptr path len 1 in
  let? p := user_bytes path len in
  let? f := fs_call (VFS.open p flags) in
  let? t := current_or_err in
  let? h := new_handle f in
  λ k, let! r := add_next_file prof (fd_table k t) h in
       (let? _ := put_fd_table t (fst r) in mok (snd r)) k.

Definition sys_close (fd : Z) : Sys unit :=
  let? t := current_or_err in
  λ k, let '(m, old) := remove_fd (fd_table k t) fd in
       (let? _ := put_fd_table t m in
        let? _ := mlift (ok_or BadFd old) in mok tt) k.

(** The fast path of [read]: [None] when the call goes on to wait.  The user
    buffer is the buffer of the file read. *)
Definition sys_read_fast (fd buf len timeout : Z) : Sys (option Z) :=
  let? _ := check_ptr buf len 1 in
  let? t := current_or_err in
  let? h := handle_or_err t fd in
  let? file := get_handle h in
  let? at_end := fs_call (is_at_end file) in
  if at_end : bool then mok (Some 0)
  else
    let? b := user_bytes buf len in
    λ k, let! r := read_continuous ((k_fs k, file), b) in
         let '(((w, file'), b'), res) := r in
         let k := set_handles (set_fs (set_mem k (mem_write (k_mem k) buf b')) w)
                    (<[h := file']> (k_handles k)) in
         match res with
         | Err e => Ret (k, Err (FSError_into e))
         | Ok n =>
             if decide (0 < n ∨ timeout = 0) then Ret (k, Ok (Some n))
             else Ret (k, Ok None)
         end.

Definition sys_write (fd buf len : Z) : Sys Z :=
  let? _ := check_ptr buf len 1 in
  let? b := user_bytes buf len in
  let? t := current_or_err in
  let? h := handle_or_err t fd in
  let? file := get_handle h in
  λ k, let! r := write_continuous b (k_fs k, file) in
       let '((w, file'), res) := r in
       let k := set_handles (set_fs k w) (<[h := file']> (k_handles k)) in
       Ret (k, match res with Ok n => Ok n | Err e => Err (FSError_into e) end).

Definition sys_seek (fd offset : Z) : Sys unit :=
  let? t := current_or_err in
  let? h := handle_or_err t fd in
  let? file := get_handle h in
  put_handle h (set_cursor file offset).

(** [dup]: a negative [new_fd] asks for the next free descriptor. *)
Definition sys_dup (old_fd new_fd : Z) : Sys Z :=
  let? t := current_or_err in
  λ k, let! fd := (if decide (0 ≤ new_fd) then Ret new_fd else next_fd prof (fd_table k t)) in
       (let? old := handle_or_err t old_fd in
        let? _ := put_fd_table t (fst (add_fd (fd_table k t) fd old)) in
        mok fd) k.

(** [exit] and [thread_exit] up to the final yield. *)
Definition sys_exit (status : Z) : Sys unit :=
  λ k,
    let m := post_event (k_tm k) (QThread (current_tid (k_tm k))) EXIT in
    Ret (set_tm k (fst (Tasks.kill m (current_tid m) 0)), Ok tt).

Definition sys_kill (pid signal : Z) : Sys unit :=
  λ k, let '(m, r) := kill_process (k_tm k) pid in
       Ret (set_tm k m, match r with Some _ => Ok tt | None => Err NoProcess end).

Definition sys_eventfd : Sys Z := mpanic.

Definition sys_get_pid : Sys Z := let? t := current_or_err in mok (t_pid t).

Definition sys_fork : Sys Z := merr OpDenied.

Definition sys_execve : Sys Z := merr OpDenied.

Definition sys_thread_cancel (id : Z) : Sys Z :=
  λ k, let '(m, r) := Tasks.kill (k_tm k) id 0 in
       let m := post_event m (QThread id) EXIT in
       Ret (set_tm k m, match r with Some _ => Ok 0 | None => Err NoProcess end).

Definition sys_get_tid : Sys Z := let? t := current_or_err in mok (tid t).

Definition sys_time : Sys Z := λ k, Ret (k, Ok (wrap64 (k_millis k))).

Definition sys_get_pgrid : Sys Z := let? t := current_or_err in mok (t_pgrid t).

Definition sys_fstat (fd buf : Z) : Sys unit :=
  let? _ := check_ptr buf 1 32 in
  let? t := current_or_err in
  let? h := handle_or_err t fd in
  let? file := get_handle h in
  let? st := fs_call (File_fstat file) in
  λ k, Ret (set_mem k (mem_write (k_mem k) buf (fstat_bytes st)), Ok tt).

Definition sys_set_perm (fd perms strategy : Z) : Sys unit :=
  let? s := mlift (match PermUpdateStrategy_try_from strategy with
                   | Ok s => Ok s
                   | Err _ => Err InvalidArg
                   end) in
  let? t := current_or_err in
  let? h := handle_or_err t fd in
  let? file := get_handle h in
  fs_call (File_update_perms file perms s).

(** ** mod.rs: dispatch

    Every argument is cut to the width and the flags its call takes. *)
Context (rest : OtherCalls).

(** [serial]: the bytes are not checked to be a string. *)
Definition sys_serial (buf len : Z) : Sys unit :=
  let? _ := check_ptr buf len 1 in
  let? bytes := user_bytes buf len in
  c_serial_print rest bytes.

Definition as_u32 (z : Z) : Z := wrap 32 z.
Definition as_u16 (z : Z) : Z := wrap 16 z.
Definition as_i64 (z : Z) : Z := if z <? 2 ^ 63 then z else z - 2 ^ 64.
Definition as_i32 (z : Z) : Z := let u := wrap 32 z in if u <? 2 ^ 31 then u else u - 2 ^ 32.

Definition WaitOptions_all : Z := WaitOptions_NOBLOCK.
Definition TaskWaitOptions_all : Z :=
  Z.lor (Z.lor TaskWaitOptions_W_EXIT TaskWaitOptions_W_WAKEUP) TaskWaitOptions_W_BLOCK.

Definition wait_flags (z : Z) : Z := from_bits_truncate WaitOptions_all (as_u16 z).
Definition task_wait_flags (z : Z) : Z := from_bits_truncate TaskWaitOptions_all (as_u16 z).

Definition dispatch_call (d : SysCallDispatch) (a : SysCallCtx) : Sys Z :=
  match d with
  | Open => sys_open (first a) (second a)
              (from_bits_truncate OpenOptions_all (as_u32 (third a)))
  | Close => let? _ := sys_close (as_u32 (first a)) in mok 0
  | Read =>
      let? r := sys_read_fast (as_u32 (first a)) (second a) (third a) (as_i64 (fourth a)) in
      match r with
      | Some n => mok n
      | None => c_read rest (as_u32 (first a)) (second a) (third a) (as_i64 (fourth a))
      end
  | Write => sys_write (as_u32 (first a)) (second a) (third a)
  | Yield => let? _ := c_yield rest in mok 0
  | Exit => let? _ := sys_exit (as_i64 (first a)) in c_gone rest
  | Kill => let? _ := sys_kill (first a) (as_i64 (second a)) in mok 0
  | Mmap => c_mmap rest (first a) (second a) (from_bits_truncate (c_pt_mask rest) (third a)) (as_i32 (fourth a))
  | Munmap => let? _ := c_munmap rest (first a) (second a) in mok 0
  | Fork => sys_fork
  | WaitTime => let? _ := c_waittime rest (first a) in mok 0
  | GetPID => sys_get_pid
  | Seek => let? _ := sys_seek (as_u32 (first a)) (second a) in mok 0
  | Dup => sys_dup (as_u32 (first a)) (as_i32 (second a))
  | Spawn => let? _ := c_spawn rest (first a) (second a) in mok 0
  | Dbg => let? _ := sys_serial (first a) (second a) in mok 0
  | Execve => sys_execve
  | ThreadCreate => c_thread_create rest (first a) (second a)
  | ThreadExit => let? _ := sys_exit 0 in c_gone rest
  | ThreadCancel => sys_thread_cancel (first a)
  | ThreadJoin => c_thread_join rest (first a) (as_i64 (second a)) (wait_flags (third a)) (task_wait_flags (fourth a))
  | WaitPID => c_wait_pid rest (first a) (as_i64 (second a)) (wait_flags (third a)) (task_wait_flags (fourth a))
  | EventFD => sys_eventfd
  | Time => sys_time
  | GetTID => sys_get_tid
  | GetPgrID => sys_get_pgrid
  | Pipe => let? _ := c_pipe rest (first a) (as_i64 (second a)) in mok 0
  | SpawnProcess => c_spawn_process rest (first a) (second a) (third a) (fourth a) (fifth a)
  | FStatCall => let? _ := sys_fstat (as_u32 (first a)) (second a) in mok 0
  | SetPerm =>
      let? _ := sys_set_perm (as_u32 (first a))
                  (from_bits_truncate NodePermissions_all (wrap 8 (second a))) (third a) in
      mok 0
  end.

(** [syscall_handler]; the outer [None] is the undefined behaviour of the
    [transmute]. *)
Definition syscall_handler (a : SysCallCtx) (k : Kernel) : option (Outcome (Kernel * SysCallCtx)) :=
  let dispatch := num a in
  if MAX_SYSCALL <? dispatch then Some (Ret (k, ret a (SysErrCode_discr BadRqstD)))
  else
    d ← transmute all_SysCallDispatch SysCallDispatch_discr dispatch;
    Some (let! r := dispatch_call d a k in
          Ret (fst r, match snd r with
                      | Err e => ret2 a (SysErrCode_discr e)
                      | Ok v => ret2 (ret a v) (SysErrCode_discr NoErr)
                      end)).

End calls.

(** ** Memory *)

Lemma mem_write_at mem base bytes i b :
  bytes !! i = Some b → mem_write mem base bytes (base + Z.of_nat i) = b.
Proof.
  intros Hb. unfold mem_write. rewrite decide_True by lia.
  replace (Z.to_nat (base + Z.of_nat i - base)) with i by lia. by rewrite Hb.
Qed.

Lemma mem_write_out mem base bytes a :
  a < base ∨ base + zlen bytes <= a → mem_write mem base bytes a = mem a.
Proof.
  intros Ha. unfold mem_write. case_decide; [|done].
  rewrite lookup_ge_None_2; [done|]. unfold zlen in Ha. lia.
Qed.

(** ** Checking user pointers *)





(** ** Dispatch and registers *)

Lemma transmute_dispatch d :
  transmute all_SysCallDispatch SysCallDispatch_discr (SysCallDispatch_discr d) = Some d.
Proof. by destruct d. Qed.

Section handler.
Context {prof : Profile} (hhdm : Z) (rest : OtherCalls).

(** The handler is undefined for exactly one call number, 11: it passes
    the range check but no variant has it. *)
Lemma syscall_number_11_undefined a k :
  0 ≤ num a → (syscall_handler hhdm rest a k = None ↔ num a = 11).
Proof.
  intros Hn. unfold syscall_handler, MAX_SYSCALL.
  destruct (Z.ltb_spec 30 (num a)); [split; [done|lia]|].
  destruct (transmute all_SysCallDispatch SysCallDispatch_discr (num a)) as [d|] eqn:Ht; simpl.
  - apply transmute_discr in Ht as [Hd _]. split; [done|]. intros E. rewrite E in Hd.
    by destruct d.
  - split; [|done]. intros _. apply transmute_None in Ht. unfold all_SysCallDispatch in Ht.
    rewrite !Forall_cons in Ht. simpl in Ht. lia.
Qed.

(** C36: whatever a call returns is what the user side parses from the
    registers: a value from rax, or the error code from rdx. *)
Theorem syscall_result_reaches_user d a k k' r :
  SysCallDispatch_discr d = num a → dispatch_call hhdm rest d a k = Ret (k', r) →
  r ≠ Err NoErr →
  ∃ a', syscall_handler hhdm rest a k = Some (Ret (k', a')) ∧
        try_parse_from Some (rax a') (rdx a') = Some (Some r) ∧
        (∀ e, r = Err e → rax a' = rax a).
Proof.
  intros Hd Hc Hr. unfold syscall_handler. cbv zeta. rewrite <- Hd.
  destruct (Z.ltb_spec MAX_SYSCALL (SysCallDispatch_discr d)) as [Hgt|Hle].
  { unfold MAX_SYSCALL in Hgt. destruct d; simpl in Hgt; lia. }
  rewrite transmute_dispatch. simpl. rewrite Hc. simpl. eexists. split; [done|].
  destruct r as [v|e]; simpl; [done|]. split; [|by intros e' [= <-]].
  unfold try_parse_from. destruct e; try done.
Qed.

(** For a number out of range the code goes to rax and rdx keeps the
    caller's third argument, although results are documented to be in rax and
    errors in rdx: with a zero third argument the caller sees success with
    the value 9. *)
Lemma bad_syscall_number_looks_successful a k :
  MAX_SYSCALL < num a → third a = 0 →
  ∃ a', syscall_handler hhdm rest a k = Some (Ret (k, a')) ∧
        try_parse_from Some (rax a') (rdx a') = Some (Some (Ok 9)).
Proof.
  intros Hn Ht. unfold syscall_handler.
  destruct (Z.ltb_spec MAX_SYSCALL (num a)); [|lia]. eexists. split; [done|].
  simpl. unfold third in Ht. rewrite Ht. done.
Qed.

End handler.

Definition denied : OtherCalls :=
  mkOther (λ _ _ _ _, merr OpDenied) (merr OpDenied) (merr OpDenied) (λ _ _ _ _, merr OpDenied)
    (λ _ _, merr OpDenied) (λ _, merr OpDenied) (λ _ _, merr OpDenied) (λ _, merr OpDenied)
    (λ _ _, merr OpDenied) (λ _ _ _ _, merr OpDenied) (λ _ _ _ _, merr OpDenied) (λ _ _, merr OpDenied)
    (λ _ _ _ _ _, merr OpDenied) 0.

Definition sample_kernel : Kernel :=
  mkKernel (update_current (sample_manager [1]) 1) (init_world 0) (λ _, zero) ∅ ∅ 1 0.

Definition sample_ctx (n a3 : Z) : SysCallCtx := mkCtx n 0 0 a3 0 0 0 0 0 0 0.

Lemma syscall_number_11_undefined_witness :
  syscall_handler (prof := Release) 4096 denied (sample_ctx 11 0) sample_kernel = None.
Proof. apply (syscall_number_11_undefined 4096); [simpl; lia|reflexivity]. Defined.

Lemma syscall_result_reaches_user_witness :
  ∃ a', syscall_handler (prof := Release) 4096 denied (sample_ctx 25 0) sample_kernel
          = Some (Ret (sample_kernel, a')) ∧
        try_parse_from Some (rax a') (rdx a') = Some (Some (Ok 1)).
Proof.
  destruct (syscall_result_reaches_user (prof := Release) 4096 denied
    GetTID (sample_ctx 25 0) sample_kernel sample_kernel (Ok 1)) as (a' & H1 & H2 & _).
  - reflexivity.
  - reflexivity.
  - discriminate.
  - exists a'. split; [exact H1|exact H2].
Defined.

Lemma bad_syscall_number_looks_successful_witness :
  ∃ a', syscall_handler (prof := Release) 4096 denied (sample_ctx 31 0) sample_kernel
          = Some (Ret (sample_kernel, a')) ∧
        try_parse_from Some (rax a') (rdx a') = Some (Some (Ok 9)).
Proof.
  apply (bad_syscall_number_looks_successful 4096 denied (sample_ctx 31 0));
    [vm_compute; reflexivity|reflexivity].
Defined.

(** ** Descriptors *)

Lemma last_key_ge t k v : t !! k = Some v → ∃ m, last_key t = Some m ∧ k ≤ m.
Proof.
  intros Hk. apply elem_of_map_to_list in Hk. unfold last_key.
  assert (Hin : k ∈ (map_to_list t).*1) by (apply list_elem_of_fmap; by exists (k, v)).
  destruct ((map_to_list t).*1) as [|x l]; [by apply not_elem_of_nil in Hin|].
  eexists. split; [done|]. clear Hk. apply elem_of_cons in Hin as [->|Hin].
  - induction l; simpl; lia.
  - induction l as [|y l IH]; [by apply not_elem_of_nil in Hin|].
    apply elem_of_cons in Hin as [->|Hin]; simpl; [lia|]. specialize (IH Hin). lia.
Qed.

Lemma last_key_elem t m : last_key t = Some m → is_Some (t !! m).
Proof.
  unfold last_key. destruct ((map_to_list t).*1) as [|x l] eqn:Hl; [done|]. intros [= <-].
  assert (Hin : foldr Z.max x l ∈ (map_to_list t).*1).
  { rewrite Hl. clear Hl. induction l as [|y l IH]; simpl; [left|].
    destruct (Z.max_spec y (foldr Z.max x l)) as [[_ ->]|[_ ->]].
    - apply elem_of_cons in IH as [->|IH]; [left|by do 2 right].
    - right. left. }
  apply list_elem_of_fmap in Hin as ([k v] & -> & Hin). apply elem_of_map_to_list in Hin.
  by exists v.
Qed.

(** Opening a file never takes over a descriptor in use: as long as the
    table holds no descriptor u32::MAX, the new descriptor was free, leads to the
    new file, and all other descriptors keep theirs. *)
Lemma add_next_file_fresh prof (t : FDMap) h :
  (∀ k, is_Some (t !! k) → 0 ≤ k < U32_MAX) →
  ∃ t' fd, add_next_file prof t h = Ret (t', fd) ∧ t !! fd = None ∧ 0 ≤ fd ≤ U32_MAX ∧
    fd_get t' fd = Some h ∧ ∀ k, k ≠ fd → fd_get t' k = fd_get t k.
Proof.
  intros Ht. unfold add_next_file, next_fd.
  destruct (last_key t) as [m|] eqn:Hm.
  - destruct (Ht m (last_key_elem _ _ Hm)) as [H0 H1]. rewrite decide_True by lia. simpl.
    eexists _, _. split; [done|]. split; [|split; [lia|split]].
    + destruct (t !! (m + 1)) eqn:Hk; [|done].
      destruct (last_key_ge _ _ _ Hk) as (m' & Hm' & ?). rewrite Hm in Hm'. simplify_eq. lia.
    + apply lookup_insert_eq.
    + intros k Hk. by apply lookup_insert_ne.
  - simpl. eexists _, _. split; [done|]. split; [|split; [unfold U32_MAX; lia|split]].
    + destruct (t !! 0) eqn:Hk; [|done]. destruct (last_key_ge _ _ _ Hk) as (? & ? & _). congruence.
    + apply lookup_insert_eq.
    + intros k Hk. by apply lookup_insert_ne.
Qed.

Lemma add_next_file_fresh_witness :
  ∃ t' fd, add_next_file Dev {[ 0 := 5%positive; 3 := 6%positive ]} 7 = Ret (t', fd) ∧
    fd_get t' fd = Some 7%positive.
Proof.
  destruct (add_next_file_fresh Dev {[ 0 := 5%positive; 3 := 6%positive ]} 7)
    as (t' & fd & H1 & _ & _ & H2 & _).
  - intros k [v Hk]. apply lookup_insert_Some in Hk as [[<- _]|[_ Hk]]; [vm_compute; intuition discriminate|].
    apply lookup_singleton_Some in Hk as [<- _]. vm_compute. intuition discriminate.
  - by exists t', fd.
Defined.

(** A duplicated descriptor shares the open file: moving the cursor
    through the copy moves it for the original. *)
Lemma dup_shares_cursor {prof : Profile} k t fd h file new_fd k1 fd' offset :
  current_thread (k_tm k) = Some t → fd_get (fd_table k t) fd = Some h →
  k_handles k !! h = Some file → fd' ≠ fd →
  sys_dup fd new_fd k = Ret (k1, Ok fd') →
  ∃ k2, sys_seek fd' offset k1 = Ret (k2, Ok tt) ∧
    fd_get (fd_table k2 t) fd = Some h ∧ fd_get (fd_table k2 t) fd' = Some h ∧
    cursor <$> k_handles k2 !! h = Some (mkFCursor offset).
Proof.
  intros Hc Hfd Hh Hne Hdup. unfold sys_dup, current_or_err, mthen in Hdup. rewrite Hc in Hdup.
  simpl in Hdup.
  destruct (if decide (0 ≤ new_fd) then _ else _) as [nf| | |]; simpl in Hdup; try done.
  unfold handle_or_err, mthen in Hdup. rewrite Hfd in Hdup. simpl in Hdup.
  injection Hdup as <- <-.
  unfold sys_seek, current_or_err, handle_or_err, get_handle, put_handle, mthen. simpl.
  rewrite Hc. simpl. unfold fd_table at 1. simpl. rewrite lookup_insert_eq. simpl.
  unfold fd_get at 1. rewrite lookup_insert_eq. simpl. rewrite Hh. simpl.
  eexists. split; [done|]. unfold fd_table, fd_get. simpl. rewrite !lookup_insert_eq. simpl.
  rewrite lookup_insert_ne by done. rewrite lookup_insert_eq. done.
Qed.

(** A kernel in which thread 1 has the file of node 1 open as descriptor 0. *)
Definition open_kernel : Kernel :=
  mkKernel (update_current (sample_manager [1]) 1) (one_file (lit "ab")) (λ _, zero)
    {[ 1 := {[ 0 := 1%positive ]} ]}
    {[ 1%positive := mkFile (Shared (RamRepr 1)) FCursor_default FPerms_READ None ]} 2 0.

Lemma dup_shares_cursor_witness :
  ∃ k1 k2, sys_dup (prof := Dev) 0 (-1) open_kernel = Ret (k1, Ok 1) ∧
    sys_seek 1 7 k1 = Ret (k2, Ok tt) ∧
    cursor <$> k_handles k2 !! 1%positive = Some (mkFCursor 7).
Proof.
  eexists. destruct (dup_shares_cursor (prof := Dev) open_kernel (sample_task 1 1) 0 1
    (mkFile (Shared (RamRepr 1)) FCursor_default FPerms_READ None) (-1)
    (set_fds open_kernel {[ 1 := {[ 0 := 1%positive; 1 := 1%positive ]} ]}) 1 7)
    as (k2 & H1 & _ & _ & H2).
  - reflexivity.
  - reflexivity.
  - reflexivity.
  - discriminate.
  - reflexivity.
  - exists k2. split; [reflexivity|]. split; [exact H1|exact H2].
Defined.
