(* ===== verification/FrameAlloc.v ===== *)
(** The physical frame allocator: kernel/src/kernel/mem/paging/alloc.rs.

    Free frames form a linked list through their own first words, reached
    through the direct mapping at [phys_offset].  Memory is a function from
    addresses to 64-bit words.  Frames are their start addresses.  The
    memory map comes from the boot loader and the address type from a
    library: both are arguments. *)
From S2P Require Import Prelude.
Open Scope Z_scope.

Definition PAGE : Z := 4096.

(** What the allocator uses of the address library. *)
Class PhysOps := {
  u64_align_up : Z → Z → Z;
  u64_align_down : Z → Z → Z;
  (* PhysFrame::containing_address(PhysAddr::new(a)) *)
  frame_containing : Z → Outcome Z
}.

(** [PhysAddr::new] accepts 52-bit addresses; the frame containing a page
    aligned address starts there. *)
Class PhysLaws `{PhysOps} := {
  frame_containing_aligned : ∀ a, 0 <= a < 2 ^ 52 → a mod PAGE = 0 → frame_containing a = Ret a
}.

Section Alloc.
Context `{PhysOps} (phys_offset : Z) (usable_mmap_entries : list (Z * Z)).

Definition write (mem : Z → Z) (a v : Z) : Z → Z := λ x, if decide (x = a) then v else mem x.

(** [write_bytes(a, 0, Size4KiB::SIZE)]. *)
Definition zero_page (mem : Z → Z) (a : Z) : Z → Z :=
  λ x, if decide (a <= x < a + PAGE) then 0 else mem x.

Record LinkedListFrameAllocator : Type := mkAlloc {
  head : Z;                  (* a null pointer is 0 *)
  current_batch_end : nat;
  memory : Z → Z
}.

(** The frame as the new head of the list.  The sum is exact here; the code
    adds in 64 bits, which differs only for frames from 2^47 on, which no
    direct mapping in the upper half reaches. *)
Definition deallocate_frame (self : LinkedListFrameAllocator) (frame : Z) : LinkedListFrameAllocator :=
  let addr := frame + phys_offset in
  mkAlloc addr (current_batch_end self) (write (memory self) addr (head self)).

(** The addresses of one region: [(align_up(start)..align_down(end)).step_by(4096)]. *)
Definition region_frames (r : Z * Z) : list Z :=
  let '(start, len) := r in
  let a := u64_align_up start PAGE in
  let b := u64_align_down (start + len) PAGE in
  (λ i, a + PAGE * Z.of_nat i) <$> seq 0 (Z.to_nat ((b - a + PAGE - 1) / PAGE)).

Definition all_frames : list Z := concat (region_frames <$> usable_mmap_entries).

Fixpoint add_frames (self : LinkedListFrameAllocator) (addrs : list Z) : Outcome LinkedListFrameAllocator :=
  match addrs with
  | [] => Ret self
  | r :: addrs =>
      let! frame := frame_containing r in
      let self := deallocate_frame self frame in
      add_frames (mkAlloc (head self) (S (current_batch_end self)) (memory self)) addrs
  end.

Definition BATCH : nat := Z.to_nat 10000.

Definition add_batch (self : LinkedListFrameAllocator) : Outcome LinkedListFrameAllocator :=
  add_frames self (take BATCH (drop (current_batch_end self) all_frames)).

(** [new], on the memory the kernel finds. *)
Definition LinkedListFrameAllocator_new (mem : Z → Z) : Outcome LinkedListFrameAllocator :=
  add_batch (mkAlloc 0 0 mem).

(** The part of [allocate_frame] after the null checks. *)
Definition pop_frame (self : LinkedListFrameAllocator)
    : Outcome (LinkedListFrameAllocator * option Z) :=
  let next_head := memory self (head self) in
  let current_phys := head self - phys_offset in
  let! frame := frame_containing current_phys in
  Ret (mkAlloc next_head (current_batch_end self) (zero_page (memory self) (frame + phys_offset)),
       Some frame).

Definition allocate_frame (self : LinkedListFrameAllocator)
    : Outcome (LinkedListFrameAllocator * option Z) :=
  if decide (head self = 0) then
    let! self := add_batch self in
    if decide (head self = 0) then Ret (self, None) else pop_frame self
  else pop_frame self.

(** ** Clients

    The state with the frames handed out.  A client allocates, gives back a
    frame it owns, or writes anything into frames it owns. *)
Inductive frame_step : LinkedListFrameAllocator * list Z → LinkedListFrameAllocator * list Z → Prop :=
| step_allocate s owned s' f :
    allocate_frame s = Ret (s', Some f) → frame_step (s, owned) (s', f :: owned)
| step_exhausted s owned s' :
    allocate_frame s = Ret (s', None) → frame_step (s, owned) (s', owned)
| step_deallocate s owned1 f owned2 :
    frame_step (s, owned1 ++ f :: owned2) (deallocate_frame s f, owned1 ++ owned2)
| step_write s owned mem :
    (∀ x, (∀ f, f ∈ owned → ¬ (f + phys_offset <= x < f + phys_offset + PAGE)) → mem x = memory s x) →
    frame_step (s, owned) (mkAlloc (head s) (current_batch_end s) mem, owned).

(** ** The free list *)

Fixpoint chain (mem : Z → Z) (h : Z) (free : list Z) : Prop :=
  match free with
  | [] => h = 0
  | f :: free => h = f + phys_offset ∧ chain mem (mem (f + phys_offset)) free
  end.

Definition alloc_inv (s : LinkedListFrameAllocator) (owned : list Z) : Prop :=
  ∃ free, chain (memory s) (head s) free ∧
    free ++ owned ≡ₚ take (current_batch_end s) all_frames.

(** What the boot loader and the direct mapping provide: distinct page
    aligned frames, none of them mapped at address 0. *)
Definition frame_ok (f : Z) : Prop :=
  0 <= f < 2 ^ 52 ∧ f mod PAGE = 0 ∧ f + phys_offset ≠ 0.

Context `{!PhysLaws} (frames_ok : Forall frame_ok all_frames) (frames_nodup : NoDup all_frames).

Lemma page_apart f g x :
  frame_ok f → frame_ok g → f ≠ g → x = f + phys_offset →
  ¬ (g + phys_offset <= x < g + phys_offset + PAGE).
Proof.
  intros (_ & Hf & _) (_ & Hg & _) Hne -> Hin. unfold PAGE in *.
  apply Z.mod_divide in Hf as [a ->]; [|lia]. apply Z.mod_divide in Hg as [b ->]; [|lia]. lia.
Qed.

Lemma chain_agree mem mem' h free :
  (∀ f, f ∈ free → mem' (f + phys_offset) = mem (f + phys_offset)) →
  chain mem h free → chain mem' h free.
Proof.
  revert h. induction free as [|f free IH]; intros h Hag; [done|]. intros [-> Hc].
  split; [done|]. rewrite Hag by set_solver. apply IH; [|done]. intros g Hg. apply Hag. set_solver.
Qed.

Lemma taken_ok k f : f ∈ take k all_frames → frame_ok f.
Proof.
  intros Hf. by apply (proj1 (Forall_forall _ _) (Forall_take _ k _ frames_ok)).
Qed.

Lemma taken_nodup k : NoDup (take k all_frames).
Proof.
  pose proof frames_nodup as Hn. rewrite <-(take_drop k all_frames) in Hn.
  by apply NoDup_app in Hn as [? _].
Qed.

(** Changing memory inside pages that are not on the list keeps the list. *)
Lemma chain_outside mem mem' h free (others : list Z) :
  Forall frame_ok (free ++ others) → NoDup (free ++ others) →
  (∀ x, (∀ f, f ∈ others → ¬ (f + phys_offset <= x < f + phys_offset + PAGE)) → mem' x = mem x) →
  chain mem h free → chain mem' h free.
Proof.
  intros Hok Hnd Hag. apply chain_agree. intros f Hf. apply Hag. intros g Hg.
  rewrite Forall_forall in Hok. apply NoDup_app in Hnd as (_ & Hdis & _).
  apply (page_apart f g); [apply Hok; set_solver|apply Hok; set_solver| |done].
  intros ->. by apply (Hdis g).
Qed.

Lemma write_outside mem f v x :
  (∀ g, g ∈ [f] → ¬ (g + phys_offset <= x < g + phys_offset + PAGE)) →
  write mem (f + phys_offset) v x = mem x.
Proof.
  intros Hx. unfold write. case_decide as Heq; [|done]. exfalso.
  apply (Hx f); [set_solver|]. unfold PAGE. lia.
Qed.

Lemma zero_outside mem f x :
  (∀ g, g ∈ [f] → ¬ (g + phys_offset <= x < g + phys_offset + PAGE)) →
  zero_page mem (f + phys_offset) x = mem x.
Proof.
  intros Hx. unfold zero_page. case_decide as Heq; [|done]. exfalso.
  apply (Hx f); [set_solver|done].
Qed.

(** Pushing a frame that is not on the list. *)
Lemma chain_push s f free :
  Forall frame_ok (f :: free) → NoDup (f :: free) → chain (memory s) (head s) free →
  chain (memory (deallocate_frame s f)) (head (deallocate_frame s f)) (f :: free).
Proof.
  intros Hok Hnd Hc. simpl. split; [done|]. unfold write at 2. rewrite decide_True by done.
  apply (chain_outside (memory s) _ _ _ [f]); [..|exact Hc].
  - apply Forall_app. inversion Hok; subst. split; [done|by constructor].
  - apply NoDup_app. inversion Hnd; subst. split; [done|]. split; [set_solver|apply NoDup_singleton].
  - intros x. apply write_outside.
Qed.

Lemma add_frames_chain s bs free :
  Forall frame_ok (bs ++ free) → NoDup (bs ++ free) → chain (memory s) (head s) free →
  ∃ s', add_frames s bs = Ret s' ∧ chain (memory s') (head s') (rev bs ++ free) ∧
    current_batch_end s' = (current_batch_end s + length bs)%nat.
Proof.
  revert s free. induction bs as [|f bs IH]; intros s free Hok Hnd Hc.
  { exists s. split; [done|]. split; [done|simpl; lia]. }
  cbn [app] in Hok, Hnd. apply Forall_cons in Hok as [Hf Hok]. apply NoDup_cons in Hnd as [Hnf Hnd].
  cbn [add_frames]. rewrite frame_containing_aligned by apply Hf. cbn [obind].
  destruct (IH (mkAlloc (head (deallocate_frame s f)) (S (current_batch_end s))
                  (memory (deallocate_frame s f))) (f :: free)) as (s' & Hs & Hc' & Hb).
  - rewrite <-(Permutation_middle bs free f). by constructor.
  - rewrite <-(Permutation_middle bs free f). by constructor.
  - apply chain_push; [|apply NoDup_cons; split|done].
    + apply Forall_app in Hok as [_ Hok]. by constructor.
    + set_solver.
    + by apply NoDup_app in Hnd as (_ & _ & ?).
  - exists s'. split; [exact Hs|]. split; [simpl; by rewrite <-app_assoc|].
    rewrite Hb. simpl. lia.
Qed.

(** [add_batch] keeps the invariant and adds what is left, up to a batch. *)
Lemma add_batch_inv s owned :
  alloc_inv s owned →
  ∃ s', add_batch s = Ret s' ∧ alloc_inv s' owned ∧
    current_batch_end s' =
      (current_batch_end s + min BATCH (length all_frames - current_batch_end s))%nat.
Proof.
  intros (free & Hc & Hp). unfold add_batch.
  set (bs := take BATCH (drop (current_batch_end s) all_frames)).
  assert (Htk : take (current_batch_end s + BATCH) all_frames =
                take (current_batch_end s) all_frames ++ bs) by (unfold bs; by rewrite take_take_drop).
  assert (Hperm : bs ++ free ++ owned ≡ₚ take (current_batch_end s + BATCH) all_frames)
    by (rewrite Htk, Hp; by rewrite Permutation_app_comm).
  pose proof (taken_nodup (current_batch_end s + BATCH)) as Hnd. rewrite <-Hperm in Hnd.
  assert (Hok : Forall frame_ok (bs ++ free ++ owned))
    by (rewrite Hperm; apply Forall_take, frames_ok).
  rewrite app_assoc in Hnd, Hok. apply NoDup_app in Hnd as (Hnd & _ & _).
  apply Forall_app in Hok as [Hok _].
  destruct (add_frames_chain s bs free Hok Hnd Hc) as (s' & -> & Hc' & Hb).
  assert (Hlen : length bs = min BATCH (length all_frames - current_batch_end s))
    by (unfold bs; by rewrite length_take, length_drop).
  exists s'. split; [done|]. split; [|by rewrite Hb, Hlen].
  exists (rev bs ++ free). split; [done|].
  assert (Htake : take (current_batch_end s') all_frames = take (current_batch_end s + BATCH) all_frames).
  { rewrite Hb, Hlen. destruct (decide (BATCH <= length all_frames - current_batch_end s)%nat).
    - by rewrite Nat.min_l.
    - rewrite !take_ge; [done|lia..]. }
  rewrite Htake, <-Hperm, <-app_assoc. by rewrite <-Permutation_rev.
Qed.

Lemma inv_all s owned free :
  chain (memory s) (head s) free → free ++ owned ≡ₚ take (current_batch_end s) all_frames →
  Forall frame_ok (free ++ owned) ∧ NoDup (free ++ owned).
Proof.
  intros _ Hp. rewrite Hp. split; [apply Forall_take, frames_ok|apply taken_nodup].
Qed.

Lemma pop_frame_inv s owned :
  alloc_inv s owned → head s ≠ 0 →
  ∃ s' f, pop_frame s = Ret (s', Some f) ∧ alloc_inv s' (f :: owned) ∧
    (∀ x, f + phys_offset <= x < f + phys_offset + PAGE → memory s' x = 0).
Proof.
  intros (free & Hc & Hp) Hh. destruct free as [|f free]; [done|].
  destruct (inv_all s owned _ Hc Hp) as [Hok Hnd]. destruct Hc as [Hhead Hc].
  cbn [app] in Hok, Hnd. apply Forall_cons in Hok as [Hf Hok]. apply NoDup_cons in Hnd as [Hnf Hnd].
  unfold pop_frame. rewrite Hhead. replace (f + phys_offset - phys_offset) with f by lia.
  rewrite frame_containing_aligned by apply Hf. cbn [obind].
  eexists _, f. split; [done|]. split.
  - exists free. split.
    + cbn [memory head]. apply (chain_outside (memory s) _ _ _ [f]); [..|exact Hc].
      * apply Forall_app. apply Forall_app in Hok as [Hok _]. split; [done|by constructor].
      * apply NoDup_app. apply NoDup_app in Hnd as (Hnd & _ & _).
        split; [done|]. split; [set_solver|apply NoDup_singleton].
      * intros x. apply zero_outside.
    + cbn [current_batch_end]. rewrite <-Hp. by rewrite <-Permutation_middle.
  - intros x Hx. cbn [memory]. unfold zero_page. by rewrite decide_True.
Qed.

Lemma deallocate_inv s owned1 f owned2 :
  alloc_inv s (owned1 ++ f :: owned2) → alloc_inv (deallocate_frame s f) (owned1 ++ owned2).
Proof.
  intros (free & Hc & Hp). destruct (inv_all s _ _ Hc Hp) as [Hok Hnd].
  exists (f :: free).
  assert (Hp' : (f :: free) ++ owned1 ++ owned2 ≡ₚ free ++ owned1 ++ f :: owned2)
    by (cbn [app]; by rewrite !Permutation_middle).
  split; [|by rewrite Hp', Hp].
  rewrite <-Hp' in Hok, Hnd. apply NoDup_app in Hnd as (Hnd & _ & _).
  apply Forall_app in Hok as [Hok _]. by apply chain_push.
Qed.

Lemma write_inv s owned mem :
  alloc_inv s owned →
  (∀ x, (∀ f, f ∈ owned → ¬ (f + phys_offset <= x < f + phys_offset + PAGE)) → mem x = memory s x) →
  alloc_inv (mkAlloc (head s) (current_batch_end s) mem) owned.
Proof.
  intros (free & Hc & Hp) Hm. destruct (inv_all s _ _ Hc Hp) as [Hok Hnd].
  exists free. split; [|done]. by apply (chain_outside (memory s) mem _ _ owned).
Qed.

(** A null head is an empty list. *)
Lemma null_head s owned :
  alloc_inv s owned → head s = 0 → owned ≡ₚ take (current_batch_end s) all_frames.
Proof.
  intros (free & Hc & Hp) Hh. destruct (inv_all s owned _ Hc Hp) as [Hok _].
  destruct free as [|f free]; [done|]. destruct Hc as [Hc _].
  apply Forall_cons in Hok as [(_ & _ & Hf) _]. congruence.
Qed.

(** [allocate_frame] on every branch. *)
Lemma allocate_frame_inv s owned :
  alloc_inv s owned →
  (∃ s' f, allocate_frame s = Ret (s', Some f) ∧ alloc_inv s' (f :: owned) ∧
     (∀ x, f + phys_offset <= x < f + phys_offset + PAGE → memory s' x = 0)) ∨
  (∃ s', allocate_frame s = Ret (s', None) ∧ alloc_inv s' owned ∧ owned ≡ₚ all_frames).
Proof.
  intros Hi. unfold allocate_frame.
  case_decide as Hh; [|left; by apply pop_frame_inv].
  destruct (add_batch_inv s owned Hi) as (s1 & -> & Hi1 & Hb). cbn [obind].
  case_decide as Hh1; [|left; by apply pop_frame_inv].
  right. exists s1. split; [done|]. split; [done|].
  pose proof (null_head s owned Hi Hh) as Hp. pose proof (null_head s1 owned Hi1 Hh1) as Hp1.
  rewrite Hp1. apply Permutation_length in Hp, Hp1. rewrite length_take in Hp, Hp1.
  rewrite take_ge; [done|]. unfold BATCH in Hb. lia.
Qed.

Lemma frame_step_inv x y : frame_step x y → alloc_inv x.1 x.2 → alloc_inv y.1 y.2.
Proof.
  intros Hs Hi. destruct Hs as [s owned s' f Ha|s owned s' Ha|s o1 f o2|s owned mem Hm]; cbn [fst snd] in *.
  - destruct (allocate_frame_inv s owned Hi) as [(s1 & f1 & Hr & Hi1 & _)|(s1 & Hr & _)]; congruence.
  - destruct (allocate_frame_inv s owned Hi) as [(s1 & f1 & Hr & _)|(s1 & Hr & Hi1 & _)]; congruence.
  - by apply deallocate_inv.
  - by apply write_inv.
Qed.

Lemma new_inv mem : ∃ s, LinkedListFrameAllocator_new mem = Ret s ∧ alloc_inv s [].
Proof.
  destruct (add_batch_inv (mkAlloc 0 0 mem) []) as (s & Hs & Hi & _); [|by exists s].
  exists []. by rewrite take_0.
Qed.

(** Every reachable state serves the next request properly. *)
Lemma reachable_safe s0 s owned :
  alloc_inv s0 [] → rtc frame_step (s0, []) (s, owned) →
    NoDup owned ∧ owned ⊆ all_frames ∧
    ((∃ s' f, allocate_frame s = Ret (s', Some f) ∧ f ∈ all_frames ∧ (f ∉ owned) ∧
        (∀ x, f + phys_offset <= x < f + phys_offset + PAGE → memory s' x = 0)) ∨
     (∃ s', allocate_frame s = Ret (s', None) ∧ owned ≡ₚ all_frames)).
Proof.
  intros Hi0 Hr.
  assert (Hi : alloc_inv s owned).
  { change (alloc_inv (s, owned).1 (s, owned).2). revert Hr. generalize (s, owned). intros y Hr.
    remember (s0, []) as x0 eqn:Hx. assert (Hx0 : alloc_inv x0.1 x0.2) by (by subst). clear Hx.
    induction Hr; eauto using frame_step_inv. }
  assert (Hsub : ∀ s f, alloc_inv s f → NoDup f ∧ f ⊆ all_frames).
  { intros s1 o (free & Hc & Hp). destruct (inv_all s1 o _ Hc Hp) as [_ Hnd].
    apply NoDup_app in Hnd as (_ & _ & Hnd). split; [done|]. intros f Hf.
    assert (Hin : f ∈ take (current_batch_end s1) all_frames) by (rewrite <-Hp; set_solver).
    rewrite <-(take_drop (current_batch_end s1) all_frames). set_solver. }
  destruct (Hsub s owned Hi) as [Hnd Hin]. do 2 (split; [done|]).
  destruct (allocate_frame_inv s owned Hi) as [(s' & f & Ha & Hi' & Hz)|(s' & Ha & _ & Hp)].
  - left. exists s', f. destruct (Hsub s' _ Hi') as [Hnd' Hin']. apply NoDup_cons in Hnd' as [Hnf _].
    split; [done|]. split; [set_solver|done].
  - right. by exists s'.
Qed.

(** C6: the frame allocator hands out every usable frame and none twice.
    Starting from the boot memory map, whatever clients allocate, free and
    write into their own frames: building the allocator and allocating never
    panic, the frames in use are distinct usable frames, an allocated frame
    is not in use and is zeroed, and allocation fails exactly when every
    usable frame is in use. *)
Theorem frame_alloc_safe mem :
  ∃ s0, LinkedListFrameAllocator_new mem = Ret s0 ∧
  ∀ s owned, rtc frame_step (s0, []) (s, owned) →
    NoDup owned ∧ owned ⊆ all_frames ∧
    ((∃ s' f, allocate_frame s = Ret (s', Some f) ∧ f ∈ all_frames ∧ (f ∉ owned) ∧
        (∀ x, f + phys_offset <= x < f + phys_offset + PAGE → memory s' x = 0)) ∨
     (∃ s', allocate_frame s = Ret (s', None) ∧ owned ≡ₚ all_frames)).
Proof.
  destruct (new_inv mem) as (s0 & Hs0 & Hi0). exists s0. split; [done|].
  intros s owned. by apply reachable_safe.
Qed.

End Alloc.

(** The address library on page-aligned 52-bit addresses, for the witness. *)
#[export] Instance PhysOps_ref : PhysOps := {
  u64_align_up a n := (a + n - 1) / n * n;
  u64_align_down a n := a / n * n;
  frame_containing a := if decide (0 <= a < 2 ^ 52) then Ret (a / PAGE * PAGE) else Panic
}.

#[export] Instance PhysLaws_ref : PhysLaws.
Proof.
  constructor. intros a Ha Hm. simpl. rewrite decide_True by done. f_equal.
  unfold PAGE in *. apply Z.mod_divide in Hm as [k ->]; [|lia]. rewrite Z.div_mul; lia.
Defined.

(** One region of two frames: the first allocation succeeds. *)
Definition two_frames : list (Z * Z) := [(4096, 8192)].

Lemma two_frames_all : all_frames two_frames = [4096; 8192].
Proof. reflexivity. Qed.

Lemma frame_alloc_safe_witness :
  ∃ s0 s1 f, LinkedListFrameAllocator_new (2 ^ 47) two_frames (λ _, 7) = Ret s0 ∧
    allocate_frame (2 ^ 47) two_frames s0 = Ret (s1, Some f) ∧ f ∈ [4096; 8192].
Proof.
  destruct (frame_alloc_safe (2 ^ 47) two_frames) with (mem := λ _ : Z, 7) as (s0 & Hs & Hr).
  - rewrite two_frames_all. repeat constructor; unfold PAGE; simpl; lia.
  - rewrite two_frames_all. repeat constructor; set_solver.
  - destruct (Hr s0 [] (rtc_refl _ _)) as (_ & _ & [(s1 & f & Ha & Hf & _)|(s1 & _ & Hp)]).
    + exists s0, s1, f. rewrite two_frames_all in Hf. done.
    + rewrite two_frames_all in Hp. by apply Permutation_length in Hp.
Defined.
