(* ===== verification/Paging.v ===== *)
(** Mapping memory and kernel stacks: kernel/src/kernel/mem/paging/map.rs,
    [align_up] of kernel/src/kernel/mem/mod.rs and the stack functions of
    kernel/src/arch/x86/context/mod.rs.

    The page tables and the address type belong to a library.  [VirtOps]
    and [Mapper] are the operations used of it, [VirtLaws] and [MapperLaws]
    what the code relies on, seen through the partial map [view] from pages
    to frames.  Pages and frames are their start addresses. *)
From S2P Require Import Prelude FrameAlloc.
Open Scope Z_scope.

(** ** Interfaces *)

(** [VirtAddr] arithmetic, which panics when it leaves the canonical
    addresses, and [Page::range] of the pages containing two addresses. *)
Class VirtOps := {
  va_new : Z → Outcome Z;               (* VirtAddr::new, from_ptr *)
  va_add : Z → Z → Outcome Z;           (* VirtAddr + u64 *)
  va_sub : Z → Z → Outcome Z;           (* VirtAddr - u64 *)
  va_diff : Z → Z → Outcome Z;          (* VirtAddr - VirtAddr *)
  va_align_up : Z → Outcome Z;          (* to Size4KiB::SIZE *)
  va_align_down : Z → Z;                (* to Size4KiB::SIZE *)
  page_range : Z → Z → list Z
}.

Definition canonical (a : Z) : Prop := 0 <= a < 2 ^ 47 ∨ 2 ^ 64 - 2 ^ 47 <= a < 2 ^ 64.

Definition aligned (a : Z) : Prop := a mod PAGE = 0.

(** The pages from [a] up to [a + n * PAGE]. *)
Definition pages_from (a : Z) (n : nat) : list Z := (λ i, a + PAGE * Z.of_nat i) <$> seq 0 n.

Class VirtLaws `{VirtOps} := {
  va_new_canonical : ∀ a, canonical a → va_new a = Ret a;
  va_new_other : ∀ a, 0 <= a < 2 ^ 64 → ¬ canonical a → va_new a = Panic;
  va_align_down_spec : ∀ a, canonical a → va_align_down a = a - a mod PAGE;
  va_add_canonical : ∀ a b, canonical a → 0 <= b → canonical (a + b) →
    (a < 2 ^ 47 ↔ a + b < 2 ^ 47) → va_add a b = Ret (a + b);
  va_sub_canonical : ∀ a b, canonical a → 0 <= b → canonical (a - b) →
    (a < 2 ^ 47 ↔ a - b < 2 ^ 47) → va_sub a b = Ret (a - b);
  va_diff_le : ∀ a b, b <= a → va_diff a b = Ret (a - b);
  va_align_up_spec : ∀ a n, aligned a → 0 <= n < PAGE → canonical a → canonical (a - n) →
    va_align_up (a - n) = Ret a;
  page_range_spec : ∀ a n, aligned a → canonical a →
    page_range a (a + PAGE * Z.of_nat n) = pages_from a n;
  page_range_containing : ∀ a b, canonical a →
    page_range a b = page_range (a - a mod PAGE) b
}.

Inductive TranslateError : Set := PageNotMapped | ParentEntryHugePage | InvalidFrameAddress.

(** A page table of type [P] that takes frames for its own tables from an
    allocator of type [A]. *)
Class Mapper (P A : Type) := {
  translate_page : P → Z → Result TranslateError Z;
  map_to : P → Z → Z → Z → A → P * A * Result unit unit;   (* page, frame, flags *)
  unmap : P → Z → P * Result unit Z
}.

Class MapperLaws (P A : Type) `{Mapper P A} := {
  view : P → gmap Z Z;
  translate_view : ∀ p pg, view p !! pg =
    match translate_page p pg with Ok f => Some f | Err _ => None end;
  map_to_view : ∀ p pg f fl a, view p !! pg = None →
    let '(p', _, r) := map_to p pg f fl a in
    view p' = if is_ok r then <[pg := f]> (view p) else view p;
  unmap_view : ∀ p pg,
    match unmap p pg with
    | (p', Ok f) => view p !! pg = Some f ∧ view p' = delete pg (view p)
    | (p', Err _) => view p !! pg = None ∧ view p' = view p
    end
}.

(** [FrameAllocator] and [FrameDeallocator]. *)
Class FrameAllocator (A : Type) := {
  alloc_frame : A → Outcome (A * option Z);
  dealloc_frame : A → Z → A
}.

(** The kernel's allocator provides it. *)
#[export] Instance linked_list_FrameAllocator `{PhysOps} (off : Z) (regions : list (Z * Z)) :
  FrameAllocator LinkedListFrameAllocator := {
  alloc_frame := allocate_frame off regions;
  dealloc_frame := deallocate_frame off
}.

(** ** mem/mod.rs *)

(** [(n + alignment - 1) & !(alignment - 1)]. *)
Definition align_up (n alignment : Z) : Z :=
  Z.land (wrap64 (n + alignment - 1)) (USIZE_MAX - (alignment - 1)).

(** ** map.rs *)

(** The three error strings of [map_region]. *)
Inductive MapErr : Set := AlreadyMapped | NoFrame | MapToFailed.

Definition PRESENT : Z := 1.
Definition WRITABLE : Z := 2.
Definition USER_ACCESSIBLE : Z := 4.
Definition NO_EXECUTE : Z := 2 ^ 63.

Section Map.
Context {P A : Type} `{VirtOps} `{Mapper P A} `{FrameAllocator A}.

(** The loop of [map_region]. *)
Fixpoint map_pages (pages : list Z) (flags : Z) (p : P) (a : A)
    : Outcome (P * A * Result MapErr unit) :=
  match pages with
  | [] => Ret (p, a, Ok tt)
  | page :: pages =>
      if is_ok (translate_page p page) then Ret (p, a, Err AlreadyMapped) else
      let! x := alloc_frame a in
      match x with
      | (a, None) => Ret (p, a, Err NoFrame)
      | (a, Some frame) =>
          match map_to p page frame flags a with
          | (p, a, Err _) => Ret (p, a, Err MapToFailed)
          | (p, a, Ok _) => map_pages pages flags p a
          end
      end
  end.

Definition map_region (start len flags : Z) (p : P) (a : A)
    : Outcome (P * A * Result MapErr unit) :=
  if decide (Z.land flags PRESENT ≠ PRESENT) then Panic else
  let! e := va_add start len in
  let! end_addr := va_align_up e in
  map_pages (page_range start end_addr) flags p a.

Definition user_map_flags : Z :=
  Z.lor (Z.lor (Z.lor PRESENT USER_ACCESSIBLE) WRITABLE) NO_EXECUTE.

Definition user_map_region (start len : Z) (p : P) (a : A) :=
  map_region start len user_map_flags p a.

Definition kernel_map_flags : Z := Z.lor (Z.lor PRESENT WRITABLE) NO_EXECUTE.

Definition kernel_map_region (start len : Z) (p : P) (a : A) :=
  map_region start len kernel_map_flags p a.

(** The loop of [unmap_region]; the error is the debug string of the
    library's error. *)
Fixpoint unmap_pages (pages : list Z) (p : P) (a : A) : P * A * Result unit unit :=
  match pages with
  | [] => (p, a, Ok tt)
  | page :: pages =>
      match unmap p page with
      | (p, Err e) => (p, a, Err e)
      | (p, Ok frame) => unmap_pages pages p (dealloc_frame a frame)
      end
  end.

Definition unmap_region (start len : Z) (p : P) (a : A) : Outcome (P * A * Result unit unit) :=
  let! e := va_add start len in
  let! end_addr := va_align_up e in
  Ret (unmap_pages (page_range start end_addr) p a).

(** [unmap_region_from] keeps the frames. *)
Fixpoint unmap_pages_from (pages : list Z) (p : P) : P * Result unit unit :=
  match pages with
  | [] => (p, Ok tt)
  | page :: pages =>
      match unmap p page with
      | (p, Err e) => (p, Err e)
      | (p, Ok _) => unmap_pages_from pages p
      end
  end.

Definition unmap_region_from (start len : Z) (p : P) : Outcome (P * Result unit unit) :=
  let! e := va_add start len in
  let! end_addr := va_align_up e in
  Ret (unmap_pages_from (page_range start end_addr) p).

(** ** Kernel and user stacks *)

Inductive StackError : Set := StackNotBuilt | StackNotFreed.

Definition KSTACK_AREA_START : Z := 0xfffff000c0000000.
Definition KSTACK_SIZE : Z := 64 * 1024.
Definition MAX_KSTACKS : nat := Z.to_nat 512.
Definition USER_STACK_START : Z := 0x10000000.
Definition USER_STACK_SIZE : Z := 1024 * 1024.

(** [KSTACKS_IN_USAGE], [PAGETABLE] and the frame allocator. *)
Record StackState : Type := mkStacks {
  in_use : list bool;
  pagetable : P;
  frames : A
}.

(** [iter_mut().position(..)]: the first free slot is marked. *)
Fixpoint claim_slot (l : list bool) : option (nat * list bool) :=
  match l with
  | [] => None
  | false :: l => Some (O, true :: l)
  | true :: l => match claim_slot l with
                 | Some (i, l) => Some (S i, true :: l)
                 | None => None
                 end
  end.

(** [(end.as_u64() - 8) & !0xF]. *)
Definition stack_top (e : Z) : Z := Z.land (e - 8) (USIZE_MAX - 15).

Definition allocate_kstack (s : StackState) : Outcome (StackState * Result StackError Z) :=
  match claim_slot (in_use s) with
  | None => Ret (s, Err StackNotBuilt)
  | Some (idx, slots) =>
      let! b := va_add KSTACK_AREA_START (Z.of_nat idx * KSTACK_SIZE) in
      let! base := va_align_up b in
      let! st := va_add base PAGE in
      let! start := va_align_up st in
      let! en := va_add base KSTACK_SIZE in
      let! e := va_align_up en in
      let! len := va_diff e start in
      let! x := map_region start len (Z.lor WRITABLE PRESENT) (pagetable s) (frames s) in
      let '(p, a, r) := x in
      Ret (mkStacks slots p a,
           match r with Ok _ => Ok (stack_top e) | Err _ => Err StackNotBuilt end)
  end.

(** The index is a plain subtraction of [u64]. *)
Definition free_kstack (prof : Profile) (s : StackState) (top : Z) : Outcome (StackState * Result StackError unit) :=
  let! t := va_add top 1 in
  let! e := va_align_up t in
  let! base := va_sub e KSTACK_SIZE in
  let! st := va_add base PAGE in
  let! start := va_align_up st in
  let! off := usub prof base KSTACK_AREA_START in
  let idx := Z.to_nat (off / KSTACK_SIZE) in
  let! len := va_diff e start in
  let! x := unmap_region start len (pagetable s) (frames s) in
  let '(p, a, r) := x in
  match r with
  | Err _ => Ret (mkStacks (in_use s) p a, Err StackNotFreed)
  | Ok _ =>
      if decide (idx < length (in_use s))%nat
      then Ret (mkStacks (<[idx := false]> (in_use s)) p a, Ok tt)
      else Ret (mkStacks (in_use s) p a, Err StackNotFreed)
  end.

(** [allocate_userstack]; a misaligned start panics. *)
Definition allocate_userstack (p : P) (a : A) (start : Z) : Outcome (P * A * Result StackError Z) :=
  if decide (start mod PAGE ≠ 0) then Panic else
  let base := start in
  let! st := va_add base PAGE in
  let! start := va_align_up st in
  let! e := va_add base (align_up USER_STACK_SIZE PAGE) in
  let! len := va_diff e start in
  let! x := map_region start len (Z.lor (Z.lor WRITABLE PRESENT) USER_ACCESSIBLE) p a in
  let '(p, a, r) := x in
  Ret (p, a, match r with Ok _ => Ok (stack_top e) | Err _ => Err StackNotBuilt end).

Definition free_user_stack (prof : Profile) (top : Z) (p : P) (a : A) : Outcome (P * A * Result StackError unit) :=
  let! t := va_add top 1 in
  let! e := va_align_up t in
  let! base := va_sub e (align_up USER_STACK_SIZE PAGE) in
  let! st := va_add base PAGE in
  let! start := va_align_up st in
  let! len := usub prof e start in
  let! x := unmap_region start len p a in
  let '(p, a, r) := x in
  Ret (p, a, match r with Ok _ => Ok tt | Err _ => Err StackNotFreed end).

(** [unmap_ustack_mappings]; the length is that of constants. *)
Definition unmap_ustack_mappings (p : P) : Outcome P :=
  let! base := va_align_up USER_STACK_START in
  let! st := va_add base PAGE in
  let! start := va_align_up st in
  let! en := va_add base USER_STACK_SIZE in
  let! e := va_align_up en in
  let! x := unmap_region_from start (wrap64 (e - start)) p in
  Ret (fst x).

End Map.
Arguments StackState P A : clear implicits.

(** ** Mapping and unmapping *)

Section MapLemmas.
Context {P A : Type} `{VirtOps} `{MapperLaws P A} `{FrameAllocator A}.

Lemma not_mapped p pg : is_ok (translate_page p pg) = false → view p !! pg = None.
Proof. intros Ht. rewrite translate_view. by destruct (translate_page p pg). Qed.

(** [map_pages]: a prefix of the pages, all of them new, is mapped; the
    whole range on success. *)
Lemma map_pages_view pages flags (p : P) (a : A) p' a' r :
  map_pages pages flags p a = Ret (p', a', r) →
  ∃ m, view p' = m ∪ view p ∧ m ##ₘ view p ∧ (∀ pg, is_Some (m !! pg) → pg ∈ pages) ∧
    (r = Ok tt → ∀ pg, pg ∈ pages → is_Some (m !! pg)).
Proof.
  revert p a. induction pages as [|pg pages IH]; intros p a Hm; cbn [map_pages] in Hm.
  { injection Hm as <- <- <-. exists ∅. rewrite (left_id_L ∅ (∪)).
    split; [done|]. split; [apply map_disjoint_empty_l|]. split; [|set_solver].
    intros pg [f Hf]. by rewrite lookup_empty in Hf. }
  assert (Hnone : ∀ p1 e, view p1 = view p →
    ∃ m, view p1 = m ∪ view p ∧ m ##ₘ view p ∧ (∀ q, is_Some (m !! q) → q ∈ pg :: pages) ∧
      (@Err MapErr unit e = Ok tt → ∀ q, q ∈ pg :: pages → is_Some (m !! q))).
  { intros p1 e Hv. exists ∅. rewrite (left_id_L ∅ (∪)). split; [done|].
    split; [apply map_disjoint_empty_l|]. split; [|done].
    intros q [f Hf]. by rewrite lookup_empty in Hf. }
  destruct (is_ok (translate_page p pg)) eqn:Ht; [injection Hm as <- <- <-; by apply Hnone|].
  apply not_mapped in Ht.
  destruct (alloc_frame a) as [[a1 [f|]]| | |]; try done; cbn [obind] in Hm;
    [|injection Hm as <- <- <-; by apply Hnone].
  pose proof (map_to_view p pg f flags a1 Ht) as Hv.
  destruct (map_to p pg f flags a1) as [[p1 a2] [u|u]]; cbn [is_ok] in Hv;
    [|injection Hm as <- <- <-; by apply Hnone].
  destruct (IH p1 a2 Hm) as (m & Hm1 & Hd & Hin & Hall). rewrite Hv in Hm1, Hd.
  exists (<[pg := f]> m). apply map_disjoint_insert_r in Hd as [Hpg Hd].
  split; [by rewrite Hm1, <-insert_union_r, insert_union_l|].
  split; [by apply map_disjoint_insert_l|].
  split.
  - intros q Hq. apply lookup_insert_is_Some in Hq as [->|[_ Hq]]; [set_solver|].
    apply elem_of_cons. right. by apply Hin.
  - intros Hr q Hq. apply lookup_insert_is_Some'. apply elem_of_cons in Hq as [->|Hq]; [by left|].
    right. by apply Hall.
Qed.

(** Unmapping pages that are all mapped. *)
Lemma unmap_pages_view pages (p : P) (a : A) :
  NoDup pages → (∀ pg, pg ∈ pages → is_Some (view p !! pg)) →
  ∃ p' a', unmap_pages pages p a = (p', a', Ok tt) ∧
    ∀ q, view p' !! q = if decide (q ∈ pages) then None else view p !! q.
Proof.
  revert p a. induction pages as [|pg pages IH]; intros p a Hnd Hall; cbn [unmap_pages].
  { exists p, a. split; [done|]. intros q. rewrite decide_False by set_solver. done. }
  apply NoDup_cons in Hnd as [Hpg Hnd]. pose proof (unmap_view p pg) as Hu.
  destruct (Hall pg) as [f Hf]; [set_solver|].
  destruct (unmap p pg) as [p1 [f1|e]]; [|by destruct Hu; congruence].
  destruct Hu as [Hf1 Hv].
  destruct (IH p1 (dealloc_frame a f1) Hnd) as (p' & a' & Hun & Hq).
  - intros q Hq. rewrite Hv, lookup_delete_ne by set_solver. apply Hall. set_solver.
  - exists p', a'. split; [done|]. intros q. rewrite Hq, Hv.
    destruct (decide (q = pg)) as [->|Hne].
    + rewrite lookup_delete_eq, (decide_True (P := pg ∈ pg :: pages)) by set_solver. by case_decide.
    + rewrite lookup_delete_ne by done.
      destruct (decide (q ∈ pages)); [rewrite decide_True by set_solver|rewrite decide_False by set_solver]; done.
Qed.

End MapLemmas.

(** ** Masks *)

Lemma land_high_mask x k :
  0 <= k <= 64 → 0 <= x < 2 ^ 64 → Z.land x (2 ^ 64 - 2 ^ k) = x / 2 ^ k * 2 ^ k.
Proof.
  intros Hk Hx.
  assert (Hmask : 2 ^ 64 - 2 ^ k = Z.shiftl (Z.ones (64 - k)) k).
  { rewrite Z.shiftl_mul_pow2, Z.ones_equiv by lia.
    replace (2 ^ 64) with (2 ^ (64 - k) * 2 ^ k) by (rewrite <-Z.pow_add_r by lia; f_equal; lia). lia. }
  rewrite Hmask, <-Z.shiftr_div_pow2, <-Z.shiftl_mul_pow2 by lia.
  apply Z.bits_inj'. intros n Hn. rewrite Z.land_spec, !Z.shiftl_spec by done.
  destruct (decide (n < k)).
  - rewrite !(Z.testbit_neg_r _ (n - k)) by lia. by rewrite andb_false_r.
  - rewrite Z.shiftr_spec by lia. replace (n - k + k) with n by lia.
    rewrite Z.testbit_ones_nonneg by lia.
    destruct (n - k <? 64 - k) eqn:Hlt; [by rewrite andb_true_r|].
    apply Z.ltb_ge in Hlt. rewrite andb_false_r. symmetry. apply Z.bits_above_log2; [lia|].
    destruct (decide (x = 0)) as [->|]; [simpl; lia|]. apply Z.log2_lt_pow2; [lia|].
    apply Z.lt_le_trans with (2 ^ 64); [lia|]. apply Z.pow_le_mono_r; lia.
Qed.

(** [align_up] rounds up to a multiple of a power of two. *)
Lemma align_up_spec n k :
  0 <= k <= 64 → 0 <= n → n + 2 ^ k - 1 < 2 ^ 64 → align_up n (2 ^ k) = (n + 2 ^ k - 1) / 2 ^ k * 2 ^ k.
Proof.
  intros Hk Hn Hlt. assert (0 < 2 ^ k) by (apply Z.pow_pos_nonneg; lia).
  unfold align_up, wrap64, wrap, USIZE_MAX. rewrite Z.mod_small by lia.
  replace (2 ^ 64 - 1 - (2 ^ k - 1)) with (2 ^ 64 - 2 ^ k) by lia. apply land_high_mask; lia.
Qed.

(** The top of a page-aligned stack is its last 16-byte slot. *)
Lemma stack_top_aligned e : 16 <= e < 2 ^ 64 → e mod 16 = 0 → stack_top e = e - 16.
Proof.
  intros He Hm. unfold stack_top, USIZE_MAX.
  replace (2 ^ 64 - 1 - 15) with (2 ^ 64 - 2 ^ 4) by reflexivity. rewrite land_high_mask by lia.
  apply Z.mod_divide in Hm as [q ->]; [|lia]. change (2 ^ 4) with 16.
  replace (q * 16 - 8) with (8 + (q - 1) * 16) by lia. rewrite Z.div_add by lia.
  change (8 / 16) with 0. lia.
Qed.

(** ** Kernel stacks *)

Lemma claim_slot_spec l i l' :
  claim_slot l = Some (i, l') →
  l !! i = Some false ∧ (∀ j, (j < i)%nat → l !! j = Some true) ∧ l' = <[i := true]> l.
Proof.
  revert i l'. induction l as [|[|] l IH]; intros i l' Hc; simpl in Hc; [done| |].
  - destruct (claim_slot l) as [[i0 l0]|]; [|done]. injection Hc as <- <-.
    destruct (IH i0 l0 eq_refl) as (H1 & H2 & ->). split; [done|]. split; [|done].
    intros [|j] Hj; [done|]. apply H2. lia.
  - injection Hc as <- <-. split; [done|]. split; [lia|done].
Qed.

Lemma claim_slot_None l : claim_slot l = None → Forall (λ b, b = true) l.
Proof.
  induction l as [|[|] l IH]; simpl; intros Hc; [done| |done].
  constructor; [done|]. apply IH. by destruct (claim_slot l) as [[? ?]|].
Qed.

(** The area of slot [i]: a guard page, then the stack. *)
Definition slot_base (i : nat) : Z := KSTACK_AREA_START + Z.of_nat i * KSTACK_SIZE.
Definition slot_pages (i : nat) : list Z := pages_from (slot_base i + PAGE) 15.

Lemma slot_facts i :
  (i < MAX_KSTACKS)%nat →
  aligned (slot_base i) ∧ aligned (slot_base i + PAGE) ∧ aligned (slot_base i + KSTACK_SIZE) ∧
  2 ^ 64 - 2 ^ 47 + PAGE <= slot_base i ∧ slot_base i + KSTACK_SIZE < 2 ^ 64 - PAGE.
Proof.
  unfold MAX_KSTACKS, slot_base, aligned, PAGE, KSTACK_AREA_START, KSTACK_SIZE. intros Hi.
  assert (Z.of_nat i < 512) by lia.
  split; [|split; [|split]]; [| | |lia].
  - replace (_ + _) with ((0xfffff000c0000 + Z.of_nat i * 16) * 4096) by lia. apply Z_mod_mult.
  - replace (_ + _ + _) with ((0xfffff000c0001 + Z.of_nat i * 16) * 4096) by lia. apply Z_mod_mult.
  - replace (_ + _ + _) with ((0xfffff000c0010 + Z.of_nat i * 16) * 4096) by lia. apply Z_mod_mult.
Qed.

Lemma pages_from_NoDup a n : NoDup (pages_from a n).
Proof.
  unfold pages_from. apply NoDup_fmap_2; [|apply NoDup_seq].
  intros i j Hij. unfold PAGE in Hij. lia.
Qed.

Section Kstack.
Context {P A : Type} `{VirtLaws} `{MapperLaws P A} `{FrameAllocator A}.

Lemma align_up_aligned a : aligned a → canonical a → va_align_up a = Ret a.
Proof.
  intros Ha Hc. rewrite <-(Z.sub_0_r a) at 1. apply va_align_up_spec; [done| |done|].
  - unfold PAGE. lia.
  - by rewrite Z.sub_0_r.
Qed.

Lemma slot_canonical i d :
  (i < MAX_KSTACKS)%nat → - PAGE <= d <= KSTACK_SIZE → canonical (slot_base i + d).
Proof. intros Hi Hd. destruct (slot_facts i Hi) as (_ & _ & _ & Hlo & Hhi).
  right. unfold PAGE in *. lia. Qed.

Ltac slot :=
  first [ done | apply slot_canonical; [done|unfold PAGE, KSTACK_SIZE; lia]
        | unfold PAGE, KSTACK_SIZE; lia ].

(** Address arithmetic inside a slot does not panic. *)
Lemma slot_add i d b :
  (i < MAX_KSTACKS)%nat → - PAGE <= d → 0 <= b → d + b <= KSTACK_SIZE →
  va_add (slot_base i + d) b = Ret (slot_base i + (d + b)).
Proof.
  intros Hi Hd Hb Hs. destruct (slot_facts i Hi) as (_ & _ & _ & Hlo & Hhi).
  rewrite va_add_canonical; [f_equal; lia|apply slot_canonical; [done|lia]|done| |].
  - rewrite <-Z.add_assoc. apply slot_canonical; [done|lia].
  - unfold PAGE, KSTACK_SIZE in *. lia.
Qed.

Lemma slot_add0 i b :
  (i < MAX_KSTACKS)%nat → 0 <= b <= KSTACK_SIZE → va_add (slot_base i) b = Ret (slot_base i + b).
Proof.
  intros Hi Hb. pose proof (slot_add i 0 b Hi) as Ha. rewrite Z.add_0_r, Z.add_0_l in Ha.
  apply Ha; unfold PAGE; lia.
Qed.

Lemma slot_map_region i flags p a :
  (i < MAX_KSTACKS)%nat → Z.land flags PRESENT = PRESENT →
  map_region (slot_base i + PAGE) (KSTACK_SIZE - PAGE) flags p a = map_pages (slot_pages i) flags p a.
Proof.
  intros Hi Hf. destruct (slot_facts i Hi) as (_ & Hal1 & Hal2 & Hlo & Hhi).
  unfold map_region. rewrite decide_False by tauto.
  rewrite slot_add by slot. cbn [obind].
  replace (PAGE + (KSTACK_SIZE - PAGE)) with KSTACK_SIZE by lia.
  rewrite align_up_aligned by slot.
  cbn [obind]. f_equal. replace (slot_base i + KSTACK_SIZE) with (slot_base i + PAGE + PAGE * Z.of_nat 15)
    by (unfold PAGE, KSTACK_SIZE; lia).
  apply page_range_spec; slot.
Qed.

Lemma slot_unmap_region i p a :
  (i < MAX_KSTACKS)%nat →
  unmap_region (slot_base i + PAGE) (KSTACK_SIZE - PAGE) p a = Ret (unmap_pages (slot_pages i) p a).
Proof.
  intros Hi. destruct (slot_facts i Hi) as (_ & Hal1 & Hal2 & Hlo & Hhi). unfold unmap_region.
  rewrite slot_add by slot. cbn [obind].
  replace (PAGE + (KSTACK_SIZE - PAGE)) with KSTACK_SIZE by lia.
  rewrite align_up_aligned by slot.
  cbn [obind]. do 2 f_equal. replace (slot_base i + KSTACK_SIZE) with (slot_base i + PAGE + PAGE * Z.of_nat 15)
    by (unfold PAGE, KSTACK_SIZE; lia).
  apply page_range_spec; slot.
Qed.

Definition slot_top (i : nat) : Z := slot_base i + KSTACK_SIZE - 16.

Lemma slot_top_spec i : (i < MAX_KSTACKS)%nat → stack_top (slot_base i + KSTACK_SIZE) = slot_top i.
Proof.
  intros Hi. destruct (slot_facts i Hi) as (_ & _ & Hal & Hlo & Hhi). apply stack_top_aligned.
  - unfold PAGE, KSTACK_SIZE in *. lia.
  - unfold aligned, PAGE in Hal. apply Z.mod_divide in Hal as [q ->]; [|lia].
    replace (q * 4096) with (q * 256 * 16) by lia. apply Z_mod_mult.
Qed.

Lemma allocate_kstack_eq s i slots :
  length (in_use s) = MAX_KSTACKS → claim_slot (in_use s) = Some (i, slots) →
  allocate_kstack s =
  let! x := map_pages (slot_pages i) (Z.lor WRITABLE PRESENT) (pagetable s) (frames s) in
  let '(p, a, r) := x in
  Ret (mkStacks slots p a, match r with Ok _ => Ok (slot_top i) | Err _ => Err StackNotBuilt end).
Proof.
  intros Hlen Hc. destruct (claim_slot_spec _ _ _ Hc) as (Hi & _ & _).
  apply lookup_lt_Some in Hi. rewrite Hlen in Hi.
  destruct (slot_facts i Hi) as (Hal0 & Hal1 & Hal2 & Hlo & Hhi).
  unfold allocate_kstack. rewrite Hc.
  assert (Hbase : va_add KSTACK_AREA_START (Z.of_nat i * KSTACK_SIZE) = Ret (slot_base i)).
  { unfold slot_base in *. apply va_add_canonical; unfold canonical, PAGE, KSTACK_AREA_START, KSTACK_SIZE in *; lia. }
  assert (Hc0 : canonical (slot_base i)) by (rewrite <-(Z.add_0_r (slot_base i)); slot).
  rewrite Hbase. cbn [obind]. rewrite align_up_aligned by done. cbn [obind].
  rewrite slot_add0 by slot. cbn [obind]. rewrite align_up_aligned by slot. cbn [obind].
  rewrite slot_add0 by slot. cbn [obind]. rewrite align_up_aligned by slot. cbn [obind].
  rewrite va_diff_le by (unfold PAGE, KSTACK_SIZE; lia). cbn [obind].
  replace (slot_base i + KSTACK_SIZE - (slot_base i + PAGE)) with (KSTACK_SIZE - PAGE) by lia.
  rewrite slot_map_region by done. by rewrite slot_top_spec.
Qed.

Lemma free_kstack_eq prof s i :
  length (in_use s) = MAX_KSTACKS → (i < MAX_KSTACKS)%nat →
  free_kstack prof s (slot_top i) =
  let '(p, a, r) := unmap_pages (slot_pages i) (pagetable s) (frames s) in
  Ret (match r with
       | Err _ => (mkStacks (in_use s) p a, Err StackNotFreed)
       | Ok _ => (mkStacks (<[i := false]> (in_use s)) p a, Ok tt)
       end).
Proof.
  intros Hlen Hi. destruct (slot_facts i Hi) as (Hal0 & Hal1 & Hal2 & Hlo & Hhi).
  unfold free_kstack, slot_top.
  replace (slot_base i + KSTACK_SIZE - 16) with (slot_base i + (KSTACK_SIZE - 16)) by lia.
  rewrite slot_add by slot. cbn [obind].
  replace (slot_base i + (KSTACK_SIZE - 16 + 1)) with (slot_base i + KSTACK_SIZE - 15) by lia.
  rewrite va_align_up_spec; [|done|unfold PAGE; lia|slot|];
    [|replace (slot_base i + KSTACK_SIZE - 15) with (slot_base i + (KSTACK_SIZE - 15)) by lia; slot].
  cbn [obind].
  assert (Hc0 : canonical (slot_base i)) by (rewrite <-(Z.add_0_r (slot_base i)); slot).
  rewrite va_sub_canonical; [|slot|slot|..];
    replace (slot_base i + KSTACK_SIZE - KSTACK_SIZE) with (slot_base i) by lia;
    [|done|unfold PAGE, KSTACK_SIZE in *; lia].
  cbn [obind]. rewrite slot_add0 by slot. cbn [obind]. rewrite align_up_aligned by slot. cbn [obind].
  assert (Hoff : usub prof (slot_base i) KSTACK_AREA_START = Ret (Z.of_nat i * KSTACK_SIZE)).
  { unfold usub, slot_base. replace (_ + _ - _) with (Z.of_nat i * KSTACK_SIZE) by lia.
    apply uarith_in_range. unfold in_usize, USIZE_MAX, KSTACK_SIZE, MAX_KSTACKS in *. lia. }
  rewrite Hoff. cbn [obind].
  rewrite va_diff_le by (unfold PAGE, KSTACK_SIZE; lia). cbn [obind].
  replace (slot_base i + KSTACK_SIZE - (slot_base i + PAGE)) with (KSTACK_SIZE - PAGE) by lia.
  rewrite slot_unmap_region by done. cbn [obind].
  assert (Hidx : Z.to_nat (Z.of_nat i * KSTACK_SIZE / KSTACK_SIZE) = i).
  { rewrite Z.div_mul by (unfold KSTACK_SIZE; lia). lia. }
  rewrite Hidx. destruct (unmap_pages _ _ _) as [[p a] [u|u]]; [|done].
  by rewrite decide_True by lia.
Qed.

Lemma elem_of_pages_from x a n :
  x ∈ pages_from a n ↔ ∃ k, (k < n)%nat ∧ x = a + PAGE * Z.of_nat k.
Proof.
  unfold pages_from. rewrite list_elem_of_fmap. split.
  - intros (k & -> & Hk%elem_of_seq). exists k. split; [lia|done].
  - intros (k & Hk & ->). exists k. split; [done|]. apply elem_of_seq. lia.
Qed.

(** Stacks of different slots share no page and guard pages stay out. *)
Lemma slot_disjoint i j pg :
  pg ∈ slot_pages i → (pg ∈ slot_pages j → i = j) ∧ pg ≠ slot_base j.
Proof.
  unfold slot_pages. rewrite !elem_of_pages_from. unfold slot_base, PAGE, KSTACK_SIZE.
  intros (k & Hk & ->). split; [intros (k' & Hk' & He)|intros He]; lia.
Qed.

(** C28: allocating a kernel stack takes the first free slot, maps the 15
    pages above its guard page to frames, touches no other mapping (so no
    other stack and no guard page), and returns its top; freeing that top
    finds the same slot again, and slots and mappings are what they were
    before. *)
Theorem kstack_roundtrip (s s1 : StackState P A) top :
  length (in_use s) = MAX_KSTACKS → allocate_kstack s = Ret (s1, Ok top) →
  ∃ i, in_use s !! i = Some false ∧ (∀ j, (j < i)%nat → in_use s !! j = Some true) ∧
    top = slot_top i ∧ in_use s1 = <[i := true]> (in_use s) ∧
    (∀ pg, if decide (pg ∈ slot_pages i)
           then view (pagetable s) !! pg = None ∧ is_Some (view (pagetable s1) !! pg) ∧
                (∀ j, (pg ∈ slot_pages j → i = j) ∧ pg ≠ slot_base j)
           else view (pagetable s1) !! pg = view (pagetable s) !! pg) ∧
    ∀ prof, ∃ s2, free_kstack prof s1 top = Ret (s2, Ok tt) ∧ in_use s2 = in_use s ∧
      view (pagetable s2) = view (pagetable s).
Proof.
  intros Hlen Ha. destruct (claim_slot (in_use s)) as [[i slots]|] eqn:Hc;
    [|unfold allocate_kstack in Ha; by rewrite Hc in Ha].
  rewrite (allocate_kstack_eq s i slots Hlen Hc) in Ha.
  destruct (claim_slot_spec _ _ _ Hc) as (Hi & Hfirst & ->).
  destruct (map_pages _ _ _ _) as [[[p a] [[]|e]]| | |] eqn:Hm; try done.
  cbn [obind] in Ha. injection Ha as <- <-. exists i. cbn [in_use pagetable].
  destruct (map_pages_view _ _ _ _ _ _ _ Hm) as (m & Hv & Hd & Hin & Hall).
  assert (Hmap : ∀ pg, pg ∈ slot_pages i → view (pagetable s) !! pg = None ∧ is_Some (view p !! pg)).
  { intros pg Hpg. destruct (Hall eq_refl pg Hpg) as [f Hf]. split.
    - by eapply map_disjoint_Some_r.
    - exists f. rewrite Hv. by apply lookup_union_Some_l. }
  assert (Hout : ∀ pg, ¬ (pg ∈ slot_pages i) → view p !! pg = view (pagetable s) !! pg).
  { intros pg Hpg. rewrite Hv. apply lookup_union_r. destruct (m !! pg) eqn:Hpm; [|done].
    destruct Hpg. apply Hin. by rewrite Hpm. }
  do 4 (split; [done|]). split.
  - intros pg. case_decide as Hpg; [|by apply Hout].
    destruct (Hmap pg Hpg). do 2 (split; [done|]). intros j. by apply slot_disjoint.
  - intros prof. apply lookup_lt_Some in Hi as Hlt. rewrite free_kstack_eq by (cbn [in_use]; rewrite ?length_insert; lia).
    cbn [in_use pagetable frames].
    destruct (unmap_pages_view (slot_pages i) p a) as (p' & a' & -> & Hq);
      [apply pages_from_NoDup|intros pg Hpg; by apply Hmap|].
    eexists. split; [done|]. cbn [in_use pagetable]. split.
    + rewrite list_insert_insert_eq. by apply list_insert_id.
    + apply map_eq. intros q. rewrite Hq. case_decide as Hin'; [|by apply Hout].
      by destruct (Hmap q Hin') as [-> _].
Qed.

(** When mapping a kernel stack fails, its slot stays marked although no
    stack exists and no caller learns its address: every failure costs one
    of the [MAX_KSTACKS] slots for good, and pages mapped before the failure
    stay mapped. *)
Lemma kstack_failure_leaks (s s1 : StackState P A) e :
  length (in_use s) = MAX_KSTACKS → false ∈ in_use s → allocate_kstack s = Ret (s1, Err e) →
  e = StackNotBuilt ∧
  ∃ i m, in_use s !! i = Some false ∧ in_use s1 = <[i := true]> (in_use s) ∧
    view (pagetable s1) = m ∪ view (pagetable s) ∧ (∀ pg, is_Some (m !! pg) → pg ∈ slot_pages i).
Proof.
  intros Hlen Hfree Ha. destruct (claim_slot (in_use s)) as [[i slots]|] eqn:Hc.
  - rewrite (allocate_kstack_eq s i slots Hlen Hc) in Ha.
    destruct (claim_slot_spec _ _ _ Hc) as (Hi & _ & ->).
    destruct (map_pages _ _ _ _) as [[[p a] [[]|e']]| | |] eqn:Hm; try done.
    cbn [obind] in Ha. injection Ha as <- <-.
    destruct (map_pages_view _ _ _ _ _ _ _ Hm) as (m & Hv & _ & Hin & _).
    split; [done|]. exists i, m. done.
  - apply claim_slot_None in Hc. rewrite Forall_forall in Hc. by specialize (Hc false Hfree).
Qed.

End Kstack.

(** ** Instances for the witnesses

    Address arithmetic with the documented checks, a page table that is a
    map, and an allocator that is a list of frames. *)
Definition canonicalb (a : Z) : bool :=
  bool_decide (0 <= a < 2 ^ 47) || bool_decide (2 ^ 64 - 2 ^ 47 <= a < 2 ^ 64).

Definition checked_va (a : Z) : Outcome Z := if canonicalb a then Ret a else Panic.

Lemma checked_va_canonical a : canonical a → checked_va a = Ret a.
Proof.
  unfold canonical, checked_va, canonicalb. intros Ha.
  repeat case_bool_decide; simpl; try done. lia.
Qed.

#[export] Instance VirtOps_ref : VirtOps := {
  va_new a := checked_va a;
  va_align_down a := a - a mod PAGE;
  va_add a b := checked_va (a + b);
  va_sub a b := checked_va (a - b);
  va_diff a b := if decide (b <= a) then Ret (a - b) else Panic;
  va_align_up a := checked_va ((a + PAGE - 1) / PAGE * PAGE);
  page_range a b := pages_from (a / PAGE * PAGE) (Z.to_nat (b / PAGE - a / PAGE))
}.

#[export] Instance VirtLaws_ref : VirtLaws.
Proof.
  constructor; simpl.
  - intros. by apply checked_va_canonical.
  - intros a Ha Hc. unfold checked_va, canonicalb, canonical in *.
    rewrite !bool_decide_false by tauto. done.
  - done.
  - intros. by apply checked_va_canonical.
  - intros. by apply checked_va_canonical.
  - intros. by rewrite decide_True.
  - intros a n Ha Hn Hc _. rewrite <-(checked_va_canonical a Hc). f_equal.
    unfold aligned, PAGE in *. apply Z.mod_divide in Ha as [q ->]; [|lia]. f_equal.
    symmetry. apply Z.div_unique with (4095 - n); lia.
  - intros a n Ha _. unfold aligned, PAGE in *. apply Z.mod_divide in Ha as [q ->]; [|lia].
    replace (q * 4096 + 4096 * Z.of_nat n) with ((q + Z.of_nat n) * 4096) by lia.
    rewrite !Z.div_mul by lia. f_equal. lia.
  - intros a b _. unfold PAGE.
    replace (a - a mod 4096) with (a / 4096 * 4096) by (rewrite Z.mod_eq by lia; lia).
    by rewrite !Z.div_mul by lia.
Defined.

#[export] Instance list_FrameAllocator : FrameAllocator (list Z) := {
  alloc_frame a := Ret (match a with [] => ([], None) | f :: a => (a, Some f) end);
  dealloc_frame a f := f :: a
}.

#[export] Instance gmap_Mapper : Mapper (gmap Z Z) (list Z) := {
  translate_page p pg := match p !! pg with Some f => Ok f | None => Err PageNotMapped end;
  map_to p pg f _ a := match p !! pg with
                       | Some _ => (p, a, Err tt)
                       | None => (<[pg := f]> p, a, Ok tt)
                       end;
  unmap p pg := match p !! pg with Some f => (delete pg p, Ok f) | None => (p, Err tt) end
}.

#[export] Instance gmap_MapperLaws : MapperLaws (gmap Z Z) (list Z).
Proof.
  refine {| view := λ p : gmap Z Z, p |}; simpl.
  - intros p pg. by destruct (p !! pg).
  - intros p pg f _ a Hn. by rewrite Hn.
  - intros p pg. by destruct (p !! pg) eqn:Hp.
Defined.

Definition fresh_stacks (a : list Z) : StackState (gmap Z Z) (list Z) :=
  mkStacks (replicate MAX_KSTACKS false) ∅ a.

Lemma kstack_roundtrip_witness :
  ∃ s1 top s2, allocate_kstack (fresh_stacks (pages_from 0 20)) = Ret (s1, Ok top) ∧
    top = slot_top 0 ∧ free_kstack Release s1 top = Ret (s2, Ok tt) ∧ view (pagetable s2) = ∅.
Proof.
  assert (Ha : ∃ s1 top, allocate_kstack (fresh_stacks (pages_from 0 20)) = Ret (s1, Ok top))
    by (eexists _, _; vm_compute; reflexivity).
  destruct Ha as (s1 & top & Ha).
  destruct (kstack_roundtrip (fresh_stacks (pages_from 0 20)) s1 top)
    as (i & Hi & Hfirst & Htop & Hslots & _ & Hfree); [reflexivity|exact Ha|].
  destruct (Hfree Release) as (s2 & Hf & _ & Hv).
  exists s1, top, s2. split; [exact Ha|]. split; [|by split].
  destruct i as [|i]; [exact Htop|]. discriminate (Hfirst 0%nat ltac:(lia)).
Defined.

Lemma kstack_failure_leaks_witness :
  ∃ s1, allocate_kstack (fresh_stacks []) = Ret (s1, Err StackNotBuilt) ∧
    ∃ i, in_use s1 = <[i := true]> (replicate MAX_KSTACKS false).
Proof.
  assert (Ha : ∃ s1, allocate_kstack (fresh_stacks []) = Ret (s1, Err StackNotBuilt))
    by (eexists; vm_compute; reflexivity).
  destruct Ha as (s1 & Ha). exists s1. split; [exact Ha|].
  destruct (kstack_failure_leaks (fresh_stacks []) s1 StackNotBuilt)
    as (_ & i & m & _ & Hs & _); [reflexivity| |exact Ha|by exists i].
  apply list_elem_of_here.
Defined.
