(* ===== verification/Mmap.v ===== *)
(** Sharing mappings and the mapping system calls: [map_region_into]
    (kernel/src/kernel/mem/paging/map.rs), [copy_ustack_mappings_into]
    (kernel/src/arch/x86/context/mod.rs), [mmap] and [munmap]
    (kernel/src/kernel/abi/syscalls/funcs.rs).

    Page tables, addresses and frames are the interfaces of Paging.v.  The
    donor of [map_region_into] is a function of the table being changed: in
    [mmap] both arguments are the page table of the calling process, in the
    other uses the donor is another table. *)
From S2P Require Import Prelude Abi Tasks Syscalls FrameAlloc Paging.
Open Scope Z_scope.

(** ** Interfaces *)

(** Physical addresses of the library: [PhysAddr::new] and
    [PhysFrame::range] of the frames containing two addresses. *)
Class PhysRange := {
  phys_new : Z → Outcome Z;
  frame_range : Z → Z → list Z
}.

Class PhysRangeLaws `{PhysRange} := {
  phys_new_small : ∀ a, 0 <= a < 2 ^ 52 → phys_new a = Ret a;
  frame_range_spec : ∀ a b, 0 <= a → 0 <= b →
    frame_range a b = pages_from (a / PAGE * PAGE) (Z.to_nat (b / PAGE - a / PAGE))
}.

#[export] Instance PhysRange_ref : PhysRange := {
  phys_new a := if decide (0 <= a < 2 ^ 52) then Ret a else Panic;
  frame_range a b := pages_from (a / PAGE * PAGE) (Z.to_nat (b / PAGE - a / PAGE))
}.

#[export] Instance PhysRangeLaws_ref : PhysRangeLaws.
Proof. constructor; [|done]. intros a Ha. simpl. by rewrite decide_True. Qed.

(** ** map.rs: [map_region_into] *)

(** The error strings. *)
Inductive IntoErr : Set :=
| IntoAlreadyMapped | IntoMapFailed | IntoHugeBelow | IntoHugeFailed | IntoNotFound.

Definition HUGE : Z := 2 ^ 21.

Section Into.
Context {prof : Profile} {P A : Type} `{VirtOps} `{PhysRange} `{Mapper P A} `{FrameAllocator A}.
Context (hhdm phys_offset : Z).

(** The inner [for] loop: consecutive frames from the page [to_page] on. *)
Fixpoint map_frames (to_page i : Z) (frames : list Z) (flags : Z) (p : P) (a : A)
    : Outcome (P * A * Result IntoErr unit) :=
  match frames with
  | [] => Ret (p, a, Ok tt)
  | frame :: frames =>
      let! virt_addr := va_add to_page (i * PAGE) in
      match map_to p (va_align_down virt_addr) frame flags a with
      | (p, a, Err _) => Ret (p, a, Err IntoHugeFailed)
      | (p, a, Ok _) => map_frames to_page (i + 1) frames flags p a
      end
  end.

(** The [while let] loop; every round takes a page from both iterators, so
    one round per page is enough fuel. *)
Fixpoint into_loop (fuel : nat) (donor : P → Z → Result TranslateError Z)
    (from_iter to_iter : list Z) (mapped_so_far len flags : Z) (p : P) (a : A)
    : Outcome (P * A * Result IntoErr unit) :=
  match fuel with
  | O => NoFuel
  | S fuel =>
      match from_iter, to_iter with
      | from_page :: from_iter, to_page :: to_iter =>
          if is_ok (translate_page p to_page) then Ret (p, a, Err IntoAlreadyMapped)
          else
            match donor p from_page with
            | Ok frame =>
                match map_to p to_page frame flags a with
                | (p, a, Err _) => Ret (p, a, Err IntoMapFailed)
                | (p, a, Ok _) =>
                    let! mapped := uadd prof mapped_so_far PAGE in
                    into_loop fuel donor from_iter to_iter mapped len flags p a
                end
            | Err ParentEntryHugePage =>
                if from_page <? hhdm then Ret (p, a, Err IntoHugeBelow)
                else
                  let! phys_start := usub prof from_page phys_offset in
                  let! rest := usub prof len mapped_so_far in
                  let! phys_end := uadd prof phys_start (Z.min HUGE rest) in
                  let n_pages := Z.min HUGE rest / PAGE in
                  let! f1 := phys_new phys_start in
                  let! f2 := phys_new phys_end in
                  let! x := map_frames to_page 0 (frame_range f1 f2) flags p a in
                  match x with
                  | (p, a, Err e) => Ret (p, a, Err e)
                  | (p, a, Ok _) =>
                      let! mapped := uadd prof mapped_so_far (Z.min HUGE rest) in
                      let skip := Z.to_nat (n_pages - 1) in
                      into_loop fuel donor (drop skip from_iter) (drop skip to_iter)
                        mapped len flags p a
                  end
            | Err _ => Ret (p, a, Err IntoNotFound)
            end
      | _, _ => Ret (p, a, Ok tt)
      end
  end.

Definition map_region_into (start len flags : Z) (from : Z)
    (donor : P → Z → Result TranslateError Z) (p : P) (a : A)
    : Outcome (P * A * Result IntoErr Z) :=
  if decide (Z.land flags PRESENT ≠ PRESENT) then Panic else
  let! e := va_add start len in
  let! end_addr := va_align_up e in
  let! fe := va_add from len in
  let! from_end_addr := va_align_up fe in
  let! offset_to_page_start := va_diff from (va_align_down from) in
  let! mapped_addr := va_add start offset_to_page_start in
  let to_iter := page_range start end_addr in
  let! x := into_loop (S (length to_iter)) donor (page_range from from_end_addr) to_iter
              0 len flags p a in
  let '(p, a, r) := x in
  Ret (p, a, match r with Ok _ => Ok mapped_addr | Err e => Err e end).

(** ** context/mod.rs: [copy_ustack_mappings_into] *)

Fixpoint copy_pages (donor : Z → Result TranslateError Z) (pages : list Z) (flags : Z)
    (p : P) (a : A) : Outcome (P * A) :=
  match pages with
  | [] => Ret (p, a)
  | page :: pages =>
      match donor page with
      | Err _ => Panic
      | Ok frame =>
          match map_to p page frame flags a with
          | (_, _, Err _) => Panic
          | (p, a, Ok _) => copy_pages donor pages flags p a
          end
      end
  end.

Definition copy_ustack_mappings_into (donor : Z → Result TranslateError Z) (p : P) (a : A)
    : Outcome (P * A) :=
  let flags := Z.lor (Z.lor WRITABLE PRESENT) USER_ACCESSIBLE in
  let! base := va_align_up USER_STACK_START in
  let! st := va_add base PAGE in
  let! start := va_align_up st in
  let! en := va_add base USER_STACK_SIZE in
  let! e := va_align_up en in
  copy_pages donor (page_range start e) flags p a.

(** ** funcs.rs: [mmap] and [munmap] *)

(** The address space of the calling process: [next_free_addr] and the page
    table of its core, and the frame allocator. *)
Record Space : Type := mkSpace { next_addr : Z; pagedir : P; falloc : A }.

(** [align_up(n, Size4KiB::SIZE)] with the overflow check of its sum. *)
Definition align_up_page (n : Z) : Outcome Z :=
  let! _ := uadd prof n PAGE in Ret (align_up n PAGE).

(** [fetch_update]: the old value is returned. *)
Definition fetch_next (s : Space) (len : Z) : Outcome (Space * Z) :=
  let! al := align_up_page (next_addr s) in
  let! next := uadd prof al len in
  Ret (mkSpace next (pagedir s) (falloc s), next_addr s).

(** The [compare_exchange] of the error paths. *)
Definition give_back (s : Space) (addr len : Z) : Outcome Space :=
  let! al := align_up_page addr in
  let! next := uadd prof al len in
  Ret (if decide (next_addr s = next) then mkSpace addr (pagedir s) (falloc s) else s).

(** [raw_parts fd]: [current.fd(fd)] and [as_raw_parts] of that file. *)
Definition mmap (raw_parts : Z → option (Z * Z)) (s : Space) (len addr flags fd : Z)
    : Outcome (Space * Result SysErrCode Z) :=
  let! ok := valid_ptr prof hhdm addr len 1 in
  let! sa := (if ok : bool then Ret (s, addr) else fetch_next s len) in
  let '(s, addr) := sa in
  let! v := va_new addr in
  let! base_addr := va_align_up v in
  if decide (0 <= fd) then
    match raw_parts fd with
    | None => Ret (s, Err BadFd)
    | Some (from, true_len) =>
        let! from := va_new from in
        let! x := map_region_into base_addr (Z.min len true_len) flags from translate_page
                    (pagedir s) (falloc s) in
        let '(p, a, r) := x in
        let s := mkSpace (next_addr s) p a in
        match r with
        | Err _ => let! s := give_back s addr len in Ret (s, Err AddrNotAvail)
        | Ok v => Ret (s, Ok v)
        end
    end
  else
    let! x := map_region base_addr len (Z.lor flags PRESENT) (pagedir s) (falloc s) in
    let '(p, a, r) := x in
    let s := mkSpace (next_addr s) p a in
    match r with
    | Err _ => let! s := give_back s addr len in Ret (s, Err AddrNotAvail)
    | Ok _ => Ret (s, Ok base_addr)
    end.

Definition munmap (s : Space) (addr len : Z) : Outcome (Space * Result SysErrCode unit) :=
  let! ok := valid_ptr prof hhdm addr len 1 in
  if negb ok then Ret (s, Err AddrNotValid)
  else
    let! v := va_new addr in
    let! base := va_align_up v in
    let! x := unmap_region base len (pagedir s) (falloc s) in
    let '(p, a, r) := x in
    Ret (mkSpace (next_addr s) p a,
         match r with Ok _ => Ok tt | Err _ => Err AddrNotAvail end).

End Into.
Arguments Space P A : clear implicits.

(** ** Address arithmetic of a user region *)

Definition npages (len : Z) : nat := Z.to_nat ((len + PAGE - 1) / PAGE).

(** The pages of the region of [len] bytes at [base]. *)
Definition region (base len : Z) : list Z := pages_from base (npages len).

Lemma npages_bounds len :
  0 <= len → len <= PAGE * Z.of_nat (npages len) < len + PAGE.
Proof.
  intros Hl. unfold npages, PAGE.
  pose proof (Z.div_pos (len + 4096 - 1) 4096 ltac:(lia) ltac:(lia)).
  rewrite Z2Nat.id by done. Z.to_euclidean_division_equations. lia.
Qed.

Lemma page_round n :
  0 <= n → n + PAGE < 2 ^ 64 →
  aligned (align_up n PAGE) ∧ n <= align_up n PAGE < n + PAGE.
Proof.
  intros Hn Hlt. unfold aligned, PAGE in *. change 4096 with (2 ^ 12).
  rewrite align_up_spec by lia. change (2 ^ 12) with 4096. split; [apply Z_mod_mult|].
  Z.to_euclidean_division_equations. lia.
Qed.

Lemma aligned_step base n : aligned base → aligned (base + PAGE * n).
Proof.
  unfold aligned. intros Hb. by rewrite (Z.mul_comm PAGE n), Z_mod_plus_full.
Qed.

Lemma region_elem pg base len :
  pg ∈ region base len ↔ ∃ k, (k < npages len)%nat ∧ pg = base + PAGE * Z.of_nat k.
Proof. apply elem_of_pages_from. Qed.

Section Region.
Context `{VirtLaws}.

Lemma low_canonical a : 0 <= a < 2 ^ 47 → canonical a.
Proof. intros ?. by left. Qed.

Lemma low_add a b : 0 <= a → 0 <= b → a + b < 2 ^ 47 → va_add a b = Ret (a + b).
Proof. intros. apply va_add_canonical; try apply low_canonical; lia. Qed.

Lemma low_align_up a :
  0 <= a → a + PAGE < 2 ^ 47 → va_align_up a = Ret (align_up a PAGE).
Proof.
  intros Ha Hlt. destruct (page_round a) as [Hal Hr]; [done|unfold PAGE in *; lia|].
  replace a with (align_up a PAGE - (align_up a PAGE - a)) at 1 by lia.
  apply va_align_up_spec; [done|lia| |]; apply low_canonical; unfold PAGE in *; lia.
Qed.

(** A region with a page of room behind it, in one half of the addresses. *)
Definition fits (a len : Z) : Prop :=
  0 <= a ∧ 0 <= len ∧
  (a + len + PAGE < 2 ^ 47 ∨ 2 ^ 64 - 2 ^ 47 <= a ∧ a + len + PAGE < 2 ^ 64).

Lemma align_up_npages base len :
  aligned base → fits base len →
  align_up (base + len) PAGE = base + PAGE * Z.of_nat (npages len).
Proof.
  intros Hb (Hb0 & Hl & Hlt). pose proof (npages_bounds len Hl) as Hn.
  destruct (page_round (base + len)) as [Hal Hr]; [lia|unfold PAGE in *; lia|].
  pose proof (aligned_step base (Z.of_nat (npages len)) Hb) as Hal2.
  unfold aligned, PAGE in *. Z.to_euclidean_division_equations. lia.
Qed.

Lemma fits_canonical a len d : fits a len → 0 <= d <= len + PAGE → canonical (a + d).
Proof. unfold fits, canonical, PAGE. lia. Qed.

Lemma fits_add a len d : fits a len → 0 <= d <= len + PAGE → va_add a d = Ret (a + d).
Proof.
  intros Hf Hd. pose proof (fits_canonical a len 0 Hf) as Hc. rewrite Z.add_0_r in Hc.
  apply va_add_canonical; [apply Hc; unfold fits, PAGE in *; lia|lia|by eapply fits_canonical|].
  unfold fits, PAGE in *. lia.
Qed.

Lemma region_range base len :
  aligned base → fits base len →
  va_add base len = Ret (base + len) ∧
  va_align_up (base + len) = Ret (base + PAGE * Z.of_nat (npages len)) ∧
  page_range base (base + PAGE * Z.of_nat (npages len)) = region base len.
Proof.
  intros Hb Hf. pose proof Hf as (Hb0 & Hl & Hlt).
  pose proof (npages_bounds len Hl) as Hn. split_and!.
  - apply (fits_add base len); [done|unfold PAGE; lia].
  - set (e := base + PAGE * Z.of_nat (npages len)).
    replace (base + len) with (e - (e - (base + len))) by lia. apply va_align_up_spec.
    + by apply aligned_step.
    + unfold e. lia.
    + apply (fits_canonical base len); [done|lia].
    + replace (e - (e - (base + len))) with (base + len) by lia.
      apply (fits_canonical base len); [done|unfold PAGE; lia].
  - apply page_range_spec; [done|]. rewrite <- (Z.add_0_r base).
    apply (fits_canonical base len); [done|unfold PAGE; lia].
Qed.

End Region.

(** Regions that do not overlap by address do not share a page. *)
Lemma region_disjoint b1 l1 b2 l2 pg :
  aligned b1 → aligned b2 → 0 <= l1 → 0 <= l2 → b1 + l1 <= b2 →
  pg ∈ region b1 l1 → pg ∉ region b2 l2.
Proof.
  intros H1 H2 Hl1 Hl2 Hle. rewrite !region_elem. intros (k & Hk & ->) (k' & Hk' & He).
  pose proof (npages_bounds l1 Hl1). unfold aligned, PAGE in *.
  Z.to_euclidean_division_equations. lia.
Qed.

(** ** [mmap] without a file *)

Section Anonymous.
Context {prof : Profile} {P A : Type} `{VirtLaws} `{PhysRange} `{MapperLaws P A}
  `{FrameAllocator A}.
Context (hhdm : Z) (phys_offset : Z) (raw_parts : Z → option (Z * Z)).
Implicit Types s : Space P A.

(** The next free address leaves room for the request. *)
Definition room s len : Prop := 0 <= next_addr s ∧ 0 <= len ∧ next_addr s + len + 2 * PAGE < 2 ^ 47.

(** A call with a null address and no file. *)
Definition mmap_any s len flags : Outcome (Space P A * Result SysErrCode Z) :=
  mmap hhdm phys_offset raw_parts s len 0 flags (-1).

Lemma align_up_page_low n :
  0 <= n → n + PAGE < 2 ^ 47 → align_up_page n = Ret (align_up n PAGE).
Proof.
  intros Hn Hlt. unfold align_up_page, uadd. rewrite uarith_in_range; [done|].
  unfold in_usize, USIZE_MAX, PAGE in *. lia.
Qed.

(** The call reduces to mapping the pages of the region. *)
Lemma mmap_any_eq s len flags :
  room s len →
  let base := align_up (next_addr s) PAGE in
  mmap_any s len flags =
    let! x := map_pages (region base len) (Z.lor flags PRESENT) (pagedir s) (falloc s) in
    let '(p, a, r) := x in
    Ret (match r with
         | Ok _ => (mkSpace (base + len) p a, Ok base)
         | Err _ => (mkSpace (next_addr s) p a, Err AddrNotAvail)
         end).
Proof.
  intros (Hn & Hl & Hlt) base.
  destruct (page_round (next_addr s)) as [Hal Hr]; [done|unfold PAGE in *; lia|].
  fold base in Hal, Hr. unfold mmap_any, mmap, valid_ptr. cbn [Z.eqb obind].
  assert (Hnext : uadd prof base len = Ret (base + len)).
  { apply uarith_in_range. unfold in_usize, USIZE_MAX, PAGE in *. lia. }
  unfold fetch_next. rewrite align_up_page_low by (unfold PAGE in *; lia). cbn [obind].
  fold base. rewrite Hnext. cbn [obind].
  rewrite va_new_canonical by (apply low_canonical; unfold PAGE in *; lia). cbn [obind].
  rewrite low_align_up by (unfold PAGE in *; lia). cbn [obind]. fold base.
  rewrite decide_False by lia. cbn [pagedir falloc next_addr].
  unfold map_region. rewrite decide_False.
  2:{ intros Hne. apply Hne. rewrite Z.land_lor_distr_l. unfold PRESENT.
      apply Z.bits_inj'. intros i Hi. rewrite Z.lor_spec, !Z.land_spec.
      destruct (Z.testbit 1 i); by rewrite ?andb_false_r, ?andb_true_r, ?orb_true_r. }
  destruct (region_range base len Hal) as (Ha & He & Hp); [unfold fits, PAGE in *; lia|].
  rewrite Ha. cbn [obind]. rewrite He. cbn [obind]. rewrite Hp.
  destruct (map_pages _ _ _ _) as [[[p a] [u|e']]| | |]; cbn [obind]; try done.
  unfold give_back. rewrite align_up_page_low by (unfold PAGE in *; lia). cbn [obind].
  fold base. rewrite Hnext. cbn [obind next_addr]. by rewrite decide_True.
Qed.

(** What a successful call does. *)
Lemma mmap_any_ok s len flags s' base :
  room s len → mmap_any s len flags = Ret (s', Ok base) →
  base = align_up (next_addr s) PAGE ∧ aligned base ∧ next_addr s <= base ∧
  next_addr s' = base + len ∧
  ∀ pg, if decide (pg ∈ region base len)
        then view (pagedir s) !! pg = None ∧ is_Some (view (pagedir s') !! pg)
        else view (pagedir s') !! pg = view (pagedir s) !! pg.
Proof.
  intros Hroom. rewrite mmap_any_eq by done. cbv zeta. intros Hm.
  destruct (page_round (next_addr s)) as [Hal Hr];
    [by destruct Hroom|destruct Hroom; unfold PAGE in *; lia|].
  destruct (map_pages _ _ _ _) as [[[p a] [[]|e]]| | |] eqn:Hp; try done.
  cbn [obind] in Hm. injection Hm as <- <-. cbn [next_addr pagedir].
  destruct (map_pages_view _ _ _ _ _ _ _ Hp) as (m & Hv & Hd & Hin & Hall).
  split_and!; try done; [lia|]. intros pg. case_decide as Hpg.
  - destruct (Hall eq_refl pg Hpg) as [f Hf]. split.
    + by eapply map_disjoint_Some_r.
    + exists f. rewrite Hv. by apply lookup_union_Some_l.
  - rewrite Hv. apply lookup_union_r. destruct (m !! pg) eqn:Hpm; [|done].
    destruct Hpg. apply Hin. by rewrite Hpm.
Qed.

(** A failed call gives the addresses back. *)
Lemma mmap_any_err s len flags s' e :
  room s len → mmap_any s len flags = Ret (s', Err e) →
  e = AddrNotAvail ∧ next_addr s' = next_addr s ∧
  ∀ pg f, view (pagedir s) !! pg = Some f → view (pagedir s') !! pg = Some f.
Proof.
  intros Hroom. rewrite mmap_any_eq by done. cbv zeta. intros Hm.
  destruct (map_pages _ _ _ _) as [[[p a] [[]|e']]| | |] eqn:Hp; try done.
  cbn [obind] in Hm. injection Hm as <- <-. split_and!; try done. cbn [pagedir].
  destruct (map_pages_view _ _ _ _ _ _ _ Hp) as (m & Hv & Hd & _ & _).
  intros pg f Hf. rewrite Hv. apply lookup_union_Some_r; done.
Qed.

(** A sequence of requests; the regions handed out are collected. *)
Fixpoint mmaps (lens : list Z) (flags : Z) s : Outcome (Space P A * list (Z * Z)) :=
  match lens with
  | [] => Ret (s, [])
  | len :: lens =>
      let! x := mmap_any s len flags in
      let! y := mmaps lens flags (fst x) in
      Ret (fst y, match snd x with Ok base => (base, len) :: snd y | Err _ => snd y end)
  end.

(** The bytes requested, with a page for the rounding of each request. *)
Definition demand (lens : list Z) : Z := foldr (λ len n, len + PAGE + n) 0 lens.

Lemma demand_nonneg lens : Forall (λ l, 0 <= l) lens → 0 <= demand lens.
Proof. induction 1; simpl; unfold PAGE in *; lia. Qed.

Lemma mmaps_lens lens flags s s' rs :
  Forall (λ l, 0 <= l) lens → mmaps lens flags s = Ret (s', rs) →
  ∀ j base len, rs !! j = Some (base, len) → 0 <= len.
Proof.
  intros Hl. revert s rs. induction Hl as [|x xs Hx _ IH]; intros s rs Hm j base len Hj;
    cbn [mmaps] in Hm.
  { injection Hm as <- <-. by rewrite lookup_nil in Hj. }
  destruct (mmap_any s x flags) as [[s1 r]| | |]; try done. cbn [obind fst snd] in Hm.
  destruct (mmaps xs flags s1) as [[s2 rs2]| | |] eqn:E; try done. cbn [obind fst snd] in Hm.
  injection Hm as <- <-. destruct r as [b|e]; [|by eapply IH].
  destruct j as [|j]; simpl in Hj; [by injection Hj as <- <-|by eapply IH].
Qed.

(** C31: the regions that successive anonymous [mmap] calls hand out are page
    aligned, lie above the next free address in the order of the calls, share
    no page with each other or with what was mapped before, and are mapped
    entirely at the end; mappings that existed before are unchanged. *)
Theorem mmap_regions_disjoint lens flags s s' rs :
  0 <= next_addr s → Forall (λ l, 0 <= l) lens →
  next_addr s + demand lens + PAGE < 2 ^ 47 →
  mmaps lens flags s = Ret (s', rs) →
  (∀ i base len, rs !! i = Some (base, len) →
     aligned base ∧ next_addr s <= base ∧
     (∀ pg, pg ∈ region base len →
        view (pagedir s) !! pg = None ∧ is_Some (view (pagedir s') !! pg)) ∧
     (∀ j base' len', (i < j)%nat → rs !! j = Some (base', len') →
        base + len <= base' ∧ ∀ pg, pg ∈ region base len → pg ∉ region base' len')) ∧
  (∀ pg f, view (pagedir s) !! pg = Some f → view (pagedir s') !! pg = Some f).
Proof.
  revert s rs. induction lens as [|len lens IH]; intros s rs Hn Hl Hd Hm; cbn [mmaps] in Hm.
  { injection Hm as <- <-. split; [|done]. intros i base len Hi. by rewrite lookup_nil in Hi. }
  inversion Hl as [|? ? Hlen Hlens]; subst. cbn [demand foldr] in Hd. fold (demand lens) in Hd.
  pose proof (demand_nonneg lens Hlens) as Hdn.
  assert (Hroom : room s len) by (unfold room, PAGE in *; lia).
  destruct (mmap_any s len flags) as [[s1 r]| | |] eqn:Hc; try done. cbn [obind fst snd] in Hm.
  destruct (mmaps lens flags s1) as [[s2 rs2]| | |] eqn:Hrest; try done.
  cbn [obind fst snd] in Hm. injection Hm as <- <-.
  destruct r as [base|e].
  - destruct (mmap_any_ok s len flags s1 base Hroom Hc) as (Hb & Hal & Hle & Hnx & Hpg).
    destruct (page_round (next_addr s)) as [_ Hr]; [done|unfold PAGE in *; lia|].
    assert (Hkeep : ∀ pg f, view (pagedir s) !! pg = Some f → view (pagedir s1) !! pg = Some f).
    { intros pg f Hf. specialize (Hpg pg). case_decide; [destruct Hpg; congruence|congruence]. }
    destruct (IH s1 rs2) as [Hrs Hold]; [lia|done|unfold PAGE in *; lia|done|].
    split.
    + intros [|i] b l Hi; simpl in Hi.
      * injection Hi as <- <-. split_and!; [done|done| |].
        -- intros pg Hin. specialize (Hpg pg). rewrite decide_True in Hpg by done.
           destruct Hpg as [? [f Hf]]. split; [done|]. exists f. by apply Hold.
        -- intros [|j] b' l' Hij Hj; [lia|]. simpl in Hj.
           destruct (Hrs j b' l' Hj) as (Hal' & Hle' & _ & _). split; [lia|].
           pose proof (mmaps_lens _ _ _ _ _ Hlens Hrest j b' l' Hj).
           intros pg. apply region_disjoint; try done. lia.
      * destruct (Hrs i b l Hi) as (Hal' & Hle' & Hmap & Hdis). split_and!; [done|lia| |].
        -- intros pg Hin. destruct (Hmap pg Hin) as [Hnone Hsome]. split; [|done].
           destruct (view (pagedir s) !! pg) eqn:E; [|done]. by rewrite (Hkeep _ _ E) in Hnone.
        -- intros [|j] b' l' Hij Hj; [lia|]. apply (Hdis j); [lia|done].
    + intros pg f Hf. by apply Hold, Hkeep.
  - destruct (mmap_any_err s len flags s1 e Hroom Hc) as (_ & Hnx & Hkeep).
    destruct (IH s1 rs2) as [Hrs Hold]; [lia|done|unfold PAGE in *; lia|done|].
    split; [|intros pg f Hf; by apply Hold, Hkeep].
    intros i b l Hi. destruct (Hrs i b l Hi) as (? & ? & Hmap & ?). split_and!; [done|lia| |done].
    intros pg Hin. destruct (Hmap pg Hin) as [Hnone Hsome]. split; [|done].
    destruct (view (pagedir s) !! pg) eqn:E; [|done]. by rewrite (Hkeep _ _ E) in Hnone.
Qed.

(** [munmap] of the address and length of a successful anonymous [mmap]
    succeeds and leaves every page mapped as it was before the [mmap]; the
    addresses are not handed out again. *)
Lemma mmap_munmap_roundtrip s len flags s1 base :
  2 ^ 47 <= hhdm → room s len → mmap_any s len flags = Ret (s1, Ok base) → 0 < base →
  ∃ s2, munmap hhdm s1 base len = Ret (s2, Ok tt) ∧
    view (pagedir s2) = view (pagedir s) ∧ next_addr s2 = base + len.
Proof.
  intros Hh Hroom Hm Hpos. destruct (mmap_any_ok s len flags s1 base Hroom Hm)
    as (Hb & Hal & Hle & Hnx & Hpg).
  destruct (page_round (next_addr s)) as [_ Hr];
    [by destruct Hroom|destruct Hroom; unfold PAGE in *; lia|]. rewrite <- Hb in Hr.
  destruct Hroom as (Hn & Hl & Hlt).
  unfold munmap, valid_ptr. rewrite (proj2 (Z.eqb_neq base 0)) by lia.
  rewrite (proj2 (Z.ltb_lt base hhdm)) by (unfold PAGE in *; lia). cbn [negb].
  unfold umul. rewrite Z.mul_1_r.
  rewrite uarith_in_range by (unfold in_usize, USIZE_MAX, PAGE in *; lia). cbn [obind].
  unfold uadd. rewrite uarith_in_range by (unfold in_usize, USIZE_MAX, PAGE in *; lia).
  cbn [obind]. rewrite (proj2 (Z.ltb_lt (base + len) hhdm)) by (unfold PAGE in *; lia). cbn [negb].
  rewrite va_new_canonical by (apply low_canonical; unfold PAGE in *; lia). cbn [obind].
  rewrite align_up_aligned by (done || apply low_canonical; unfold PAGE in *; lia). cbn [obind].
  unfold unmap_region.
  destruct (region_range base len Hal) as (Ha & He & Hp); [unfold fits, PAGE in *; lia|].
  rewrite Ha. cbn [obind]. rewrite He. cbn [obind]. rewrite Hp.
  destruct (unmap_pages_view (region base len) (pagedir s1) (falloc s1)) as (p' & a' & -> & Hq).
  { apply pages_from_NoDup. }
  { intros pg Hin. specialize (Hpg pg). rewrite decide_True in Hpg by done. by destruct Hpg. }
  eexists. split; [done|]. cbn [pagedir next_addr]. split; [|done].
  apply map_eq. intros q. rewrite Hq. specialize (Hpg q). case_decide; [|done].
  by destruct Hpg as [-> _].
Qed.

End Anonymous.

(** ** Sharing pages *)

Section Sharing.
Context {prof : Profile} {P A : Type} `{VirtLaws} `{PhysRangeLaws} `{MapperLaws P A}
  `{FrameAllocator A}.
Context (hhdm phys_offset : Z).

(** Where the donor maps every page with 4 KiB, the loop pairs the pages. *)
Lemma into_loop_small fuel donor from_iter to_iter mapped len flags p a p' a' :
  (∀ q pg, pg ∈ from_iter → is_ok (donor q pg) = true) →
  (∀ q q' pg, donor q pg = donor q' pg) → NoDup to_iter →
  into_loop hhdm phys_offset fuel donor from_iter to_iter mapped len flags p a =
    Ret (p', a', Ok tt) →
  ∀ pg, view p' !! pg =
    match list_find (λ x, x.1 = pg) (zip to_iter from_iter) with
    | Some (_, (_, f)) => match donor p f with Ok fr => Some fr | Err _ => None end
    | None => view p !! pg
    end.
Proof.
  intros Hd Hc. revert from_iter to_iter mapped p a Hd.
  induction fuel as [|fuel IH]; intros [|f fs] [|t ts] mapped p a Hd Hnd Hm pg;
    cbn [into_loop] in Hm; try done; try (injection Hm as <- <-; done).
  apply NoDup_cons in Hnd as [Ht Hnd].
  destruct (is_ok (translate_page p t)) eqn:Htr; [done|]. apply not_mapped in Htr.
  pose proof (Hd p f ltac:(left)) as Hf. destruct (donor p f) as [fr|] eqn:Hdf; [|done].
  pose proof (map_to_view p t fr flags a Htr) as Hv.
  destruct (map_to p t fr flags a) as [[p1 a1] [u|u]]; [|done]. cbn [is_ok] in Hv.
  destruct (uadd prof mapped PAGE) as [m1| | |]; try done. cbn [obind] in Hm.
  assert (Hd' : ∀ q pg, pg ∈ fs → is_ok (donor q pg) = true) by (intros; apply Hd; by right).
  rewrite (IH fs ts m1 p1 a1 Hd' Hnd Hm). cbn [zip zip_with list_find].
  destruct (decide ((t, f).1 = pg)) as [Heq|Hne]; cbn [fst] in *.
  - subst pg. rewrite Hdf.
    assert (list_find (λ x : Z * Z, x.1 = t) (zip ts fs) = None) as ->.
    { apply list_find_None, Forall_forall. intros [x y] Hin. simpl.
      apply elem_of_zip_l in Hin. intros ->. done. }
    by rewrite Hv, lookup_insert_eq.
  - rewrite Hv, lookup_insert_ne by done.
    destruct (list_find _ (zip ts fs)) as [[i [x y]]|]; simpl; [|done]. by rewrite (Hc p1 p).
Qed.

Lemma list_find_zip_region start from n i :
  (i < n)%nat →
  ∃ j, list_find (λ x, x.1 = start + PAGE * Z.of_nat i) (zip (pages_from start n) (pages_from from n))
    = Some (j, (start + PAGE * Z.of_nat i, from + PAGE * Z.of_nat i)).
Proof.
  intros Hi. exists i. apply list_find_Some. split_and!; [|done|].
  - rewrite lookup_zip_with. unfold pages_from.
    by rewrite !list_lookup_fmap, !lookup_seq_lt by done.
  - intros j [x y] Hj Hlt. rewrite lookup_zip_with in Hj. unfold pages_from in Hj.
    rewrite !list_lookup_fmap, !lookup_seq_lt in Hj by lia. simpl in Hj. injection Hj as <- <-.
    simpl. unfold PAGE. lia.
Qed.

Lemma list_find_zip_None (l k : list Z) pg : pg ∉ l → list_find (λ x, x.1 = pg) (zip l k) = None.
Proof.
  intros Hpg. apply list_find_None, Forall_forall. intros [x y] Hin%elem_of_zip_l. simpl.
  by intros ->.
Qed.

(** A page-aligned region of a table that maps it with 4 KiB pages is
    shared: on success the new address is the start that was asked for, its
    [i]-th page leads to the frame of the donor's [i]-th page, and no other
    page of the receiving table changes. *)
Lemma map_into_shares start len flags from donor (p p' : P) (a a' : A) v :
  aligned start → aligned from → fits start len → fits from len →
  Z.land flags PRESENT = PRESENT →
  (∀ pg, pg ∈ region from len → is_ok (donor pg) = true) →
  map_region_into hhdm phys_offset start len flags from (λ _, donor) p a = Ret (p', a', Ok v) →
  v = start ∧
  (∀ i, (i < npages len)%nat → ∃ frame,
     donor (from + PAGE * Z.of_nat i) = Ok frame ∧
     view p' !! (start + PAGE * Z.of_nat i) = Some frame) ∧
  (∀ pg, pg ∉ region start len → view p' !! pg = view p !! pg).
Proof.
  intros Hs Hf Hfs Hff Hfl Hd. unfold map_region_into. rewrite decide_False by tauto.
  destruct (region_range start len Hs Hfs) as (Ha & He & Hp).
  destruct (region_range from len Hf Hff) as (Ha' & He' & Hp').
  rewrite Ha. cbn [obind]. rewrite He. cbn [obind]. rewrite Ha'. cbn [obind]. rewrite He'. cbn [obind].
  assert (Hc : canonical from).
  { rewrite <- (Z.add_0_r from). apply (fits_canonical from len); [done|].
    destruct Hff; unfold PAGE. lia. }
  rewrite va_align_down_spec by done. unfold aligned in Hf. rewrite Hf, Z.sub_0_r.
  rewrite va_diff_le by lia. cbn [obind]. rewrite Z.sub_diag.
  rewrite (fits_add start len 0) by (done || destruct Hfs; unfold PAGE; lia).
  cbn [obind]. rewrite Z.add_0_r, Hp, Hp'.
  destruct (into_loop _ _ _ _ _ _ _ _ _ _ _) as [[[p1 a1] [[]|e]]| | |] eqn:Hl; try done.
  cbn [obind]. intros [= <- <- <-]. split; [done|].
  pose proof (into_loop_small _ (λ _, donor) _ _ _ _ _ _ _ _ _ (λ _, Hd)
                (λ _ _ _, eq_refl) (pages_from_NoDup _ _) Hl) as Hv.
  split.
  - intros i Hi.
    assert (Hin : from + PAGE * Z.of_nat i ∈ region from len) by (apply region_elem; eauto).
    specialize (Hd _ Hin). rewrite Hv.
    destruct (list_find_zip_region start from (npages len) i Hi) as [j Hj].
    unfold region. rewrite Hj.
    destruct (donor (from + PAGE * Z.of_nat i)) as [fr|]; [|done]. by exists fr.
  - intros pg Hpg. rewrite Hv. by rewrite list_find_zip_None.
Qed.

End Sharing.

(** ** Boundary behaviour *)

(** A table with the first pages of a donor, for the examples below. *)
Definition donor_table (n : nat) : gmap Z Z :=
  list_to_map (zip (pages_from 0x400000 n) (pages_from 0x9000 n)).

(** A region that does not start on a page boundary can reach one page more
    than its length: sharing 200 bytes that cross a page boundary maps one
    page and reports success, although the second half of the bytes lies on
    a page that stays unmapped. *)
Lemma unaligned_region_cut :
  match map_region_into (prof := Release) 0 0 0x800000 200 PRESENT (0x400000 + 4000)
          (λ _, @translate_page _ _ gmap_Mapper (donor_table 2)) (∅ : gmap Z Z) ([] : list Z) with
  | Ret (p, _, Ok v) => v = 0x800000 + 4000 ∧ p !! 0x800000 = Some 0x9000 ∧
                        p !! (0x800000 + 4096) = None
  | _ => False
  end.
Proof. vm_compute. done. Qed.

(** A donor in a 2 MiB page of the direct mapping: only whole pages of the
    length are mapped, so a file shorter than a page is reported as mapped
    and is not. *)
Lemma huge_donor_partial_page :
  match map_region_into (prof := Release) 0xffff800000000000 0xffff800000000000
          0x800000 100 PRESENT 0xffff800000200000
          (λ _ _, Err ParentEntryHugePage) (∅ : gmap Z Z) ([] : list Z) with
  | Ret (p, _, Ok v) => v = 0x800000 ∧ p = ∅
  | _ => False
  end.
Proof. vm_compute. done. Qed.

Section Panics.
Context {prof : Profile} {P A : Type} `{VirtLaws} `{PhysRange} `{Mapper P A}
  `{FrameAllocator A}.
Context (hhdm phys_offset : Z).
Implicit Types s : Space P A.

(** The pointer check accepts every address below the direct mapping, but
    the addresses between the halves are not valid [VirtAddr]s: [munmap] of
    one of them panics the kernel. *)
Lemma munmap_noncanonical_panics s addr :
  2 ^ 47 <= addr < 2 ^ 64 - 2 ^ 47 → addr < hhdm < 2 ^ 64 →
  munmap hhdm s addr 0 = Panic.
Proof.
  intros Ha Hh. unfold munmap, valid_ptr. rewrite (proj2 (Z.eqb_neq addr 0)) by lia.
  rewrite (proj2 (Z.ltb_lt addr hhdm)) by lia. cbn [negb].
  unfold umul, uadd. rewrite Z.mul_0_l, uarith_in_range by (unfold in_usize, USIZE_MAX; lia).
  cbn [obind]. rewrite Z.add_0_r, uarith_in_range by (unfold in_usize, USIZE_MAX; lia).
  cbn [obind]. rewrite (proj2 (Z.ltb_lt addr hhdm)) by lia. cbn [negb].
  rewrite va_new_other; [done|lia|]. unfold canonical. lia.
Qed.

(** [mmap] of an open file passes the flags on without [PRESENT], which
    [map_region_into] asserts: a program that leaves the bit out panics the
    kernel. *)
Lemma mmap_file_flags_panic raw_parts s len flags fd from true_len :
  room s len → 0 <= fd → raw_parts fd = Some (from, true_len) → canonical from →
  Z.land flags PRESENT ≠ PRESENT →
  mmap hhdm phys_offset raw_parts s len 0 flags fd = Panic.
Proof.
  intros (Hn & Hl & Hlt) Hfd Hraw Hc Hfl.
  destruct (page_round (next_addr s)) as [Hal Hr]; [done|unfold PAGE in *; lia|].
  unfold mmap, valid_ptr. cbn [Z.eqb obind]. unfold fetch_next.
  rewrite align_up_page_low by (unfold PAGE in *; lia). cbn [obind].
  unfold uadd. rewrite uarith_in_range by (unfold in_usize, USIZE_MAX, PAGE in *; lia).
  cbn [obind]. rewrite va_new_canonical by (apply low_canonical; unfold PAGE in *; lia).
  cbn [obind]. rewrite low_align_up by (unfold PAGE in *; lia). cbn [obind].
  rewrite decide_True, Hraw, va_new_canonical by done. cbn [obind].
  unfold map_region_into. by rewrite decide_True.
Qed.

End Panics.

(** ** Visiting a user stack *)

Section Ustack.
Context {P A : Type} `{VirtLaws} `{MapperLaws P A} `{FrameAllocator A}.

(** The stack of the first thread, without its guard page. *)
Definition ustack_pages : list Z := region (USER_STACK_START + PAGE) (USER_STACK_SIZE - PAGE).

Lemma ustack_range :
  va_align_up USER_STACK_START = Ret USER_STACK_START ∧
  va_add USER_STACK_START PAGE = Ret (USER_STACK_START + PAGE) ∧
  va_align_up (USER_STACK_START + PAGE) = Ret (USER_STACK_START + PAGE) ∧
  va_add USER_STACK_START USER_STACK_SIZE = Ret (USER_STACK_START + USER_STACK_SIZE) ∧
  va_align_up (USER_STACK_START + USER_STACK_SIZE) = Ret (USER_STACK_START + USER_STACK_SIZE) ∧
  page_range (USER_STACK_START + PAGE) (USER_STACK_START + USER_STACK_SIZE) = ustack_pages.
Proof.
  assert (Hal : ∀ a, aligned a → 0 <= a < 2 ^ 47 → va_align_up a = Ret a).
  { intros a Ha Hr. apply align_up_aligned; [done|by apply low_canonical]. }
  unfold USER_STACK_START, USER_STACK_SIZE in *. split_and!.
  - apply Hal; [reflexivity|lia].
  - apply low_add; unfold PAGE; lia.
  - apply Hal; [reflexivity|unfold PAGE; lia].
  - apply low_add; lia.
  - apply Hal; [reflexivity|lia].
  - apply (page_range_spec (USER_STACK_START + PAGE) 255); [reflexivity|].
    apply low_canonical. unfold USER_STACK_START, PAGE. lia.
Qed.

Lemma copy_ustack_eq donor (p : P) (a : A) :
  copy_ustack_mappings_into donor p a =
    copy_pages donor ustack_pages (Z.lor (Z.lor WRITABLE PRESENT) USER_ACCESSIBLE) p a.
Proof.
  unfold copy_ustack_mappings_into.
  destruct ustack_range as (Hu1 & Hu2 & Hu3 & Hu4 & Hu5 & Hup).
  rewrite Hu1. cbn [obind]. rewrite Hu2. cbn [obind]. rewrite Hu3. cbn [obind].
  rewrite Hu4. cbn [obind]. rewrite Hu5. cbn [obind]. by rewrite Hup.
Qed.

Lemma unmap_ustack_eq (p : P) :
  unmap_ustack_mappings p = Ret (fst (unmap_pages_from ustack_pages p)).
Proof.
  unfold unmap_ustack_mappings, unmap_region_from.
  destruct ustack_range as (Hu1 & Hu2 & Hu3 & Hu4 & Hu5 & _).
  rewrite Hu1. cbn [obind]. rewrite Hu2. cbn [obind]. rewrite Hu3. cbn [obind].
  rewrite Hu4. cbn [obind]. rewrite Hu5. cbn [obind].
  destruct (region_range (USER_STACK_START + PAGE) (USER_STACK_SIZE - PAGE))
    as (Ha & He & Hpr); [reflexivity|unfold fits, USER_STACK_START, USER_STACK_SIZE, PAGE; lia|].
  change (wrap64 (USER_STACK_START + USER_STACK_SIZE - (USER_STACK_START + PAGE)))
    with (USER_STACK_SIZE - PAGE).
  rewrite Ha. cbn [obind]. rewrite He. cbn [obind]. by rewrite Hpr.
Qed.

Lemma copy_pages_view donor pages flags (p : P) (a : A) p' a' :
  NoDup pages → (∀ pg, pg ∈ pages → view p !! pg = None) →
  copy_pages donor pages flags p a = Ret (p', a') →
  ∀ q, view p' !! q =
    if decide (q ∈ pages) then match donor q with Ok f => Some f | Err _ => None end
    else view p !! q.
Proof.
  revert p a. induction pages as [|pg pages IH]; intros p a Hnd Hn Hc q; cbn [copy_pages] in Hc.
  { injection Hc as <- <-. by rewrite decide_False by set_solver. }
  apply NoDup_cons in Hnd as [Hpg Hnd]. destruct (donor pg) as [f|] eqn:Hd; [|done].
  pose proof (map_to_view p pg f flags a (Hn pg ltac:(left))) as Hv.
  destruct (map_to p pg f flags a) as [[p1 a1] [u|u]]; [|done]. cbn [is_ok] in Hv.
  rewrite (IH p1 a1 Hnd) with (q := q); [| |done].
  - rewrite Hv. destruct (decide (q = pg)) as [->|Hne].
    + rewrite decide_False by done. by rewrite decide_True, lookup_insert_eq, Hd by set_solver.
    + rewrite lookup_insert_ne by done. do 2 case_decide; set_solver.
  - intros q' Hq'. rewrite Hv, lookup_insert_ne by set_solver. apply Hn. by right.
Qed.

Lemma copy_pages_donor donor pages flags (p : P) (a : A) p' a' :
  copy_pages donor pages flags p a = Ret (p', a') →
  ∀ pg, pg ∈ pages → ∃ f, donor pg = Ok f.
Proof.
  revert p a. induction pages as [|x l IH]; intros p a Hcp pg Hin; [by apply elem_of_nil in Hin|].
  cbn [copy_pages] in Hcp. destruct (donor x) as [f|] eqn:Hd; [|done].
  destruct (map_to p x f flags a) as [[p1 a1] [u|u]]; [|done].
  apply elem_of_cons in Hin as [->|Hin]; [by exists f|]. by eapply IH.
Qed.

Lemma unmap_pages_from_view pages (p : P) :
  NoDup pages → (∀ pg, pg ∈ pages → is_Some (view p !! pg)) →
  ∃ p', unmap_pages_from pages p = (p', Ok tt) ∧
    ∀ q, view p' !! q = if decide (q ∈ pages) then None else view p !! q.
Proof.
  revert p. induction pages as [|pg pages IH]; intros p Hnd Hall; cbn [unmap_pages_from].
  { exists p. split; [done|]. intros q. by rewrite decide_False by set_solver. }
  apply NoDup_cons in Hnd as [Hpg Hnd]. pose proof (unmap_view p pg) as Hu.
  destruct (Hall pg) as [f Hf]; [left|].
  destruct (unmap p pg) as [p1 [f1|e]]; [|by destruct Hu; congruence].
  destruct Hu as [_ Hv]. destruct (IH p1 Hnd) as (p' & Hun & Hq).
  - intros q Hq. rewrite Hv, lookup_delete_ne by set_solver. apply Hall. by right.
  - exists p'. split; [done|]. intros q. rewrite Hq, Hv.
    destruct (decide (q = pg)) as [->|Hne].
    + rewrite lookup_delete_eq, (decide_True (P := pg ∈ pg :: pages)) by set_solver.
      by case_decide.
    + rewrite lookup_delete_ne by done. do 2 case_decide; set_solver.
Qed.

(** To fill the stack of a new process the kernel maps the stack pages of
    its table into the kernel's own: while they are there, they lead to the
    frames of the new process, and taking them out again leaves the kernel's
    table as it was. *)
Lemma ustack_visit_roundtrip donor (p p' : P) (a a' : A) :
  (∀ pg, pg ∈ ustack_pages → view p !! pg = None) →
  copy_ustack_mappings_into donor p a = Ret (p', a') →
  (∀ pg, pg ∈ ustack_pages → ∃ f, donor pg = Ok f ∧ view p' !! pg = Some f) ∧
  ∃ p'', unmap_ustack_mappings p' = Ret p'' ∧ view p'' = view p.
Proof.
  intros Hn Hcp. rewrite copy_ustack_eq in Hcp.
  pose proof (copy_pages_view _ _ _ _ _ _ _ (pages_from_NoDup _ _) Hn Hcp) as Hv.
  pose proof (copy_pages_donor _ _ _ _ _ _ _ Hcp) as Hdon.
  assert (Hin : ∀ pg, pg ∈ ustack_pages → ∃ f, donor pg = Ok f ∧ view p' !! pg = Some f).
  { intros pg Hpg. destruct (Hdon pg Hpg) as [f Hf]. exists f. split; [done|].
    by rewrite Hv, decide_True, Hf. }
  split; [done|].
  destruct (unmap_pages_from_view ustack_pages p' (pages_from_NoDup _ _)) as (p'' & Hun & Hq).
  { intros pg Hpg. destruct (Hin pg Hpg) as (f & _ & Hf). by exists f. }
  exists p''. split.
  - by rewrite unmap_ustack_eq, Hun.
  - apply map_eq. intros q. rewrite Hq. case_decide as Hqin; [by rewrite Hn|].
    by rewrite Hv, decide_False.
Qed.

(** A thread whose process has lost a page of the first thread's stack can
    not be built: the lookup is unwrapped. *)
Lemma ustack_visit_panics donor (p : P) (a : A) pg :
  pg = USER_STACK_START + PAGE → is_ok (donor pg) = false →
  copy_ustack_mappings_into donor p a = Panic.
Proof.
  intros -> Hd. rewrite copy_ustack_eq. unfold ustack_pages, region, pages_from.
  change (npages (USER_STACK_SIZE - PAGE)) with 255%nat. cbn [seq fmap list_fmap copy_pages].
  rewrite Z.mul_0_r, Z.add_0_r. by destruct (donor (USER_STACK_START + PAGE)).
Qed.

End Ustack.

(** ** Witnesses *)

Definition USER_MMAP_START : Z := 0x90000000000.

(** A process with an empty table and 20 free frames. *)
Definition fresh_space : Space (gmap Z Z) (list Z) :=
  mkSpace USER_MMAP_START ∅ (pages_from 0 20).

Definition LOW_HHDM : Z := 0xffff800000000000.

Lemma mmap_regions_disjoint_witness :
  ∃ s' rs, mmaps (prof := Release) LOW_HHDM 0 (λ _, None) [5000; 0; 4096; 100000] WRITABLE
             fresh_space = Ret (s', rs) ∧
    rs = [(USER_MMAP_START, 5000); (USER_MMAP_START + 2 * PAGE, 0); (USER_MMAP_START + 2 * PAGE, 4096)] ∧
    (∀ pg, pg ∈ region USER_MMAP_START 5000 → pg ∉ region (USER_MMAP_START + 2 * PAGE) 4096).
Proof.
  assert (Hm : ∃ s', mmaps (prof := Release) LOW_HHDM 0 (λ _, None) [5000; 0; 4096; 100000] WRITABLE
             fresh_space = Ret (s', [(USER_MMAP_START, 5000); (USER_MMAP_START + 2 * PAGE, 0);
                                     (USER_MMAP_START + 2 * PAGE, 4096)]))
    by (eexists; vm_compute; reflexivity).
  destruct Hm as (s' & Hm). exists s', [(USER_MMAP_START, 5000); (USER_MMAP_START + 2 * PAGE, 0);
                                     (USER_MMAP_START + 2 * PAGE, 4096)].
  split; [exact Hm|]. split; [reflexivity|].
  destruct (mmap_regions_disjoint (prof := Release) LOW_HHDM 0 (λ _, None)
              [5000; 0; 4096; 100000] WRITABLE fresh_space s'
              [(USER_MMAP_START, 5000); (USER_MMAP_START + 2 * PAGE, 0);
               (USER_MMAP_START + 2 * PAGE, 4096)]) as [Hd _].
  - vm_compute. discriminate.
  - repeat constructor; lia.
  - vm_compute. reflexivity.
  - exact Hm.
  - destruct (Hd 0%nat USER_MMAP_START 5000 eq_refl) as (_ & _ & _ & Hj).
    apply (Hj 2%nat _ _ ltac:(lia) eq_refl).
Defined.

Lemma mmap_munmap_roundtrip_witness :
  ∃ s1 s2, mmap_any (prof := Release) LOW_HHDM 0 (λ _, None) fresh_space 5000 WRITABLE =
      Ret (s1, Ok USER_MMAP_START) ∧
    munmap (prof := Release) LOW_HHDM s1 USER_MMAP_START 5000 = Ret (s2, Ok tt) ∧
    view (pagedir s2) = ∅.
Proof.
  assert (Hm : ∃ s1, mmap_any (prof := Release) LOW_HHDM 0 (λ _, None) fresh_space 5000 WRITABLE =
      Ret (s1, Ok USER_MMAP_START)) by (eexists; vm_compute; reflexivity).
  destruct Hm as (s1 & Hm). exists s1.
  destruct (mmap_munmap_roundtrip (prof := Release) LOW_HHDM 0 (λ _, None) fresh_space 5000
              WRITABLE s1 USER_MMAP_START) as (s2 & Hu & Hv & _).
  - vm_compute. discriminate.
  - unfold room. vm_compute. split_and!; (reflexivity || discriminate).
  - exact Hm.
  - reflexivity.
  - exists s2. split; [exact Hm|]. split; [exact Hu|exact Hv].
Defined.

Lemma map_into_shares_witness :
  ∃ p' a', map_region_into (prof := Release) LOW_HHDM 0 0x800000 5000 PRESENT 0x400000
             (λ _, @translate_page _ _ gmap_Mapper (donor_table 2)) (∅ : gmap Z Z) ([] : list Z)
           = Ret (p', a', Ok 0x800000) ∧
    ∃ frame, @translate_page _ _ gmap_Mapper (donor_table 2) (0x400000 + PAGE * 1) = Ok frame ∧
      view p' !! (0x800000 + PAGE * 1) = Some frame.
Proof.
  assert (Hm : ∃ p' a', map_region_into (prof := Release) LOW_HHDM 0 0x800000 5000 PRESENT 0x400000
             (λ _, @translate_page _ _ gmap_Mapper (donor_table 2)) (∅ : gmap Z Z) ([] : list Z)
           = Ret (p', a', Ok 0x800000)) by (eexists _, _; vm_compute; reflexivity).
  destruct Hm as (p' & a' & Hm). exists p', a'. split; [exact Hm|].
  destruct (map_into_shares (prof := Release) LOW_HHDM 0 0x800000 5000 PRESENT 0x400000
              (@translate_page _ _ gmap_Mapper (donor_table 2)) ∅ p' [] a' 0x800000)
    as (_ & Hs & _); [reflexivity|reflexivity| | |reflexivity| |exact Hm|].
  - unfold fits, PAGE. lia.
  - unfold fits, PAGE. lia.
  - intros pg (k & Hk & ->)%region_elem. change (npages 5000) with 2%nat in Hk.
    destruct k as [|[|k]]; [reflexivity|reflexivity|lia].
  - apply (Hs 1%nat). vm_compute. lia.
Defined.

Lemma munmap_noncanonical_panics_witness :
  munmap (prof := Release) LOW_HHDM fresh_space (2 ^ 47) 0 = Panic.
Proof.
  apply (munmap_noncanonical_panics (prof := Release) LOW_HHDM fresh_space (2 ^ 47)).
  - lia.
  - unfold LOW_HHDM. lia.
Defined.

(** Copying into a table without these pages succeeds. *)
Lemma copy_pages_gmap donor pages flags (p : gmap Z Z) (a : list Z) :
  NoDup pages → (∀ pg, pg ∈ pages → is_ok (donor pg) = true ∧ p !! pg = None) →
  ∃ p', copy_pages donor pages flags p a = Ret (p', a).
Proof.
  revert p. induction pages as [|x l IH]; intros p Hnd Hall; [by exists p|].
  apply NoDup_cons in Hnd as [Hx Hnd]. destruct (Hall x) as [Hd Hn]; [left|].
  cbn [copy_pages]. destruct (donor x) as [f|]; [|done]. cbn [map_to gmap_Mapper].
  rewrite Hn. apply IH; [done|]. intros pg Hpg. split; [apply Hall; by right|].
  rewrite lookup_insert_ne by (intros ->; done). apply Hall. by right.
Qed.

Lemma ustack_visit_roundtrip_witness :
  ∃ p' p'', copy_ustack_mappings_into (λ pg, Ok (pg + 0x1000000)) (∅ : gmap Z Z) ([] : list Z) =
      Ret (p', []) ∧ p' !! (USER_STACK_START + PAGE) = Some (USER_STACK_START + PAGE + 0x1000000) ∧
    unmap_ustack_mappings p' = Ret p'' ∧ view p'' = ∅.
Proof.
  assert (Hc : ∃ p', copy_ustack_mappings_into (λ pg, Ok (pg + 0x1000000)) (∅ : gmap Z Z)
                       ([] : list Z) = Ret (p', [])).
  { rewrite copy_ustack_eq.
    apply copy_pages_gmap; [apply pages_from_NoDup|]. intros pg _. split; reflexivity. }
  destruct Hc as (p' & Hc).
  destruct (ustack_visit_roundtrip (λ pg, Ok (pg + 0x1000000)) (∅ : gmap Z Z) p' [] [])
    as (Hin & p'' & Hu & Hv); [intros pg _; reflexivity|exact Hc|].
  exists p', p''. split; [exact Hc|]. split; [|split; [exact Hu|exact Hv]].
  destruct (Hin (USER_STACK_START + PAGE)) as (f & Hd & Hf).
  - apply region_elem. exists 0%nat. split; [|reflexivity].
    change (npages (USER_STACK_SIZE - PAGE)) with 255%nat. lia.
  - injection Hd as Hd. rewrite Hd. exact Hf.
Defined.
