(* ===== verification/PageDir.v ===== *)
(** Address spaces: kernel/src/kernel/mem/paging/mod.rs (the page table of a
    process, [APageTable]) and the mapping of the kernel heap
    (kernel/src/kernel/mem/heap.rs).

    [SupplyLaws] adds to the interfaces of Paging.v when the library's
    operations succeed: a mapping takes at most three frames for tables and
    fails only on a path with a huge page.  A level-4 table is its list of
    512 entries; [RootLaws] says that a walk through it depends on the entry
    of the page alone. *)
From S2P Require Import Prelude FrameAlloc Paging Mmap.
Open Scope Z_scope.

(** ** Interfaces *)

(** [Page::range_inclusive] of the pages containing two addresses. *)
Class PageIncl := { page_range_inclusive : Z → Z → list Z }.

Class PageInclLaws `{PageIncl} := {
  range_inclusive_spec : ∀ a n k, aligned a → canonical a → 0 <= k < PAGE →
    page_range_inclusive a (a + PAGE * Z.of_nat n + k) = pages_from a (S n)
}.

(** When frames are handed out and mappings succeed.  [room] counts the
    frames left, [free_frames] are the frames the allocator may still hand
    out, [mappable] pages have no huge page on their path. *)
Class SupplyLaws (P A : Type) `{MapperLaws P A} `{FrameAllocator A} := {
  room : A → Z;
  free_frames : A → gset Z;
  alloc_wf : A → Prop;
  mappable : P → Z → Prop;
  alloc_room : ∀ a, alloc_wf a → 0 < room a → ∃ a' f,
    alloc_frame a = Ret (a', Some f) ∧ room a' = room a - 1 ∧ alloc_wf a' ∧
    f ∈ free_frames a ∧ f mod PAGE = 0 ∧ free_frames a' ⊆ free_frames a ∖ {[f]};
  map_room : ∀ p pg f fl a, alloc_wf a → mappable p pg → view p !! pg = None → 3 <= room a →
    ∃ p' a', map_to p pg f fl a = (p', a', Ok tt) ∧ room a - 3 <= room a' ∧ alloc_wf a' ∧
    free_frames a' ⊆ free_frames a;
  map_mappable : ∀ p pg f fl a q, mappable p q → mappable (fst (fst (map_to p pg f fl a))) q;
  unmap_mappable : ∀ p pg q, mappable p q → mappable (fst (unmap p pg)) q
}.

(** The index of a page in the level-4 table. *)
Definition p4_index (pg : Z) : nat := Z.to_nat (Z.land (Z.shiftr pg 39) 0x1ff).

(** [OffsetPageTable::new] on a level-4 table. *)
Class RootTable (P : Type) := { offset_table : list Z → P }.

Class RootLaws (P A : Type) `{SupplyLaws P A} `{RootTable P} := {
  walk : Z → Z → option Z;
  walk_empty : ∀ pg, walk 0 pg = None;
  offset_view : ∀ es pg, view (offset_table es) !! pg = walk (es !!! p4_index pg) pg;
  offset_mappable : ∀ es pg, es !!! p4_index pg = 0 → mappable (offset_table es) pg
}.

(** ** heap.rs *)

Definition HEAP_START : Z := 0x744444440000.
Definition HEAP_SIZE : Z := 10000 * 1024.
Definition GLOBAL : Z := 2 ^ 8.

Section Heap.
Context {P A : Type} `{VirtOps} `{PageIncl} `{Mapper P A} `{FrameAllocator A}.

(** The loop of [init]: every page gets a frame of its own. *)
Fixpoint heap_pages_loop (pages : list Z) (p : P) (a : A) : Outcome (P * A) :=
  match pages with
  | [] => Ret (p, a)
  | page :: pages =>
      let! x := alloc_frame a in
      match x with
      | (_, None) => Panic
      | (a, Some frame) =>
          match map_to p page frame (Z.lor (Z.lor PRESENT WRITABLE) GLOBAL) a with
          | (_, _, Err _) => Panic
          | (p, a, Ok _) => heap_pages_loop pages p a
          end
      end
  end.

(** [init], up to handing the region to the heap allocator. *)
Definition heap_init (p : P) (a : A) : Outcome (P * A) :=
  let! heap_start := va_new HEAP_START in
  let! heap_end := va_add heap_start HEAP_SIZE in
  heap_pages_loop (page_range heap_start heap_end) p a.

(** [map_heap]: the frames of the kernel's table [g] are mapped into [tbl]. *)
Definition map_heap (g : P) (tbl : P) (a : A) : Outcome (P * A) :=
  let! heap_start := va_new HEAP_START in
  let! e := va_add heap_start HEAP_SIZE in
  let! heap_end := va_sub e 1 in
  copy_pages (translate_page g) (page_range_inclusive heap_start heap_end)
    (Z.lor (Z.lor WRITABLE PRESENT) GLOBAL) tbl a.

End Heap.

(** ** paging/mod.rs *)

Record TaskPageTable (P : Type) : Type := mkTPT { table : P; root : Z }.
Arguments mkTPT {P} _ _.
Arguments table {P} _.
Arguments root {P} _.

(** The [Global] variant is a reference to [PAGETABLE]: the operations work
    on the pair of that table and the value. *)
Inductive APageTable (P : Type) : Type := GlobalTable | OwnedTable (t : TaskPageTable P).
Arguments GlobalTable {P}.
Arguments OwnedTable {P} t.

Definition try_get_owned {P} (self : APageTable P) : option (TaskPageTable P) :=
  match self with GlobalTable => None | OwnedTable t => Some t end.

(** [clone] of an owned table is [todo!()]. *)
Definition APageTable_clone {P} (self : APageTable P) : Outcome (APageTable P) :=
  match self with GlobalTable => Ret GlobalTable | OwnedTable _ => Panic end.

(** The table an [APageTable] stands for, and the pair with that table replaced. *)
Definition the_table {P} (s : P * APageTable P) : P :=
  match snd s with GlobalTable => fst s | OwnedTable t => table t end.

Definition put_table {P} (s : P * APageTable P) (p : P) : P * APageTable P :=
  match snd s with
  | GlobalTable => (p, GlobalTable)
  | OwnedTable t => (fst s, OwnedTable (mkTPT p (root t)))
  end.

#[export] Instance APageTable_Mapper {P A} `{Mapper P A} : Mapper (P * APageTable P) A := {
  translate_page s pg := translate_page (the_table s) pg;
  map_to s pg f fl a :=
    let '(p, a, r) := map_to (the_table s) pg f fl a in (put_table s p, a, r);
  unmap s pg := let '(p, r) := unmap (A := A) (the_table s) pg in (put_table s p, r)
}.

(** The entries of the new level-4 table: the upper half of the current one. *)
Definition new_entries (hhdm : Z) (current_tbl : list Z) : list Z :=
  let start_index := p4_index hhdm in
  foldl (λ new_table i, <[i := current_tbl !!! i]> new_table) (replicate 512 0)
    (seq start_index (512 - start_index)).

Inductive PagedirErr : Set := NoFrameAvailable.

Section Pagedir.
Context {P A : Type} `{VirtOps} `{PageIncl} `{Mapper P A} `{FrameAllocator A} `{RootTable P}.
Context (hhdm phys_offset : Z).

(** [current_frame] and [current_tbl]: the table in [cr3]. *)
Definition create_new_pagedir (g : P) (current_frame : Z) (current_tbl : list Z) (a : A)
    : Outcome (A * Result PagedirErr (TaskPageTable P)) :=
  let! x := alloc_frame a in
  match x with
  | (a, None) => Ret (a, Err NoFrameAvailable)
  | (a, Some new_frame) =>
      let! new_tbl_ptr := va_new (new_frame + phys_offset) in
      let! current_tbl_ptr := va_new (current_frame + phys_offset) in
      let! offset := va_new phys_offset in
      let! y := map_heap g (offset_table (new_entries hhdm current_tbl)) a in
      Ret (snd y, Ok (mkTPT (fst y) new_frame))
  end.

(** [TaskPageTable::cleanup]; [clean_up_addr_range] is the library's removal
    of empty tables. *)
Definition TaskPageTable_cleanup (clean_up_addr_range : P → list Z → A → P * A)
    (self : TaskPageTable P) (a : A) : Outcome A :=
  let! zero := va_new 0 in
  let! last := va_new (hhdm - 1) in
  let '(_, a) := clean_up_addr_range (table self) (page_range_inclusive zero last) a in
  Ret (dealloc_frame a (root self)).

Definition APageTable_cleanup (clean_up_addr_range : P → list Z → A → P * A)
    (self : APageTable P) (a : A) : Outcome A :=
  match self with
  | GlobalTable => Ret a
  | OwnedTable t => TaskPageTable_cleanup clean_up_addr_range t a
  end.

End Pagedir.

(** ** An [APageTable] is a page table *)

Lemma the_put {P} (s : P * APageTable P) p : the_table (put_table s p) = p.
Proof. by destruct s as [g [|[t r]]]. Qed.

#[export] Instance APageTable_laws {P A} `{MapperLaws P A} : MapperLaws (P * APageTable P) A.
Proof.
  refine {| view := λ s, view (the_table s) |}; cbn [translate_page map_to unmap APageTable_Mapper].
  - intros s pg. apply translate_view.
  - intros s pg f fl a Hn. pose proof (map_to_view _ pg f fl a Hn) as Hv.
    destruct (map_to (the_table s) pg f fl a) as [[p a'] r]. by rewrite the_put.
  - intros s pg. pose proof (unmap_view (the_table s) pg) as Hu.
    destruct (unmap (A := A) (the_table s) pg) as [p [f|e]]; cbn; by rewrite the_put.
Defined.

(** Operations through an owned table leave the kernel's table alone. *)
Lemma owned_keeps_global {P A} `{Mapper P A} (s : P * APageTable P) t p :
  snd s = OwnedTable t → fst (put_table s p) = fst s ∧ try_get_owned (snd (put_table s p)) = Some (mkTPT p (root t)).
Proof. intros Hs. unfold put_table. by rewrite Hs. Qed.

#[export] Instance APageTable_supply {P A} `{SupplyLaws P A} : SupplyLaws (P * APageTable P) A.
Proof.
  refine {| room := room; free_frames := free_frames; alloc_wf := alloc_wf;
            mappable := λ s pg, mappable (the_table s) pg |}.
  - exact alloc_room.
  - intros s pg f fl a Ha Hm Hn Hr. destruct (map_room _ pg f fl a Ha Hm Hn Hr) as (p' & a' & E & ?).
    cbn [map_to APageTable_Mapper]. rewrite E. eauto.
  - intros s pg f fl a q Hq. cbn [map_to APageTable_Mapper].
    pose proof (map_mappable _ pg f fl a q Hq) as Hq'.
    destruct (map_to (the_table s) pg f fl a) as [[p a'] r]. cbn; by rewrite the_put.
  - intros s pg q Hq. cbn [unmap APageTable_Mapper]. pose proof (unmap_mappable _ pg q Hq) as Hq'.
    destruct (unmap (A := A) (the_table s) pg) as [p r]. cbn. by rewrite the_put.
Defined.

(** ** The heap in every address space *)

Definition heap_pages : list Z := pages_from HEAP_START 2500.

Lemma heap_pages_len : zlen heap_pages = 2500.
Proof. unfold zlen, heap_pages, pages_from. by rewrite length_fmap, length_seq. Qed.

Lemma heap_pages_index pg : pg ∈ heap_pages → p4_index pg = 232%nat.
Proof.
  intros (k & Hk & ->)%elem_of_pages_from. unfold p4_index, HEAP_START, PAGE.
  rewrite Z.shiftr_div_pow2 by lia.
  replace ((0x744444440000 + 4096 * Z.of_nat k) / 2 ^ 39) with 232; [done|].
  apply Z.div_unique with (0x744444440000 + 4096 * Z.of_nat k - 232 * 2 ^ 39); lia.
Qed.

Section HeapLemmas.
Context {P A : Type} `{VirtLaws} `{PageInclLaws} `{SupplyLaws P A}.

Lemma heap_range : va_new HEAP_START = Ret HEAP_START ∧
  va_add HEAP_START HEAP_SIZE = Ret (HEAP_START + HEAP_SIZE) ∧
  va_sub (HEAP_START + HEAP_SIZE) 1 = Ret (HEAP_START + HEAP_SIZE - 1) ∧
  page_range HEAP_START (HEAP_START + HEAP_SIZE) = heap_pages ∧
  page_range_inclusive HEAP_START (HEAP_START + HEAP_SIZE - 1) = heap_pages.
Proof.
  assert (Hc : ∀ a, HEAP_START <= a <= HEAP_START + HEAP_SIZE → canonical a).
  { intros a Ha. left. unfold HEAP_START, HEAP_SIZE in Ha. lia. }
  split_and!.
  - apply va_new_canonical, Hc. unfold HEAP_SIZE. lia.
  - apply va_add_canonical; try apply Hc; unfold HEAP_START, HEAP_SIZE; lia.
  - apply va_sub_canonical; try apply Hc; unfold HEAP_START, HEAP_SIZE; lia.
  - unfold heap_pages. rewrite <- page_range_spec; [done|done|apply Hc; unfold HEAP_SIZE; lia].
  - replace (HEAP_START + HEAP_SIZE - 1) with (HEAP_START + PAGE * Z.of_nat 2499 + 4095) by done.
    apply (range_inclusive_spec HEAP_START 2499); [done|apply Hc; unfold HEAP_SIZE; lia|done].
Qed.

(** Copying mappings succeeds with three frames of room per page. *)
Lemma copy_pages_total donor pages flags (p : P) (a : A) :
  NoDup pages → alloc_wf a → 3 * zlen pages <= room a →
  (∀ pg, pg ∈ pages → is_ok (donor pg) = true ∧ view p !! pg = None ∧ mappable p pg) →
  ∃ p' a', copy_pages donor pages flags p a = Ret (p', a') ∧ alloc_wf a' ∧
    room a - 3 * zlen pages <= room a' ∧ free_frames a' ⊆ free_frames a ∧
    (∀ q, mappable p q → mappable p' q).
Proof.
  revert p a. induction pages as [|pg pages IH]; intros p a Hnd Hwf Hroom Hall; cbn [copy_pages].
  { exists p, a. unfold zlen. simpl. split_and!; try done. lia. }
  apply NoDup_cons in Hnd as [Hpg Hnd]. destruct (Hall pg) as (Hd & Hn & Hm); [left|].
  assert (Hl : zlen (pg :: pages) = zlen pages + 1) by (unfold zlen; simpl; lia).
  pose proof (zlen_nonneg pages). destruct (donor pg) as [f|]; [|done].
  destruct (map_room p pg f flags a Hwf Hm Hn ltac:(lia)) as (p1 & a1 & E & Hr & Hwf1 & Hfree).
  pose proof (map_to_view p pg f flags a Hn) as Hv. pose proof (λ q, map_mappable p pg f flags a q) as Hmm.
  rewrite E in Hv, Hmm |- *. cbn [is_ok fst] in Hv, Hmm.
  destruct (IH p1 a1 Hnd Hwf1) as (p' & a' & E' & ? & ? & Hf' & Hm'); [lia| |].
  - intros q Hq. destruct (Hall q) as (? & ? & ?); [by right|].
    rewrite Hv, lookup_insert_ne by set_solver. auto.
  - exists p', a'. split_and!; [done|done|lia|set_solver|]. intros q Hq. auto.
Qed.

(** Every page of the heap gets a frame. *)
Lemma heap_pages_loop_total pages (p : P) (a : A) :
  NoDup pages → alloc_wf a → 4 * zlen pages <= room a →
  (∀ pg, pg ∈ pages → view p !! pg = None ∧ mappable p pg) →
  ∃ p' a', heap_pages_loop pages p a = Ret (p', a') ∧
    (∀ q, is_Some (view p' !! q) ↔ q ∈ pages ∨ is_Some (view p !! q)) ∧
    (∀ q, q ∉ pages → view p' !! q = view p !! q).
Proof.
  revert p a. induction pages as [|pg pages IH]; intros p a Hnd Hwf Hroom Hall;
    cbn [heap_pages_loop].
  { exists p, a. split; [done|]. split; [|done]. set_solver. }
  apply NoDup_cons in Hnd as [Hpg Hnd]. destruct (Hall pg) as (Hn & Hm); [left|].
  assert (Hl : zlen (pg :: pages) = zlen pages + 1) by (unfold zlen; simpl; lia).
  pose proof (zlen_nonneg pages).
  destruct (alloc_room a Hwf ltac:(lia)) as (a0 & f & E0 & Hr0 & Hwf0 & _). rewrite E0. cbn [obind].
  set (fl := Z.lor _ _).
  destruct (map_room p pg f fl a0 Hwf0 Hm Hn ltac:(lia)) as (p1 & a1 & E & Hr & Hwf1 & _).
  pose proof (map_to_view p pg f fl a0 Hn) as Hv. pose proof (λ q, map_mappable p pg f fl a0 q) as Hmm.
  rewrite E in Hv, Hmm |- *. cbn [is_ok fst] in Hv, Hmm.
  destruct (IH p1 a1 Hnd Hwf1) as (p' & a' & E' & Hdom & Hout); [lia| |].
  - intros q Hq. destruct (Hall q) as (? & ?); [by right|].
    rewrite Hv, lookup_insert_ne by set_solver. auto.
  - exists p', a'. split; [done|]. split.
    + intros q. rewrite Hdom, Hv, lookup_insert_is_Some', elem_of_cons. naive_solver.
    + intros q Hq. rewrite Hout by set_solver. rewrite Hv, lookup_insert_ne by set_solver. done.
Qed.

End HeapLemmas.

(** ** New address spaces *)

Lemma insert_range (cur : list Z) n s t :
  length t = (s + n)%nat →
  let r := foldl (λ t i, <[i := cur !!! i]> t) t (seq s n) in
  length r = (s + n)%nat ∧
  ∀ i, (i < s + n)%nat → r !!! i = if decide (s <= i)%nat then cur !!! i else t !!! i.
Proof.
  intros Hl. cbv zeta.
  assert (Hgen : ∀ k s' t', length t' = (s + n)%nat → (s' + k = s + n)%nat →
    let r := foldl (λ t i, <[i := cur !!! i]> t) t' (seq s' k) in
    length r = (s + n)%nat ∧
    ∀ i, (i < s + n)%nat → r !!! i = if decide (s' <= i)%nat then cur !!! i else t' !!! i).
  { induction k as [|k IH]; intros s' t' Hl' Hk; cbn [seq foldl].
    - split; [done|]. intros i Hi. rewrite decide_False by lia. done.
    - destruct (IH (S s') (<[s' := cur !!! s']> t')) as [H1 H2];
        [by rewrite length_insert|lia|]. split; [done|]. intros i Hi. rewrite H2 by done.
      destruct (decide (i = s')) as [->|Hne].
      + rewrite decide_False, decide_True by lia. rewrite list_lookup_total_insert_eq by lia. done.
      + rewrite list_lookup_total_insert_ne by done. do 2 case_decide; (done || lia). }
  by apply Hgen.
Qed.

Lemma new_entries_spec hhdm cur i :
  (i < 512)%nat →
  new_entries hhdm cur !!! i = if decide (p4_index hhdm <= i)%nat then cur !!! i else 0.
Proof.
  intros Hi. unfold new_entries.
  assert (Hs : (p4_index hhdm < 512)%nat).
  { unfold p4_index. change 0x1ff with (Z.ones 9). rewrite Z.land_ones by lia.
    pose proof (Z.mod_pos_bound (Z.shiftr hhdm 39) (2 ^ 9) ltac:(lia)). lia. }
  destruct (insert_range cur (512 - p4_index hhdm) (p4_index hhdm) (replicate 512 0)) as [_ Hr].
  { rewrite length_replicate. lia. }
  rewrite Hr by lia. case_decide; [done|]. by rewrite lookup_total_replicate_2 by lia.
Qed.

Lemma p4_index_lt pg : (p4_index pg < 512)%nat.
Proof.
  unfold p4_index. change 0x1ff with (Z.ones 9). rewrite Z.land_ones by lia.
  pose proof (Z.mod_pos_bound (Z.shiftr pg 39) (2 ^ 9) ltac:(lia)). lia.
Qed.

Section PagedirLemmas.
Context {P A : Type} `{VirtLaws} `{PageInclLaws} `{RootLaws P A}.
Context (hhdm phys_offset : Z).

(** C24: a new address space consists of the kernel's half of the current one
    and of the kernel heap with the kernel's frames; every other page is
    unmapped.  With the heap mapped in the kernel's table and enough frames
    the call succeeds, and the root is a frame that was free. *)
Theorem new_pagedir_spec (g : P) current_frame cur (a : A) :
  (256 <= p4_index hhdm)%nat →
  (∀ f, f ∈ free_frames a → canonical (f + phys_offset)) →
  canonical (current_frame + phys_offset) → canonical phys_offset →
  (∀ pg, pg ∈ heap_pages → is_Some (view g !! pg)) →
  alloc_wf a → 3 * 2500 + 1 <= room a →
  ∃ a' t, create_new_pagedir hhdm phys_offset g current_frame cur a = Ret (a', Ok t) ∧
    root t ∈ free_frames a ∧ (root t ∉ free_frames a') ∧ alloc_wf a' ∧
    room a - 7501 <= room a' ∧
    ∀ pg, view (table t) !! pg =
      if decide (p4_index hhdm <= p4_index pg)%nat then view (offset_table cur) !! pg
      else if decide (pg ∈ heap_pages) then view g !! pg
      else None.
Proof.
  intros Hup Hcan Hcf Hoff Hheap Hwf Hroom. unfold create_new_pagedir.
  destruct (alloc_room a Hwf ltac:(lia)) as (a1 & f & E1 & Hr1 & Hwf1 & Hf & _ & Hsub).
  rewrite E1. cbn [obind].
  rewrite (va_new_canonical (f + phys_offset)) by auto. cbn [obind].
  rewrite (va_new_canonical (current_frame + phys_offset)) by auto. cbn [obind].
  rewrite (va_new_canonical phys_offset) by auto. cbn [obind].
  unfold map_heap. destruct heap_range as (-> & E2 & E3 & _ & E5). cbn [obind].
  rewrite E2. cbn [obind]. rewrite E3. cbn [obind]. rewrite E5.
  set (p0 := offset_table (new_entries hhdm cur)).
  assert (Hzero : ∀ pg, (p4_index pg < p4_index hhdm)%nat → new_entries hhdm cur !!! p4_index pg = 0).
  { intros pg Hpg. rewrite new_entries_spec by apply p4_index_lt. by rewrite decide_False by lia. }
  assert (Hlow : ∀ pg, pg ∈ heap_pages → view p0 !! pg = None ∧ mappable p0 pg).
  { intros pg Hpg. pose proof (heap_pages_index pg Hpg) as Hix. unfold p0. split.
    - rewrite offset_view, Hzero by lia. apply walk_empty.
    - apply offset_mappable, Hzero. lia. }
  set (fl := Z.lor _ _).
  destruct (copy_pages_total (translate_page g) heap_pages fl p0 a1) as (p' & a' & E & Hwf' & Hr' & Hfree & _).
  - apply pages_from_NoDup.
  - done.
  - rewrite heap_pages_len. lia.
  - intros pg Hpg. destruct (Hlow pg Hpg). split_and!; try done.
    destruct (Hheap pg Hpg) as [x Hx]. rewrite translate_view in Hx. by destruct (translate_page g pg).
  - rewrite E. cbn [obind]. eexists a', _. split; [done|]. cbn [root table].
    rewrite heap_pages_len in Hr'. split_and!; [done| |done|lia|].
    { intros Hin. by apply Hfree, Hsub, elem_of_difference in Hin as [_ []%not_elem_of_singleton_1]. }
    intros pg. rewrite (copy_pages_view (translate_page g) heap_pages fl p0 a1 p' a'); [|..|exact E].
    + case_decide as Hin.
      * rewrite decide_False by (rewrite (heap_pages_index pg Hin); lia). by rewrite translate_view.
      * unfold p0. rewrite !offset_view, new_entries_spec by apply p4_index_lt.
        case_decide; [done|]. apply walk_empty.
    + apply pages_from_NoDup.
    + intros q Hq. by apply Hlow.
Qed.

(** Setting up the heap maps exactly its 2500 pages in the kernel's
    table, which is what later address spaces rely on. *)
Lemma heap_init_spec (p : P) (a : A) :
  (∀ pg, pg ∈ heap_pages → view p !! pg = None ∧ mappable p pg) →
  alloc_wf a → 4 * 2500 <= room a →
  ∃ p' a', heap_init p a = Ret (p', a') ∧
    (∀ q, is_Some (view p' !! q) ↔ q ∈ heap_pages ∨ is_Some (view p !! q)) ∧
    (∀ q, q ∉ heap_pages → view p' !! q = view p !! q).
Proof.
  intros Hall Hwf Hroom. unfold heap_init. destruct heap_range as (-> & E2 & _ & E4 & _).
  cbn [obind]. rewrite E2. cbn [obind]. rewrite E4.
  apply heap_pages_loop_total; [apply pages_from_NoDup|done| |done].
  rewrite heap_pages_len. lia.
Qed.

End PagedirLemmas.

(** ** Instances for the witnesses *)

#[export] Instance PageIncl_ref : PageIncl := {
  page_range_inclusive a b := pages_from (a / PAGE * PAGE) (Z.to_nat (b / PAGE - a / PAGE + 1))
}.

#[export] Instance PageInclLaws_ref : PageInclLaws.
Proof.
  constructor. intros a n k Ha _ Hk. cbn [page_range_inclusive PageIncl_ref].
  unfold aligned, PAGE in *. apply Z.mod_divide in Ha as [q ->]; [|lia].
  replace ((q * 4096 + 4096 * Z.of_nat n + k) / 4096) with (q + Z.of_nat n)
    by (apply Z.div_unique with k; lia).
  rewrite Z.div_mul by lia. f_equal. lia.
Qed.

(** Frames on a list, tables as finite maps. *)
#[export] Instance gmap_supply : SupplyLaws (gmap Z Z) (list Z).
Proof.
  refine {| room := λ a, zlen a; free_frames := λ a, list_to_set a;
            alloc_wf := λ a, NoDup a ∧ Forall (λ f, f mod PAGE = 0) a;
            mappable := λ _ _, True |}; cbn [alloc_frame list_FrameAllocator map_to gmap_Mapper]; try done.
  - intros [|f a] [Hnd Hal] Hroom; [done|]. exists a, f.
    apply NoDup_cons in Hnd as [Hf Hnd]. apply Forall_cons in Hal as [Hf0 Hal].
    split_and!; [done|unfold zlen; simpl; lia|done|done|set_solver|done|].
    intros x Hx%elem_of_list_to_set. apply elem_of_difference. split; [set_solver|].
    intros ->%elem_of_singleton. done.
  - intros p pg f fl a Hwf _ Hn _. cbn [view gmap_MapperLaws] in Hn. rewrite Hn.
    exists (<[pg := f]> p), a. split_and!; try done; try apply Hwf. lia.
Defined.

(** A table whose last entry maps one page of the kernel's half. *)
Definition KPAGE : Z := 0xffffffff80000000.

#[export] Instance gmap_RootTable : RootTable (gmap Z Z) := {
  offset_table es := if decide (es !!! 511%nat = 0) then ∅ else {[KPAGE := es !!! 511%nat]}
}.

#[export] Instance gmap_RootLaws : RootLaws (gmap Z Z) (list Z).
Proof.
  refine {| walk := λ e pg, if decide (pg = KPAGE ∧ e ≠ 0) then Some e else None |}; try done.
  - intros pg. by rewrite decide_False by naive_solver.
  - intros es pg. cbn [view gmap_MapperLaws offset_table gmap_RootTable].
    destruct (decide (pg = KPAGE)) as [->|Hne].
    + change (p4_index KPAGE) with 511%nat. case_decide as E.
      * by rewrite decide_False by naive_solver.
      * rewrite decide_True by (split; [done|exact E]). apply lookup_singleton_eq.
    + rewrite (decide_False (P := pg = KPAGE ∧ _)) by naive_solver.
      case_decide; [done|]. by rewrite lookup_singleton_ne.
Defined.

Definition kernel_heap : gmap Z Z := list_to_map ((λ pg, (pg, pg + 0x1000)) <$> heap_pages).

Lemma kernel_heap_lookup pg : pg ∈ heap_pages → kernel_heap !! pg = Some (pg + 0x1000).
Proof.
  intros Hpg. apply elem_of_list_to_map_1'.
  - intros y (x & Hxy & _)%list_elem_of_fmap. by injection Hxy as -> ->.
  - apply list_elem_of_fmap. by exists pg.
Qed.

Definition many_frames : list Z := pages_from 0 (Z.to_nat 8000).

Lemma many_frames_spec : NoDup many_frames ∧ Forall (λ f, f mod PAGE = 0) many_frames ∧
  zlen many_frames = 8000 ∧ ∀ f, f ∈ many_frames → 0 <= f < 0x2000000.
Proof.
  split_and!.
  - apply pages_from_NoDup.
  - apply Forall_forall. intros f (k & _ & ->)%elem_of_pages_from.
    rewrite Z.add_0_l, Z.mul_comm. apply Z_mod_mult.
  - unfold zlen, many_frames, pages_from. rewrite length_fmap, length_seq. done.
  - intros f (k & Hk & ->)%elem_of_pages_from. unfold PAGE. lia.
Qed.

Lemma new_pagedir_spec_witness :
  ∃ a' t, create_new_pagedir (P := gmap Z Z) LOW_HHDM LOW_HHDM kernel_heap 0x5000 (replicate 512 7)
            many_frames = Ret (a', Ok t) ∧
    table t !! KPAGE = Some 7 ∧ table t !! HEAP_START = Some (HEAP_START + 0x1000).
Proof.
  destruct many_frames_spec as (Hnd & Hal & Hlen & Hrange).
  destruct (new_pagedir_spec (P := gmap Z Z) LOW_HHDM LOW_HHDM kernel_heap 0x5000 (replicate 512 7)
              many_frames) as (a' & t & E & _ & _ & _ & _ & Hv).
  - vm_compute. repeat constructor.
  - intros f Hf%elem_of_list_to_set. specialize (Hrange f Hf). right. unfold LOW_HHDM. lia.
  - right. unfold LOW_HHDM. lia.
  - right. unfold LOW_HHDM. lia.
  - intros pg Hpg. exists (pg + 0x1000). by apply kernel_heap_lookup.
  - by split.
  - cbn [room gmap_supply]. lia.
  - exists a', t. split; [exact E|]. split; [apply Hv|].
    cbn [view gmap_MapperLaws] in Hv. rewrite (Hv HEAP_START).
    assert (Hin : HEAP_START ∈ heap_pages) by (apply elem_of_pages_from; exists O; split; [lia|done]).
    rewrite decide_False by (vm_compute; lia). rewrite decide_True by exact Hin.
    by apply kernel_heap_lookup.
Defined.
