(* ===== verification/Heap.v ===== *)
(** The kernel heap: [SafeHeap] (kernel/src/kernel/mem/alloc/linked_list.rs)
    over the region that [heap::init] maps (kernel/src/kernel/mem/heap.rs).

    The allocator behind the lock is a library's: it is a class of operations
    with the laws its documentation states for one call.  A call takes the
    lock, does its work and releases it; a thread that allocates while it
    holds the lock itself, as code that runs inside [lock()] would, waits for
    ever ([Blocked]). *)
From S2P Require Import Prelude FrameAlloc Paging PageDir.
Open Scope Z_scope.

Record Layout : Set := mkLayout { layout_size : Z; layout_align : Z }.

(** Sizes are what a [Layout] can hold, alignments are powers of two. *)
Definition layout_ok (l : Layout) : Prop := 0 <= layout_size l ∧ 0 < layout_align l.

(** ** The library's allocator *)

Class HeapOps (H : Type) := {
  Heap_empty : H;
  Heap_init : H → Z → Z → H;
  allocate_first_fit : H → Layout → H * option Z;
  Heap_deallocate : H → Z → Layout → H
}.

(** Two blocks do not overlap. *)
Definition apart (p n q m : Z) : Prop := p + n <= q ∨ q + m <= p.

(** [live] are the blocks in use, [extent] the region. *)
Class HeapLaws (H : Type) `{HeapOps H} := {
  live : H → gmap Z Layout;
  extent : H → Z * Z;
  init_live : ∀ h b n, live (Heap_init h b n) = ∅ ∧ extent (Heap_init h b n) = (b, n);
  allocate_refused : ∀ h l h', allocate_first_fit h l = (h', None) → live h' = live h ∧ extent h' = extent h;
  allocate_granted : ∀ h l h' p, layout_ok l → allocate_first_fit h l = (h', Some p) →
    live h' = <[p := l]> (live h) ∧ extent h' = extent h ∧ p mod layout_align l = 0 ∧
    fst (extent h) <= p ∧ p + layout_size l <= fst (extent h) + snd (extent h) ∧
    ∀ q m, live h !! q = Some m → apart p (layout_size l) q (layout_size m);
  deallocate_live : ∀ h p l, live h !! p = Some l →
    live (Heap_deallocate h p l) = delete p (live h) ∧ extent (Heap_deallocate h p l) = extent h
}.

(** ** [SafeHeap] *)

Record SafeHeap (H : Type) : Type := mkSafeHeap { sh_locked : bool; sh_inner : H }.
Arguments mkSafeHeap {H} _ _.
Arguments sh_locked {H} _.
Arguments sh_inner {H} _.

Section SafeHeap.
Context {H : Type} `{HeapOps H}.
Implicit Types self : SafeHeap H.

Definition SafeHeap_new : SafeHeap H := mkSafeHeap false Heap_empty.

(** [self.lock()], the body, and the drop of the guard. *)
Definition with_heap {X} self (f : H → H * X) : Outcome (SafeHeap H * X) :=
  if sh_locked self then Blocked
  else let '(h, x) := f (sh_inner self) in Ret (mkSafeHeap false h, x).

Definition SafeHeap_init self (heap_bottom heap_size : Z) : Outcome (SafeHeap H) :=
  let! r := with_heap self (λ h, (Heap_init h heap_bottom heap_size, tt)) in Ret (fst r).

(** A null pointer is 0. *)
Definition SafeHeap_alloc self (layout : Layout) : Outcome (SafeHeap H * Z) :=
  with_heap self (λ h, let '(h, r) := allocate_first_fit h layout in
                       (h, match r with Some p => p | None => 0 end)).

Definition SafeHeap_dealloc self (p : Z) (layout : Layout) : Outcome (SafeHeap H) :=
  if p =? 0 then Ret self
  else let! r := with_heap self (λ h, (Heap_deallocate h p layout, tt)) in Ret (fst r).

(** [heap::init] as a whole: the pages, then the allocator. *)
Definition kernel_heap_init {P A} `{VirtOps} `{Mapper P A} `{FrameAllocator A} self (p : P) (a : A)
    : Outcome (SafeHeap H * P * A) :=
  let! x := PageDir.heap_init p a in
  let! self := SafeHeap_init self HEAP_START HEAP_SIZE in
  Ret (self, fst x, snd x).

(** ** Clients

    [owned] are the blocks a client got and has not given back. *)
Inductive heap_step : SafeHeap H * gmap Z Layout → SafeHeap H * gmap Z Layout → Prop :=
| step_alloc self owned self' layout p :
    layout_ok layout → SafeHeap_alloc self layout = Ret (self', p) → p ≠ 0 →
    heap_step (self, owned) (self', <[p := layout]> owned)
| step_refused self owned self' layout :
    layout_ok layout → SafeHeap_alloc self layout = Ret (self', 0) → heap_step (self, owned) (self', owned)
| step_dealloc self owned self' p layout :
    owned !! p = Some layout → SafeHeap_dealloc self p layout = Ret self' →
    heap_step (self, owned) (self', delete p owned).

End SafeHeap.

(** ** Blocks stay apart *)

(** The bytes of a block, and pages of the heap. *)
Definition in_heap (p : Z) (l : Layout) : Prop :=
  HEAP_START <= p ∧ p + layout_size l <= HEAP_START + HEAP_SIZE ∧ p mod layout_align l = 0.

Definition page_of (a : Z) : Z := a / PAGE * PAGE.

Lemma heap_byte_page a : HEAP_START <= a < HEAP_START + HEAP_SIZE → page_of a ∈ heap_pages.
Proof.
  intros Ha. apply elem_of_pages_from. unfold page_of. exists (Z.to_nat ((a - HEAP_START) / PAGE)).
  assert (HEAP_START / PAGE * PAGE = HEAP_START) as Hs by done.
  assert (Hd : a / PAGE = HEAP_START / PAGE + (a - HEAP_START) / PAGE).
  { rewrite <- Z.div_add_l by done. f_equal. lia. }
  pose proof (Z.div_pos (a - HEAP_START) PAGE ltac:(lia) ltac:(done)).
  assert ((a - HEAP_START) / PAGE < 2500).
  { apply Z.div_lt_upper_bound; [done|]. unfold HEAP_SIZE, PAGE in *. lia. }
  split; [lia|]. rewrite Hd, Z.mul_add_distr_r, Hs, Z2Nat.id by done. lia.
Qed.

Section Safe.
Context {H : Type} `{HeapLaws H}.
Implicit Types (self : SafeHeap H) (owned : gmap Z Layout).

Record heap_inv self owned : Prop := {
  hi_free : sh_locked self = false;
  hi_live : live (sh_inner self) = owned;
  hi_extent : extent (sh_inner self) = (HEAP_START, HEAP_SIZE);
  hi_inside : ∀ p l, owned !! p = Some l → in_heap p l;
  hi_apart : ∀ p l q m, owned !! p = Some l → owned !! q = Some m → p ≠ q →
    apart p (layout_size l) q (layout_size m)
}.

Lemma alloc_inv self owned layout :
  heap_inv self owned → layout_ok layout →
  ∃ self' p, SafeHeap_alloc self layout = Ret (self', p) ∧
    ((p = 0 ∧ heap_inv self' owned) ∨
     (p ≠ 0 ∧ heap_inv self' (<[p := layout]> owned) ∧
      ∀ q m, owned !! q = Some m → apart p (layout_size layout) q (layout_size m))).
Proof.
  intros [Hf Hl He Hin Hap] Hok. unfold SafeHeap_alloc, with_heap. rewrite Hf.
  destruct (allocate_first_fit (sh_inner self) layout) as [h' [p|]] eqn:E.
  - destruct (allocate_granted _ _ _ _ Hok E) as (Hl' & He' & Hm & Hlo & Hhi & Hnew).
    rewrite He in *. cbn [fst snd] in *. rewrite Hl in *.
    eexists _, p. split; [done|]. right. split; [unfold HEAP_START in *; lia|]. split; [|done].
    split; cbn [sh_locked sh_inner]; try done.
    + intros q m [[<- <-]|[_ Hq]]%lookup_insert_Some; [done|by apply Hin].
    + intros q m q' m' [[<- <-]|[Hn Hq]]%lookup_insert_Some [[<- <-]|[Hn' Hq']]%lookup_insert_Some Hne;
        [done|by apply Hnew| |by apply Hap].
      destruct (Hnew q m Hq); [by right|by left].
  - destruct (allocate_refused _ _ _ E) as [Hl' He']. eexists _, 0. split; [done|]. left. split; [done|].
    split; cbn [sh_locked sh_inner]; congruence || done.
Qed.

Lemma dealloc_inv self owned p layout :
  heap_inv self owned → owned !! p = Some layout →
  ∃ self', SafeHeap_dealloc self p layout = Ret self' ∧ heap_inv self' (delete p owned).
Proof.
  intros [Hf Hl He Hin Hap] Hp. pose proof (Hin _ _ Hp) as (Hlo & _).
  unfold SafeHeap_dealloc. destruct (Z.eqb_spec p 0) as [->|]; [unfold HEAP_START in Hlo; lia|].
  unfold with_heap. rewrite Hf. cbn [obind fst]. rewrite <- Hl in Hp.
  destruct (deallocate_live _ _ _ Hp) as [Hl' He']. eexists. split; [done|].
  split; cbn [sh_locked sh_inner]; [done|congruence|congruence| |].
  - intros q m [_ Hq]%lookup_delete_Some. by apply Hin.
  - intros q m q' m' [_ Hq]%lookup_delete_Some [_ Hq']%lookup_delete_Some. by apply Hap.
Qed.

Lemma heap_step_inv x y : heap_step x y → heap_inv x.1 x.2 → heap_inv y.1 y.2.
Proof.
  intros Hs Hi.
  destruct Hs as [self owned self' l p Hok Ha Hp|self owned self' l Hok Ha|self owned self' p l Hp Ha];
    cbn [fst snd] in *.
  - destruct (alloc_inv _ _ _ Hi Hok) as (s1 & p1 & E & [[-> _]|(_ & Hi' & _)]); rewrite E in Ha;
      injection Ha as <- <-; done.
  - destruct (alloc_inv _ _ _ Hi Hok) as (s1 & p1 & E & [[_ Hi']|(Hp & _)]); rewrite E in Ha;
      injection Ha as <- ->; done.
  - destruct (dealloc_inv _ _ _ _ Hi Hp) as (s1 & E & Hi'). rewrite E in Ha. by injection Ha as <-.
Qed.

Lemma heap_steps_inv self0 self owned :
  heap_inv self0 ∅ → rtc heap_step (self0, ∅) (self, owned) → heap_inv self owned.
Proof.
  intros Hi0 Hr. change (heap_inv (self, owned).1 (self, owned).2). revert Hr. generalize (self, owned).
  intros y Hr. remember (self0, ∅) as x eqn:Hx. assert (Hx0 : heap_inv x.1 x.2) by (by subst). clear Hx.
  induction Hr; eauto using heap_step_inv.
Qed.

End Safe.

(** C19: the kernel heap after [heap::init].  Whatever sequence of allocations
    and frees its clients make, the calls return, the blocks in use are
    aligned, do not overlap, and lie inside the heap region, whose every byte
    is on a page that is mapped in the kernel's table; the next allocation
    gives such a block or null, and a free of a block in use succeeds. *)
Theorem kernel_heap_safe {H P A} `{HeapLaws H} `{VirtLaws} `{PageInclLaws} `{RootLaws P A} (p : P) (a : A) :
  (∀ pg, pg ∈ heap_pages → view p !! pg = None ∧ mappable p pg) →
  alloc_wf a → 4 * 2500 <= room a →
  ∃ heap p' a', kernel_heap_init SafeHeap_new p a = Ret (heap, p', a') ∧
  ∀ (self : SafeHeap H) owned, rtc heap_step (heap, ∅) (self, owned) →
    (∀ q l, owned !! q = Some l → in_heap q l ∧
       ∀ x, q <= x < q + layout_size l → is_Some (view p' !! page_of x)) ∧
    (∀ q l q' l', owned !! q = Some l → owned !! q' = Some l' → q ≠ q' →
       apart q (layout_size l) q' (layout_size l')) ∧
    (∀ l, layout_ok l → ∃ self' q, SafeHeap_alloc self l = Ret (self', q) ∧
       (q = 0 ∨ in_heap q l ∧ ∀ q' l', owned !! q' = Some l' → apart q (layout_size l) q' (layout_size l'))) ∧
    (∀ q l, owned !! q = Some l → ∃ self', SafeHeap_dealloc self q l = Ret self').
Proof.
  intros Hall Hwf Hroom. destruct (heap_init_spec p a Hall Hwf Hroom) as (p' & a' & E & Hmap & _).
  eexists _, p', a'. split; [unfold kernel_heap_init; rewrite E; reflexivity|].
  intros self owned Hr. destruct (init_live (Heap_empty : H) HEAP_START HEAP_SIZE) as [Hl He].
  assert (Hi : heap_inv self owned).
  { eapply heap_steps_inv; [|exact Hr]. by split. }
  split; [|split; [|split]].
  - intros q l Hq. pose proof (hi_inside _ _ Hi _ _ Hq) as Hin. split; [done|]. intros x Hx.
    apply Hmap. left. apply heap_byte_page. destruct Hin as (? & ? & _). lia.
  - apply Hi.
  - intros l Hok. destruct (alloc_inv _ _ _ Hi Hok) as (self' & q & Ha & Hres). exists self', q. split; [done|].
    destruct Hres as [[-> _]|(_ & Hi' & Hap)]; [by left|right]. split; [|done].
    apply (hi_inside _ _ Hi'). apply lookup_insert_eq.
  - intros q l Hq. destruct (dealloc_inv _ _ _ _ Hi Hq) as (self' & Hd & _). by exists self'.
Qed.

(** Freeing null does nothing, even while the lock is taken. *)
Lemma dealloc_null {H} `{HeapOps H} (self : SafeHeap H) layout : SafeHeap_dealloc self 0 layout = Ret self.
Proof. done. Qed.

(** Code that allocates while it holds the heap's lock waits for ever. *)
Lemma alloc_under_lock {H} `{HeapOps H} (h : H) layout : SafeHeap_alloc (mkSafeHeap true h) layout = Blocked.
Proof. done. Qed.

(** ** An instance: a bump allocator that remembers its blocks *)

Record Bump : Type := mkBump { b_extent : Z * Z; b_top : Z; b_live : gmap Z Layout }.

Definition bump_fits (h : Bump) (l : Layout) (p : Z) : bool :=
  bool_decide (0 < layout_align l ∧ 0 <= layout_size l ∧ fst (b_extent h) <= p ∧
    p + layout_size l <= fst (b_extent h) + snd (b_extent h) ∧
    map_Forall (λ q m, apart p (layout_size l) q (layout_size m)) (b_live h)).

Definition bump_next (h : Bump) (l : Layout) : Z :=
  (b_top h + layout_align l - 1) / layout_align l * layout_align l.

#[export] Instance Bump_HeapOps : HeapOps Bump := {
  Heap_empty := mkBump (0, 0) 0 ∅;
  Heap_init h b n := mkBump (b, n) b ∅;
  allocate_first_fit h l :=
    let p := bump_next h l in
    if bump_fits h l p then (mkBump (b_extent h) (p + layout_size l) (<[p := l]> (b_live h)), Some p)
    else (h, None);
  Heap_deallocate h p l := mkBump (b_extent h) (b_top h) (delete p (b_live h))
}.

#[export] Instance Bump_HeapLaws : HeapLaws Bump.
Proof.
  refine {| live := b_live; extent := b_extent |}.
  - done.
  - intros h l h'. cbn. destruct (bump_fits _ _ _); [done|]. by intros [= <-].
  - intros h l h' p _. cbn. destruct (bump_fits h l (bump_next h l)) eqn:E; [|done]. intros [= <- <-].
    apply bool_decide_eq_true in E as (Ha & _ & Hlo & Hhi & Hap). cbn [b_live b_extent].
    split_and!; try done. unfold bump_next. apply Z.mod_mul. lia.
  - done.
Defined.

Definition heap_frames : list Z := pages_from 0 (Z.to_nat 10000).

Lemma heap_frames_spec : (NoDup heap_frames ∧ Forall (λ f, f mod PAGE = 0) heap_frames) ∧ zlen heap_frames = 10000.
Proof.
  split; [split|].
  - apply pages_from_NoDup.
  - apply Forall_forall. intros f (k & _ & ->)%elem_of_pages_from. rewrite Z.add_0_l, Z.mul_comm. by apply Z.mod_mul.
  - unfold zlen, heap_frames, pages_from. rewrite length_fmap, length_seq. lia.
Qed.

Definition sample_step (n : Z) (s : SafeHeap Bump) : Outcome (SafeHeap Bump * Z) := SafeHeap_alloc s (mkLayout n 8).

(** The heap is set up in an empty table and gives out two blocks. *)
Lemma kernel_heap_safe_witness :
  ∃ heap p' a' self self' q, kernel_heap_init SafeHeap_new (∅ : gmap Z Z) heap_frames = Ret (heap, p', a') ∧
    sample_step 100 heap = Ret (self, HEAP_START) ∧ sample_step 24 self = Ret (self', q) ∧
    (q = 0 ∨ apart q 24 HEAP_START 100).
Proof.
  destruct (kernel_heap_safe (H := Bump) (∅ : gmap Z Z) heap_frames) as (heap & p' & a' & E & Hr).
  - intros pg _. split; [reflexivity|exact I].
  - apply heap_frames_spec.
  - cbn [room gmap_supply]. rewrite (proj2 heap_frames_spec). lia.
  - assert (Hh : heap = mkSafeHeap false (mkBump (HEAP_START, HEAP_SIZE) HEAP_START ∅)).
    { unfold kernel_heap_init in E. destruct (PageDir.heap_init _ _) as [[x y]| | |]; try discriminate E.
      injection E as <- _ _. reflexivity. }
    assert (Hs : sample_step 100 heap =
      Ret (mkSafeHeap false (mkBump (HEAP_START, HEAP_SIZE) (HEAP_START + 100) {[HEAP_START := mkLayout 100 8]}), HEAP_START)).
    { rewrite Hh. reflexivity. }
    eexists heap, p', a', _. destruct (Hr _ {[HEAP_START := mkLayout 100 8]}
      (rtc_once _ _ (step_alloc heap ∅ _ (mkLayout 100 8) HEAP_START ltac:(split; done) Hs ltac:(done))))
      as (_ & _ & Hn & _).
    destruct (Hn (mkLayout 24 8)) as (self' & q & Hq & Hres); [split; done|].
    exists self', q. split; [exact E|]. split; [exact Hs|]. split; [exact Hq|].
    destruct Hres as [->|[_ Hap]]; [by left|]. right. apply (Hap HEAP_START (mkLayout 100 8)). reflexivity.
Defined.
