(* ===== verification/Elf.v ===== *)
(** Loading a program: kernel/src/kernel/elf/mod.rs.

    The parser is a library; [apply] gets the program headers it found.  The
    kernel copies a segment through its own table ([PAGETABLE]), in which the
    segment's pages are mapped for the time of the copy.  Memory is a function
    from physical addresses to bytes; an access to an address the table does
    not translate is a page fault in the kernel, which is a panic.  Switching
    [cr3] to the kernel's root and back has no effect of its own here. *)
From S2P Require Import Prelude FrameAlloc Paging Mmap PageDir.
Open Scope Z_scope.

(** The processor's translation of an address. *)
Class Hardware (P : Type) := { hw : P → Z → option Z }.

Class HardwareLaws (P A : Type) `{MapperLaws P A} `{Hardware P} := {
  hw_mapped : ∀ p a f, view p !! (a - a mod PAGE) = Some f → hw p a = Some (f + a mod PAGE)
}.

(** The fields of a program header that are read. *)
Record ProgramHeader : Set := mkPH {
  p_vaddr : Z; p_memsz : Z; p_filesz : Z; p_offset : Z; p_flags : Z
}.

Definition PF_X : Z := 1.
Definition PF_W : Z := 2.

Inductive ElfError : Set := ElfUnknown.

Definition get_pagetableflags (elf_flags : Z) : Z :=
  let flags := Z.lor PRESENT USER_ACCESSIBLE in
  let flags := if decide (Z.land elf_flags PF_W ≠ 0) then Z.lor flags WRITABLE else flags in
  if decide (Z.land elf_flags PF_X = 0) then Z.lor flags NO_EXECUTE else flags.

Section Elf.
Context {prof : Profile} {P A : Type} `{VirtOps} `{PageIncl} `{Mapper P A} `{FrameAllocator A}
  `{Hardware P}.

(** [PageMapper::init]: the first and the last page. *)
Definition PageMapper_init (addr size : Z) : Outcome (Z * Z) :=
  let! e := va_add addr size in
  let! l := va_sub e 1 in
  Ret (va_align_down addr, va_align_down l).

(** [PageMapper::map]; a page the new table has already is skipped, errors
    of [map_to] are dropped. *)
Fixpoint mapper_map (pages : list Z) (flags : Z) (new old : P) (a : A) : Outcome (P * P * A) :=
  match pages with
  | [] => Ret (new, old, a)
  | page :: pages =>
      if is_ok (translate_page new page) then mapper_map pages flags new old a else
      let! x := alloc_frame a in
      match x with
      | (_, None) => Panic
      | (a, Some frame) =>
          let '(new, a, _) := map_to new page frame flags a in
          let '(old, a, _) := map_to old page frame (Z.lor flags WRITABLE) a in
          mapper_map pages flags new old a
      end
  end.

(** [PageMapper::unmap]: [unmap(page).unwrap()] for every page. *)
Definition mapper_unmap (pages : list Z) (table : P) : Outcome P :=
  match unmap_pages_from pages table with
  | (p, Ok _) => Ret p
  | (_, Err _) => Panic
  end.

(** Stores through the table [p]. *)
Fixpoint write_virt (p : P) (mem : Z → u8) (addr : Z) (bytes : list u8) : Outcome (Z → u8) :=
  match bytes with
  | [] => Ret mem
  | b :: bytes =>
      match hw p addr with
      | None => Panic
      | Some x => write_virt p (λ y, if decide (y = x) then b else mem y) (addr + 1) bytes
      end
  end.

Definition copy_to_mem (p : P) (mem : Z → u8) (addr : Z) (data : list u8) : Outcome (Z → u8) :=
  write_virt p mem addr data.

Definition zero_mem (p : P) (mem : Z → u8) (start len : Z) : Outcome (Z → u8) :=
  write_virt p mem start (replicate (Z.to_nat len) (byte 0)).

(** One round of the loop of [apply]. *)
Definition load_segment (h : ProgramHeader) (data : list u8) (new old : P) (a : A) (mem : Z → u8)
    : Outcome (P * P * A * (Z → u8)) :=
  let! addr := va_new (p_vaddr h) in
  let! mapper := PageMapper_init addr (p_memsz h) in
  let pages := page_range_inclusive (fst mapper) (snd mapper) in
  let! x := mapper_map pages (get_pagetableflags (p_flags h)) new old a in
  let '(new, old, a) := x in
  let! stop := uadd prof (p_offset h) (p_filesz h) in
  if decide (stop < p_offset h ∨ zlen data < stop) then Panic else
  let! mem := copy_to_mem old mem addr
                (take (Z.to_nat (p_filesz h)) (drop (Z.to_nat (p_offset h)) data)) in
  let! mem := (if decide (p_filesz h < p_memsz h)
               then let! z := va_add addr (p_filesz h) in
                    zero_mem old mem z (p_memsz h - p_filesz h)
               else Ret mem) in
  let! old := mapper_unmap pages old in
  Ret (new, old, a, mem).

Fixpoint load_segments (hs : list ProgramHeader) (data : list u8) (new old : P) (a : A)
    (mem : Z → u8) : Outcome (P * P * A * (Z → u8)) :=
  match hs with
  | [] => Ret (new, old, a, mem)
  | h :: hs =>
      let! x := load_segment h data new old a mem in
      let '(new, old, a, mem) := x in
      load_segments hs data new old a mem
  end.

Definition apply_elf (segments : option (list ProgramHeader)) (data : list u8) (new old : P)
    (a : A) (mem : Z → u8) : Outcome (P * P * A * (Z → u8) * Result ElfError unit) :=
  match segments with
  | None => Ret (new, old, a, mem, Err ElfUnknown)
  | Some hs =>
      let! x := load_segments hs data new old a mem in
      Ret (x, Ok tt)
  end.

End Elf.

(** ** Loading *)

(** The pages of a segment. *)
Definition seg_pages (h : ProgramHeader) : list Z :=
  pages_from (p_vaddr h - p_vaddr h mod PAGE)
    (S (Z.to_nat ((p_vaddr h mod PAGE + p_memsz h - 1) / PAGE))).

(** The pages of all segments. *)
Fixpoint all_pages (hs : list ProgramHeader) : list Z :=
  match hs with [] => [] | h :: hs => seg_pages h ++ all_pages hs end.

(** A segment of user space with its bytes inside the file. *)
Record seg_ok (data : list u8) (h : ProgramHeader) : Prop := {
  so_vaddr : 0 <= p_vaddr h;
  so_memsz : 0 < p_memsz h;
  so_filesz : 0 <= p_filesz h <= p_memsz h;
  so_offset : 0 <= p_offset h;
  so_data : p_offset h + p_filesz h <= zlen data;
  so_len : zlen data < 2 ^ 63;
  so_low : p_vaddr h + p_memsz h < 2 ^ 47
}.

Lemma seg_page_in data h i :
  seg_ok data h → 0 <= i < p_memsz h →
  let a := p_vaddr h + i in a - a mod PAGE ∈ seg_pages h.
Proof.
  intros [Hv Hm _ _ _ _ _] Hi. cbv zeta. apply elem_of_pages_from. unfold PAGE in *.
  exists (Z.to_nat ((p_vaddr h mod 4096 + i) / 4096)).
  pose proof (Z.mod_pos_bound (p_vaddr h) 4096 ltac:(lia)).
  assert (0 <= (p_vaddr h mod 4096 + i) / 4096 <= (p_vaddr h mod 4096 + p_memsz h - 1) / 4096).
  { split; [apply Z.div_pos; lia|apply Z.div_le_mono; lia]. }
  split; [lia|]. rewrite Z2Nat.id by lia. Z.to_euclidean_division_equations. lia.
Qed.

Section Load.
Context {prof : Profile} {P A : Type} `{VirtLaws} `{PageInclLaws} `{SupplyLaws P A}
  `{!Hardware P} `{!HardwareLaws P A}.

(** The pages of a segment as the mapper computes them. *)
Lemma seg_range data h :
  seg_ok data h →
  va_new (p_vaddr h) = Ret (p_vaddr h) ∧
  ∃ m, PageMapper_init (p_vaddr h) (p_memsz h) = Ret m ∧
    page_range_inclusive (fst m) (snd m) = seg_pages h.
Proof.
  intros [Hv Hm Hf Ho Hd Hl Hlow].
  assert (Hc : ∀ a, 0 <= a <= p_vaddr h + p_memsz h → canonical a) by (intros a Ha; left; lia).
  split; [apply va_new_canonical, Hc; lia|]. unfold PageMapper_init.
  rewrite va_add_canonical by (try apply Hc; lia). cbn [obind].
  rewrite va_sub_canonical by (try apply Hc; lia). cbn [obind]. eexists. split; [done|].
  cbn [fst snd]. rewrite !va_align_down_spec by (apply Hc; lia).
  pose proof (Z.mod_pos_bound (p_vaddr h) PAGE ltac:(done)).
  pose proof (Z.mod_le (p_vaddr h) PAGE ltac:(lia) ltac:(done)).
  set (n := Z.to_nat ((p_vaddr h mod PAGE + p_memsz h - 1) / PAGE)).
  replace (p_vaddr h + p_memsz h - 1 - (p_vaddr h + p_memsz h - 1) mod PAGE)
    with (p_vaddr h - p_vaddr h mod PAGE + PAGE * Z.of_nat n + 0).
  - apply range_inclusive_spec; [|apply Hc; lia|done].
    unfold aligned. rewrite Zminus_mod, Zmod_mod, Z.sub_diag. done.
  - unfold n, PAGE in *. rewrite Z2Nat.id by (apply Z.div_pos; lia).
    Z.to_euclidean_division_equations. lia.
Qed.

(** Frames for the pages [pages]: new ones, one each, in both tables. *)
Record given (pages : list Z) (new old : P) (a : A) (new' old' : P) (a' : A) : Prop := {
  gv_frame : ∀ pg, pg ∈ pages → ∃ f, view new' !! pg = Some f ∧ view old' !! pg = Some f ∧
    f ∈ free_frames a ∧ (f ∉ free_frames a') ∧ f mod PAGE = 0;
  gv_inj : ∀ pg1 pg2 f, pg1 ∈ pages → pg2 ∈ pages →
    view new' !! pg1 = Some f → view new' !! pg2 = Some f → pg1 = pg2;
  gv_new : ∀ pg, pg ∉ pages → view new' !! pg = view new !! pg;
  gv_old : ∀ pg, pg ∉ pages → view old' !! pg = view old !! pg;
  gv_free : free_frames a' ⊆ free_frames a;
  gv_room : room a - 7 * zlen pages <= room a';
  gv_wf : alloc_wf a';
  gv_mnew : ∀ q, mappable new q → mappable new' q;
  gv_mold : ∀ q, mappable old q → mappable old' q
}.

Lemma mapper_map_total pages flags (new old : P) (a : A) :
  NoDup pages → alloc_wf a → 7 * zlen pages <= room a →
  (∀ pg, pg ∈ pages → view new !! pg = None ∧ view old !! pg = None ∧
                      mappable new pg ∧ mappable old pg) →
  ∃ new' old' a', mapper_map pages flags new old a = Ret (new', old', a') ∧
    given pages new old a new' old' a'.
Proof.
  revert new old a. induction pages as [|pg pages IH]; intros new old a Hnd Hwf Hroom Hall;
    cbn [mapper_map].
  { exists new, old, a. split; [done|]. split; try done; try set_solver. unfold zlen. simpl. lia. }
  apply NoDup_cons in Hnd as [Hpg Hnd].
  destruct (Hall pg) as (Hn & Ho & Hmn & Hmo); [left|].
  assert (Hl : zlen (pg :: pages) = zlen pages + 1) by (unfold zlen; simpl; lia).
  pose proof (zlen_nonneg pages).
  assert (Ht : is_ok (translate_page new pg) = false).
  { rewrite translate_view in Hn. by destruct (translate_page new pg). }
  rewrite Ht. destruct (alloc_room a Hwf ltac:(lia)) as (a1 & f & E1 & Hr1 & Hwf1 & Hf & Hfa & Hsub).
  rewrite E1. cbn [obind].
  destruct (map_room new pg f flags a1 Hwf1 Hmn Hn ltac:(lia)) as (new1 & a2 & E2 & Hr2 & Hwf2 & Hfr2).
  pose proof (map_to_view new pg f flags a1 Hn) as Hv2. pose proof (λ q, map_mappable new pg f flags a1 q) as Hm2.
  rewrite E2 in Hv2, Hm2 |- *. cbn [is_ok fst] in Hv2, Hm2.
  destruct (map_room old pg f (Z.lor flags WRITABLE) a2 Hwf2 Hmo Ho ltac:(lia))
    as (old1 & a3 & E3 & Hr3 & Hwf3 & Hfr3).
  pose proof (map_to_view old pg f (Z.lor flags WRITABLE) a2 Ho) as Hv3.
  pose proof (λ q, map_mappable old pg f (Z.lor flags WRITABLE) a2 q) as Hm3.
  rewrite E3 in Hv3, Hm3 |- *. cbn [is_ok fst] in Hv3, Hm3.
  destruct (IH new1 old1 a3 Hnd Hwf3) as (new' & old' & a' & E & G); [lia| |].
  { intros q Hq. destruct (Hall q) as (? & ? & ? & ?); [by right|].
    assert (q ≠ pg) by (intros ->; done). rewrite Hv2, Hv3, !lookup_insert_ne by done. auto. }
  exists new', old', a'. split; [done|].
  destruct G as [G1 G2 G3 G4 G5 G6 G7 G8 G9].
  assert (Hf3 : f ∉ free_frames a3) by set_solver.
  assert (Hpgn : view new' !! pg = Some f) by (rewrite G3, Hv2 by done; apply lookup_insert_eq).
  assert (Hpgo : view old' !! pg = Some f) by (rewrite G4, Hv3 by done; apply lookup_insert_eq).
  assert (Hother : ∀ q g, q ∈ pages → view new' !! q = Some g → g ≠ f).
  { intros q g Hq Hg ->. destruct (G1 q Hq) as (f' & Hf' & _ & Hin & _). congruence. }
  split; [..|set_solver|lia|done|auto|auto].
  - intros q Hq. destruct (decide (q = pg)) as [->|Hne].
    + exists f. split_and!; try done. set_solver.
    + destruct (G1 q) as (f' & ? & ? & ? & ? & ?); [set_solver|]. exists f'. split_and!; try done.
      set_solver.
  - intros q1 q2 g Hq1 Hq2 Hg1 Hg2. destruct (decide (q1 = pg)) as [->|Hn1], (decide (q2 = pg)) as [->|Hn2].
    + done.
    + rewrite Hpgn in Hg1. injection Hg1 as <-. by destruct (Hother q2 f ltac:(set_solver) Hg2).
    + rewrite Hpgn in Hg2. injection Hg2 as <-. by destruct (Hother q1 f ltac:(set_solver) Hg1).
    + apply (G2 q1 q2 g); set_solver.
  - intros q Hq. rewrite G3, Hv2, lookup_insert_ne by set_solver. done.
  - intros q Hq. rewrite G4, Hv3, lookup_insert_ne by set_solver. done.
Qed.

(** Stores through a table that maps the range one to one: [at_ i] is where
    the byte [i] goes. *)
Lemma write_virt_spec (p : P) bytes (mem : Z → u8) addr (at_ : nat → Z) :
  (∀ i, (i < length bytes)%nat → hw p (addr + Z.of_nat i) = Some (at_ i)) →
  (∀ i j, (i < length bytes)%nat → (j < length bytes)%nat → at_ i = at_ j → i = j) →
  ∃ mem', write_virt p mem addr bytes = Ret mem' ∧
    (∀ i b, bytes !! i = Some b → mem' (at_ i) = b) ∧
    (∀ y, (∀ i, (i < length bytes)%nat → at_ i ≠ y) → mem' y = mem y).
Proof.
  revert mem addr at_. induction bytes as [|b bytes IH]; intros mem addr at_ Hhw Hinj;
    cbn [write_virt].
  { exists mem. split; [done|]. split; [|done]. intros i b Hb. by rewrite lookup_nil in Hb. }
  cbn [length] in Hhw, Hinj. pose proof (Hhw 0%nat ltac:(lia)) as Hw0. rewrite Z.add_0_r in Hw0. rewrite Hw0.
  destruct (IH (λ y, if decide (y = at_ 0%nat) then b else mem y) (addr + 1) (λ i, at_ (S i)))
    as (mem' & E & Hin & Hout).
  - intros i Hi. replace (addr + 1 + Z.of_nat i) with (addr + Z.of_nat (S i)) by lia.
    apply Hhw. lia.
  - intros i j Hi Hj Hij. apply Hinj in Hij; lia.
  - exists mem'. split; [done|]. split.
    + intros [|i] c Hc; [|by apply Hin]. injection Hc as <-. rewrite Hout.
      * by rewrite decide_True.
      * intros i Hi Heq. apply Hinj in Heq; lia.
    + intros y Hy. rewrite Hout.
      * rewrite decide_False; [done|]. intros ->. by apply (Hy 0%nat); cbn [length]; [lia|].
      * intros i Hi. apply Hy. cbn [length]. lia.
Qed.

Lemma unmap_from_mappable pages (p : P) q :
  mappable p q → mappable (fst (unmap_pages_from pages p)) q.
Proof.
  revert p. induction pages as [|pg pages IH]; intros p Hq; cbn [unmap_pages_from]; [done|].
  pose proof (unmap_mappable p pg q Hq) as Hq'.
  destruct (unmap p pg) as [p1 [f|e]]; cbn [fst] in Hq'; [by apply IH|done].
Qed.

(** Where the pages of a segment lead once they are mapped. *)
Definition place (p : P) (a : Z) : Z := default 0 (view p !! (a - a mod PAGE)) + a mod PAGE.

Lemma place_hw (p : P) a : is_Some (view p !! (a - a mod PAGE)) → hw p a = Some (place p a).
Proof. intros [f Hf]. rewrite (hw_mapped _ _ _ Hf). unfold place. by rewrite Hf. Qed.

Lemma place_frame (p : P) a f :
  view p !! (a - a mod PAGE) = Some f → f mod PAGE = 0 →
  place p a - place p a mod PAGE = f ∧ place p a mod PAGE = a mod PAGE.
Proof.
  intros Hf Hm. replace (place p a) with (f + a mod PAGE) by (unfold place; by rewrite Hf).
  assert (E : (f + a mod PAGE) mod PAGE = a mod PAGE).
  { rewrite Zplus_mod, Hm, Z.add_0_l, !Zmod_mod. done. }
  rewrite E. split; [lia|done].
Qed.

(** What loading one segment does. *)
Record loaded (data : list u8) (h : ProgramHeader) (new old : P) (a : A) (mem : Z → u8)
    (new' old' : P) (a' : A) (mem' : Z → u8) : Prop := {
  ld_bytes : ∀ i, 0 <= i < p_memsz h → ∃ f, view new' !! (p_vaddr h + i - (p_vaddr h + i) mod PAGE) = Some f ∧
    f ∈ free_frames a ∧ (f ∉ free_frames a') ∧ f mod PAGE = 0 ∧
    mem' (f + (p_vaddr h + i) mod PAGE) =
      if decide (i < p_filesz h) then nth (Z.to_nat (p_offset h + i)) data (byte 0) else byte 0;
  ld_new : ∀ pg, pg ∉ seg_pages h → view new' !! pg = view new !! pg;
  ld_pages : ∀ pg, pg ∈ seg_pages h → is_Some (view new' !! pg);
  ld_old : view old' = view old;
  ld_mem : ∀ y, y - y mod PAGE ∉ free_frames a → mem' y = mem y;
  ld_free : free_frames a' ⊆ free_frames a;
  ld_room : room a - 7 * zlen (seg_pages h) <= room a';
  ld_wf : alloc_wf a';
  ld_mnew : ∀ q, mappable new q → mappable new' q;
  ld_mold : ∀ q, mappable old q → mappable old' q
}.

(** A table that maps pages one to one to frames. *)
Definition maps_once (p : P) (pages : list Z) : Prop :=
  (∀ pg, pg ∈ pages → ∃ f, view p !! pg = Some f ∧ f mod PAGE = 0) ∧
  (∀ pg1 pg2 f, pg1 ∈ pages → pg2 ∈ pages →
     view p !! pg1 = Some f → view p !! pg2 = Some f → pg1 = pg2).

Lemma place_inj (p : P) pages a b :
  maps_once p pages → a - a mod PAGE ∈ pages → b - b mod PAGE ∈ pages →
  place p a = place p b → a = b.
Proof.
  intros [Hmap Hinj] Pa Pb Heq.
  destruct (Hmap _ Pa) as (f & Hf & Hfa), (Hmap _ Pb) as (g & Hg & Hga).
  destruct (place_frame _ _ _ Hf Hfa) as [Hp1 Hm1], (place_frame _ _ _ Hg Hga) as [Hp2 Hm2].
  rewrite Heq in Hp1, Hm1. rewrite Hp1 in Hp2. subst g.
  pose proof (Hinj _ _ f Pa Pb Hf Hg) as Hpg. rewrite Hm1 in Hm2. lia.
Qed.

(** Storing [bytes] at [addr] on such pages. *)
Lemma store_range (p : P) pages mem addr bytes :
  maps_once p pages →
  (∀ k, addr <= k < addr + zlen bytes → k - k mod PAGE ∈ pages) →
  ∃ mem', write_virt p mem addr bytes = Ret mem' ∧
    (∀ k, addr <= k < addr + zlen bytes →
       mem' (place p k) = nth (Z.to_nat (k - addr)) bytes (byte 0)) ∧
    (∀ y, (∀ k, addr <= k < addr + zlen bytes → place p k ≠ y) → mem' y = mem y).
Proof.
  intros Hmap Hpg. unfold zlen in *.
  destruct (write_virt_spec p bytes mem addr (λ i, place p (addr + Z.of_nat i))) as (mem' & E & Hin & Hout).
  - intros i Hi. apply place_hw. destruct (proj1 Hmap _ (Hpg (addr + Z.of_nat i) ltac:(lia))) as (f & Hf & _). eauto.
  - intros i j Hi Hj Heq. apply (place_inj p pages) in Heq; [lia|done|apply Hpg; lia|apply Hpg; lia].
  - exists mem'. split; [done|]. split.
    + intros k Hk. replace k with (addr + Z.of_nat (Z.to_nat (k - addr))) at 1 by lia. apply Hin.
      destruct (nth_lookup_or_length bytes (Z.to_nat (k - addr)) (byte 0)); [done|lia].
    + intros y Hy. apply Hout. intros i Hi. apply Hy. lia.
Qed.

(** Storing [bytes] at the offset [k] of a segment. *)
Lemma store_part data h (p : P) mem k bytes :
  seg_ok data h → maps_once p (seg_pages h) → 0 <= k → k + zlen bytes <= p_memsz h →
  ∃ mem', write_virt p mem (p_vaddr h + k) bytes = Ret mem' ∧
    (∀ i, k <= i < k + zlen bytes →
       mem' (place p (p_vaddr h + i)) = nth (Z.to_nat (i - k)) bytes (byte 0)) ∧
    (∀ y, (∀ i, k <= i < k + zlen bytes → place p (p_vaddr h + i) ≠ y) → mem' y = mem y).
Proof.
  intros Hok Hmap Hk Hlen.
  destruct (store_range p (seg_pages h) mem (p_vaddr h + k) bytes) as (mem' & E & Hin & Hout); [done| |].
  - intros x Hx. replace x with (p_vaddr h + (x - p_vaddr h)) by lia. apply (seg_page_in data); [done|lia].
  - exists mem'. split; [done|]. split.
    + intros i Hi. rewrite Hin by lia. do 2 f_equal. lia.
    + intros y Hy. apply Hout. intros x Hx. replace x with (p_vaddr h + (x - p_vaddr h)) by lia.
      apply Hy. lia.
Qed.

(** The bytes of the segment after both stores. *)
Lemma store_segment data h (p : P) mem :
  seg_ok data h → maps_once p (seg_pages h) →
  ∃ mem', (let! mem := copy_to_mem p mem (p_vaddr h)
                (take (Z.to_nat (p_filesz h)) (drop (Z.to_nat (p_offset h)) data)) in
           if decide (p_filesz h < p_memsz h)
           then let! z := va_add (p_vaddr h) (p_filesz h) in
                zero_mem p mem z (p_memsz h - p_filesz h)
           else Ret mem) = Ret mem' ∧
    (∀ i, 0 <= i < p_memsz h → mem' (place p (p_vaddr h + i)) =
       if decide (i < p_filesz h) then nth (Z.to_nat (p_offset h + i)) data (byte 0) else byte 0) ∧
    (∀ y, (∀ i, 0 <= i < p_memsz h → place p (p_vaddr h + i) ≠ y) → mem' y = mem y).
Proof.
  intros Hok Hmap. pose proof Hok as [Hv Hms Hfs Ho Hd Hdl Hlow].
  set (bytes := take _ _).
  assert (Hbl : zlen bytes = p_filesz h).
  { unfold bytes, zlen in *. rewrite length_take, length_drop. lia. }
  assert (Hnth : ∀ i, 0 <= i < p_filesz h →
    nth (Z.to_nat i) bytes (byte 0) = nth (Z.to_nat (p_offset h + i)) data (byte 0)).
  { intros i Hi. unfold bytes. rewrite nth_firstn, nth_skipn.
    rewrite (proj2 (Nat.ltb_lt _ _)) by lia. f_equal. lia. }
  destruct (store_part data h p mem 0 bytes) as (mem1 & E1 & Hin1 & Hout1); [done|done|lia|lia|].
  unfold copy_to_mem. rewrite Z.add_0_r in E1. rewrite E1. cbn [obind].
  rewrite Hbl, Z.add_0_l in Hin1, Hout1.
  destruct (decide (p_filesz h < p_memsz h)) as [Hlt|Hge].
  - rewrite va_add_canonical by (try (left; lia); lia). cbn [obind]. unfold zero_mem.
    set (zeros := replicate _ _).
    assert (Hzl : zlen zeros = p_memsz h - p_filesz h) by (unfold zlen, zeros; rewrite length_replicate; lia).
    destruct (store_part data h p mem1 (p_filesz h) zeros) as (mem2 & E2 & Hin2 & Hout2); [done|done|lia|lia|].
    exists mem2. split; [done|]. split.
    + intros i Hi. case_decide.
      * assert (Hpg : ∀ x, 0 <= x < p_memsz h → p_vaddr h + x - (p_vaddr h + x) mod PAGE ∈ seg_pages h)
          by (intros x Hx; by apply (seg_page_in data)).
        rewrite Hout2, Hin1 by (lia || (intros j Hj Heq;
          pose proof (place_inj p _ _ _ Hmap (Hpg j ltac:(lia)) (Hpg i ltac:(lia)) Heq); lia)).
        rewrite Z.sub_0_r. apply Hnth. lia.
      * rewrite Hin2 by lia. unfold zeros. rewrite nth_lookup.
        destruct (replicate _ _ !! _) as [x|] eqn:Ex; [|done]. by apply lookup_replicate in Ex as [-> _].
    + intros y Hy. rewrite Hout2, Hout1; [done|..]; intros i Hi; apply Hy; lia.
  - exists mem1. split; [done|]. split.
    + intros i Hi. rewrite decide_True, Hin1 by lia. rewrite Z.sub_0_r. apply Hnth. lia.
    + intros y Hy. apply Hout1. intros i Hi. apply Hy. lia.
Qed.

Lemma load_segment_total data h (new old : P) (a : A) mem :
  seg_ok data h → alloc_wf a → 7 * zlen (seg_pages h) <= room a →
  (∀ pg, pg ∈ seg_pages h → view new !! pg = None ∧ view old !! pg = None ∧
                            mappable new pg ∧ mappable old pg) →
  ∃ new' old' a' mem', load_segment (prof := prof) h data new old a mem = Ret (new', old', a', mem') ∧
    loaded data h new old a mem new' old' a' mem'.
Proof.
  intros Hok Hwf Hroom Hall. pose proof Hok as [Hv Hms Hfs Ho Hd Hdl Hlow]. unfold load_segment.
  destruct (seg_range data h Hok) as (-> & m & E1 & E2). cbn [obind]. rewrite E1. cbn [obind]. rewrite E2.
  destruct (mapper_map_total (seg_pages h) (get_pagetableflags (p_flags h)) new old a)
    as (new1 & old1 & a1 & E3 & G); [apply pages_from_NoDup|done|done|done|].
  rewrite E3. cbn [obind]. unfold uadd.
  rewrite uarith_in_range by (unfold in_usize, USIZE_MAX; lia). cbn [obind].
  rewrite decide_False by lia. destruct G as [G1 G2 G3 G4 G5 G6 G7 G8 G9].
  assert (Hsame : ∀ pg, pg ∈ seg_pages h → view old1 !! pg = view new1 !! pg).
  { intros pg Hpg. destruct (G1 pg Hpg) as (f & Hf & Hf' & _). congruence. }
  assert (Hmap : maps_once old1 (seg_pages h)).
  { split.
    - intros pg Hpg. destruct (G1 pg Hpg) as (f & _ & Hf & _ & _ & Hfa). eauto.
    - intros pg1 pg2 f Hp1 Hp2. rewrite !Hsame by done. by apply G2. }
  destruct (store_segment data h old1 mem Hok Hmap) as (mem2 & E4 & Hin & Hout).
  destruct (copy_to_mem old1 mem (p_vaddr h) _) as [mem1| | |]; cbn [obind] in E4 |- *; try done.
  rewrite E4. cbn [obind]. unfold mapper_unmap.
  destruct (unmap_pages_from_view (seg_pages h) old1) as (old2 & E5 & Hold2).
  { apply pages_from_NoDup. }
  { intros pg Hpg. destruct (proj1 Hmap pg Hpg) as (f & Hf & _). eauto. }
  pose proof (λ q, unmap_from_mappable (seg_pages h) old1 q) as Hmu. rewrite E5 in Hmu |- *.
  cbn [obind fst] in Hmu |- *. exists new1, old2, a1, mem2. split; [done|].
  split; try done.
  - intros i Hi. pose proof (seg_page_in data h i Hok Hi) as Pi. cbv zeta in Pi.
    destruct (G1 _ Pi) as (f & Hf & Hfo & Hff & Hnf & Hfa). exists f. split_and!; try done.
    rewrite <- Hin by done. unfold place. by rewrite Hfo.
  - intros pg Hpg. destruct (G1 pg Hpg) as (f & Hf & _). eauto.
  - apply map_eq. intros q. rewrite Hold2.
    destruct (decide (q ∈ seg_pages h)) as [Hq|Hq]; [|by apply G4].
    by destruct (Hall q Hq) as (_ & -> & _).
  - intros y Hy. apply Hout. intros i Hi <-. apply Hy.
    pose proof (seg_page_in data h i Hok Hi) as Pi. cbv zeta in Pi.
    destruct (G1 _ Pi) as (f & _ & Hfo & Hff & _ & Hfa).
    by destruct (place_frame _ _ _ Hfo Hfa) as [-> _].
  - intros q Hq. by apply Hmu, G9.
Qed.

Lemma loaded_mono data h new old a mem new' old' a' mem' new2 a2 mem2 i :
  loaded data h new old a mem new' old' a' mem' → free_frames a2 ⊆ free_frames a' →
  (∀ pg, pg ∈ seg_pages h → view new2 !! pg = view new' !! pg) →
  (∀ y, y - y mod PAGE ∉ free_frames a' → mem2 y = mem' y) →
  seg_ok data h → 0 <= i < p_memsz h →
  ∃ f, view new2 !! (p_vaddr h + i - (p_vaddr h + i) mod PAGE) = Some f ∧
    mem2 (f + (p_vaddr h + i) mod PAGE) =
      if decide (i < p_filesz h) then nth (Z.to_nat (p_offset h + i)) data (byte 0) else byte 0.
Proof.
  intros L Hsub Hview Hmem Hok Hi. destruct (ld_bytes _ _ _ _ _ _ _ _ _ _ L i Hi) as (f & Hf & Hff & Hnf & Hfa & Hb).
  exists f. rewrite Hview by (by apply (seg_page_in data)). split; [done|].
  rewrite Hmem; [done|]. set (o := (p_vaddr h + i) mod PAGE).
  assert (Ho : (f + o) mod PAGE = o) by (unfold o; by rewrite Zplus_mod, Hfa, Z.add_0_l, !Zmod_mod).
  rewrite Ho. by replace (f + o - o) with f by lia.
Qed.

Lemma load_segments_total data hs (new old : P) (a : A) mem :
  Forall (seg_ok data) hs → NoDup (all_pages hs) → alloc_wf a →
  7 * zlen (all_pages hs) <= room a →
  (∀ pg, pg ∈ all_pages hs → view new !! pg = None ∧ view old !! pg = None ∧
                                mappable new pg ∧ mappable old pg) →
  ∃ new' old' a' mem', load_segments (prof := prof) hs data new old a mem = Ret (new', old', a', mem') ∧
    (∀ h i, h ∈ hs → 0 <= i < p_memsz h →
      ∃ f, view new' !! (p_vaddr h + i - (p_vaddr h + i) mod PAGE) = Some f ∧
        mem' (f + (p_vaddr h + i) mod PAGE) =
          if decide (i < p_filesz h) then nth (Z.to_nat (p_offset h + i)) data (byte 0) else byte 0) ∧
    (∀ pg, pg ∉ all_pages hs → view new' !! pg = view new !! pg) ∧
    view old' = view old ∧ free_frames a' ⊆ free_frames a ∧
    (∀ y, y - y mod PAGE ∉ free_frames a → mem' y = mem y).
Proof.
  intros Hoks. revert new old a mem. induction Hoks as [|h hs Hok Hoks IH];
    intros new old a mem Hnd Hwf Hroom Hall; cbn [load_segments].
  { exists new, old, a, mem. split_and!; try done. intros h i Hh. by apply elem_of_nil in Hh. }
  cbn [all_pages] in *.
  apply NoDup_app in Hnd as (Hnd1 & Hdisj & Hnd2). rewrite zlen_app in Hroom.
  pose proof (zlen_nonneg (seg_pages h)). pose proof (zlen_nonneg (all_pages hs)).
  destruct (load_segment_total data h new old a mem) as (new1 & old1 & a1 & mem1 & E1 & L);
    [done|done|lia|intros pg Hpg; apply Hall, elem_of_app; by left|].
  rewrite E1. cbn [obind].
  destruct (IH new1 old1 a1 mem1) as (new' & old' & a' & mem' & E & Hb & Hn & Ho & Hf & Hm).
  - done.
  - by destruct L.
  - destruct L. lia.
  - intros pg Hpg. destruct (Hall pg) as (Q1 & Q2 & Q3 & Q4); [apply elem_of_app; by right|].
    rewrite (ld_new _ _ _ _ _ _ _ _ _ _ L) by (intros Hin; by apply (Hdisj pg)).
    rewrite (ld_old _ _ _ _ _ _ _ _ _ _ L). destruct L. auto.
  - exists new', old', a', mem'. split; [done|]. split_and!.
    + intros h' i Hh Hi. apply elem_of_cons in Hh as [->|Hh]; [|by apply Hb].
      apply (loaded_mono data h new old a mem new1 old1 a1 mem1 new' a' mem' i); try done.
      intros pg Hpg. apply Hn. by apply Hdisj.
    + intros pg [Hpg1 Hpg2]%not_elem_of_app. rewrite Hn by done. by apply (ld_new _ _ _ _ _ _ _ _ _ _ L).
    + by rewrite Ho, (ld_old _ _ _ _ _ _ _ _ _ _ L).
    + etransitivity; [exact Hf|]. by destruct L.
    + intros y Hy. rewrite Hm; [by apply (ld_mem _ _ _ _ _ _ _ _ _ _ L)|].
      intros Hin. apply Hy. by apply (ld_free _ _ _ _ _ _ _ _ _ _ L).
Qed.

(** C10: a program whose segments lie in user space on pages of their own, with
    their bytes inside the file, is loaded: with seven frames per page the
    call succeeds, the new address space holds at every address of every
    segment the byte of the file, or zero beyond the file's part, on frames of
    its own; the rest of the new address space, the kernel's own table and all
    other memory are unchanged. *)
Theorem elf_load_spec data hs (new old : P) (a : A) mem :
  Forall (seg_ok data) hs → NoDup (all_pages hs) → alloc_wf a →
  7 * zlen (all_pages hs) <= room a →
  (∀ pg, pg ∈ all_pages hs → view new !! pg = None ∧ view old !! pg = None ∧
                             mappable new pg ∧ mappable old pg) →
  ∃ new' old' a' mem',
    apply_elf (prof := prof) (Some hs) data new old a mem = Ret (new', old', a', mem', Ok tt) ∧
    (∀ h i, h ∈ hs → 0 <= i < p_memsz h →
      ∃ f, view new' !! (p_vaddr h + i - (p_vaddr h + i) mod PAGE) = Some f ∧
        mem' (f + (p_vaddr h + i) mod PAGE) =
          if decide (i < p_filesz h) then nth (Z.to_nat (p_offset h + i)) data (byte 0) else byte 0) ∧
    (∀ pg, pg ∉ all_pages hs → view new' !! pg = view new !! pg) ∧
    view old' = view old ∧
    (∀ y, y - y mod PAGE ∉ free_frames a → mem' y = mem y).
Proof.
  intros Hok Hnd Hwf Hroom Hall. unfold apply_elf.
  destruct (load_segments_total data hs new old a mem Hok Hnd Hwf Hroom Hall)
    as (new' & old' & a' & mem' & E & Hb & Hn & Ho & _ & Hm).
  rewrite E. cbn [obind]. exists new', old', a', mem'. done.
Qed.

End Load.

(** ** Programs that stop the kernel *)

#[export] Instance gmap_Hardware : Hardware (gmap Z Z) := {
  hw p a := match p !! (a - a mod PAGE) with Some f => Some (f + a mod PAGE) | None => None end
}.

#[export] Instance gmap_HardwareLaws : HardwareLaws (gmap Z Z) (list Z).
Proof. constructor. intros p a f Hf. cbn in *. by rewrite Hf. Qed.

(** [apply] on tables that are finite maps. *)
Definition load (hs : list ProgramHeader) (data : str) (new old : gmap Z Z) :=
  apply_elf (prof := Release) (Some hs) data new old (pages_from 0x10000 40) (λ _, byte 0).

(** The type of a header is not looked at: the entry for the stack
    ([PT_GNU_STACK], no address, no size) that linkers add to every program
    makes the last address [0 - 1]. *)
Lemma stack_header_panics data : load [mkPH 0 0 0 0 6] data ∅ ∅ = Panic.
Proof. reflexivity. Qed.

(** Two segments that share a page: the second finds the page in the new
    table, so it is not mapped for the copy. *)
Lemma shared_page_panics :
  load [mkPH 0x400000 2 2 0 5; mkPH 0x400800 2 2 2 6] [byte 1; byte 2; byte 3; byte 4] ∅ ∅ = Panic.
Proof. vm_compute. reflexivity. Qed.

(** A header that names bytes behind the end of the file. *)
Lemma short_file_panics : load [mkPH 0x400000 8 8 2 5] [byte 1; byte 2; byte 3] ∅ ∅ = Panic.
Proof. vm_compute. reflexivity. Qed.

(** The address of a segment is not checked: a segment at a kernel address,
    which every address space maps, is copied over the kernel's memory and
    the page is then removed from the kernel's table. *)
Lemma kernel_segment_overwrites :
  match load [mkPH KPAGE 2 2 0 6] [byte 65; byte 66] {[KPAGE := 0x7000]} {[KPAGE := 0x7000]} with
  | Ret (_, old, _, mem, Ok _) => mem 0x7000 = byte 65 ∧ mem 0x7001 = byte 66 ∧ old !! KPAGE = None
  | _ => False
  end.
Proof. vm_compute. done. Qed.

Lemma elf_load_spec_witness :
  ∃ new' old' a' mem' f,
    load [mkPH 0x400010 5000 2 1 5; mkPH 0x700000 4 4 0 6] [byte 65; byte 66; byte 67; byte 68] ∅ ∅
      = Ret (new', old', a', mem', Ok tt) ∧
    new' !! 0x400000 = Some f ∧ mem' (f + 0x11) = byte 67 ∧ mem' (f + 0x12) = byte 0.
Proof.
  destruct (elf_load_spec (prof := Release) (P := gmap Z Z) [byte 65; byte 66; byte 67; byte 68]
              [mkPH 0x400010 5000 2 1 5; mkPH 0x700000 4 4 0 6] ∅ ∅ (pages_from 0x10000 40)
              (λ _, byte 0)) as (new' & old' & a' & mem' & E & Hb & _).
  - repeat constructor; cbn; try lia; unfold zlen; cbn; lia.
  - apply (bool_decide_eq_true_1 _). vm_compute. reflexivity.
  - split; [apply pages_from_NoDup|]. apply Forall_forall. intros f (k & _ & ->)%elem_of_pages_from.
    unfold PAGE. rewrite Z.mul_comm, Z_mod_plus_full. done.
  - vm_compute. discriminate.
  - intros pg _. split_and!; try done; apply lookup_empty.
  - destruct (Hb (mkPH 0x400010 5000 2 1 5) 1) as (f & Hf & H1); [left|cbn; lia|].
    destruct (Hb (mkPH 0x400010 5000 2 1 5) 2) as (g & Hg & H2); [left|cbn; lia|].
    change (new' !! 0x400000 = Some f) in Hf. change (new' !! 0x400000 = Some g) in Hg.
    rewrite Hf in Hg. injection Hg as <-. exists new', old', a', mem', f.
    split; [exact E|]. split; [exact Hf|]. split; [exact H1|exact H2].
Defined.
