(* ===== verification/Context.v ===== *)
(** The assembly of the kernel: saving and restoring a thread
    (kernel/src/arch/x86/interrupt/handlers.rs, kernel/src/arch/x86/context/mod.rs,
    kernel/src/kernel/abi/syscalls/utils.rs), the first stack of a new thread
    ([init_kernel_task], [init_usr_task]) and the system-call stub.

    The routines are straight-line code: lists of instructions with an
    interpreter.  Memory holds 64-bit words at the addresses they were
    stored at; all accesses of this code are multiples of 8 apart on one
    stack.  Stack pointers stay inside their stacks, so addresses do not wrap.
    A called Rust function is a parameter: a function on machines with the
    contract of the C calling convention ([call_ok]). *)
From S2P Require Import Prelude Abi Tasks Syscalls.
Open Scope Z_scope.

(** ** The machine *)

Inductive reg : Set :=
| RAX | RBX | RCX | RDX | RSI | RDI | RBP | RSP
| R8 | R9 | R10 | R11 | R12 | R13 | R14 | R15
| CR3 | RFLAGS | RIP | CS | SS.

#[export] Instance reg_eq_dec : EqDecision reg.
Proof. solve_decision. Defined.

(** A comparison that evaluates on constructors. *)
Definition reg_num (r : reg) : nat :=
  match r with
  | RAX => 0 | RBX => 1 | RCX => 2 | RDX => 3 | RSI => 4 | RDI => 5 | RBP => 6 | RSP => 7
  | R8 => 8 | R9 => 9 | R10 => 10 | R11 => 11 | R12 => 12 | R13 => 13 | R14 => 14 | R15 => 15
  | CR3 => 16 | RFLAGS => 17 | RIP => 18 | CS => 19 | SS => 20
  end%nat.

Definition reg_eqb (r r' : reg) : bool := Nat.eqb (reg_num r) (reg_num r').

Record Machine : Type := mkMachine {
  regs : reg → Z;
  mem : Z → Z;
  fpu : list Z                  (* the 512 bytes of the fxsave area *)
}.

Definition upd (f : reg → Z) (r : reg) (v : Z) : reg → Z :=
  λ r', if reg_eqb r r' then v else f r'.

Definition store (f : Z → Z) (a v : Z) : Z → Z := λ a', if decide (a = a') then v else f a'.

Definition set_reg (m : Machine) (r : reg) (v : Z) : Machine :=
  mkMachine (upd (regs m) r v) (mem m) (fpu m).

Inductive operand : Set :=
| Reg (r : reg)
| Imm (n : Z)
| Mem (base : reg) (off : Z).

Inductive instr : Type :=
| Push (o : operand)
| Pop (r : reg)
| Mov (d : reg) (o : operand)
| Sub (r : reg) (n : Z)
| And (r : reg) (n : Z)
| FxSave                         (* fxsave [rsp] *)
| FxRstor                        (* fxrstor [rsp] *)
| Call (f : Machine → Machine)
| Cli
| Sti
| Ret_
| Iretq.

Definition opval (m : Machine) (o : operand) : Z :=
  match o with
  | Reg r => regs m r
  | Imm n => n
  | Mem b off => mem m (regs m b + off)
  end.

Definition push (m : Machine) (v : Z) : Machine :=
  mkMachine (upd (regs m) RSP (regs m RSP - 8)) (store (mem m) (regs m RSP - 8) v) (fpu m).

Definition pop (m : Machine) (r : reg) : Machine :=
  mkMachine (upd (upd (regs m) RSP (regs m RSP + 8)) r (mem m (regs m RSP))) (mem m) (fpu m).

(** Words stored from an address upwards. *)
Fixpoint store_words (f : Z → Z) (a : Z) (l : list Z) : Z → Z :=
  match l with
  | [] => f
  | v :: l => store (store_words f (a + 8) l) a v
  end.

Fixpoint load_words (f : Z → Z) (a : Z) (n : nat) : list Z :=
  match n with
  | O => []
  | S n => f a :: load_words f (a + 8) n
  end.

Definition IF_BIT : Z := 0x200.

Definition step (i : instr) (m : Machine) : Machine :=
  match i with
  | Push o => push m (opval m o)
  | Pop r => pop m r
  | Mov d o => set_reg m d (opval m o)
  | Sub r n => set_reg m r (regs m r - n)
  | And r n => set_reg m r (Z.land (regs m r) n)
  | FxSave => mkMachine (regs m) (store_words (mem m) (regs m RSP) (fpu m)) (fpu m)
  | FxRstor => mkMachine (regs m) (mem m) (load_words (mem m) (regs m RSP) 64)
  | Call f => f m
  | Cli => set_reg m RFLAGS (Z.land (regs m RFLAGS) (Z.lnot IF_BIT))
  | Sti => set_reg m RFLAGS (Z.lor (regs m RFLAGS) IF_BIT)
  | Ret_ => pop m RIP
  | Iretq =>
      let s := regs m RSP in
      mkMachine
        (upd (upd (upd (upd (upd (regs m) RIP (mem m s)) CS (mem m (s + 8)))
                     RFLAGS (mem m (s + 16))) RSP (mem m (s + 24))) SS (mem m (s + 32)))
        (mem m) (fpu m)
  end.

Definition exec (code : list instr) (m : Machine) : Machine := foldl (λ m i, step i m) m code.

(** ** The routines *)

(** [interrupt_cleanup]. *)
Definition interrupt_cleanup : list instr := [Sti; Iretq].

(** The registers, [cr3] in place of a second [rax]. *)
Definition push_context : list instr :=
  [Cli; Push (Reg RAX); Push (Reg RBP); Push (Reg RDI); Push (Reg RSI); Push (Reg RDX);
   Push (Reg RCX); Push (Reg RBX); Mov RAX (Reg CR3); Push (Reg RAX);
   Push (Reg R15); Push (Reg R14); Push (Reg R13); Push (Reg R12); Push (Reg R11);
   Push (Reg R10); Push (Reg R9); Push (Reg R8)].

(** The floating-point state below them, aligned; the old [rsp] on top. *)
Definition push_fpu : list instr :=
  [Mov R9 (Reg RSP); Sub RSP (512 + 16); And RSP (-16); FxSave; Push (Reg R9)].

Definition restore_context : list instr :=
  [Pop R9; FxRstor; Mov RSP (Reg R9);
   Pop R8; Pop R9; Pop R10; Pop R11; Pop R12; Pop R13; Pop R14; Pop R15;
   Pop RAX; Mov CR3 (Reg RAX);
   Pop RBX; Pop RCX; Pop RDX; Pop RSI; Pop RDI; Pop RBP; Pop RAX].

Definition timer_interrupt_stub_local (handler end_interrupt : Machine → Machine) : list instr :=
  push_context ++ push_fpu ++ [Mov RDI (Reg RSP); Call handler; Call end_interrupt]
  ++ restore_context ++ interrupt_cleanup.

Definition context_switch_stub (context_switch_local : Machine → Machine) : list instr :=
  push_context ++ push_fpu ++ [Mov RDI (Reg RSP); Call context_switch_local]
  ++ restore_context ++ interrupt_cleanup.

Definition switch_and_apply (end_interrupt : Machine → Machine) : list instr :=
  [Mov RSP (Reg RDI); Call end_interrupt] ++ restore_context ++ interrupt_cleanup.

(** [__sys_yield] up to the jump; [label] is the address of
    [_sys_yield_label], [Reg RFLAGS] the [pushfq]. *)
Definition sys_yield (label : Z) : list instr :=
  [Mov RAX (Reg RSP); Push (Reg RSI); Push (Reg RAX); Push (Reg RFLAGS); Push (Reg RDI);
   Mov RAX (Imm label); Push (Reg RAX)].

Definition sys_yield_label : list instr := [Ret_].

Definition syscall_stub (handler : Machine → Machine) : list instr :=
  [Sti; Push (Reg RBP); Push (Reg R11); Push (Reg RCX); Push (Reg RBX); Push (Reg R8);
   Push (Reg R9); Push (Reg R10); Push (Reg RDX); Push (Reg RSI); Push (Reg RDI);
   Push (Reg RAX); Mov RDI (Reg RSP); Call handler;
   Pop RAX; Pop RDI; Pop RSI; Pop RDX; Pop R10; Pop R9; Pop R8; Pop RBX; Pop RCX;
   Pop R11; Pop RBP; Iretq].

Section init.
Context (return_trampoline_stub : Z).

(** [lea r8, return_trampoline_stub]. *)
Definition lea_stub (r : reg) : instr := Mov r (Imm return_trampoline_stub).

Definition init_kernel_task : list instr :=
  [Mov RAX (Reg RSP); Mov RSP (Mem RDI 8); And RSP (-16);
   Push (Imm 0); Push (Mem RSI 0); Push (Reg RSI)]
  ++ [lea_stub R8; Push (Reg R8); Mov R8 (Reg RSP)]
  ++ [Push (Mem RDI 32); Push (Reg R8); Push (Mem RDI 24); Push (Mem RDI 16); Push (Mem RDI 0);
      Push (Imm 0); Push (Imm 0); Push (Mem RDX 0); Push (Mem RDX 8); Push (Mem RDX 16);
      Push (Mem RDX 24); Push (Imm 0)]
  ++ [Mov RSI (Reg CR3)]
  ++ [Push (Reg RSI); Push (Imm 0); Push (Imm 0); Push (Imm 0); Push (Imm 0);
      Push (Imm 0); Push (Imm 0); Push (Mem RDX 40); Push (Mem RDX 32)]
  ++ push_fpu ++ [Mov RSI (Reg RSP); Mov RSP (Reg RAX); Mov RAX (Reg RSI); Ret_].

Definition setup_usr_stack : list instr :=
  [Mov R9 (Reg RSP); Mov RSP (Mem RDI 8); And RSP (-16); Sub RSP 8;
   Mov R8 (Reg RSP); Mov RSP (Reg R9); Ret_].

(** A call inside the module: the return address, then the body. *)
Definition init_usr_task (after_call : Z) : list instr :=
  [Mov RAX (Reg RSP); Mov RSP (Mem RDI 48); And RSP (-16);
   Push (Imm 0); Push (Mem RSI 0); Push (Reg RSI)]
  ++ [Push (Imm after_call)] ++ setup_usr_stack
  ++ [lea_stub R9; Push (Reg R9)]
  ++ [Push (Mem RDI 32); Push (Reg R8); Push (Mem RDI 24); Push (Mem RDI 16); Push (Mem RDI 0);
      Push (Imm 0); Push (Imm 0); Push (Mem RDX 0); Push (Mem RDX 8); Push (Mem RDX 16);
      Push (Mem RDX 24); Push (Imm 0); Push (Mem RDI 40);
      Push (Imm 0); Push (Imm 0); Push (Imm 0); Push (Imm 0);
      Push (Imm 0); Push (Imm 0); Push (Mem RDX 40); Push (Mem RDX 32)]
  ++ push_fpu ++ [Mov RSI (Reg RSP); Mov RSP (Reg RAX); Mov RAX (Reg RSI); Ret_].

End init.

(** [return_trampoline_stub]. *)
Definition trampoline_stub : list instr := [Pop RSI; Mov RDI (Reg RAX); Ret_].

(** ** The structures the routines read *)

(** [KTaskInfo] and [UsrTaskInfo], in the order of their fields. *)
Record KTaskInfo : Set := mkKTaskInfo {
  k_rip : Z; k_kstack_top : Z; k_cs : Z; k_rflags : Z; k_ss : Z; k_cr3 : Z
}.

Record UsrTaskInfo : Set := mkUsrTaskInfo {
  u_rip : Z; usr_stack_top : Z; u_cs : Z; u_rflags : Z; u_ss : Z; u_cr3 : Z;
  u_kstack_top : Z; uk_cs : Z; uk_rflags : Z; uk_ss : Z
}.

(** [RFlags::INTERRUPT_FLAG | 0x2]; [selectors] are code and stack segment. *)
Definition TASK_RFLAGS : Z := Z.lor IF_BIT 0x2.

Definition KTaskInfo_new (addr kstack : Z) (selectors : Z * Z) (root : Z) : KTaskInfo :=
  mkKTaskInfo addr kstack (fst selectors) TASK_RFLAGS (snd selectors) root.

Definition UsrTaskInfo_new (addr kstack usr tbl : Z) (user kernel : Z * Z) : UsrTaskInfo :=
  mkUsrTaskInfo addr usr (fst user) TASK_RFLAGS (snd user) tbl kstack
    (fst kernel) TASK_RFLAGS (snd kernel).

Definition KTaskInfo_words (i : KTaskInfo) : list Z :=
  [k_rip i; k_kstack_top i; k_cs i; k_rflags i; k_ss i; k_cr3 i].

Definition UsrTaskInfo_words (i : UsrTaskInfo) : list Z :=
  [u_rip i; usr_stack_top i; u_cs i; u_rflags i; u_ss i; u_cr3 i;
   u_kstack_top i; uk_cs i; uk_rflags i; uk_ss i].

(** [SysCallCtx] in memory. *)
Definition SysCallCtx_words (c : SysCallCtx) : list Z :=
  [rax c; rdi c; rsi c; rdx c; r10 c; r9 c; r8 c; rbx c; rcx c; r11 c; rbp c].

(** ** Reading registers *)

Lemma reg_eqb_refl r : reg_eqb r r = true.
Proof. apply Nat.eqb_refl. Qed.

Lemma reg_eqb_ne r r' : r ≠ r' → reg_eqb r r' = false.
Proof. intros Hne. apply Nat.eqb_neq. destruct r, r'; done. Qed.

Lemma upd_eq f r v : upd f r v r = v.
Proof. unfold upd. by rewrite reg_eqb_refl. Qed.

Lemma upd_ne f r r' v : r ≠ r' → upd f r v r' = f r'.
Proof. intros Hne. unfold upd. by rewrite reg_eqb_ne. Qed.

(** ** Reading the stack *)

Definition words (f : Z → Z) (a : Z) (l : list Z) : Prop := load_words f a (length l) = l.

(** The words from the stack pointer upwards. *)
Definition stk (m : Machine) (l : list Z) : Prop := words (mem m) (regs m RSP) l.

Lemma words_cons f a v l : words f a (v :: l) ↔ f a = v ∧ words f (a + 8) l.
Proof. unfold words. cbn. split; [intros [= -> H]; by rewrite H|intros [-> ->]; done]. Qed.

Lemma words_app f a l1 l2 :
  words f a (l1 ++ l2) ↔ words f a l1 ∧ words f (a + 8 * zlen l1) l2.
Proof.
  revert a. induction l1 as [|v l1 IH]; intros a; cbn [app].
  - unfold zlen. simpl. rewrite Z.add_0_r. split; [done|]. by intros [_ ?].
  - rewrite !words_cons, IH. unfold zlen. cbn [length].
    replace (a + 8 + 8 * Z.of_nat (length l1)) with (a + 8 * Z.of_nat (S (length l1))) by lia.
    tauto.
Qed.

Lemma words_ext f g a l :
  (∀ x, a <= x < a + 8 * zlen l → f x = g x) → words f a l → words g a l.
Proof.
  revert a. induction l as [|v l IH]; intros a Hfg; [done|]. rewrite !words_cons.
  unfold zlen in *. cbn [length] in Hfg. intros [Hv Hl]. split.
  - rewrite <- Hfg; [done|lia].
  - apply IH; [|done]. intros x Hx. apply Hfg. lia.
Qed.

Lemma words_lookup f a l i v : words f a l → l !! i = Some v → f (a + 8 * Z.of_nat i) = v.
Proof.
  revert a i. induction l as [|w l IH]; intros a [|i]; [done|done| |].
  - intros [Hw _]%words_cons [= <-]. by rewrite Z.mul_0_r, Z.add_0_r.
  - intros [_ Hl]%words_cons Hi. rewrite <- (IH _ _ Hl Hi). f_equal. lia.
Qed.

Lemma store_words_in f a l : words (store_words f a l) a l.
Proof.
  revert a. induction l as [|v l IH]; intros a; [done|]. apply words_cons. cbn [store_words].
  unfold store at 1. rewrite decide_True by done. split; [done|].
  eapply words_ext; [|apply IH]. intros x Hx. unfold store. by rewrite decide_False by lia.
Qed.

Lemma store_words_out f a l x :
  x < a ∨ a + 8 * zlen l <= x → store_words f a l x = f x.
Proof.
  revert a. induction l as [|v l IH]; intros a Hx; [done|]. cbn [store_words].
  unfold zlen in *. cbn [length] in Hx. unfold store. rewrite decide_False by lia.
  apply IH. lia.
Qed.

(** ** Sequences of pushes and pops *)

Lemma exec_app c1 c2 m : exec (c1 ++ c2) m = exec c2 (exec c1 m).
Proof. apply foldl_app. Qed.

(** Operands that a push below [top], above [bottom], does not disturb. *)
Definition steady (m : Machine) (bottom : Z) (o : operand) : Prop :=
  match o with
  | Reg r => r ≠ RSP
  | Imm _ => True
  | Mem b off => b ≠ RSP ∧
      (regs m b + off < bottom ∨ regs m RSP <= regs m b + off)
  end.

(** What the code did to the machine apart from the stack pointer: it wrote
    the words [vs] below the old stack pointer and nothing else. *)
Record pushed (m m' : Machine) (vs : list Z) : Prop := {
  pu_rsp : regs m' RSP = regs m RSP - 8 * zlen vs;
  pu_regs : ∀ r, r ≠ RSP → regs m' r = regs m r;
  pu_fpu : fpu m' = fpu m;
  pu_words : words (mem m') (regs m' RSP) vs;
  pu_frame : ∀ a, a < regs m RSP - 8 * zlen vs ∨ regs m RSP <= a → mem m' a = mem m a
}.

Lemma pushed_stk m m' vs l : pushed m m' vs → stk m l → stk m' (vs ++ l).
Proof.
  intros [Hr _ _ Hw Hf] Hl. unfold stk. apply words_app. split; [done|].
  rewrite Hr. replace (regs m RSP - 8 * zlen vs + 8 * zlen vs) with (regs m RSP) by lia.
  eapply words_ext; [|exact Hl]. intros x Hx. symmetry. apply Hf. lia.
Qed.

Lemma steady_opval m m' bottom o v :
  steady m bottom o → bottom <= regs m RSP - 8 → m' = push m v →
  opval m' o = opval m o ∧ steady m' bottom o.
Proof.
  intros Hs Hb ->. destruct o as [r|n|b off]; simpl in *.
  - by rewrite upd_ne.
  - done.
  - destruct Hs as [Hb0 Ha]. rewrite upd_ne by done. unfold store. rewrite decide_False by lia.
    split; [done|]. split; [done|]. cbn. lia.
Qed.

Lemma exec_pushes os m :
  Forall (steady m (regs m RSP - 8 * zlen os)) os →
  pushed m (exec (Push <$> os) m) (rev (opval m <$> os)).
Proof.
  revert m. induction os as [|o os IH]; intros m Hs.
  { split; try done. cbn. unfold zlen. simpl. lia. }
  inversion Hs as [|? ? Ho Hos]; subst. cbn [fmap list_fmap rev].
  set (m1 := push m (opval m o)).
  assert (Hrsp : regs m1 RSP = regs m RSP - 8) by reflexivity.
  assert (Hlen : zlen (o :: os) = zlen os + 1) by (unfold zlen; simpl; lia).
  assert (Hos1 : Forall (steady m1 (regs m1 RSP - 8 * zlen os)) os ∧
                 opval m1 <$> os = opval m <$> os).
  { pose proof (zlen_nonneg os). split.
    - eapply Forall_impl; [exact Hos|]. intros o' Ho'.
      destruct (steady_opval m m1 _ o' _ Ho' ltac:(lia) eq_refl) as [_ Hst].
      by replace (regs m1 RSP - 8 * zlen os) with (regs m RSP - 8 * zlen (o :: os)) by lia.
    - apply map_ext_in. intros o' Hin%list_elem_of_In.
      rewrite Forall_forall in Hos. specialize (Hos o' Hin).
      by destruct (steady_opval m m1 _ o' _ Hos ltac:(lia) eq_refl). }
  destruct Hos1 as [Hos1 Hval]. specialize (IH m1 Hos1). rewrite Hval in IH.
  change (exec (Push o :: (Push <$> os)) m) with (exec (Push <$> os) m1).
  destruct IH as [IHr IHg IHf IHw IHm].
  assert (Hl : zlen (rev (opval m <$> os)) = zlen os).
  { unfold zlen. by rewrite length_rev, length_fmap. }
  rewrite Hl in IHr, IHm.
  split.
  - rewrite IHr, Hrsp, zlen_app, Hl. unfold zlen. simpl. lia.
  - intros r Hr. rewrite IHg by done. cbn [regs m1 push]. by rewrite upd_ne.
  - done.
  - apply words_app. split; [done|]. rewrite IHr, Hl, Hrsp.
    replace (regs m RSP - 8 - 8 * zlen os + 8 * zlen os) with (regs m RSP - 8) by lia.
    apply words_cons. split; [|done]. rewrite IHm by lia.
    cbn. unfold store. by rewrite decide_True.
  - intros a Ha. rewrite zlen_app, Hl in Ha. unfold zlen in Ha. simpl in Ha.
    rewrite IHm by (unfold zlen; lia). cbn. unfold store. rewrite decide_False; [done|].
    lia.
Qed.

(** The value the pops leave in a register. *)
Fixpoint pick (r : reg) (l : list (reg * Z)) (d : Z) : Z :=
  match l with
  | [] => d
  | (r', v) :: l => if reg_eqb r' r then v else pick r l d
  end.

Lemma pick_out r rs vs d : r ∉ rs → pick r (zip rs vs) d = d.
Proof.
  revert vs. induction rs as [|r' rs IH]; intros [|v vs] Hr; try done. simpl.
  apply not_elem_of_cons in Hr as [Hne Hr]. rewrite reg_eqb_ne by done. by apply IH.
Qed.

Lemma exec_pops rs m vs l :
  bool_decide (NoDup (RSP :: rs)) = true → length vs = length rs → stk m (vs ++ l) →
  let m' := exec (Pop <$> rs) m in
  mem m' = mem m ∧ fpu m' = fpu m ∧ regs m' RSP = regs m RSP + 8 * zlen rs ∧
  (∀ r, r ≠ RSP → regs m' r = pick r (zip rs vs) (regs m r)) ∧ stk m' l.
Proof.
  intros Hnd%bool_decide_eq_true. apply NoDup_cons in Hnd as [Hsp Hnd].
  revert m vs. induction rs as [|r0 rs IH]; intros m vs Hlen Hst m'.
  { destruct vs; [|done]. unfold m', zlen. simpl. split_and!; try done; lia. }
  destruct vs as [|v0 vs]; [done|]. cbn [app] in Hst. apply words_cons in Hst as [Hv Hst].
  apply not_elem_of_cons in Hsp as [Hne Hsp]. apply NoDup_cons in Hnd as [Hr0 Hnd].
  set (m1 := pop m r0).
  assert (Hrsp : regs m1 RSP = regs m RSP + 8).
  { cbn [regs m1 pop]. by rewrite upd_ne, upd_eq by done. }
  assert (Hst1 : stk m1 (vs ++ l)).
  { unfold stk. rewrite Hrsp. exact Hst. }
  destruct (IH Hsp Hnd m1 vs ltac:(simpl in Hlen; lia) Hst1) as (IH1 & IH2 & IH3 & IH4 & IH5).
  change m' with (exec (Pop <$> rs) m1). split_and!; try done.
  - rewrite IH3, Hrsp. unfold zlen. simpl. lia.
  - intros r Hr. rewrite IH4 by done. cbn [regs m1 pop zip zip_with pick]. rewrite Hv.
    destruct (decide (r0 = r)) as [<-|Hne0].
    + rewrite reg_eqb_refl, upd_eq. by apply pick_out.
    + by rewrite reg_eqb_ne, !upd_ne by done.
Qed.

(** ** Saved threads *)

(** The words of a saved thread, from the lowest address: the registers in
    the order of the pops, then the interrupt frame. *)
Definition frame_words (c : reg → Z) : list Z := [c RIP; c CS; c RFLAGS; c RSP; c SS].

Definition ctx_words (c : reg → Z) : list Z :=
  [c R8; c R9; c R10; c R11; c R12; c R13; c R14; c R15; c CR3; c RBX; c RCX; c RDX;
   c RSI; c RDI; c RBP; c RAX] ++ frame_words c.

(** At [k] (the value kept in [krsp]) memory holds the thread with registers
    [c] and floating-point state [f]. *)
Definition saved (mm : Z → Z) (k : Z) (c : reg → Z) (f : list Z) : Prop :=
  length f = 64%nat ∧ words mm (k + 8) f ∧
  ∃ s, mm k = s ∧ k + 8 + 512 <= s ∧ words mm s (ctx_words c).

(** A thread is saved in the memory from [k] upwards. *)
Lemma saved_ext mm mm' k c f :
  (∀ a, k <= a → mm' a = mm a) → saved mm k c f → saved mm' k c f.
Proof.
  intros He (Hl & Hf & s & Hs & Hle & Hw). split; [done|]. split.
  - eapply words_ext; [|exact Hf]. intros x Hx. symmetry. apply He. lia.
  - exists s. rewrite He by lia. split_and!; [done|done|].
    eapply words_ext; [|exact Hw]. intros x Hx. symmetry. apply He. lia.
Qed.

(** The contract of a called function: it returns to the instruction after
    the call, keeps the caller's part of the stack and the registers a callee
    must keep. *)
Definition callee_saved : list reg := [RBX; RBP; RSP; R12; R13; R14; R15; CR3; CS; SS].

Definition callee_saved_but_rsp : list reg := [RBX; RBP; R12; R13; R14; R15; CR3; CS; SS].

Definition call_ok (f : Machine → Machine) : Prop :=
  ∀ m, (∀ r, r ∈ callee_saved → regs (f m) r = regs m r) ∧
       (∀ a, regs m RSP <= a → mem (f m) a = mem m a).

(** The three parts of restoring a thread. *)
Lemma restore_fpu m c f :
  saved (mem m) (regs m RSP) c f →
  let m' := exec [Pop R9; FxRstor; Mov RSP (Reg R9)] m in
  stk m' (ctx_words c) ∧ fpu m' = f ∧ mem m' = mem m.
Proof.
  intros (Hl & Hf & s & Hs & Hle & Hw). unfold stk. cbn. rewrite Hs. split; [done|].
  unfold words in Hf. by rewrite Hl in Hf.
Qed.

(** The general registers of a saved thread. *)
Definition gprs : list reg :=
  [R8; R9; R10; R11; R12; R13; R14; R15; RBX; RCX; RDX; RSI; RDI; RBP; RAX; CR3].

Lemma restore_gprs m c l :
  stk m ([c R8; c R9; c R10; c R11; c R12; c R13; c R14; c R15; c CR3; c RBX; c RCX; c RDX;
          c RSI; c RDI; c RBP; c RAX] ++ l) →
  let m' := exec ((Pop <$> [R8; R9; R10; R11; R12; R13; R14; R15; RAX]) ++ [Mov CR3 (Reg RAX)]
                  ++ (Pop <$> [RBX; RCX; RDX; RSI; RDI; RBP; RAX])) m in
  stk m' l ∧ fpu m' = fpu m ∧ mem m' = mem m ∧ Forall (λ r, regs m' r = c r) gprs.
Proof.
  intros Hst. cbv zeta. rewrite !exec_app.
  destruct (exec_pops [R8; R9; R10; R11; R12; R13; R14; R15; RAX] m
              [c R8; c R9; c R10; c R11; c R12; c R13; c R14; c R15; c CR3]
              ([c RBX; c RCX; c RDX; c RSI; c RDI; c RBP; c RAX] ++ l)
              eq_refl eq_refl Hst) as (Hm2 & Hf2 & _ & Hr2 & Hst2).
  set (m2 := exec (Pop <$> [R8; R9; R10; R11; R12; R13; R14; R15; RAX]) m) in *.
  clearbody m2. set (m3 := exec [Mov CR3 (Reg RAX)] m2).
  assert (Hcr3 : regs m3 CR3 = c CR3) by exact (Hr2 RAX ltac:(done)).
  assert (Hr3 : ∀ r, r ≠ CR3 → regs m3 r = regs m2 r) by (intros r Hr; by apply upd_ne).
  assert (Hst3 : stk m3 ([c RBX; c RCX; c RDX; c RSI; c RDI; c RBP; c RAX] ++ l)) by exact Hst2.
  assert (Hf3 : fpu m3 = fpu m) by exact Hf2.
  assert (Hm3 : mem m3 = mem m) by exact Hm2. clearbody m3.
  destruct (exec_pops [RBX; RCX; RDX; RSI; RDI; RBP; RAX] m3
              [c RBX; c RCX; c RDX; c RSI; c RDI; c RBP; c RAX] l
              eq_refl eq_refl Hst3) as (Hm4 & Hf4 & _ & Hr4 & Hst4).
  set (m4 := exec (Pop <$> [RBX; RCX; RDX; RSI; RDI; RBP; RAX]) m3) in *. clearbody m4.
  split; [done|]. split; [by rewrite Hf4|]. split; [by rewrite Hm4|]. unfold gprs.
  repeat constructor; rewrite Hr4 by done; cbn; rewrite ?Hcr3, ?Hr3 by done;
    rewrite ?Hr2 by done; reflexivity.
Qed.

Lemma restore_context_split :
  restore_context =
    [Pop R9; FxRstor; Mov RSP (Reg R9)]
    ++ ((Pop <$> [R8; R9; R10; R11; R12; R13; R14; R15; RAX]) ++ [Mov CR3 (Reg RAX)]
    ++ (Pop <$> [RBX; RCX; RDX; RSI; RDI; RBP; RAX])).
Proof. reflexivity. Qed.

Lemma cleanup_restores m c :
  stk m (frame_words c) →
  let m' := exec interrupt_cleanup m in
  Forall (λ r, regs m' r = c r) [RIP; CS; RFLAGS; RSP; SS] ∧
  Forall (λ r, regs m' r = regs m r) gprs ∧ fpu m' = fpu m ∧ mem m' = mem m.
Proof.
  intros Hst m'. unfold stk, frame_words in Hst. rewrite !words_cons in Hst.
  destruct Hst as (H0 & H1 & H2 & H3 & H4 & _). unfold m'. cbn.
  replace (regs m RSP + 8 + 8) with (regs m RSP + 16) in * by lia.
  replace (regs m RSP + 16 + 8) with (regs m RSP + 24) in * by lia.
  replace (regs m RSP + 24 + 8) with (regs m RSP + 32) in * by lia.
  split; [repeat constructor; done|]. split; [repeat constructor; done|done].
Qed.

(** Restoring and returning from the interrupt. *)
Lemma restore_spec m c f :
  saved (mem m) (regs m RSP) c f →
  let m' := exec (restore_context ++ interrupt_cleanup) m in
  (∀ r, regs m' r = c r) ∧ fpu m' = f ∧ mem m' = mem m.
Proof.
  intros Hs. cbv zeta.
  rewrite restore_context_split, exec_app, (exec_app [_; _; _]).
  destruct (restore_fpu m c f Hs) as (Hst1 & Hf1 & Hm1).
  set (m1 := exec [_; _; _] m) in *. clearbody m1.
  destruct (restore_gprs m1 c (frame_words c) Hst1) as (Hst2 & Hf2 & Hm2 & Hg2).
  set (m2 := exec _ m1) in *. clearbody m2.
  destruct (cleanup_restores m2 c Hst2) as (Hr3 & Hg3 & Hf3 & Hm3).
  set (m3 := exec _ m2) in *. clearbody m3. split; [|split; congruence]. intros r. rewrite Forall_forall in Hr3, Hg2, Hg3.
  destruct (decide (r ∈ gprs)) as [Hin|Hout]; [by rewrite Hg3, Hg2|].
  apply Hr3. refine (bool_decide_eq_true_1 _ _). destruct r; try reflexivity; exfalso;
    apply Hout; refine (bool_decide_eq_true_1 _ _); reflexivity.
Qed.

(** ** Saving a thread *)

Lemma land_m16 x : Z.land x (-16) = x - x mod 16.
Proof.
  change (-16) with (Z.lnot (Z.ones 4)). rewrite <- Z.ldiff_land, Z.ldiff_ones_r by lia.
  rewrite Z.shiftl_mul_pow2, Z.shiftr_div_pow2 by lia.
  pose proof (Z.div_mod x (2 ^ 4) ltac:(done)). change (2 ^ 4) with 16 in *. lia.
Qed.

(** What saving the floating-point state does: the area of 512 bytes is
    aligned for [fxsave], lies below the stack pointer, and the words above
    the old stack pointer stay. *)
Record fpu_saved (m m' : Machine) : Prop := {
  fs_old : mem m' (regs m' RSP) = regs m RSP;
  fs_area : words (mem m') (regs m' RSP + 8) (fpu m);
  fs_keep : ∀ a, regs m RSP <= a → mem m' a = mem m a;
  fs_out : ∀ a, a < regs m' RSP → mem m' a = mem m a;
  fs_below : regs m' RSP + 8 + 512 <= regs m RSP;
  fs_size : regs m RSP - 552 <= regs m' RSP;
  fs_align : (regs m' RSP + 8) mod 16 = 0;
  fs_fpu : fpu m' = fpu m;
  fs_regs : ∀ r, r ≠ RSP → r ≠ R9 → regs m' r = regs m r
}.

Lemma push_fpu_spec m : length (fpu m) = 64%nat → fpu_saved m (exec push_fpu m).
Proof.
  intros Hl. set (s := regs m RSP). set (a := Z.land (s - (512 + 16)) (-16)).
  assert (Ha : s - 544 < a <= s - 528 ∧ a mod 16 = 0).
  { unfold a. rewrite land_m16. pose proof (Z.mod_pos_bound (s - (512 + 16)) 16 ltac:(lia)).
    split; [lia|]. rewrite Zminus_mod, Zmod_mod, Z.sub_diag. done. }
  destruct Ha as [Ha Hmod].
  assert (Hrsp : regs (exec push_fpu m) RSP = a - 8) by reflexivity.
  assert (Hmem : mem (exec push_fpu m) = store (store_words (mem m) a (fpu m)) (a - 8) s)
    by reflexivity.
  assert (Hz : zlen (fpu m) = 64) by (unfold zlen; lia).
  split; rewrite ?Hrsp, ?Hmem.
  - unfold store. by rewrite decide_True.
  - replace (a - 8 + 8) with a by lia. eapply words_ext; [|apply store_words_in].
    intros x Hx. unfold store. by rewrite decide_False by lia.
  - intros x Hx. unfold store. rewrite decide_False by (unfold s in *; lia).
    apply store_words_out. unfold s in *. lia.
  - intros x Hx. unfold store. rewrite decide_False by lia. apply store_words_out. lia.
  - unfold s in *. lia.
  - unfold s in *. lia.
  - by replace (a - 8 + 8) with a by lia.
  - done.
  - intros r H1 H2. cbn. by rewrite !upd_ne by done.
Qed.

(** The thread an interrupt stopped: its registers, with the values the
    processor pushed for the ones it changed. *)
Definition interrupted (m : Machine) (rip cs rflags rsp ss : Z) : reg → Z :=
  λ r, match r with
       | RIP => rip | CS => cs | RFLAGS => rflags | RSP => rsp | SS => ss
       | _ => regs m r
       end.

Lemma push_context_split :
  push_context =
    [Cli] ++ (Push <$> (Reg <$> [RAX; RBP; RDI; RSI; RDX; RCX; RBX])) ++ [Mov RAX (Reg CR3)]
    ++ (Push <$> (Reg <$> [RAX; R15; R14; R13; R12; R11; R10; R9; R8])).
Proof. reflexivity. Qed.

Lemma exec_push_regs rs m :
  bool_decide (RSP ∈ rs) = false → pushed m (exec (Push <$> (Reg <$> rs)) m) (rev (regs m <$> rs)).
Proof.
  intros Hr%bool_decide_eq_false.
  replace (regs m <$> rs) with (opval m <$> (Reg <$> rs)) by (by rewrite <- list_fmap_compose).
  apply exec_pushes. apply Forall_fmap, Forall_forall. intros r Hin. simpl. set_solver.
Qed.

Lemma push_context_spec m l :
  stk m l →
  let m' := exec push_context m in
  stk m' ([regs m R8; regs m R9; regs m R10; regs m R11; regs m R12; regs m R13; regs m R14;
           regs m R15; regs m CR3; regs m RBX; regs m RCX; regs m RDX; regs m RSI; regs m RDI;
           regs m RBP; regs m RAX] ++ l) ∧
  regs m' RSP = regs m RSP - 128 ∧ fpu m' = fpu m ∧
  (∀ a, regs m RSP <= a → mem m' a = mem m a).
Proof.
  intros Hst. cbv zeta. rewrite push_context_split, !exec_app.
  set (m0 := exec [Cli] m).
  assert (Hr0 : ∀ r, r ≠ RFLAGS → regs m0 r = regs m r) by (intros r Hr; by apply upd_ne).
  assert (Hst0 : stk m0 l) by exact Hst.
  assert (Hm0 : mem m0 = mem m ∧ fpu m0 = fpu m) by done. clearbody m0.
  pose proof (exec_push_regs [RAX; RBP; RDI; RSI; RDX; RCX; RBX] m0 eq_refl) as Hp1.
  set (m1 := exec _ m0) in *. clearbody m1. cbn in Hp1.
  pose proof (pushed_stk _ _ _ _ Hp1 Hst0) as Hst1.
  set (m2 := exec [Mov RAX (Reg CR3)] m1).
  assert (Hr2 : ∀ r, r ≠ RAX → regs m2 r = regs m1 r) by (intros r Hr; by apply upd_ne).
  assert (Hax2 : regs m2 RAX = regs m1 CR3) by done.
  assert (Hst2 : stk m2 ([regs m0 RBX; regs m0 RCX; regs m0 RDX; regs m0 RSI; regs m0 RDI;
                          regs m0 RBP; regs m0 RAX] ++ l)) by exact Hst1.
  assert (Hm2 : mem m2 = mem m1 ∧ fpu m2 = fpu m1) by done. clearbody m2.
  pose proof (exec_push_regs [RAX; R15; R14; R13; R12; R11; R10; R9; R8] m2 eq_refl) as Hp3.
  set (m3 := exec _ m2) in *. clearbody m3. cbn in Hp3.
  pose proof (pushed_stk _ _ _ _ Hp3 Hst2) as Hst3.
  destruct Hp1 as [Hs1 Hg1 Hf1 _ Hk1], Hp3 as [Hs3 Hg3 Hf3 _ Hk3].
  destruct Hm0 as [Hm0 Hf0], Hm2 as [Hm2 Hf2]. unfold zlen in *. cbn [length] in *.
  rewrite Hr2, Hs1, Hr0 in * by done. split_and!.
  - rewrite Hax2, !Hr2, !Hg1, !Hr0 in Hst3 by done. exact Hst3.
  - lia.
  - congruence.
  - intros a Ha. rewrite Hk3, Hm2, Hk1, Hm0 by lia. done.
Qed.

Lemma save_spec m rip cs rflags sp ss :
  stk m [rip; cs; rflags; sp; ss] → length (fpu m) = 64%nat →
  let m' := exec (push_context ++ push_fpu) m in
  saved (mem m') (regs m' RSP) (interrupted m rip cs rflags sp ss) (fpu m) ∧
  (regs m' RSP + 8) mod 16 = 0 ∧ regs m RSP - 680 <= regs m' RSP <= regs m RSP ∧
  (∀ a, regs m RSP <= a → mem m' a = mem m a).
Proof.
  intros Hst Hl. cbv zeta. rewrite exec_app.
  destruct (push_context_spec m _ Hst) as (Hst1 & Hs1 & Hf1 & Hk1).
  set (m1 := exec push_context m) in *. clearbody m1.
  destruct (push_fpu_spec m1 ltac:(by rewrite Hf1)) as [H1 H2 H3 _ H4 H5 H6 H7 H8].
  set (m2 := exec push_fpu m1) in *. clearbody m2. rewrite Hf1 in H2.
  split_and!; [|done|lia|lia|].
  - split_and!; [done|done|]. exists (regs m1 RSP). split_and!; [done|lia|].
    eapply words_ext; [|exact Hst1]. intros x Hx. symmetry. apply H3. lia.
  - intros a Ha. rewrite H3, Hk1 by lia. done.
Qed.

(** Switching to a saved thread, from any machine whose memory still holds it. *)
Lemma switch_resumes m end_interrupt c f :
  call_ok end_interrupt → saved (mem m) (regs m RDI) c f →
  let m' := exec (switch_and_apply end_interrupt) m in
  (∀ r, regs m' r = c r) ∧ fpu m' = f ∧ (∀ a, regs m RDI <= a → mem m' a = mem m a).
Proof.
  intros Hc Hs. cbv zeta. unfold switch_and_apply. rewrite exec_app.
  set (m1 := exec [_; _] m).
  assert (Hm1 : ∀ a, regs m RDI <= a → mem m1 a = mem m a).
  { intros a Ha. apply (Hc (set_reg m RSP (regs m RDI))). done. }
  assert (Hr1 : regs m1 RSP = regs m RDI).
  { apply (proj1 (Hc (set_reg m RSP (regs m RDI)))).
    refine (bool_decide_eq_true_1 _ _). reflexivity. }
  clearbody m1.
  destruct (restore_spec m1 c f) as (Hr & Hf & Hm).
  { rewrite Hr1. eapply saved_ext; [|exact Hs]. exact Hm1. }
  set (m2 := exec _ m1) in *. clearbody m2.
  split; [done|]. split; [done|]. intros a Ha. by rewrite Hm, Hm1.
Qed.

(** C7: a thread that is interrupted and saved (the registers pushed, the
    floating-point state stored in an area that is aligned for it) continues
    with the same value in every register, the same page table, the same
    floating-point state and at the instruction that was interrupted, whenever
    [switch_and_apply] is entered with the stack pointer saved for it on a
    machine whose memory above that pointer is the same; saving takes at most
    680 bytes of its stack and leaves the words above untouched. *)
Theorem saved_thread_resumes m rip cs rflags sp ss end_interrupt m2 :
  stk m [rip; cs; rflags; sp; ss] → length (fpu m) = 64%nat → call_ok end_interrupt →
  let m1 := exec (push_context ++ push_fpu) m in
  regs m2 RDI = regs m1 RSP → (∀ a, regs m1 RSP <= a → mem m2 a = mem m1 a) →
  let m3 := exec (switch_and_apply end_interrupt) m2 in
  (∀ r, regs m3 r = interrupted m rip cs rflags sp ss r) ∧ fpu m3 = fpu m ∧
  (regs m1 RSP + 8) mod 16 = 0 ∧ regs m RSP - 680 <= regs m1 RSP ∧
  (∀ a, regs m RSP <= a → mem m1 a = mem m a).
Proof.
  intros Hst Hl Hc m1 Hk Hm m3.
  destruct (save_spec m _ _ _ _ _ Hst Hl) as (Hs & Hal & Hsz & Hkeep). fold m1 in Hs, Hal, Hsz, Hkeep.
  destruct (switch_resumes m2 end_interrupt _ _ Hc ltac:(rewrite Hk; by eapply saved_ext))
    as (Hr & Hf & _). split_and!; try done. lia.
Qed.

(** A function that keeps its caller's stack and registers, and the machine it is called on. *)
Definition idle_call (m : Machine) : Machine := mkMachine (upd (regs m) RAX 0) (mem m) (fpu m).

Lemma idle_call_ok : call_ok idle_call.
Proof.
  intros m. split; [|done]. intros r Hr. cbn. apply upd_ne. intros <-.
  apply (bool_decide_eq_true_2 (RAX ∈ callee_saved)) in Hr. done.
Qed.

Definition sample_machine : Machine :=
  mkMachine (λ r, if reg_eqb r RSP then 8000 else Z.of_nat (reg_num r))
    (store_words (λ _, 0) 8000 [0x401000; 0x33; 0x202; 0x7000; 0x2b]) (replicate 64 7).

(** Another machine that switches to the thread saved by [m1]. *)
Definition resumer (m1 : Machine) : Machine :=
  mkMachine (upd (λ _, 99) RDI (regs m1 RSP)) (mem m1) [].

Lemma resumer_spec m1 : regs (resumer m1) RDI = regs m1 RSP ∧ ∀ a, mem (resumer m1) a = mem m1 a.
Proof. split; [|done]. apply upd_eq. Qed.

Lemma saved_thread_resumes_witness :
  let m3 := exec (switch_and_apply idle_call)
              (resumer (exec (push_context ++ push_fpu) sample_machine)) in
  regs m3 RIP = 0x401000 ∧ regs m3 R14 = 14.
Proof.
  destruct (saved_thread_resumes sample_machine 0x401000 0x33 0x202 0x7000 0x2b idle_call
              (resumer (exec (push_context ++ push_fpu) sample_machine))
              eq_refl eq_refl idle_call_ok (proj1 (resumer_spec _))
              (λ a _, proj2 (resumer_spec _) a)) as (Hr & _).
  split; [exact (Hr RIP)|exact (Hr R14)].
Defined.

(** ** The stubs *)

Lemma call_rsp f m : call_ok f → regs (f m) RSP = regs m RSP.
Proof.
  intros Hc. apply (proj1 (Hc m)). refine (bool_decide_eq_true_1 _ _). reflexivity.
Qed.

(** Calls leave a saved thread where it is. *)
Lemma calls_keep_saved fs m c f :
  Forall call_ok fs → saved (mem m) (regs m RSP) c f →
  let m' := exec (Mov RDI (Reg RSP) :: (Call <$> fs)) m in
  saved (mem m') (regs m' RSP) c f.
Proof.
  intros Hfs Hs. change (exec (Mov RDI (Reg RSP) :: (Call <$> fs)) m) with
    (exec (Call <$> fs) (set_reg m RDI (regs m RSP))).
  assert (Hs1 : saved (mem (set_reg m RDI (regs m RSP))) (regs (set_reg m RDI (regs m RSP)) RSP) c f)
    by exact Hs.
  generalize dependent (set_reg m RDI (regs m RSP)). clear Hs.
  induction Hfs as [|g fs Hg Hfs IH]; intros m1 Hs; [done|].
  apply (IH (g m1)). rewrite call_rsp by done. eapply saved_ext; [|exact Hs].
  intros a Ha. by apply Hg.
Qed.

(** Save, call, restore: the shape of the timer stub and of the stub of a
    voluntary switch. *)
Lemma stub_spec fs m rip cs rflags sp ss :
  stk m [rip; cs; rflags; sp; ss] → length (fpu m) = 64%nat → Forall call_ok fs →
  let m' := exec (push_context ++ push_fpu ++ (Mov RDI (Reg RSP) :: (Call <$> fs))
                  ++ restore_context ++ interrupt_cleanup) m in
  (∀ r, regs m' r = interrupted m rip cs rflags sp ss r) ∧ fpu m' = fpu m.
Proof.
  intros Hst Hl Hfs. cbv zeta. rewrite (app_assoc push_context), exec_app.
  destruct (save_spec m _ _ _ _ _ Hst Hl) as (Hs & _).
  set (m1 := exec _ m) in *. clearbody m1. rewrite exec_app.
  pose proof (calls_keep_saved fs m1 _ _ Hfs Hs) as Hs2.
  set (m2 := exec _ m1) in *. clearbody m2.
  destruct (restore_spec m2 _ _ Hs2) as (Hr & Hf & _). done.
Qed.

(** The timer interrupt is invisible to the code it interrupts: when the
    handler comes back (it did not switch threads), every register, the page
    table, the floating-point state and the flags are those of the interrupted
    code, which continues at its own instruction. *)
Lemma timer_interrupt_transparent m rip cs rflags sp ss handler end_interrupt :
  stk m [rip; cs; rflags; sp; ss] → length (fpu m) = 64%nat →
  call_ok handler → call_ok end_interrupt →
  let m' := exec (timer_interrupt_stub_local handler end_interrupt) m in
  (∀ r, regs m' r = interrupted m rip cs rflags sp ss r) ∧ fpu m' = fpu m.
Proof.
  intros Hst Hl Hh He.
  exact (stub_spec [handler; end_interrupt] m _ _ _ _ _ Hst Hl
           (Forall_cons_2 _ _ _ Hh (Forall_cons_2 _ _ _ He (Forall_nil_2 _)))).
Qed.

Lemma timer_interrupt_transparent_witness :
  regs (exec (timer_interrupt_stub_local idle_call idle_call) sample_machine) RAX = 0.
Proof.
  exact (proj1 (timer_interrupt_transparent sample_machine 0x401000 0x33 0x202 0x7000 0x2b
                  idle_call idle_call eq_refl eq_refl idle_call_ok idle_call_ok) RAX).
Defined.

(** The stack [__sys_yield] builds, and the state it saves. *)
Lemma sys_yield_spec label m :
  let m' := exec (sys_yield label) m in
  stk m' [label; regs m RDI; regs m RFLAGS; regs m RSP; regs m RSI] ∧
  regs m' RSP = regs m RSP - 40 ∧ fpu m' = fpu m ∧
  (∀ r, r ≠ RSP → r ≠ RAX → regs m' r = regs m r) ∧ regs m' RAX = label ∧
  (∀ a, regs m RSP <= a → mem m' a = mem m a).
Proof.
  assert (Hrsp : regs (exec (sys_yield label) m) RSP = regs m RSP - 40) by (cbn; lia).
  split_and!; [|done|done| |done|].
  - unfold stk. rewrite Hrsp. rewrite !words_cons. cbn. unfold store.
    split_and!; try done; repeat (rewrite decide_False by lia); by rewrite decide_True by lia.
  - intros r H1 H2. cbn. by rewrite !upd_ne by done.
  - intros a Ha. cbn. unfold store. by repeat (rewrite decide_False by lia).
Qed.

Lemma ret_spec m :
  let m' := exec [Ret_] m in
  regs m' RIP = mem m (regs m RSP) ∧ regs m' RSP = regs m RSP + 8 ∧ fpu m' = fpu m ∧
  mem m' = mem m ∧ ∀ r, r ≠ RSP → r ≠ RIP → regs m' r = regs m r.
Proof. split_and!; try done. intros r H1 H2. cbn. by rewrite !upd_ne by done. Qed.

(** Giving up the processor is a function call: a thread that yields (in
    the code segment and with the stack segment it passes) and is switched to
    later, from any machine whose memory still holds what it saved, returns to
    the caller of [__sys_yield] with its stack pointer past the return address
    and with every register but [rax] as it was. *)
Lemma yield_returns_to_caller label m ra end_interrupt m2 :
  stk m [ra] → length (fpu m) = 64%nat → call_ok end_interrupt →
  let m1 := exec (sys_yield label ++ push_context ++ push_fpu) m in
  regs m2 RDI = regs m1 RSP → (∀ a, regs m1 RSP <= a → mem m2 a = mem m1 a) →
  let m3 := exec (switch_and_apply end_interrupt) m2 in
  let m4 := exec sys_yield_label m3 in
  regs m3 RIP = label ∧ regs m4 RIP = ra ∧ regs m4 RSP = regs m RSP + 8 ∧ fpu m4 = fpu m ∧
  regs m4 CS = regs m RDI ∧ regs m4 SS = regs m RSI ∧
  ∀ r, r ∉ [RAX; RIP; RSP; CS; SS] → regs m4 r = regs m r.
Proof.
  intros Hst Hl Hc. cbv zeta. rewrite exec_app.
  destruct (sys_yield_spec label m) as (Hst1 & Hs1 & Hf1 & Hr1 & Hax & Hm1).
  set (my := exec (sys_yield label) m) in *. clearbody my.
  destruct (save_spec my _ _ _ _ _ Hst1 ltac:(by rewrite Hf1)) as (Hs & _ & Hle & Hkeep).
  set (m1 := exec (push_context ++ push_fpu) my) in *. clearbody m1. intros Hk Hm.
  destruct (switch_resumes m2 end_interrupt _ _ Hc ltac:(rewrite Hk; by eapply saved_ext))
    as (Hr & Hf & Hm3).
  set (m3 := exec (switch_and_apply end_interrupt) m2) in *. clearbody m3.
  assert (Hra : mem m3 (regs m RSP) = ra).
  { rewrite Hm3, Hm, Hkeep, Hm1 by lia. by apply words_cons in Hst as [? _]. }
  assert (H3 : regs m3 RSP = regs m RSP) by (by rewrite Hr).
  destruct (ret_spec m3) as (H4 & H4' & Hf4 & _ & Hreg).
  unfold sys_yield_label. set (m4 := exec [Ret_] m3) in *. clearbody m4. split_and!.
  - by rewrite Hr.
  - by rewrite H4, H3.
  - by rewrite H4', H3.
  - by rewrite Hf4, Hf, Hf1.
  - rewrite Hreg, Hr by done. done.
  - rewrite Hreg, Hr by done. done.
  - intros r Hout. rewrite !not_elem_of_cons in Hout. destruct Hout as (? & ? & ? & ? & ? & _).
    rewrite Hreg, Hr by done. destruct r; try done; cbn; apply Hr1; done.
Qed.

Lemma yield_returns_to_caller_witness :
  let m1 := exec (sys_yield 0x8000 ++ push_context ++ push_fpu) sample_machine in
  regs (exec sys_yield_label (exec (switch_and_apply idle_call) (resumer m1))) RIP = 0x401000.
Proof.
  destruct (yield_returns_to_caller 0x8000 sample_machine 0x401000 idle_call
              (resumer (exec (sys_yield 0x8000 ++ push_context ++ push_fpu) sample_machine))
              eq_refl eq_refl idle_call_ok (proj1 (resumer_spec _))
              (λ a _, proj2 (resumer_spec _) a)) as (_ & Hr & _).
  exact Hr.
Defined.

(** ** System calls *)

(** What [__syscall_handler] does to the machine when the handler turns the
    context [c] into [c']: it finds the context where [rdi] points and writes
    the new one there. *)
Record handles (f : Machine → Machine) (c c' : SysCallCtx) : Prop := {
  hd_ctx : ∀ m, words (mem m) (regs m RDI) (SysCallCtx_words c) →
    words (mem (f m)) (regs m RDI) (SysCallCtx_words c');
  hd_regs : ∀ m r, r ∈ callee_saved → regs (f m) r = regs m r;
  hd_frame : ∀ m a, regs m RDI + 88 <= a → mem (f m) a = mem m a
}.

Definition ctx_of (m : Machine) : SysCallCtx :=
  mkCtx (regs m RAX) (regs m RDI) (regs m RSI) (regs m RDX) (regs m R10) (regs m R9) (regs m R8)
    (regs m RBX) (regs m RCX) (regs m R11) (regs m RBP).

Definition ctx_regs : list reg := [RAX; RDI; RSI; RDX; R10; R9; R8; RBX; RCX; R11; RBP].

Lemma syscall_stub_split f :
  syscall_stub f =
    [Sti] ++ (Push <$> (Reg <$> [RBP; R11; RCX; RBX; R8; R9; R10; RDX; RSI; RDI; RAX]))
    ++ [Mov RDI (Reg RSP); Call f] ++ (Pop <$> ctx_regs) ++ [Iretq].
Proof. reflexivity. Qed.

(** The context on the stack when the handler is called. *)
Lemma syscall_enter m l :
  stk m l →
  let m' := exec ([Sti] ++ (Push <$> (Reg <$> [RBP; R11; RCX; RBX; R8; R9; R10; RDX; RSI; RDI; RAX]))) m in
  stk m' (SysCallCtx_words (ctx_of m) ++ l) ∧ fpu m' = fpu m ∧
  (∀ r, r ≠ RSP → r ≠ RFLAGS → regs m' r = regs m r).
Proof.
  intros Hst. cbv zeta. rewrite exec_app. set (m0 := exec [Sti] m).
  assert (Hr0 : ∀ r, r ≠ RFLAGS → regs m0 r = regs m r) by (intros r Hr; by apply upd_ne).
  assert (Hst0 : stk m0 l) by exact Hst. assert (Hf0 : fpu m0 = fpu m) by done. clearbody m0.
  pose proof (exec_push_regs [RBP; R11; RCX; RBX; R8; R9; R10; RDX; RSI; RDI; RAX] m0 eq_refl) as Hp.
  set (m1 := exec _ m0) in *. clearbody m1. pose proof (pushed_stk _ _ _ _ Hp Hst0) as Hst1.
  split_and!.
  - cbn in Hst1. rewrite !Hr0 in Hst1 by done. exact Hst1.
  - by rewrite (pu_fpu _ _ _ Hp).
  - intros r H1 H2. by rewrite (pu_regs _ _ _ Hp), Hr0.
Qed.

Lemma iretq_spec m rip cs rflags sp ss :
  stk m [rip; cs; rflags; sp; ss] →
  let m' := exec [Iretq] m in
  (∀ r, regs m' r = interrupted m rip cs rflags sp ss r) ∧ fpu m' = fpu m.
Proof.
  intros Hst. unfold stk in Hst. rewrite !words_cons in Hst.
  destruct Hst as (H0 & H1 & H2 & H3 & H4 & _).
  replace (regs m RSP + 8 + 8) with (regs m RSP + 16) in * by lia.
  replace (regs m RSP + 16 + 8) with (regs m RSP + 24) in * by lia.
  replace (regs m RSP + 24 + 8) with (regs m RSP + 32) in * by lia.
  split; [|done]. intros r. destruct r; cbn; done.
Qed.

(** C35: the system-call stub hands the handler the registers of the caller as
    a [SysCallCtx] and gives the caller the registers of the context the
    handler leaves (the result in [rax] and [rdx], [SysCallCtx::ret]); the
    caller continues after its [int 0x80] on its own stack, and the registers
    that are not part of the context keep their values. *)
Theorem syscall_stub_spec f m c' rip cs rflags sp ss :
  stk m [rip; cs; rflags; sp; ss] → handles f (ctx_of m) c' →
  let m' := exec (syscall_stub f) m in
  ctx_of m' = c' ∧ regs m' RIP = rip ∧ regs m' CS = cs ∧ regs m' RFLAGS = rflags ∧
  regs m' RSP = sp ∧ regs m' SS = ss ∧
  ∀ r, r ∈ [R12; R13; R14; R15; CR3] → regs m' r = regs m r.
Proof.
  intros Hst [Hctx Hregs Hframe]. cbv zeta. rewrite syscall_stub_split, app_assoc, exec_app.
  destruct (syscall_enter m _ Hst) as (Hst1 & Hf1 & Hr1).
  set (m1 := exec _ m) in *. clearbody m1. apply words_app in Hst1 as [Hc1 Hst1].
  rewrite exec_app. set (m2 := exec [_; _] m1).
  assert (Hrsp2 : regs m2 RSP = regs m1 RSP).
  { apply (Hregs (set_reg m1 RDI (regs m1 RSP))). refine (bool_decide_eq_true_1 _ _). reflexivity. }
  assert (Hr2 : ∀ r, r ∈ callee_saved → r ≠ RDI → regs m2 r = regs m1 r).
  { intros r Hin Hne. etransitivity; [apply (Hregs (set_reg m1 RDI (regs m1 RSP)) r Hin)|].
    apply upd_ne. done. }
  assert (Hst2 : stk m2 (SysCallCtx_words c' ++ [rip; cs; rflags; sp; ss])).
  { unfold stk. rewrite Hrsp2. apply words_app. split.
    - apply (Hctx (set_reg m1 RDI (regs m1 RSP))). exact Hc1.
    - eapply words_ext; [|exact Hst1]. intros a Ha. symmetry.
      apply (Hframe (set_reg m1 RDI (regs m1 RSP))). cbn. unfold zlen in Ha. cbn in Ha. lia. }
  clearbody m2. rewrite exec_app.
  destruct (exec_pops ctx_regs m2 (SysCallCtx_words c') _ eq_refl eq_refl Hst2)
    as (_ & _ & _ & Hr3 & Hst3).
  set (m3 := exec _ m2) in *. clearbody m3.
  destruct (iretq_spec m3 _ _ _ _ _ Hst3) as [Hr4 _]. set (m4 := exec _ m3) in *. clearbody m4.
  split_and!; try apply Hr4.
  - unfold ctx_of. rewrite !Hr4. cbn [interrupted]. rewrite !Hr3 by done. by destruct c'.
  - intros r Hr. rewrite Hr4. rewrite !elem_of_cons in Hr.
    destruct Hr as [->|[->|[->|[->|[->|Hr%elem_of_nil]]]]]; [..|done]; cbn [interrupted];
      rewrite Hr3 by done; cbn; rewrite Hr2, Hr1 by (done || (refine (bool_decide_eq_true_1 _ _); reflexivity));
      done.
Qed.

(** A handler that returns 42 for the context of the sample. *)
Definition answer (m : Machine) : Machine :=
  mkMachine (upd (regs m) RAX 0) (store (mem m) (regs m RDI) 42) (fpu m).

Lemma answer_handles c : handles answer c (ret c 42).
Proof.
  split.
  - intros m Hw. unfold SysCallCtx_words in *. apply words_cons in Hw as [_ Hw].
    apply words_cons. split; [cbn; unfold store; by rewrite decide_True|].
    eapply words_ext; [|exact Hw]. intros a Ha. cbn. unfold store. by rewrite decide_False by lia.
  - intros m r Hr. exact (proj1 (idle_call_ok m) r Hr).
  - intros m a Ha. cbn. unfold store. by rewrite decide_False by lia.
Qed.

Lemma syscall_stub_spec_witness :
  ctx_of (exec (syscall_stub answer) sample_machine) = ret (ctx_of sample_machine) 42.
Proof.
  exact (proj1 (syscall_stub_spec answer sample_machine _ 0x401000 0x33 0x202 0x7000 0x2b
                  eq_refl (answer_handles _))).
Defined.
