(* ===== verification/ThreadInit.v ===== *)
(** The life of a thread on its first stack: what [init_kernel_task] and
    [init_usr_task] (kernel/src/arch/x86/context/mod.rs) build, that
    [switch_and_apply] starts the thread from it, and how a kernel thread's
    function returns into the trampoline.  The routines and the machine are
    those of Context.v. *)
From S2P Require Import Prelude Abi Tasks Syscalls Context.
Open Scope Z_scope.

(** ** The first stack of a thread *)

(** The bytes [init_kernel_task] and [init_usr_task] may write below the top
    of the new stack. *)
Definition INIT_BYTES : Z := 800.

(** [n] words at [a] lie outside the part of the stack below [top] that is written. *)
Definition apart (top a n : Z) : Prop := a + 8 * n <= top - INIT_BYTES ∨ top <= a.

(** A stack under construction: the words [vs] are on it, memory outside its
    area is the memory of [m0], the registers outside [ch] are those of [m0]. *)
Record building (m0 : Machine) (top : Z) (ch : list reg) (vs : list Z) (m : Machine) : Prop := {
  bu_stk : stk m vs;
  bu_rsp : regs m RSP = top - 8 * zlen vs;
  bu_mem : ∀ a, a < top - INIT_BYTES ∨ top <= a → mem m a = mem m0 a;
  bu_regs : ∀ r, r ∉ RSP :: ch → regs m r = regs m0 r;
  bu_fpu : fpu m = fpu m0
}.

(** An operand that can be pushed, and its value. *)
Definition reads (m0 m : Machine) (top : Z) (ch : list reg) (o : operand) : Prop :=
  match o with
  | Reg r => r ≠ RSP
  | Imm _ => True
  | Mem b off => (b ∉ RSP :: ch) ∧ apart top (regs m0 b + off) 1
  end.

Definition read (m0 m : Machine) (o : operand) : Z :=
  match o with Mem b off => mem m0 (regs m0 b + off) | _ => opval m o end.

Lemma building_push m0 top ch vs m os :
  building m0 top ch vs m → Forall (reads m0 m top ch) os → 8 * (zlen vs + zlen os) <= INIT_BYTES →
  building m0 top ch (rev (read m0 m <$> os) ++ vs) (exec (Push <$> os) m).
Proof.
  intros [Hs Hr Hm Hg Hf] Hos Hlen.
  assert (Hp : pushed m (exec (Push <$> os) m) (rev (opval m <$> os))).
  { apply exec_pushes. eapply Forall_impl; [exact Hos|]. intros [r|n|b off]; [done|done|].
    intros [Hb Ha]. split; [set_solver|]. rewrite Hg by done. unfold apart in Ha. 
    pose proof (zlen_nonneg vs). pose proof (zlen_nonneg os). lia. }
  assert (Hv : opval m <$> os = read m0 m <$> os).
  { apply map_ext_in. intros o Hin%list_elem_of_In. rewrite Forall_forall in Hos.
    specialize (Hos o Hin). destruct o as [r|n|b off]; [done|done|]. destruct Hos as [Hb Ha].
    cbn. rewrite Hg by done. apply Hm. unfold apart in Ha. lia. }
  rewrite <- Hv. pose proof (pushed_stk _ _ _ _ Hp Hs) as Hst. destruct Hp as [H1 H2 H3 H4 H5].
  assert (Hl : zlen (rev (opval m <$> os)) = zlen os) by (unfold zlen; by rewrite length_rev, length_fmap).
  rewrite Hl in *. pose proof (zlen_nonneg vs). pose proof (zlen_nonneg os). split.
  - done.
  - rewrite H1, zlen_app, Hl, Hr. lia.
  - intros a Ha. rewrite H5 by lia. by apply Hm.
  - intros r Hn. rewrite H2 by set_solver. by apply Hg.
  - by rewrite H3.
Qed.

Lemma building_mov m0 top ch vs m r o :
  building m0 top ch vs m → r ≠ RSP → r ∈ ch → building m0 top ch vs (exec [Mov r o] m).
Proof.
  intros [Hs Hr Hm Hg Hf] Hne Hin. split; try done.
  - unfold stk. cbn. rewrite upd_ne by done. exact Hs.
  - cbn. by rewrite upd_ne.
  - intros r' Hn. cbn. rewrite upd_ne by set_solver. by apply Hg.
Qed.

Lemma building_weaken m0 top ch ch' vs m :
  building m0 top ch vs m → ch ⊆ ch' → building m0 top ch' vs m.
Proof. intros [Hs Hr Hm Hg Hf] Hsub. split; try done. intros r Hr'. apply Hg. set_solver. Qed.

(** The registers a new thread starts with. *)
Definition start_regs (rip cs rflags sp ss cr3 : Z) (a0 a1 a2 a3 a4 a5 : Z) (r : reg) : Z :=
  match r with
  | RIP => rip | CS => cs | RFLAGS => rflags | RSP => sp | SS => ss | CR3 => cr3
  | RDI => a0 | RSI => a1 | RDX => a2 | RCX => a3 | R8 => a4 | R9 => a5
  | _ => 0
  end.

(** The end of both routines: the floating-point state is saved, the caller's
    stack pointer restored from [rax], the new one returned in [rax]. *)
Definition finish : list instr :=
  push_fpu ++ [Mov RSI (Reg RSP); Mov RSP (Reg RAX); Mov RAX (Reg RSI); Ret_].

Lemma finish_spec m0 top ch c l m ra :
  building m0 top ch (ctx_words c ++ l) m → length (fpu m0) = 64%nat →
  8 * (21 + zlen l) + 552 <= INIT_BYTES →
  mem m0 (regs m RAX) = ra → apart top (regs m RAX) 1 →
  let m' := exec finish m in
  saved (mem m') (regs m' RAX) c (fpu m0) ∧ words (mem m') (top - 8 * zlen l) l ∧
  regs m' RIP = ra ∧ regs m' RSP = regs m RAX + 8 ∧
  (∀ a, a < top - INIT_BYTES ∨ top <= a → mem m' a = mem m0 a) ∧
  regs m' RAX <= top - 8 * zlen l ∧
  (∀ r, r ∉ ([RSP; RSI; RAX; R9; RIP] ++ ch) → regs m' r = regs m0 r).
Proof.
  intros [Hs Hr Hm Hg Hf] Hl Hlen Hra Hap. cbv zeta. unfold finish. rewrite exec_app.
  destruct (push_fpu_spec m ltac:(by rewrite Hf)) as [H1 H2 H3 Ho H4 H5 H6 H7 H8].
  set (m1 := exec push_fpu m) in *. clearbody m1. rewrite Hf in H2.
  set (m' := exec _ m1).
  assert (E1 : mem m' = mem m1 ∧ regs m' RAX = regs m1 RSP ∧
               regs m' RIP = mem m1 (regs m1 RAX) ∧ regs m' RSP = regs m1 RAX + 8) by done.
  assert (E2 : ∀ r, r ∉ [RSP; RSI; RAX; RIP] → regs m' r = regs m1 r).
  { intros r Hr'. rewrite !not_elem_of_cons in Hr'. destruct Hr' as (? & ? & ? & ? & _).
    cbn. by rewrite !upd_ne by congruence. }
  clearbody m'. destruct E1 as (Em & Eax & Eip & Esp).
  assert (Hlen' : regs m RSP = top - 8 * (21 + zlen l)).
  { rewrite Hr, zlen_app. unfold zlen at 1. done. }
  assert (Hm1 : ∀ a, a < top - INIT_BYTES ∨ top <= a → mem m1 a = mem m0 a).
  { intros a Ha. pose proof (zlen_nonneg l). destruct Ha as [Ha|Ha].
    - rewrite Ho by lia. apply Hm. lia.
    - rewrite H3 by lia. apply Hm. lia. }
  assert (Hst1 : words (mem m1) (regs m RSP) (ctx_words c ++ l)).
  { eapply words_ext; [|exact Hs]. intros a Ha. symmetry. apply H3. lia. }
  apply words_app in Hst1 as [Hc1 Hl1].
  assert (Hax : regs m1 RAX = regs m RAX) by (by rewrite H8).
  rewrite Em, Eax. split_and!; [split_and!; [done|done|]|..].
  - exists (regs m RSP). split_and!; [done|lia|done].
  - unfold ctx_words in Hl1. rewrite Hlen' in Hl1. unfold zlen at 2 in Hl1. cbn [length app frame_words] in Hl1.
    by replace (top - 8 * (21 + zlen l) + 8 * Z.of_nat 21) with (top - 8 * zlen l) in Hl1 by lia.
  - rewrite Eip, Hax, Hm1; [done|]. unfold apart in Hap. lia.
  - by rewrite Esp, Hax.
  - done.
  - lia.
  - intros r Hr'. rewrite E2, H8, Hg by set_solver. done.
Qed.

(** The call of [init_kernel_task] or [init_usr_task]: the task's description
    of [n] words in [rdi], the exit information in [rsi], the six argument
    registers in [rdx], the return address on the caller's stack, and none of
    it in the stack that is built. *)
Record init_call (m : Machine) (top : Z) (info : list Z) (trampoline : Z) (args : list Z) (ra : Z) : Prop := {
  ic_info : words (mem m) (regs m RDI) info;
  ic_exit : mem m (regs m RSI) = trampoline;
  ic_args : words (mem m) (regs m RDX) args;
  ic_ra : mem m (regs m RSP) = ra;
  ic_fpu : length (fpu m) = 64%nat;
  ic_info_apart : apart top (regs m RDI) (zlen info);
  ic_exit_apart : apart top (regs m RSI) 1;
  ic_args_apart : apart top (regs m RDX) (zlen args);
  ic_ra_apart : apart top (regs m RSP) 1
}.

(** The words of the description and of the arguments, by offset. *)
Lemma words_at f a l off v :
  words f a l → off mod 8 = 0 → 0 <= off → l !! Z.to_nat (off / 8) = Some v → f (a + off) = v.
Proof.
  intros Hw Hm Ho Hv. pose proof (words_lookup _ _ _ _ _ Hw Hv) as H.
  rewrite Z2Nat.id in H by (apply Z.div_pos; lia).
  pose proof (Z.div_mod off 8 ltac:(lia)) as Hd. rewrite Hm in Hd.
  by replace (8 * (off / 8)) with off in H by lia.
Qed.

Lemma apart_at top a n off : apart top a n → 0 <= off → off + 8 <= 8 * n → apart top (a + off) 1.
Proof. unfold apart. lia. Qed.

(** The side conditions of [building_push] on the operands of both routines. *)
Ltac reads_tac :=
  repeat apply Forall_cons_2; [..|apply Forall_nil_2];
  first [done | split;
    [refine (bool_decide_eq_false_1 _ _); reflexivity
    |eapply apart_at; [eassumption|lia|unfold zlen; simpl; lia]]].

(** The interrupt frame and the context, common to both routines but for the
    page table between them. *)
Definition frame_ops : list operand :=
  [Mem RDI 32; Reg R8; Mem RDI 24; Mem RDI 16; Mem RDI 0; Imm 0; Imm 0; Mem RDX 0;
   Mem RDX 8; Mem RDX 16; Mem RDX 24; Imm 0].

Definition rest_ops : list operand :=
  [Imm 0; Imm 0; Imm 0; Imm 0; Imm 0; Imm 0; Mem RDX 40; Mem RDX 32].

Section parts.
Context (m0 : Machine) (top : Z) (rip u cs rflags ss : Z) (more : list Z) (a0 a1 a2 a3 a4 a5 : Z).
Context (Hi : words (mem m0) (regs m0 RDI) (rip :: u :: cs :: rflags :: ss :: more)).
Context (Ha : words (mem m0) (regs m0 RDX) [a0; a1; a2; a3; a4; a5]).
Context (Ai : apart top (regs m0 RDI) (zlen (rip :: u :: cs :: rflags :: ss :: more))).
Context (Aa : apart top (regs m0 RDX) (zlen [a0; a1; a2; a3; a4; a5])).

Lemma frame_part ch l m :
  building m0 top ch l m → ch ⊆ [RAX; R8; R9; RSI; RIP] → zlen l <= 4 →
  building m0 top ch
    ([0; a3; a2; a1; a0; 0; 0; rip; cs; rflags; regs m R8; ss] ++ l)
    (exec (Push <$> frame_ops) m).
Proof.
  intros B Hch Hl.
  eapply building_push with (os := frame_ops) in B.
  - cbn [frame_ops fmap list_fmap rev app read opval] in B.
    by rewrite (words_at _ _ _ 32 ss Hi), (words_at _ _ _ 24 rflags Hi), (words_at _ _ _ 16 cs Hi),
      (words_at _ _ _ 0 rip Hi), (words_at _ _ _ 0 a0 Ha), (words_at _ _ _ 8 a1 Ha),
      (words_at _ _ _ 16 a2 Ha), (words_at _ _ _ 24 a3 Ha) in B by done.
  - assert ((RDI ∉ RSP :: ch) ∧ (RDX ∉ RSP :: ch)) as [Hdi Hdx] by set_solver.
    unfold frame_ops. repeat apply Forall_cons_2; [..|apply Forall_nil_2];
      first [done | split; [done|eapply apart_at; [eassumption|lia|unfold zlen; simpl; lia]]].
  - unfold INIT_BYTES, zlen at 2. simpl. lia.
Qed.

Lemma rest_part ch l m :
  building m0 top ch l m → ch ⊆ [RAX; R8; R9; RSI; RIP] → zlen l <= 20 →
  building m0 top ch ([a4; a5; 0; 0; 0; 0; 0; 0] ++ l) (exec (Push <$> rest_ops) m).
Proof.
  intros B Hch Hl.
  eapply building_push with (os := rest_ops) in B.
  - cbn [rest_ops fmap list_fmap rev app read opval] in B.
    by rewrite (words_at _ _ _ 32 a4 Ha), (words_at _ _ _ 40 a5 Ha) in B by done.
  - assert (RDX ∉ RSP :: ch) as Hdx by set_solver.
    unfold rest_ops. repeat apply Forall_cons_2; [..|apply Forall_nil_2];
      first [done | split; [done|eapply apart_at; [eassumption|lia|unfold zlen; simpl; lia]]].
  - unfold INIT_BYTES, zlen at 2. simpl. lia.
Qed.
End parts.

(** The switch to the new stack. *)
Lemma switch_stack m off top_ :
  mem m (regs m RDI + off) = top_ →
  let top := Z.land top_ (-16) in
  let m0 := exec [Mov RAX (Reg RSP); Mov RSP (Mem RDI off); And RSP (-16)] m in
  building m0 top [] [] m0 ∧ regs m0 RAX = regs m RSP ∧ mem m0 = mem m ∧ fpu m0 = fpu m ∧
  (∀ r, r ∉ [RSP; RAX] → regs m0 r = regs m r).
Proof.
  intros Ht top m0.
  assert (S0 : regs m0 RSP = top) by (cbn; by rewrite Ht).
  split_and!; try done.
  - split; try done. rewrite S0. unfold zlen. simpl. lia.
  - intros r Hr. rewrite !not_elem_of_cons in Hr. destruct Hr as (? & ? & _).
    cbn. by rewrite !upd_ne by congruence.
Qed.

Lemma reg_out (r : reg) (l : list reg) : bool_decide (r ∈ l) = false → r ∉ l.
Proof. apply bool_decide_eq_false_1. Qed.

(** The return path of a thread at the top of its kernel stack. *)
Lemma exit_part m0 top m :
  building m0 top [] [] m → apart top (regs m0 RSI) 1 →
  building m0 top [] [regs m0 RSI; mem m0 (regs m0 RSI); 0] (exec (Push <$> [Imm 0; Mem RSI 0; Reg RSI]) m).
Proof.
  intros B Ae. pose proof (bu_regs _ _ _ _ _ B RSI ltac:(by apply reg_out)) as Hsi.
  eapply building_push with (os := [Imm 0; Mem RSI 0; Reg RSI]) in B.
  - cbn [fmap list_fmap rev app read opval] in B. by rewrite Z.add_0_r, Hsi in B.
  - repeat apply Forall_cons_2; [..|apply Forall_nil_2]; try done. split; [by apply reg_out|].
    by rewrite Z.add_0_r.
  - done.
Qed.

Lemma init_kernel_task_split stub :
  init_kernel_task stub =
    [Mov RAX (Reg RSP); Mov RSP (Mem RDI 8); And RSP (-16)]
    ++ (Push <$> [Imm 0; Mem RSI 0; Reg RSI]) ++ [Mov R8 (Imm stub)] ++ (Push <$> [Reg R8])
    ++ [Mov R8 (Reg RSP)] ++ (Push <$> frame_ops)
    ++ [Mov RSI (Reg CR3)] ++ (Push <$> [Reg RSI]) ++ (Push <$> rest_ops) ++ finish.
Proof. reflexivity. Qed.

(** What both routines leave: the saved thread, its words above, the caller's
    machine. *)
Record initialised (m m' : Machine) (top sp : Z) (c : reg → Z) (above : list Z) (ra : Z) : Prop := {
  in_saved : saved (mem m') (regs m' RAX) c (fpu m);
  in_above : words (mem m') sp above;
  in_rip : regs m' RIP = ra;
  in_rsp : regs m' RSP = regs m RSP + 8;
  in_mem : ∀ a, a < top - INIT_BYTES ∨ top <= a → mem m' a = mem m a;
  in_low : regs m' RAX <= sp;
  in_regs : ∀ r, r ∈ [RBX; RBP; R12; R13; R14; R15; CR3; CS; SS; RFLAGS] → regs m' r = regs m r
}.

Lemma init_kernel_spec stub info trampoline a0 a1 a2 a3 a4 a5 ra m :
  let top := Z.land (k_kstack_top info) (-16) in
  init_call m top (KTaskInfo_words info) trampoline [a0; a1; a2; a3; a4; a5] ra →
  initialised m (exec (init_kernel_task stub) m) top (top - 32)
    (start_regs (k_rip info) (k_cs info) (k_rflags info) (top - 32) (k_ss info) (regs m CR3)
       a0 a1 a2 a3 a4 a5)
    [stub; regs m RSI; trampoline; 0] ra.
Proof.
  intros top [Hi He Ha Hra Hf Ai Ae Aa Ar]. rewrite init_kernel_task_split, !exec_app.
  destruct (switch_stack m 8 (k_kstack_top info)) as (B & X0 & M0 & F0 & R0).
  { by eapply words_at. }
  fold top in B. set (m0 := exec [_; _; _] m) in *. clearbody m0.
  pose proof (R0 RSI ltac:(by apply reg_out)) as Gsi. pose proof (R0 RDI ltac:(by apply reg_out)) as Gdi.
  pose proof (R0 RDX ltac:(by apply reg_out)) as Gdx. pose proof (R0 CR3 ltac:(by apply reg_out)) as Gcr.
  rewrite <- Gdi in Ai, Hi. rewrite <- Gsi in Ae, He |- *. rewrite <- Gdx in Aa, Ha. rewrite <- M0 in *.
  apply exit_part in B; [|done]. set (m1 := exec _ m0) in *. clearbody m1. rewrite He in B.
  apply (building_weaken _ _ _ [R8; RSI]) in B; [|set_solver].
  apply (building_mov _ _ _ _ _ R8 (Imm stub)) in B; [|done|set_solver].
  set (m2 := exec _ m1) in *. assert (E2 : regs m2 R8 = stub) by done. clearbody m2.
  eapply building_push with (os := [Reg R8]) in B; [|reads_tac|done].
  set (m3 := exec _ m2) in *. clearbody m3. cbn [fmap list_fmap rev app read opval] in B. rewrite E2 in B.
  apply (building_mov _ _ _ _ _ R8 (Reg RSP)) in B; [|done|set_solver].
  set (m4 := exec _ m3) in *. assert (E4 : regs m4 R8 = regs m4 RSP) by done. clearbody m4.
  rewrite (bu_rsp _ _ _ _ _ B) in E4. change (8 * zlen _) with 32 in E4.
  eapply (frame_part m0 top _ _ _ _ _ _ _ _ _ _ _ _ Hi Ha Ai Aa) in B; [|set_solver|done].
  set (m5 := exec _ m4) in *. clearbody m5. rewrite E4 in B.
  pose proof (bu_regs _ _ _ _ _ B CR3 ltac:(by apply reg_out)) as E5.
  apply (building_mov _ _ _ _ _ RSI (Reg CR3)) in B; [|done|set_solver].
  set (m6 := exec _ m5) in *. assert (E6 : regs m6 RSI = regs m5 CR3) by done. clearbody m6.
  rewrite E5, Gcr in E6.
  eapply building_push with (os := [Reg RSI]) in B; [|reads_tac|done].
  set (m7 := exec _ m6) in *. clearbody m7. cbn [fmap list_fmap rev app read opval] in B. rewrite E6 in B.
  eapply (rest_part m0 top _ _ _ _ _ _ _ _ _ _ _ _ Hi Ha Ai Aa) in B; [|set_solver|done].
  set (m8 := exec _ m7) in *. clearbody m8.
  assert (E8 : regs m8 RAX = regs m RSP).
  { by rewrite (bu_regs _ _ _ _ _ B RAX ltac:(by apply reg_out)). }
  set (c := start_regs _ _ _ _ _ _ _ _ _ _ _ _).
  destruct (finish_spec m0 top _ c [stub; regs m0 RSI; trampoline; 0] m8 ra B) as (Q1 & Q2 & Q3 & Q4 & Q5 & Q6 & Q7);
    [by rewrite F0|done|by rewrite E8|by rewrite E8|].
  set (m9 := exec _ m8) in *. clearbody m9. rewrite F0 in Q1. split; try done.
  - by rewrite Q4, E8.
  - by rewrite <- M0.
  - intros r Hr. rewrite Q7, R0; [done|set_solver..].
Qed.

Lemma init_usr_task_split stub after :
  init_usr_task stub after =
    [Mov RAX (Reg RSP); Mov RSP (Mem RDI 48); And RSP (-16)]
    ++ (Push <$> [Imm 0; Mem RSI 0; Reg RSI]) ++ ((Push <$> [Imm after]) ++ setup_usr_stack)
    ++ [Mov R9 (Imm stub)] ++ (Push <$> [Reg R9]) ++ (Push <$> frame_ops)
    ++ (Push <$> [Mem RDI 40]) ++ (Push <$> rest_ops) ++ finish.
Proof. reflexivity. Qed.

Lemma setup_part m0 top vs m after ustack :
  building m0 top [] vs m → 8 * (zlen vs + 1) <= INIT_BYTES →
  apart top (regs m0 RDI + 8) 1 → mem m0 (regs m0 RDI + 8) = ustack →
  let m' := exec ((Push <$> [Imm after]) ++ setup_usr_stack) m in
  building m0 top [R8; R9; RIP] vs m' ∧ regs m' R8 = Z.land ustack (-16) - 8.
Proof.
  intros B Hl Ha Hu. cbv zeta. rewrite exec_app.
  eapply building_push with (os := [Imm after]) in B; [|reads_tac|done].
  set (m1 := exec _ m) in *. clearbody m1. cbn [fmap list_fmap rev app read opval] in B.
  destruct B as [Hs Hr Hm Hg Hf]. pose proof (Hg RDI ltac:(by apply reg_out)) as Gdi.
  assert (Hrd : mem m1 (regs m1 RDI + 8) = ustack).
  { rewrite Gdi, Hm; [done|]. unfold apart in Ha. lia. }
  assert (E : regs (exec setup_usr_stack m1) RSP = regs m1 RSP + 8) by done.
  split; [split|].
  - unfold stk. rewrite E. by apply words_cons in Hs as [_ Hs].
  - rewrite E, Hr. unfold zlen. cbn [length]. lia.
  - intros a H1. rewrite <- Hm by done. done.
  - intros r Hr'. rewrite !not_elem_of_cons in Hr'. destruct Hr' as (? & ? & ? & ? & _).
    cbn. rewrite !upd_ne by congruence. apply Hg. set_solver.
  - done.
  - cbn. by rewrite Hrd.
Qed.

Lemma init_usr_spec stub after info trampoline a0 a1 a2 a3 a4 a5 ra m :
  let top := Z.land (u_kstack_top info) (-16) in
  init_call m top (UsrTaskInfo_words info) trampoline [a0; a1; a2; a3; a4; a5] ra →
  initialised m (exec (init_usr_task stub after) m) top (top - 32)
    (start_regs (u_rip info) (u_cs info) (u_rflags info) (Z.land (usr_stack_top info) (-16) - 8)
       (u_ss info) (u_cr3 info) a0 a1 a2 a3 a4 a5)
    [stub; regs m RSI; trampoline; 0] ra.
Proof.
  intros top [Hi He Ha Hra Hf Ai Ae Aa Ar]. rewrite init_usr_task_split.
  rewrite exec_app, (exec_app (Push <$> [Imm 0; Mem RSI 0; Reg RSI])),
    (exec_app ((Push <$> [Imm after]) ++ setup_usr_stack)), !exec_app.
  destruct (switch_stack m 48 (u_kstack_top info)) as (B & X0 & M0 & F0 & R0).
  { by eapply words_at. }
  fold top in B. set (m0 := exec [_; _; _] m) in *. clearbody m0.
  pose proof (R0 RSI ltac:(by apply reg_out)) as Gsi. pose proof (R0 RDI ltac:(by apply reg_out)) as Gdi.
  pose proof (R0 RDX ltac:(by apply reg_out)) as Gdx.
  rewrite <- Gdi in Ai, Hi. rewrite <- Gsi in Ae, He |- *. rewrite <- Gdx in Aa, Ha. rewrite <- M0 in *.
  apply exit_part in B; [|done]. set (m1 := exec _ m0) in *. clearbody m1. rewrite He in B.
  destruct (setup_part m0 top _ m1 after (usr_stack_top info) B) as [B2 E2];
    [done|by eapply apart_at|by eapply words_at|]. clear B. rewrite exec_app in B2, E2.
  set (m2 := exec setup_usr_stack _) in *. clearbody m2.
  apply (building_mov _ _ _ _ _ R9 (Imm stub)) in B2; [|done|set_solver].
  set (m3 := exec _ m2) in *. assert (E3 : regs m3 R9 = stub ∧ regs m3 R8 = regs m2 R8) by done.
  clearbody m3. destruct E3 as [E3 E3'].
  pose proof (exec_push_regs [R9] m3 eq_refl) as Hp4.
  eapply building_push with (os := [Reg R9]) in B2; [|reads_tac|done].
  change (Push <$> [Reg R9]) with (Push <$> (Reg <$> [R9])) in *.
  set (m4 := exec _ m3) in *. clearbody m4. cbn [fmap list_fmap rev app read opval] in B2. rewrite E3 in B2.
  pose proof (pu_regs _ _ _ Hp4 R8 ltac:(done)) as E4. rewrite E3', E2 in E4.
  eapply (frame_part m0 top _ _ _ _ _ _ _ _ _ _ _ _ Hi Ha Ai Aa) in B2; [|set_solver|done].
  set (m5 := exec _ m4) in *. clearbody m5. rewrite E4 in B2.
  eapply building_push with (os := [Mem RDI 40]) in B2; [|reads_tac|done].
  set (m6 := exec _ m5) in *. clearbody m6. cbn [fmap list_fmap rev app read opval] in B2.
  rewrite (words_at _ _ _ 40 (u_cr3 info) Hi) in B2 by done.
  eapply (rest_part m0 top _ _ _ _ _ _ _ _ _ _ _ _ Hi Ha Ai Aa) in B2; [|set_solver|done].
  set (m8 := exec _ m6) in *. clearbody m8.
  assert (E8 : regs m8 RAX = regs m RSP).
  { by rewrite (bu_regs _ _ _ _ _ B2 RAX ltac:(by apply reg_out)). }
  set (c := start_regs _ _ _ _ _ _ _ _ _ _ _ _).
  destruct (finish_spec m0 top _ c [stub; regs m0 RSI; trampoline; 0] m8 ra B2) as (Q1 & Q2 & Q3 & Q4 & Q5 & Q6 & Q7);
    [by rewrite F0|done|by rewrite E8|by rewrite E8|].
  set (m9 := exec _ m8) in *. clearbody m9. rewrite F0 in Q1. split; try done.
  - by rewrite Q4, E8.
  - by rewrite <- M0.
  - intros r Hr. rewrite Q7, R0; [done|set_solver..].
Qed.

Lemma land16_bounds x : x - 16 < Z.land x (-16) <= x ∧ Z.land x (-16) mod 16 = 0.
Proof.
  rewrite land_m16. pose proof (Z.mod_pos_bound x 16 ltac:(lia)). split; [lia|].
  by rewrite Zminus_mod, Zmod_mod, Z.sub_diag.
Qed.

(** The words a finished thread returns through. *)
Lemma return_path m sp stub exit trampoline v :
  regs m RSP = sp → words (mem m) sp [stub; exit; trampoline; 0] → regs m RAX = v →
  let m1 := exec [Ret_] m in
  let m2 := exec trampoline_stub m1 in
  regs m1 RIP = stub ∧ regs m2 RIP = trampoline ∧ regs m2 RDI = v ∧ regs m2 RSI = exit ∧
  mem m2 (regs m2 RSP) = 0.
Proof.
  intros <- Hw Hv. rewrite !words_cons in Hw. destruct Hw as (H0 & H1 & H2 & H3 & _).
  by cbn; rewrite H0, H1, H2, H3, Hv.
Qed.

(** C26: a kernel thread that [init_kernel_task] set up and [switch_and_apply]
    enters runs its entry function with its six arguments in the registers of
    the calling convention, with the flags and segments of its description,
    the page table of its creator and its own stack; the routine itself
    returns to its caller with the caller's stack and registers.  When the
    entry function returns the value [v], the stub at the top of the stack
    calls the trampoline of the exit information with [v] and that
    information as arguments. *)
Theorem kernel_thread_life stub info trampoline a0 a1 a2 a3 a4 a5 ra m end_interrupt m2 m4 v :
  let top := Z.land (k_kstack_top info) (-16) in
  let sp := top - 32 in
  init_call m top (KTaskInfo_words info) trampoline [a0; a1; a2; a3; a4; a5] ra →
  call_ok end_interrupt →
  let m1 := exec (init_kernel_task stub) m in
  regs m2 RDI = regs m1 RAX → (∀ a, regs m1 RAX <= a → mem m2 a = mem m1 a) →
  let m3 := exec (switch_and_apply end_interrupt) m2 in
  regs m4 RSP = sp → regs m4 RAX = v → (∀ a, sp <= a < top → mem m4 a = mem m3 a) →
  let m5 := exec [Ret_] m4 in
  let m6 := exec trampoline_stub m5 in
  (regs m1 RIP = ra ∧ regs m1 RSP = regs m RSP + 8 ∧
   ∀ r, r ∈ [RBX; RBP; R12; R13; R14; R15; CR3; CS; SS; RFLAGS] → regs m1 r = regs m r) ∧
  (∀ r, regs m3 r = start_regs (k_rip info) (k_cs info) (k_rflags info) sp (k_ss info)
                      (regs m CR3) a0 a1 a2 a3 a4 a5 r) ∧
  regs m5 RIP = stub ∧ regs m6 RIP = trampoline ∧ regs m6 RDI = v ∧ regs m6 RSI = regs m RSI.
Proof.
  intros top sp Hcall Hc. destruct (init_kernel_spec stub info trampoline _ _ _ _ _ _ ra m Hcall)
    as [Q1 Q2 Q3 Q4 Q5 Q6 Q7]. fold top in Q1, Q2, Q6. fold sp in Q1, Q2, Q6.
  cbv zeta. set (m1 := exec (init_kernel_task stub) m) in *. clearbody m1. intros Hk Hm Hsp Hv.
  destruct (switch_resumes m2 end_interrupt _ _ Hc ltac:(rewrite Hk; by eapply saved_ext))
    as (Hr & _ & Hm3). set (m3 := exec (switch_and_apply end_interrupt) m2) in *. clearbody m3.
  intros Hm4. destruct (return_path m4 sp stub (regs m RSI) trampoline v Hsp) as (P1 & P2 & P3 & P4 & _).
  { eapply words_ext; [|exact Q2]. unfold zlen. cbn [length]. intros a Ha. symmetry.
    rewrite Hm4, Hm3, Hm by lia. done. }
  { done. }
  split_and!; done.
Qed.

(** C27: a user thread starts at its entry point in user mode with its
    arguments in the registers, its own page table and its own user stack,
    whose pointer is where the calling convention wants it at a function's
    entry (8 below a multiple of 16) and at most 24 bytes below the top it
    was given; the routine returns to its caller with the caller's registers,
    and writes nothing outside the new kernel stack. *)
Theorem user_thread_starts stub after info trampoline a0 a1 a2 a3 a4 a5 ra m end_interrupt m2 :
  let top := Z.land (u_kstack_top info) (-16) in
  let sp := Z.land (usr_stack_top info) (-16) - 8 in
  init_call m top (UsrTaskInfo_words info) trampoline [a0; a1; a2; a3; a4; a5] ra →
  call_ok end_interrupt →
  let m1 := exec (init_usr_task stub after) m in
  regs m2 RDI = regs m1 RAX → (∀ a, regs m1 RAX <= a → mem m2 a = mem m1 a) →
  let m3 := exec (switch_and_apply end_interrupt) m2 in
  (regs m1 RIP = ra ∧ regs m1 RSP = regs m RSP + 8 ∧
   (∀ r, r ∈ [RBX; RBP; R12; R13; R14; R15; CR3; CS; SS; RFLAGS] → regs m1 r = regs m r) ∧
   ∀ a, a < top - INIT_BYTES ∨ top <= a → mem m1 a = mem m a) ∧
  (∀ r, regs m3 r = start_regs (u_rip info) (u_cs info) (u_rflags info) sp (u_ss info)
                      (u_cr3 info) a0 a1 a2 a3 a4 a5 r) ∧
  sp mod 16 = 8 ∧ usr_stack_top info - 24 < sp < usr_stack_top info.
Proof.
  intros top sp Hcall Hc.
  destruct (init_usr_spec stub after info trampoline _ _ _ _ _ _ ra m Hcall) as [Q1 Q2 Q3 Q4 Q5 Q6 Q7].
  fold top in Q1, Q2, Q5, Q6. fold sp in Q1.
  cbv zeta. set (m1 := exec (init_usr_task stub after) m) in *. clearbody m1. intros Hk Hm.
  destruct (switch_resumes m2 end_interrupt _ _ Hc ltac:(rewrite Hk; by eapply saved_ext))
    as (Hr & _ & _). set (m3 := exec (switch_and_apply end_interrupt) m2) in *. clearbody m3.
  destruct (land16_bounds (usr_stack_top info)) as [Hb Hmod].
  split; [split_and!; done|]. split; [done|]. unfold sp. split; [|lia].
  rewrite Zminus_mod, Hmod. done.
Qed.

(** A kernel thread, by contrast, is entered on a multiple of 16. *)
Lemma kernel_entry_alignment info : (Z.land (k_kstack_top info) (-16) - 32) mod 16 = 0.
Proof. destruct (land16_bounds (k_kstack_top info)) as [_ Hm]. by rewrite Zminus_mod, Hm. Qed.

(** A call of the routines: the description at 100, the exit information at
    300, the arguments at 400, the caller's stack at 600. *)
Definition init_sample (info : list Z) : Machine :=
  mkMachine
    (λ r, match r with RDI => 100 | RSI => 300 | RDX => 400 | RSP => 600 | CR3 => 0x3000 | _ => 7 end)
    (store_words (store_words (store_words (store_words (λ _, 0) 600 [0x9000]) 400 [1; 2; 3; 4; 5; 6])
       300 [0xa000]) 100 info)
    (replicate 64 0).

Definition ksample : KTaskInfo := KTaskInfo_new 0x401000 8008 (0x8, 0x10) 0x1000.
Definition usample : UsrTaskInfo := UsrTaskInfo_new 0x401000 8008 0x7ff8 0x5000 (0x33, 0x2b) (0x8, 0x10).

Lemma init_sample_call info :
  (length info <= 25)%nat →
  init_call (init_sample info) 8000 info 0xa000 [1; 2; 3; 4; 5; 6] 0x9000.
Proof.
  intros Hl. assert (Hz : 0 <= zlen info <= 25) by (unfold zlen; lia).
  split; unfold apart, INIT_BYTES; cbn [regs init_sample]; try done; try lia;
    try (unfold zlen; cbn [length]; lia).
  - apply store_words_in.
  - cbn [mem init_sample]. rewrite store_words_out by lia. done.
  - eapply words_ext; [|apply store_words_in]. intros a Ha. cbn [mem init_sample]. symmetry.
    unfold zlen in Ha. cbn [length] in Ha.
    rewrite store_words_out by lia. rewrite store_words_out by (unfold zlen; cbn [length]; lia). done.
  - cbn [mem init_sample]. rewrite store_words_out by lia. done.
Qed.

(** The thread's function returned [v] with its stack pointer at [sp]. *)
Definition returned (m : Machine) (sp v : Z) : Machine :=
  mkMachine (upd (upd (regs m) RSP sp) RAX v) (mem m) (fpu m).

Lemma returned_spec m sp v : regs (returned m sp v) RSP = sp ∧ regs (returned m sp v) RAX = v.
Proof. split; [|apply upd_eq]. cbn [regs returned]. by rewrite upd_ne, upd_eq by done. Qed.

Lemma returned_mem m sp v a : mem (returned m sp v) a = mem m a.
Proof. reflexivity. Qed.

(** [resumer] for a thread whose stack pointer is returned in [rax]. *)
Definition starter (m1 : Machine) : Machine :=
  mkMachine (upd (λ _, 99) RDI (regs m1 RAX)) (mem m1) [].

Lemma starter_spec m1 : regs (starter m1) RDI = regs m1 RAX ∧ ∀ a, mem (starter m1) a = mem m1 a.
Proof. split; [|done]. apply upd_eq. Qed.

Lemma kernel_thread_life_witness :
  let m1 := exec (init_kernel_task 0xb000) (init_sample (KTaskInfo_words ksample)) in
  let m3 := exec (switch_and_apply idle_call) (starter m1) in
  regs m3 RIP = 0x401000 ∧ regs m3 RDX = 3 ∧
  regs (exec trampoline_stub (exec [Ret_] (returned m3 7968 17))) RDI = 17.
Proof.
  intros m1 m3.
  destruct (kernel_thread_life 0xb000 ksample 0xa000 1 2 3 4 5 6 0x9000
              (init_sample (KTaskInfo_words ksample)) idle_call (starter m1) (returned m3 7968 17) 17
              (init_sample_call (KTaskInfo_words ksample) ltac:(cbn; lia)) idle_call_ok
              (proj1 (starter_spec _)) (λ a _, proj2 (starter_spec _) a)
              (proj1 (returned_spec _ _ _)) (proj2 (returned_spec _ _ _)) (λ a _, returned_mem _ _ _ a))
    as (_ & Hr & _ & _ & Hv & _).
  split; [exact (Hr RIP)|]. split; [exact (Hr RDX)|exact Hv].
Defined.

Lemma user_thread_starts_witness :
  let m1 := exec (init_usr_task 0xb000 0xc000) (init_sample (UsrTaskInfo_words usample)) in
  let m3 := exec (switch_and_apply idle_call) (starter m1) in
  regs m3 RIP = 0x401000 ∧ regs m3 RSP = 0x7fe8 ∧ regs m3 CR3 = 0x5000.
Proof.
  intros m1 m3.
  destruct (user_thread_starts 0xb000 0xc000 usample 0xa000 1 2 3 4 5 6 0x9000
              (init_sample (UsrTaskInfo_words usample)) idle_call (starter m1)
              (init_sample_call (UsrTaskInfo_words usample) ltac:(cbn; lia)) idle_call_ok
              (proj1 (starter_spec _)) (λ a _, proj2 (starter_spec _) a))
    as (_ & Hr & _).
  split; [exact (Hr RIP)|]. split; [exact (Hr RSP)|exact (Hr CR3)].
Defined.
