(* ===== verification/TaskBuild.v ===== *)
(** Building threads and processes: [Task], [TaskCore] and [TaskBuilder] of
    kernel/src/kernel/threading/task.rs, and [spawn], [thread_create] and the
    descriptor actions of [spawn_process]
    (kernel/src/kernel/abi/syscalls/funcs.rs).

    A core is an object in a store, shared by the threads of a process; a
    builder owns the task it builds and names its core.  What the assembly
    routines of Context.v return is an argument ([init_usr], [init_kernel]),
    as are the ELF parser, the table in [cr3] and the files [fs::open] finds. *)
From stdpp Require Import sorting.
From S2P Require Import Prelude Abi Fd RamFile Tasks Syscalls FrameAlloc Paging Mmap PageDir Elf Context.
Open Scope Z_scope.

(** ** Data *)

(** [ThreadingError]; the texts of [Unknown] are its cause. *)
Inductive UnknownCause : Set := CoreOwned | TableNotOwned | ElfNotParsed | ElfNotApplied.

Inductive ThreadingError : Set :=
| TStackNotBuilt | TStackNotFreed | TPageDirNotBuilt | TUnknown (why : UnknownCause).

Inductive PrivilegeLevel : Set := PKernel | PUser | PUnset.

(** [TaskCore]. *)
Record Core (P : Type) : Type := mkCore {
  c_pagedir : APageTable P;
  c_heap_size : Z;
  c_pid : ProcessID;
  c_pgrid : ProcessGroupID;
  c_fds : FDMap;
  c_next_free : Z;
  c_name : option str;
  c_parent : option ThreadID;
  c_state : TaskState;
  c_tidx : Z
}.
Arguments mkCore {P} _ _ _ _ _ _ _ _ _ _.
Arguments c_pagedir {P} _.
Arguments c_heap_size {P} _.
Arguments c_pid {P} _.
Arguments c_pgrid {P} _.
Arguments c_fds {P} _.
Arguments c_next_free {P} _.
Arguments c_name {P} _.
Arguments c_parent {P} _.
Arguments c_state {P} _.
Arguments c_tidx {P} _.

(** The kernel as far as builders use it: the task manager, the counters of
    [get_tid] and [next_pid], the kernel stacks with the kernel's table and
    the frame allocator, the cores, physical memory and the scheduler's queue. *)
Record Build (P A : Type) : Type := mkBuild {
  b_tm : TaskManager;
  b_tid : Z;
  b_pid : Z;
  b_stacks : StackState P A;
  b_cores : gmap Z (Core P);
  b_next : Z;
  b_mem : Z → u8;
  b_rr : LazyRoundRobin
}.
Arguments mkBuild {P A} _ _ _ _ _ _ _ _.
Arguments b_tm {P A} _.
Arguments b_tid {P A} _.
Arguments b_pid {P A} _.
Arguments b_stacks {P A} _.
Arguments b_cores {P A} _.
Arguments b_next {P A} _.
Arguments b_mem {P A} _.
Arguments b_rr {P A} _.

(** [TaskBuilder<Task, S>]: [inner] with its privilege and the trampoline of
    its exit information, the six argument registers. *)
Record TaskBuilder (S : Type) : Type := mkTaskBuilder {
  inner : Task;
  tb_privilege : PrivilegeLevel;
  tb_exit : Z;
  tb_entry : Z;
  tb_args : list Z;
  marker : S
}.
Arguments mkTaskBuilder {S} _ _ _ _ _ _.
Arguments inner {S} _.
Arguments tb_privilege {S} _.
Arguments tb_exit {S} _.
Arguments tb_entry {S} _.
Arguments tb_args {S} _.
Arguments marker {S} _.

(** [Init { elf_data }]. *)
Abbreviation Init := (option (list u8)).

(** [Arg], [Args]. *)
Definition Arg_default : Z := 0.
Definition Args_default : list Z := replicate 6 Arg_default.

(** [Args::get_mut(idx)] with the assignment through it. *)
Definition Args_set (args : list Z) (idx : nat) (v : Z) : Outcome (list Z) :=
  if decide (idx < length args)%nat then Ret (<[idx := v]> args) else Panic.

(** [args!]: the first six values, boxed, in order. *)
Definition args_macro (vals : list Z) : list Z := take 6 vals ++ replicate (6 - length vals) Arg_default.

(** Setters for the fields of the metadata. *)
Definition set_core (t : Task) (core : MaybeOwned Z) (pid : ProcessID) (pgrid : ProcessGroupID)
    (owns : bool) : Task :=
  mkTask (tid t) pid pgrid core (t_state t) (t_data t) (krsp t) (kernel_stack_top t)
    (user_stack_top t) (ursp t) owns.
Definition set_kstack (t : Task) (top : Z) : Task :=
  mkTask (tid t) (t_pid t) (t_pgrid t) (t_core t) (t_state t) (t_data t) top top
    (user_stack_top t) (ursp t) (owns_pagedir t).
Definition set_ustack (t : Task) (top : Z) : Task :=
  mkTask (tid t) (t_pid t) (t_pgrid t) (t_core t) (t_state t) (t_data t) (krsp t)
    (kernel_stack_top t) (Some top) (Some top) (owns_pagedir t).

Definition set_inner {S} (b : TaskBuilder S) (t : Task) : TaskBuilder S :=
  mkTaskBuilder t (tb_privilege b) (tb_exit b) (tb_entry b) (tb_args b) (marker b).

(** The entries of a descriptor table in key order. *)
Definition fd_le (x y : Z * ptr) : Prop := fst x <= fst y.

#[export] Instance fd_le_dec x y : Decision (fd_le x y).
Proof. unfold fd_le. apply _. Defined.

Definition in_order (t : FDMap) : list (Z * ptr) := merge_sort fd_le (map_to_list t).

(** ** Cores *)

Section Build.
Context {prof : Profile} {P A : Type} `{VirtOps} `{PageIncl} `{Mapper P A} `{FrameAllocator A}
  `{RootTable P} `{Hardware P}.
Context (hhdm phys_offset : Z) (user_sel kernel_sel : Z * Z) (kernel_root : Z).
Context (default_trampoline : Z).

Abbreviation State := (Build P A).
Abbreviation B := (M State ThreadingError).

Definition set_cores (s : State) (c : gmap Z (Core P)) : State :=
  mkBuild (b_tm s) (b_tid s) (b_pid s) (b_stacks s) c (b_next s) (b_mem s) (b_rr s).
Definition set_stacks (s : State) (k : StackState P A) : State :=
  mkBuild (b_tm s) (b_tid s) (b_pid s) k (b_cores s) (b_next s) (b_mem s) (b_rr s).
Definition set_bmem (s : State) (m : Z → u8) : State :=
  mkBuild (b_tm s) (b_tid s) (b_pid s) (b_stacks s) (b_cores s) (b_next s) m (b_rr s).

(** [TaskCore::new]: a process of its own group's next id; the first thread
    of the kernel has no current thread and gets the ids 0. *)
Definition TaskCore_new (s : State) : State * Core P :=
  let cur := current_thread (b_tm s) in
  let '(pgrid, pid, next_pid) :=
    match cur, current_pgr (b_tm s) with
    | Some current, Some _ => (t_pgrid current, b_pid s, wrap64 (b_pid s + 1))
    | _, _ => (0, 0, b_pid s)
    end in
  (mkBuild (b_tm s) (b_tid s) next_pid (b_stacks s) (b_cores s) (b_next s) (b_mem s) (b_rr s),
   mkCore GlobalTable 0 pid pgrid ∅ 0 None (tid <$> cur) Ready 1).

(** [Task::new]: metadata, then the core, which the task owns. *)
Definition Task_new (s : State) : State * Task :=
  let '(id, next_tid) := get_tid (b_tid s) in
  let s := mkBuild (b_tm s) next_tid (b_pid s) (b_stacks s) (b_cores s) (b_next s) (b_mem s) (b_rr s) in
  let '(s, c) := TaskCore_new s in
  let ptr := b_next s in
  (mkBuild (b_tm s) (b_tid s) (b_pid s) (b_stacks s) (<[ptr := c]> (b_cores s)) (ptr + 1) (b_mem s) (b_rr s),
   mkTask id (c_pid c) (c_pgrid c) (Owned ptr) TaskState_new DataNone 0 0 None None false).

(** The core of the task under construction, and an update of it. *)
Definition core_ref {S} (b : TaskBuilder S) : Z := deref (t_core (inner b)).

Definition with_core {S} (b : TaskBuilder S) (f : Core P → Core P) : B unit :=
  λ s, Ret (set_cores s (alter f (core_ref b) (b_cores s)), Ok tt).

Definition get_core {S} (b : TaskBuilder S) : B (Core P) :=
  λ s, match b_cores s !! core_ref b with Some c => Ret (s, Ok c) | None => Panic end.

(** ** Builders *)

Definition from_addr (addr : Z) : B (TaskBuilder Init) :=
  λ s, let '(s, t) := Task_new s in
       Ret (s, Ok (mkTaskBuilder t PUnset default_trampoline addr Args_default None)).

(** [VirtAddr::new(func as usize as u64)]. *)
Definition from_fn (func : Z) : B (TaskBuilder Init) :=
  λ s, let '(s, t) := Task_new s in
       let! e := va_new func in
       Ret (s, Ok (mkTaskBuilder t PUnset default_trampoline e Args_default None)).

Definition from_bytes (bytes : list u8) : B (TaskBuilder Init) :=
  λ s, let '(s, t) := Task_new s in
       Ret (s, Ok (mkTaskBuilder t PUnset default_trampoline 0 Args_default (Some bytes))).

Definition with_args {S} (b : TaskBuilder S) (args : list Z) : TaskBuilder S :=
  mkTaskBuilder (inner b) (tb_privilege b) (tb_exit b) (tb_entry b) args (marker b).

Definition with_exit_info {S} (b : TaskBuilder S) (trampoline : Z) : TaskBuilder S :=
  mkTaskBuilder (inner b) (tb_privilege b) trampoline (tb_entry b) (tb_args b) (marker b).

(** [core.try_mut().unwrap()]. *)
Definition mut_core {S} (b : TaskBuilder S) (f : Core P → Core P) : B unit :=
  match try_mut (t_core (inner b)) with
  | Some _ => with_core b f
  | None => mpanic
  end.

Definition with_name {S} (b : TaskBuilder S) (name : str) : B (TaskBuilder S) :=
  let? _ := mut_core b (λ c, mkCore (c_pagedir c) (c_heap_size c) (c_pid c) (c_pgrid c) (c_fds c)
                               (c_next_free c) (Some name) (c_parent c) (c_state c) (c_tidx c)) in
  mok b.

Definition set_c_fds (c : Core P) (t : FDMap) : Core P :=
  mkCore (c_pagedir c) (c_heap_size c) (c_pid c) (c_pgrid c) t (c_next_free c) (c_name c)
    (c_parent c) (c_state c) (c_tidx c).

Definition with_file {S} (b : TaskBuilder S) (fd : Z) (f : ptr) : B (TaskBuilder S) :=
  let? _ := with_core b (λ c, set_c_fds c (fst (add_fd (c_fds c) fd f))) in mok b.

Definition remove_file {S} (b : TaskBuilder S) (fd : Z) : B (TaskBuilder S) :=
  let? _ := with_core b (λ c, set_c_fds c (fst (remove_fd (c_fds c) fd))) in mok b.

Definition get_file {S} (b : TaskBuilder S) (fd : Z) : B (option ptr) :=
  let? c := get_core b in mok (fd_get (c_fds c) fd).

Definition clear_files {S} (b : TaskBuilder S) : B (TaskBuilder S) :=
  let? _ := with_core b (λ c, set_c_fds c ∅) in mok b.

(** [entry(fd).and_modify(..).or_insert(..)] for every pair. *)
Definition override_table (t : FDMap) (files : list (Z * ptr)) : FDMap :=
  foldl (λ t '(fd, f), <[fd := f]> t) t files.

Definition override_files {S} (b : TaskBuilder S) (files : list (Z * ptr)) : B (TaskBuilder S) :=
  let? _ := with_core b (λ c, set_c_fds c (override_table (c_fds c) files)) in mok b.

(** The entries of the running thread's table, in key order, or the three
    devices, whose [open] is unwrapped. *)
Definition with_default_files {S} (fs_open : str → Z → Result SysErrCode ptr) (b : TaskBuilder S)
    (clone_these : bool) : B (TaskBuilder S) :=
  λ s,
    match (if clone_these then current_thread (b_tm s) else None) with
    | Some current =>
        match b_cores s !! deref (t_core current) with
        | None => Panic
        | Some c => override_files b (in_order (c_fds c)) s
        end
    | None =>
        match fs_open (lit "/proc/kernel/io/stateful_keyboard") OpenOptions_READ,
              fs_open (lit "/proc/kernel/io/fbbackend") (Z.lor OpenOptions_READ OpenOptions_WRITE),
              fs_open (lit "/proc/kernel/io/serial") (Z.lor OpenOptions_READ OpenOptions_WRITE) with
        | Ok stdin, Ok stdout, Ok stderr =>
            override_files b [(STDIN_FILENO, stdin); (STDOUT_FILENO, stdout); (STDERR_FILENO, stderr)] s
        | _, _, _ => Panic
        end
    end.

(** [allocate_kstack()?]. *)
Definition kstack : B Z :=
  λ s, let! x := allocate_kstack (b_stacks s) in
       Ret (set_stacks s (fst x),
            match snd x with
            | Ok top => Ok top
            | Err StackNotBuilt => Err TStackNotBuilt
            | Err StackNotFreed => Err TStackNotFreed
            end).

Definition as_kernel (b : TaskBuilder Init) : B (TaskBuilder KTaskInfo) :=
  let? stack_top := kstack in
  let t := set_kstack (inner b) stack_top in
  mok (mkTaskBuilder t PKernel (tb_exit b) (tb_entry b) (tb_args b)
         (KTaskInfo_new (tb_entry b) (krsp t) kernel_sel kernel_root)).

(** The user stack in the table [t], with the kernel's table alongside. *)
Definition ustack (t : APageTable P) (start : Z) : B (APageTable P * Z) :=
  λ s, let k := b_stacks s in
       let! x := allocate_userstack (pagetable k, t) (frames k) start in
       let '(p, a, r) := x in
       Ret (set_stacks s (mkStacks (in_use k) (fst p) a),
            match r with Ok top => Ok (snd p, top) | Err _ => Err TStackNotBuilt end).

(** [create_new_pagedir()] with the table in [cr3]. *)
Definition new_pagedir (cr3 : Z * list Z) : B (TaskPageTable P) :=
  λ s, let k := b_stacks s in
       let! x := create_new_pagedir hhdm phys_offset (pagetable k) (fst cr3) (snd cr3) (frames k) in
       Ret (set_stacks s (mkStacks (in_use k) (pagetable k) (fst x)),
            match snd x with Ok t => Ok t | Err _ => Err TPageDirNotBuilt end).

(** The ELF part of [as_usr]: the entry point and the loaded table. *)
Definition load_elf (elf_parse : list u8 → option (Z * option (list ProgramHeader)))
    (entry : Z) (elf_data : Init) (t : TaskPageTable P) : B (Z * TaskPageTable P) :=
  match elf_data with
  | None => mok (entry, t)
  | Some data =>
      match elf_parse data with
      | None => merr (TUnknown ElfNotParsed)
      | Some (e_entry, segments) =>
          λ s, let! e := va_new e_entry in
               let k := b_stacks s in
               let! x := apply_elf (prof := prof) segments data (table t) (pagetable k) (frames k) (b_mem s) in
               let '(new, old, a, mem, r) := x in
               Ret (set_bmem (set_stacks s (mkStacks (in_use k) old a)) mem,
                    match r with
                    | Ok _ => Ok (e, mkTPT new (root t))
                    | Err _ => Err (TUnknown ElfNotApplied)
                    end)
      end
  end.

Definition as_usr (cr3 : Z * list Z) (elf_parse : list u8 → option (Z * option (list ProgramHeader)))
    (b : TaskBuilder Init) : B (TaskBuilder UsrTaskInfo) :=
  let? ktop := kstack in
  let? tbl := new_pagedir cr3 in
  λ s, let! start := va_align_up USER_STACK_START in
  (let? u := ustack (OwnedTable tbl) start in
   let '(tbl, usr_end) := u in
   let t := set_ustack (set_kstack (inner b) ktop) usr_end in
   let? _ := with_core b (λ c, mkCore (c_pagedir c) (c_heap_size c) (c_pid c) (c_pgrid c) (c_fds c)
                                 USER_MMAP_START (c_name c) (c_parent c) (c_state c) (c_tidx c)) in
   match try_get_owned tbl with
   | None => mpanic
   | Some tbl =>
       let? l := load_elf elf_parse (tb_entry b) (marker b) tbl in
       let '(entry, tbl) := l in
       let info := UsrTaskInfo_new entry (krsp t) usr_end (root tbl) user_sel kernel_sel in
       let? _ := mut_core b (λ c, mkCore (OwnedTable tbl) (c_heap_size c) (c_pid c) (c_pgrid c)
                                    (c_fds c) (c_next_free c) (c_name c) (c_parent c) (c_state c)
                                    (c_tidx c)) in
       mok (mkTaskBuilder (set_core t (t_core t) (t_pid t) (t_pgrid t) true) PUser (tb_exit b) entry
              (tb_args b) info)
   end) s.

(** [like_existing_usr]: a thread of the process of [task]. *)
Definition like_existing_usr (b : TaskBuilder Init) (task : Task) : B (TaskBuilder UsrTaskInfo) :=
  match try_clone (t_core task) with
  | None => merr (TUnknown CoreOwned)
  | Some core =>
      λ s,
      match b_cores s !! deref core with
      | None => Panic
      | Some c =>
          let next_idx := c_tidx c in
          let c' := mkCore (c_pagedir c) (c_heap_size c) (c_pid c) (c_pgrid c) (c_fds c)
                      (c_next_free c) (c_name c) (c_parent c) (c_state c) (wrap64 (next_idx + 1)) in
          let s := set_cores s (<[deref core := c']> (b_cores s)) in
          let t := set_core (inner b) core (c_pid c) (c_pgrid c)
                     (bool_decide (is_Some (try_get_owned (c_pagedir c)))) in
          (let? ktop := kstack in
           λ s, let! base := va_align_up USER_STACK_START in
                let! bytes := umul prof next_idx USER_STACK_SIZE in
                let! _ := uadd prof bytes PAGE in
                let! start := va_add base (align_up bytes PAGE) in
           (let? u := ustack (c_pagedir c) start in
            let '(tbl, usr_end) := u in
            let t := set_ustack (set_kstack t ktop) usr_end in
            let b' := mkTaskBuilder t (tb_privilege b) (tb_exit b) (tb_entry b) (tb_args b) tt in
            let? _ := with_core b' (λ c, mkCore tbl (c_heap_size c) (c_pid c) (c_pgrid c) (c_fds c)
                                       (c_next_free c) (c_name c) (c_parent c) (c_state c) (c_tidx c)) in
            match try_get_owned tbl with
            | None => merr (TUnknown TableNotOwned)
            | Some tp =>
                mok (mkTaskBuilder t (tb_privilege b) (tb_exit b) (tb_entry b) (tb_args b)
                       (UsrTaskInfo_new (tb_entry b) ktop usr_end (root tp) user_sel kernel_sel))
            end) s) s
      end
  end.

(** [self.inner.pagedir()] as a donor. *)
Definition donor_of (s : State) (c : Core P) (pg : Z) : Result TranslateError Z :=
  translate_page (pagetable (b_stacks s), c_pagedir c) pg.

Definition set_usr_top (i : UsrTaskInfo) (top : Z) : UsrTaskInfo :=
  mkUsrTaskInfo (u_rip i) top (u_cs i) (u_rflags i) (u_ss i) (u_cr3 i) (u_kstack_top i)
    (uk_cs i) (uk_rflags i) (uk_ss i).

(** One of the two byte blocks: nothing for a null pointer or no bytes,
    otherwise the bytes below the current top, seen through the kernel's
    table. *)
Definition push_block (p : P) (mem : Z → u8) (top ptr_ : Z) (bytes : list u8)
    : Outcome ((Z → u8) * Z * Z) :=
  if (ptr_ =? 0) || (zlen bytes =? 0) then Ret (mem, top, 0)
  else
    let! top := va_sub top (zlen bytes) in
    let! mem := write_virt p mem top bytes in
    Ret (mem, top, top).

(** [allocate_arg_env]: [read_user ptr n] are the [n] bytes the caller's
    address space has at [ptr].  A request whose buffer does not fit in an
    allocation does not return. *)
Definition allocate_arg_env (read_user : Z → Z → list u8) (b : TaskBuilder UsrTaskInfo)
    (argc argv envc envp : Z) : B (TaskBuilder UsrTaskInfo) :=
  let? c := get_core b in
  λ s,
    if decide (ISIZE_MAX < argc + envc) then Panic else
    let k := b_stacks s in
    let! x := copy_ustack_mappings_into (donor_of s c) (pagetable k) (frames k) in
    let '(p, a) := x in
    let! y := push_block p (b_mem s) (usr_stack_top (marker b)) argv (read_user argv argc) in
    let '(mem, top, argv_ptr) := y in
    let! z := push_block p mem top envp (read_user envp envc) in
    let '(mem, top, env_ptr) := z in
    let! p := unmap_ustack_mappings p in
    Ret (set_bmem (set_stacks s (mkStacks (in_use k) p a)) mem,
         Ok (mkTaskBuilder (inner b) (tb_privilege b) (tb_exit b) (tb_entry b)
               [argc; argv_ptr; envc; env_ptr; Arg_default; Arg_default]
               (set_usr_top (marker b) top))).

(** [ensure_ready] after [set_krsp]. *)
Definition finish_task {S} (b : TaskBuilder S) (next_top : Z) : Task :=
  let t := set_krsp next_top (inner b) in
  set_core t (into_shared (t_core t)) (t_pid t) (t_pgrid t) (owns_pagedir t).

(** [build] of a user task; [init_usr] is the stack pointer the routine
    [init_usr_task] returns. *)
Definition build_usr (init_usr : UsrTaskInfo → Z → list Z → Z) (b : TaskBuilder UsrTaskInfo) : B Task :=
  let? c := get_core b in
  λ s,
    let k := b_stacks s in
    let! x := copy_ustack_mappings_into (donor_of s c) (pagetable k) (frames k) in
    let '(p, a) := x in
    let next_top := init_usr (marker b) (tb_exit b) (tb_args b) in
    let! p := unmap_ustack_mappings p in
    Ret (set_stacks s (mkStacks (in_use k) p a), Ok (finish_task b next_top)).

Definition build_kernel (init_kernel : KTaskInfo → Z → list Z → Z) (b : TaskBuilder KTaskInfo) : B Task :=
  mok (finish_task b (init_kernel (marker b) (tb_exit b) (tb_args b))).

(** [add_built_task]: the task becomes an object, the manager and the
    scheduler get its id. *)
Definition add_built_task (t : Task) : B unit :=
  λ s, let '(m, rr) := add_task_ptr (set_objs (b_tm s) (<[tid t := t]> (objs (b_tm s)))) (b_rr s) t in
       Ret (mkBuild m (b_tid s) (b_pid s) (b_stacks s) (b_cores s) (b_next s) (b_mem s) rr, Ok tt).

(** ** funcs.rs *)

(** An error of a builder becomes the call's error code. *)
Definition code {X} (e : SysErrCode) (m : B X) : M State SysErrCode X :=
  λ s, let! r := m s in
       Ret (fst r, match snd r with Ok x => Ok x | Err _ => Err e end).

Definition check_user (base len size : Z) : M State SysErrCode unit :=
  λ s, let! ok := valid_ptr prof hhdm base len size in
       Ret (s, if ok then Ok tt else Err AddrNotValid).

(** [spawn]. *)
Definition sys_spawn (fs_open : str → Z → Result SysErrCode ptr) (cr3 : Z * list Z)
    (elf_parse : list u8 → option (Z * option (list ProgramHeader)))
    (init_usr : UsrTaskInfo → Z → list Z → Z) (read_user : Z → Z → list u8) (elf_data len : Z)
    : M State SysErrCode unit :=
  let? _ := check_user elf_data len 1 in
  let bytes := read_user elf_data len in
  let? b := code BadMsg (from_bytes bytes) in
  let? b := code BadMsg (with_default_files fs_open b false) in
  let? b := code BadMsg (as_usr cr3 elf_parse b) in
  let? t := code BadMsg (build_usr init_usr b) in
  let? _ := code BadMsg (add_built_task t) in
  mok tt.

Definition sys_thread_create (init_usr : UsrTaskInfo → Z → list Z → Z) (start_routine args : Z)
    : M State SysErrCode Z :=
  let? _ := check_user start_routine 0 1 in
  λ s,
  match current_thread (b_tm s) with
  | None => Ret (s, Err NoProcess)
  | Some current =>
      let! fn_args := Args_set Args_default 0 args in
      (λ s, let! e := va_new start_routine in
      (let? b := code AddrNotValid (from_addr e) in
       let? b := code BadMsg (like_existing_usr b current) in
       let b := with_args b fn_args in
       let? t := code BadMsg (build_usr init_usr b) in
       let? _ := code BadMsg (add_built_task t) in
       mok (tid t)) s) s
  end.

(** One descriptor action of [spawn_process]. *)
Definition file_action {S} (fs_open : str → Z → Result SysErrCode ptr) (read_user : Z → Z → list u8)
    (new : TaskBuilder S) (action : FDAction) : M State SysErrCode (TaskBuilder S) :=
  match action with
  | FDOpenAct config fd =>
      let path := read_user (fat_thin (fdopen_path config)) (fat_size (fdopen_path config)) in
      match fs_open path (fdopen_flags config) with
      | Ok f => code NoFile (with_file new fd f)
      | Err e => merr e
      end
  | FDClose fd => code NoFile (remove_file new fd)
  | FDDup from to =>
      let? f := code NoFile (get_file new from) in
      match f with
      | Some f => code NoFile (with_file new to f)
      | None => merr NoFile
      end
  | FDClear => code NoFile (clear_files new)
  | FDInherit parent child =>
      λ s, match current_thread (b_tm s) with
           | None => Ret (s, Err NoProcess)
           | Some current =>
               match b_cores s !! deref (t_core current) with
               | None => Panic
               | Some c =>
                   match fd_get (c_fds c) parent with
                   | None => Ret (s, Err NoFile)
                   | Some f => code NoFile (with_file new child f) s
                   end
               end
           end
  end.

Fixpoint file_actions {S} (fs_open : str → Z → Result SysErrCode ptr) (read_user : Z → Z → list u8)
    (new : TaskBuilder S) (actions : list FDAction) : M State SysErrCode (TaskBuilder S) :=
  match actions with
  | [] => mok new
  | action :: actions =>
      let? new := file_action fs_open read_user new action in
      file_actions fs_open read_user new actions
  end.

(** The kernel's copy of an argument block of a built-in program: only
    whether its pointer is accepted matters here. *)
Definition container (p : FatPtr) : M State SysErrCode unit :=
  λ s, let! _ := valid_ptr prof hhdm (fat_thin p) (fat_size p) 1 in Ret (s, Ok tt).

(** [spawn_process].  [load_fat] and [load_actions] read the structures user
    pointers point to, [read_bin] opens and reads the program, [execute] is
    the entry of the built-in programs and [boxes] their boxed arguments. *)
Definition sys_spawn_process (fs_open : str → Z → Result SysErrCode ptr) (cr3 : Z * list Z)
    (elf_parse : list u8 → option (Z * option (list ProgramHeader)))
    (init_usr : UsrTaskInfo → Z → list Z → Z) (init_kernel : KTaskInfo → Z → list Z → Z)
    (read_user : Z → Z → list u8) (load_fat : Z → FatPtr) (load_actions : FatPtr → list FDAction)
    (read_bin : str → Result SysErrCode (list u8)) (execute : Z) (boxes : list Z)
    (path len arg env fd_actions : Z) : M State SysErrCode Z :=
  let? _ := check_user path len 1 in
  let? _ := check_user arg 1 16 in
  let? _ := check_user env 1 16 in
  let? _ := check_user fd_actions 1 16 in
  let arg_data := load_fat arg in
  let env_data := load_fat env in
  let actions := load_fat fd_actions in
  match read_bin (read_user path len) with
  | Err e => merr e
  | Ok bytes =>
      let is_builtin := bool_decide (bytes = BUILTIN_MARKER) in
      let? new := (if is_builtin then
                     let? _ := container arg_data in
                     let? _ := container env_data in
                     let? b := code NoChild (from_fn execute) in
                     code NoChild (with_default_files fs_open (with_args b (args_macro boxes)) true)
                   else
                     let? b := code BadMsg (from_bytes bytes) in
                     code BadMsg (with_default_files fs_open b true)) in
      let? new := (if fat_thin actions =? 0 then mok new
                   else file_actions fs_open read_user new (load_actions actions)) in
      let? t := (if is_builtin then
                   let? b := code Cancelled (as_kernel new) in
                   code Cancelled (build_kernel init_kernel b)
                 else
                   let? b := code Cancelled (as_usr cr3 elf_parse new) in
                   let? b := code Cancelled (allocate_arg_env read_user b (fat_size arg_data)
                                               (fat_thin arg_data) (fat_size env_data) (fat_thin env_data)) in
                   code Cancelled (build_usr init_usr b)) in
      let? _ := code Cancelled (add_built_task t) in
      mok (t_pid t)
  end.

(** ** threading/mod.rs: [spawn_fn_with_init]

    [trampoline] stands for the exit information that stores the return value
    in the handle; the handle's task is the result. *)
Definition spawn_fn_with_init (init_kernel : KTaskInfo → Z → list Z → Z) (func trampoline : Z)
    (init : TaskBuilder Init → B (TaskBuilder Init)) : B Task :=
  let? b := from_fn func in
  let b := with_exit_info b trampoline in
  let? b := init b in
  let? b := as_kernel b in
  let? t := build_kernel init_kernel b in
  let? _ := add_built_task t in
  mok t.

Definition spawn_fn (fs_open : str → Z → Result SysErrCode ptr)
    (init_kernel : KTaskInfo → Z → list Z → Z) (func trampoline : Z) (args : list Z) : B Task :=
  spawn_fn_with_init init_kernel func trampoline
    (λ b, with_default_files fs_open (with_args b args) true).

(** ** schedule/mod.rs: threads the kernel adds for itself *)

Definition add_named_ktask (fs_open : str → Z → Result SysErrCode ptr)
    (init_kernel : KTaskInfo → Z → list Z → Z) (func : Z) (name : str) : B unit :=
  let? b := from_fn func in
  let? b := with_name b name in
  let? b := with_default_files fs_open b true in
  let? b := as_kernel b in
  let? t := build_kernel init_kernel b in
  let? _ := add_built_task t in
  mok tt.

Definition add_ktask (fs_open : str → Z → Result SysErrCode ptr)
    (init_kernel : KTaskInfo → Z → list Z → Z) (func : Z) : B unit :=
  let? b := from_fn func in
  let? b := with_default_files fs_open b true in
  let? b := as_kernel b in
  let? t := build_kernel init_kernel b in
  let? _ := add_built_task t in
  mok tt.

Definition add_named_usr_task (fs_open : str → Z → Result SysErrCode ptr) (cr3 : Z * list Z)
    (elf_parse : list u8 → option (Z * option (list ProgramHeader)))
    (init_usr : UsrTaskInfo → Z → list Z → Z) (func : Z) (name : str) : B unit :=
  let? b := from_fn func in
  let? b := with_name b name in
  let? b := with_default_files fs_open b true in
  let? b := as_usr cr3 elf_parse b in
  let? t := build_usr init_usr b in
  let? _ := add_built_task t in
  mok tt.

Definition add_named_usr_task_from_addr (fs_open : str → Z → Result SysErrCode ptr) (cr3 : Z * list Z)
    (elf_parse : list u8 → option (Z * option (list ProgramHeader)))
    (init_usr : UsrTaskInfo → Z → list Z → Z) (addr : Z) (name : str) : B unit :=
  let? b := from_addr addr in
  let? b := with_name b name in
  let? b := with_default_files fs_open b true in
  let? b := as_usr cr3 elf_parse b in
  let? t := build_usr init_usr b in
  let? _ := add_built_task t in
  mok tt.

End Build.
