(* ===== verification/BuildProps.v ===== *)
(** Theorems about building threads and processes (TaskBuild.v): every call
    that spawns is one transition of the task manager, the stacks of the
    threads of a process do not overlap, what a process inherits, and how its
    arguments reach it. *)
From stdpp Require Import sorting.
From S2P Require Import Prelude Abi Fd RamFile Tasks Syscalls FrameAlloc Paging Mmap PageDir Elf Context TaskBuild.
Open Scope Z_scope.

(** ** What a call does to the task manager *)

(** [quiet m]: [m] leaves the task manager and the run queue alone, in every
    case in which it returns. *)
Section Quiet.
Context {P A E : Type}.
Implicit Types s : Build P A.

Definition quiet {X} (m : M (Build P A) E X) : Prop :=
  ∀ s s' r, m s = Ret (s', r) → b_tm s' = b_tm s ∧ b_rr s' = b_rr s.

Lemma quiet_ok {X} (x : X) : quiet (mok x).
Proof. intros s s' r [= <- <-]. done. Qed.

Lemma quiet_err {X} e : quiet (merr e : M _ _ X).
Proof. intros s s' r [= <- <-]. done. Qed.

Lemma quiet_panic {X} : quiet (mpanic : M _ _ X).
Proof. intros s s' r [=]. Qed.

Lemma quiet_bind {X Y} (m : M (Build P A) E X) (k : X → M (Build P A) E Y) :
  quiet m → (∀ x, quiet (k x)) → quiet (mthen m k).
Proof.
  intros Hm Hk s s' r [(s1 & x & H1 & H2)|(e & H1 & ->)]%mthen_Ret_inv; [|by eapply Hm].
  destruct (Hm _ _ _ H1) as [<- <-]. by eapply Hk.
Qed.

(** A step that computes something outside the state first. *)
Lemma quiet_out {X Y} (o : Outcome X) (k : X → M (Build P A) E Y) :
  (∀ x, quiet (k x)) → quiet (λ s, let! x := o in k x s).
Proof. intros Hk s s' r. destruct o as [x| | |]; try done. apply Hk. Qed.

End Quiet.

Create HintDb quiet.
#[export] Hint Resolve quiet_ok quiet_err quiet_panic quiet_bind quiet_out : quiet.

(** Steps written out over the state: everything but the manager and the
    queue may change. *)
Ltac quiet_step :=
  intros ? ? ?;
  repeat match goal with
         | |- context [obind ?m _] => destruct m; cbn [obind]; try done
         | |- context [match ?x with _ => _ end] => destruct x
         end;
  try done; intros [= <- <-]; done.

Section Spawn.
Context {prof : Profile} {P A : Type} `{VirtOps} `{PageIncl} `{Mapper P A} `{FrameAllocator A}
  `{RootTable P} `{Hardware P}.
Context (hhdm phys_offset : Z) (user_sel kernel_sel : Z * Z) (kernel_root default_trampoline : Z).
Context (fs_open : str → Z → Result SysErrCode ptr) (cr3 : Z * list Z)
  (elf_parse : list u8 → option (Z * option (list ProgramHeader)))
  (init_usr : UsrTaskInfo → Z → list Z → Z) (init_kernel : KTaskInfo → Z → list Z → Z)
  (read_user : Z → Z → list u8).
Implicit Types s : Build P A.

Abbreviation B := (M (Build P A) ThreadingError).

Lemma Task_new_quiet s : b_tm (fst (Task_new s)) = b_tm s ∧ b_rr (fst (Task_new s)) = b_rr s.
Proof.
  unfold Task_new, TaskCore_new. cbn. destruct (current_thread (b_tm s)); [|done].
  by destruct (current_pgr (b_tm s)).
Qed.

Lemma from_addr_quiet addr : quiet (from_addr default_trampoline addr : B _).
Proof.
  intros s s' r. unfold from_addr. pose proof (Task_new_quiet s) as Hq.
  destruct (Task_new s) as [s1 t]. intros [= <- <-]. exact Hq.
Qed.

Lemma from_bytes_quiet bytes : quiet (from_bytes default_trampoline bytes : B _).
Proof.
  intros s s' r. unfold from_bytes. pose proof (Task_new_quiet s) as Hq.
  destruct (Task_new s) as [s1 t]. intros [= <- <-]. exact Hq.
Qed.

Lemma from_fn_quiet f : quiet (from_fn default_trampoline f : B _).
Proof.
  intros s s' r. unfold from_fn. pose proof (Task_new_quiet s) as Hq.
  destruct (Task_new s) as [s1 t]. destruct (va_new f); try done. intros [= <- <-]. exact Hq.
Qed.

Lemma with_core_quiet {S} (b : TaskBuilder S) f : quiet (with_core b f : B _).
Proof. intros s s' r [= <- <-]. done. Qed.

Lemma get_core_quiet {S} (b : TaskBuilder S) : quiet (get_core b : B _).
Proof. intros s s' r. unfold get_core. destruct (b_cores s !! core_ref b); [|done]. by intros [= <- <-]. Qed.

Lemma mut_core_quiet {S} (b : TaskBuilder S) f : quiet (mut_core b f : B _).
Proof. unfold mut_core. destruct (try_mut _); [apply with_core_quiet|apply quiet_panic]. Qed.

Lemma kstack_quiet : quiet (kstack : B _).
Proof. intros s s' r. unfold kstack. destruct (allocate_kstack _) as [x| | |]; try done. by intros [= <- <-]. Qed.

Lemma ustack_quiet t start : quiet (ustack t start : B _).
Proof.
  intros s s' r. unfold ustack. destruct (allocate_userstack _ _ _) as [[[p a] x]| | |]; try done.
  by intros [= <- <-].
Qed.

Lemma new_pagedir_quiet : quiet (new_pagedir hhdm phys_offset cr3 : B _).
Proof.
  intros s s' r. unfold new_pagedir. destruct (create_new_pagedir _ _ _ _ _ _) as [x| | |]; try done.
  by intros [= <- <-].
Qed.

Lemma load_elf_quiet entry data t : quiet (load_elf (prof := prof) elf_parse entry data t : B _).
Proof.
  unfold load_elf. destruct data as [data|]; [|apply quiet_ok].
  destruct (elf_parse data) as [[e segs]|]; [|apply quiet_err].
  apply quiet_out. intros x s s' r. cbv zeta.
  destruct (apply_elf _ _ _ _ _ _) as [[[[[new old] a] mem] r']| | |]; try done. by intros [= <- <-].
Qed.

End Spawn.
#[export] Hint Resolve from_addr_quiet from_bytes_quiet from_fn_quiet with_core_quiet get_core_quiet
  mut_core_quiet kstack_quiet ustack_quiet new_pagedir_quiet load_elf_quiet : quiet.

(** [advances t m]: a builder step that is quiet and returns a builder of the
    same thread. *)
Definition same_thread (t t' : Task) : Prop := tid t' = tid t ∧ t_state t' = t_state t.

Definition advances {P A E S} (t : Task) (m : M (Build P A) E (TaskBuilder S)) : Prop :=
  ∀ s s' r, m s = Ret (s', r) →
    (b_tm s' = b_tm s ∧ b_rr s' = b_rr s) ∧ ∀ b, r = Ok b → same_thread t (inner b).

Section Advances.
Context {P A E : Type}.
Implicit Types s : Build P A.

Lemma advances_ok {S} t (b : TaskBuilder S) :
  same_thread t (inner b) → advances t (mok b : M (Build P A) E _).
Proof. intros Hb s s' r [= <- <-]. split; [done|]. by intros b' [= <-]. Qed.

Lemma advances_err {S} t e : advances t (merr e : M (Build P A) E (TaskBuilder S)).
Proof. intros s s' r [= <- <-]. done. Qed.

Lemma advances_panic {S} t : advances t (mpanic : M (Build P A) E (TaskBuilder S)).
Proof. intros s s' r [=]. Qed.

Lemma advances_quiet {X S} t (m : M (Build P A) E X) (k : X → M (Build P A) E (TaskBuilder S)) :
  quiet m → (∀ x, advances t (k x)) → advances t (mthen m k).
Proof.
  intros Hm Hk s s' r [(s1 & x & H1 & H2)|(e & H1 & ->)]%mthen_Ret_inv.
  - destruct (Hm _ _ _ H1) as [<- <-]. by eapply Hk.
  - split; [by eapply Hm|done].
Qed.

Lemma advances_bind {S S'} t (m : M (Build P A) E (TaskBuilder S))
    (k : TaskBuilder S → M (Build P A) E (TaskBuilder S')) :
  advances t m → (∀ b, same_thread t (inner b) → advances t (k b)) → advances t (mthen m k).
Proof.
  intros Hm Hk s s' r [(s1 & b & H1 & H2)|(e & H1 & ->)]%mthen_Ret_inv.
  - destruct (Hm _ _ _ H1) as [[<- <-] Hb]. by eapply Hk; [apply Hb|].
  - split; [by eapply (Hm _ _ _ H1)|done].
Qed.

Lemma advances_out {X S} t (o : Outcome X) (k : X → M (Build P A) E (TaskBuilder S)) :
  (∀ x, advances t (k x)) → advances t (λ s, let! x := o in k x s).
Proof. intros Hk s s' r. destruct o as [x| | |]; try done. apply Hk. Qed.

Lemma same_trans t1 t2 t3 : same_thread t1 t2 → same_thread t2 t3 → same_thread t1 t3.
Proof. unfold same_thread. naive_solver congruence. Qed.

Lemma same_fields t t1 : tid t1 = tid t → t_state t1 = t_state t → same_thread t t1.
Proof. by split. Qed.

End Advances.

Section Spawn2.
Context {prof : Profile} {P A : Type} `{VirtOps} `{PageIncl} `{Mapper P A} `{FrameAllocator A}
  `{RootTable P} `{Hardware P}.
Context (hhdm phys_offset : Z) (user_sel kernel_sel : Z * Z) (kernel_root default_trampoline : Z).
Context (fs_open : str → Z → Result SysErrCode ptr) (cr3 : Z * list Z)
  (elf_parse : list u8 → option (Z * option (list ProgramHeader)))
  (init_usr : UsrTaskInfo → Z → list Z → Z) (init_kernel : KTaskInfo → Z → list Z → Z)
  (read_user : Z → Z → list u8).
Implicit Types s : Build P A.

Abbreviation B := (M (Build P A) ThreadingError).

Lemma as_kernel_advances b :
  advances (inner b) (as_kernel kernel_sel kernel_root b : B _).
Proof.
  unfold as_kernel. apply advances_quiet; [auto with quiet|]. intros top. by apply advances_ok.
Qed.

Lemma as_usr_advances b :
  advances (inner b) (as_usr (prof := prof) hhdm phys_offset user_sel kernel_sel cr3 elf_parse b : B _).
Proof.
  unfold as_usr. apply advances_quiet; [auto with quiet|]. intros top.
  apply advances_quiet; [auto with quiet|]. intros tbl. apply advances_out. intros start.
  apply advances_quiet; [auto with quiet|]. intros [tbl' usr_end].
  apply advances_quiet; [auto with quiet|]. intros _.
  destruct (try_get_owned tbl') as [tp|]; [|apply advances_panic].
  apply advances_quiet; [auto with quiet|]. intros [entry tp'].
  apply advances_quiet; [auto with quiet|]. intros _. by apply advances_ok.
Qed.

Lemma like_existing_advances b task :
  advances (inner b) (like_existing_usr (prof := prof) user_sel kernel_sel b task : B _).
Proof.
  unfold like_existing_usr. destruct (try_clone _) as [core|]; [|apply advances_err].
  intros s s' r. destruct (b_cores s !! deref core) as [c|]; [|done]. intros Hrun.
  match type of Hrun with ?m _ = _ => assert (Ha : advances (inner b) m) end.
  - apply advances_quiet; [auto with quiet|]. intros top.
    do 4 (apply advances_out; intros ?). apply advances_quiet; [auto with quiet|].
    intros [tbl usr_end]. apply advances_quiet; [auto with quiet|]. intros _.
    destruct (try_get_owned tbl); [by apply advances_ok|apply advances_err].
  - exact (Ha _ _ _ Hrun).
Qed.

(** Steps that return the builder they were given. *)
Lemma with_advances {S X} (b : TaskBuilder S) (m : B X) : quiet m → advances (inner b) (let? _ := m in mok b).
Proof. intros Hm. apply advances_quiet; [done|]. intros _. by apply advances_ok. Qed.

Lemma default_files_advances {S} (b : TaskBuilder S) clone :
  advances (inner b) (with_default_files fs_open b clone : B _).
Proof.
  intros s s' r. unfold with_default_files.
  assert (Ho : ∀ files, advances (inner b) (override_files b files : B _)).
  { intros files. unfold override_files. apply with_advances. auto with quiet. }
  destruct (if clone then _ else _) as [cur|].
  - destruct (b_cores s !! deref (t_core cur)); [apply Ho|done].
  - destruct (fs_open _ _) as [f0|]; [|done]. destruct (fs_open _ _) as [f1|]; [|done].
    destruct (fs_open _ _) as [f2|]; [apply Ho|done].
Qed.

Lemma arg_env_advances b argc argv envc envp :
  advances (inner b) (allocate_arg_env read_user b argc argv envc envp : B _).
Proof.
  unfold allocate_arg_env. apply advances_quiet; [auto with quiet|]. intros c s s' r.
  case_decide; [done|]. destruct (copy_ustack_mappings_into _ _ _) as [[p a]| | |]; try done.
  cbn [obind]. destruct (push_block _ _ _ argv _) as [[[mem top] ap]| | |]; try done. cbn [obind].
  destruct (push_block _ _ _ envp _) as [[[mem' top'] ep]| | |]; try done. cbn [obind].
  destruct (unmap_ustack_mappings p) as [p'| | |]; try done. intros [= <- <-].
  split; [done|]. by intros b' [= <-].
Qed.

(** [code] keeps both. *)
Lemma code_quiet {X} e (m : B X) : quiet m → quiet (code e m).
Proof.
  intros Hm s s' r. unfold code. destruct (m s) as [[s1 x]| | |] eqn:E; try done. intros [= <- <-].
  by eapply Hm.
Qed.

Lemma code_advances {S} e t (m : B (TaskBuilder S)) : advances t m → advances t (code e m).
Proof.
  intros Hm s s' r. unfold code. destruct (m s) as [[s1 x]| | |] eqn:E; try done. intros [= <- <-].
  destruct (Hm _ _ _ E) as [Hq Hb]. split; [done|]. intros b' Hb'. apply Hb. by destruct x; simplify_eq.
Qed.

Lemma file_action_advances {S} (b : TaskBuilder S) act :
  advances (inner b) (file_action fs_open read_user b act : M (Build P A) SysErrCode _).
Proof.
  assert (Hf : ∀ fd f, advances (inner b) (code NoFile (with_file b fd f : B _))).
  { intros fd f. apply code_advances, with_advances. auto with quiet. }
  destruct act as [config fd|fd|old new|parent child|]; cbn [file_action].
  - destruct (fs_open _ _); [apply Hf|apply advances_err].
  - apply code_advances, with_advances. auto with quiet.
  - apply advances_quiet.
    + apply code_quiet. unfold get_file. apply quiet_bind; auto with quiet.
    + intros [f|]; [apply Hf|apply advances_err].
  - intros s s' r. destruct (current_thread (b_tm s)) as [cur|]; [|by intros [= <- <-]].
    destruct (b_cores s !! deref (t_core cur)) as [c|]; [|done].
    destruct (fd_get (c_fds c) parent) as [f|]; [apply Hf|by intros [= <- <-]].
  - apply code_advances, with_advances. auto with quiet.
Qed.

Lemma advances_same {E S} t t' (m : M (Build P A) E (TaskBuilder S)) :
  advances t m → same_thread t' t → advances t' m.
Proof.
  intros Hm Ht s s' r Hr. destruct (Hm _ _ _ Hr) as [Hq Hb]. split; [done|].
  intros b Hb'. eapply same_trans; [exact Ht|by apply Hb].
Qed.

Lemma file_actions_advances {S} (b : TaskBuilder S) acts :
  advances (inner b) (file_actions fs_open read_user b acts : M (Build P A) SysErrCode _).
Proof.
  revert b. induction acts as [|act acts IH]; intros b; cbn [file_actions]; [by apply advances_ok|].
  apply advances_bind; [apply file_action_advances|]. intros b' Hb'.
  by eapply advances_same; [apply IH|].
Qed.

(** What adding a built task does: one [step_spawn] of the task manager's
    transition system, for a thread with the next id. *)
Record spawned (s s' : Build P A) (t : Task) : Prop := {
  sp_tid : tid t = b_tid s;
  sp_ready : t_state t = Ready;
  sp_step : Tasks.step (b_tm s, b_rr s) (b_tm s', b_rr s');
  sp_known : tid t ∈ lut (b_tm s');
  sp_object : objs (b_tm s') !! tid t = Some t;
  sp_queue : queue (b_rr s') = queue (b_rr s) ++ [tid t]
}.

Lemma add_shared m t x :
  t_core t = into_shared x →
  lut (fst (Tasks.add m t)) = {[tid t]} ∪ lut m ∧ objs (fst (Tasks.add m t)) = objs m.
Proof. intros Hc. unfold Tasks.add. rewrite Hc. by destruct x. Qed.

Lemma launch t s0 s1 s2 t0 x r :
  (b_tm s1 = b_tm s0 ∧ b_rr s1 = b_rr s0) → same_thread t0 t → t_core t = into_shared x →
  tid t0 = b_tid s0 → t_state t0 = Ready → objs (b_tm s0) !! b_tid s0 = None →
  add_built_task t s1 = Ret (s2, r) → r = Ok tt ∧ spawned s0 s2 t.
Proof.
  intros [Htm Hrr] [Hid Hst] Hcore Ht0 Hs0 Hfresh Hadd. unfold add_built_task in Hadd.
  destruct (add_task_ptr _ _ _) as [m rr] eqn:E. injection Hadd as <- <-. split; [done|].
  rewrite Htm, Hrr in E.
  pose proof (add_shared (set_objs (b_tm s0) (<[tid t := t]> (objs (b_tm s0)))) t _ Hcore) as Hadd.
  split; cbn [b_tm b_rr]; [congruence|congruence|..].
  - rewrite <- E. apply step_spawn; [by rewrite Hid, Ht0|congruence].
  - apply pair_equal_spec in E as [<- _]. rewrite (proj1 Hadd). set_solver.
  - apply pair_equal_spec in E as [<- _]. rewrite (proj2 Hadd). apply lookup_insert_eq.
  - by apply pair_equal_spec in E as [_ <-].
Qed.

(** [finishes t0 m]: a quiet step that returns a finished task of the thread. *)
Definition finishes {E} (t0 : Task) (m : M (Build P A) E Task) : Prop :=
  ∀ s s' r, m s = Ret (s', r) → (b_tm s' = b_tm s ∧ b_rr s' = b_rr s) ∧
    ∀ t, r = Ok t → same_thread t0 t ∧ ∃ x, t_core t = into_shared x.

Lemma finish_finishes {S} t0 (b : TaskBuilder S) nt :
  same_thread t0 (inner b) →
  same_thread t0 (finish_task b nt) ∧ ∃ x, t_core (finish_task b nt) = into_shared x.
Proof. intros Hb. split; [exact Hb|]. by eexists. Qed.

Lemma code_finishes e t0 (m : B Task) : finishes t0 m → finishes t0 (code e m).
Proof.
  intros Hm s s' r. unfold code. destruct (m s) as [[s1 x]| | |] eqn:E; try done. intros [= <- <-].
  destruct (Hm _ _ _ E) as [Hq Ht]. split; [done|]. intros t Ht'. apply Ht. by destruct x; simplify_eq.
Qed.

Lemma finishes_build {E S} t0 (m : M (Build P A) E (TaskBuilder S))
    (k : TaskBuilder S → M (Build P A) E Task) :
  advances t0 m → (∀ b, same_thread t0 (inner b) → finishes t0 (k b)) → finishes t0 (mthen m k).
Proof.
  intros Hm Hk s s' r [(s1 & b & R1 & R2)|(e & R1 & ->)]%mthen_Ret_inv.
  - destruct (Hm _ _ _ R1) as [[<- <-] Hb]. by eapply Hk; [apply Hb|].
  - destruct (Hm _ _ _ R1) as [Hq _]. done.
Qed.

(** A new builder has the next thread id. *)
Lemma Task_new_spec s : tid (snd (Task_new s)) = b_tid s ∧ t_state (snd (Task_new s)) = Ready.
Proof.
  unfold Task_new, TaskCore_new. cbn. destruct (current_thread (b_tm s)); [|done].
  by destruct (current_pgr (b_tm s)).
Qed.

Lemma from_addr_spec addr s s' b :
  from_addr default_trampoline addr s = Ret (s', Ok b) → tid (inner b) = b_tid s ∧ t_state (inner b) = Ready.
Proof.
  unfold from_addr. pose proof (Task_new_spec s) as Ht. destruct (Task_new s) as [s1 t].
  intros [= _ <-]. exact Ht.
Qed.

Lemma from_bytes_spec bytes s s' b :
  from_bytes default_trampoline bytes s = Ret (s', Ok b) → tid (inner b) = b_tid s ∧ t_state (inner b) = Ready.
Proof.
  unfold from_bytes. pose proof (Task_new_spec s) as Ht. destruct (Task_new s) as [s1 t].
  intros [= _ <-]. exact Ht.
Qed.

Lemma from_fn_spec f s s' b :
  from_fn default_trampoline f s = Ret (s', Ok b) → tid (inner b) = b_tid s ∧ t_state (inner b) = Ready.
Proof.
  unfold from_fn. pose proof (Task_new_spec s) as Ht. destruct (Task_new s) as [s1 t].
  destruct (va_new f); try done. intros [= _ <-]. exact Ht.
Qed.

Lemma build_usr_finishes t0 b : same_thread t0 (inner b) → finishes t0 (build_usr init_usr b : B Task).
Proof.
  intros Hb s s' r. unfold build_usr. intros [(s1 & c & R1 & R2)|(e & R1 & ->)]%mthen_Ret_inv.
  - apply get_core_quiet in R1 as [<- <-].
    destruct (copy_ustack_mappings_into _ _ _) as [[p a]| | |]; try done. cbn [obind] in R2.
    destruct (unmap_ustack_mappings p); try done. cbn [obind] in R2. injection R2 as <- <-.
    split; [done|]. intros t [= <-]. by apply finish_finishes.
  - split; [by apply get_core_quiet in R1|done].
Qed.

Lemma build_kernel_finishes t0 b : same_thread t0 (inner b) → finishes t0 (build_kernel init_kernel b : B Task).
Proof.
  intros Hb s s' r [= <- <-]. split; [done|]. intros t [= <-]. by apply finish_finishes.
Qed.

(** What a call that spawns promises, for every result. *)
Definition spawn_contract (s s' : Build P A) {E X} (r : Result E X) (id : Task → X → Prop) : Prop :=
  match r with
  | Ok x => ∃ t, spawned s s' t ∧ id t x
  | Err _ => b_tm s' = b_tm s ∧ b_rr s' = b_rr s
  end.

Lemma contract_err {E X} s s' (e : E) (id : Task → X → Prop) :
  b_tm s' = b_tm s ∧ b_rr s' = b_rr s → spawn_contract s s' (Err e) id.
Proof. done. Qed.

(** The end of every call: build, add, report.  [hand_over] is [add_built_task],
    as it is or with its error mapped. *)
Lemma contract_last {E X} (mk : M (Build P A) E Task) (hand_over : Task → M (Build P A) E unit)
    (val : Task → X) s0 s s' r t0 :
  (∀ t s1 s2, add_built_task t s1 = Ret (s2, Ok tt) → hand_over t s1 = Ret (s2, Ok tt)) →
  b_tm s = b_tm s0 ∧ b_rr s = b_rr s0 → finishes t0 mk →
  tid t0 = b_tid s0 → t_state t0 = Ready → objs (b_tm s0) !! b_tid s0 = None →
  (let? t := mk in let? _ := hand_over t in mok (val t)) s = Ret (s', r) →
  spawn_contract s0 s' r (λ t x, x = val t).
Proof.
  intros Hh [Hq1 Hq2] Hmk Hid Hst Hfresh [(s1 & t & R1 & R2)|(e' & R1 & ->)]%mthen_Ret_inv.
  - destruct (Hmk _ _ _ R1) as [[Ha Hb] Ht]. destruct (Ht t eq_refl) as [Hsame [x Hx]].
    destruct (add_built_task t s1) as [[s3 y]| | |] eqn:E1; [|done..].
    destruct (launch t s0 s1 s3 t0 x y) as [-> Hsp]; try done; [split; congruence|].
    rewrite (mthen_ok _ _ _ _ _ (Hh _ _ _ E1)) in R2. injection R2 as <- <-. by exists t.
  - destruct (Hmk _ _ _ R1) as [[Ha Hb] _]. split; congruence.
Qed.

Lemma contract_end {X} (mk : M (Build P A) SysErrCode Task) (val : Task → X) e s0 s s' r t0 :
  b_tm s = b_tm s0 ∧ b_rr s = b_rr s0 → finishes t0 mk →
  tid t0 = b_tid s0 → t_state t0 = Ready → objs (b_tm s0) !! b_tid s0 = None →
  (let? t := mk in let? _ := code e (add_built_task t) in mok (val t)) s = Ret (s', r) →
  spawn_contract s0 s' r (λ t x, x = val t).
Proof.
  apply (contract_last mk (λ t, code e (add_built_task t)) val). intros t s1 s2 E.
  unfold code. by rewrite E.
Qed.

(** A prefix that only builds. *)
Lemma contract_quiet {E X Y} (m : M (Build P A) E Y) (k : Y → M (Build P A) E X)
    s0 s s' r (id : Task → X → Prop) :
  b_tm s = b_tm s0 ∧ b_rr s = b_rr s0 → quiet m →
  (∀ y s1, m s = Ret (s1, Ok y) → b_tm s1 = b_tm s0 ∧ b_rr s1 = b_rr s0 → k y s1 = Ret (s', r) →
     spawn_contract s0 s' r id) →
  mthen m k s = Ret (s', r) → spawn_contract s0 s' r id.
Proof.
  intros [Hq1 Hq2] Hm Hk [(s1 & y & R1 & R2)|(e & R1 & ->)]%mthen_Ret_inv.
  - destruct (Hm _ _ _ R1). eapply Hk; [exact R1| |exact R2]. split; congruence.
  - destruct (Hm _ _ _ R1). split; congruence.
Qed.

Lemma contract_build {E X S} t0 (m : M (Build P A) E (TaskBuilder S))
    (k : TaskBuilder S → M (Build P A) E X) s0 s s' r (id : Task → X → Prop) :
  b_tm s = b_tm s0 ∧ b_rr s = b_rr s0 → advances t0 m →
  (∀ b s1, b_tm s1 = b_tm s0 ∧ b_rr s1 = b_rr s0 → same_thread t0 (inner b) → k b s1 = Ret (s', r) →
     spawn_contract s0 s' r id) →
  mthen m k s = Ret (s', r) → spawn_contract s0 s' r id.
Proof.
  intros [Hq1 Hq2] Hm Hk [(s1 & y & R1 & R2)|(e & R1 & ->)]%mthen_Ret_inv.
  - destruct (Hm _ _ _ R1) as [[Ha Hb] Hy]. eapply Hk; [|by apply Hy|exact R2]. split; congruence.
  - destruct (Hm _ _ _ R1) as [[Ha Hb] _]. split; congruence.
Qed.

Lemma check_user_state base len size s s' r :
  check_user (prof := prof) hhdm base len size s = Ret (s', r) → s' = s.
Proof. unfold check_user. destruct (valid_ptr _ _ _ _ _); try done. by intros [= <- _]. Qed.

Lemma check_user_quiet base len size :
  quiet (check_user (prof := prof) hhdm base len size : M (Build P A) SysErrCode unit).
Proof. intros s s' r ->%check_user_state. done. Qed.

(** A checked pointer, then the rest on the same state. *)
Lemma contract_check {X} base len size (k : unit → M (Build P A) SysErrCode X) s s' r id :
  (∀ u, k u s = Ret (s', r) → spawn_contract s s' r id) →
  mthen (check_user (prof := prof) hhdm base len size) k s = Ret (s', r) → spawn_contract s s' r id.
Proof.
  intros Hk. apply contract_quiet; [done|apply check_user_quiet|].
  intros u s1 ->%check_user_state _. apply Hk.
Qed.

Lemma thread_create_spawns start_routine args s s' r :
  objs (b_tm s) !! b_tid s = None →
  sys_thread_create (prof := prof) hhdm user_sel kernel_sel default_trampoline init_usr
    start_routine args s = Ret (s', r) →
  spawn_contract s s' r (λ t id, id = tid t).
Proof.
  intros Hfresh. unfold sys_thread_create. apply contract_check. intros _.
  destruct (current_thread (b_tm s)) as [current|]; [|by intros [= <- <-]].
  destruct (Args_set _ _ _) as [fn_args| | |]; try done. cbn [obind].
  destruct (va_new start_routine) as [e| | |]; try done. cbn [obind].
  apply contract_quiet; [done|apply code_quiet; auto with quiet|]. intros b s1 R1 Hq1.
  assert (Hb : tid (inner b) = b_tid s ∧ t_state (inner b) = Ready).
  { unfold code in R1. destruct (from_addr _ _ _) as [[s2 [b'|]]| | |] eqn:E; try done.
    injection R1 as <- <-. by apply from_addr_spec in E. }
  apply (contract_build (inner b)); [done|apply code_advances, like_existing_advances|].
  intros b2 s2 Hq2 Hb2. apply (contract_end _ tid _ s s2 s' r (inner b)); try done; try apply Hb.
  by apply code_finishes, build_usr_finishes.
Qed.

Lemma spawn_spawns elf_data len s s' r :
  objs (b_tm s) !! b_tid s = None →
  sys_spawn (prof := prof) hhdm phys_offset user_sel kernel_sel default_trampoline fs_open cr3
    elf_parse init_usr read_user elf_data len s = Ret (s', r) →
  spawn_contract s s' r (λ _ u, u = tt).
Proof.
  intros Hfresh. unfold sys_spawn. apply contract_check. intros _.
  apply contract_quiet; [done|apply code_quiet; auto with quiet|]. intros b s1 R1 Hq1.
  assert (Hb : tid (inner b) = b_tid s ∧ t_state (inner b) = Ready).
  { unfold code in R1. destruct (from_bytes _ _ _) as [[s2 [b'|]]| | |] eqn:E; try done.
    injection R1 as <- <-. by apply from_bytes_spec in E. }
  apply (contract_build (inner b)); [done|apply code_advances, default_files_advances|].
  intros b2 s2 Hq2 Hb2. apply (contract_build (inner b2)); [done|apply code_advances, as_usr_advances|].
  intros b3 s3 Hq3 Hb3. apply (contract_end _ (λ _, tt) _ s s3 s' r (inner b)); try done; try apply Hb.
  apply code_finishes, build_usr_finishes. by eapply same_trans.
Qed.

(** The first part of [spawn_process]: a builder of the next thread. *)
Lemma new_builder execute boxes bytes is_builtin arg_data env_data s s1 r :
  (if is_builtin : bool then
     let? _ := container (prof := prof) hhdm arg_data in
     let? _ := container (prof := prof) hhdm env_data in
     let? b := code NoChild (from_fn default_trampoline execute) in
     code NoChild (with_default_files fs_open (with_args b (args_macro boxes)) true)
   else
     let? b := code BadMsg (from_bytes default_trampoline bytes) in
     code BadMsg (with_default_files fs_open b true)) s = Ret (s1, r) →
  (b_tm s1 = b_tm s ∧ b_rr s1 = b_rr s) ∧
  ∀ b, r = Ok b → tid (inner b) = b_tid s ∧ t_state (inner b) = Ready.
Proof.
  assert (Hfirst : ∀ e (m : B (TaskBuilder Init)) (f : TaskBuilder Init → TaskBuilder Init) s s1 r,
    quiet m → (∀ s2 b, m s = Ret (s2, Ok b) → tid (inner b) = b_tid s ∧ t_state (inner b) = Ready) →
    (∀ b, inner (f b) = inner b) →
    (let? b := code e m in code e (with_default_files fs_open (f b) true)) s = Ret (s1, r) →
    (b_tm s1 = b_tm s ∧ b_rr s1 = b_rr s) ∧
    ∀ b, r = Ok b → tid (inner b) = b_tid s ∧ t_state (inner b) = Ready).
  { intros e m f s2 s3 r2 Hm Hid Hf [(s4 & b & R1 & R2)|(e' & R1 & ->)]%mthen_Ret_inv.
    - destruct (code_quiet e m Hm _ _ _ R1) as [<- <-].
      destruct (code_advances e (inner (f b)) _ (default_files_advances (f b) true) _ _ _ R2) as [Hq Hb].
      split; [done|]. intros b' Hb'. destruct (Hb b' Hb') as [-> ->]. rewrite Hf.
      unfold code in R1. destruct (m s2) as [[s5 [b5|]]| | |] eqn:E; try done. injection R1 as <- <-.
      by eapply Hid.
    - split; [by eapply (code_quiet e m Hm)|done]. }
  assert (Hcont : ∀ p s s' r, container (prof := prof) hhdm p s = Ret (s', r) → s' = s ∧ r = Ok tt).
  { intros p s2 s3 r2. unfold container. destruct (valid_ptr _ _ _ _ _); try done. by intros [= <- <-]. }
  destruct is_builtin.
  - intros [(s2 & u & R1 & R2)|(e & R1 & ->)]%mthen_Ret_inv; [|by apply Hcont in R1 as [_ ?]].
    apply Hcont in R1 as [-> _].
    apply mthen_Ret_inv in R2 as [(s3 & u' & R1 & R3)|(e & R1 & ->)]; [|by apply Hcont in R1 as [_ ?]].
    apply Hcont in R1 as [-> _]. revert R3.
    apply (Hfirst NoChild _ (λ b, with_args b (args_macro boxes))); [auto with quiet| |done].
    intros s4 b E. by apply from_fn_spec in E.
  - apply (Hfirst BadMsg _ (λ b, b)); [auto with quiet| |done].
    intros s4 b E. by apply from_bytes_spec in E.
Qed.

Lemma spawn_process_spawns load_fat load_actions read_bin execute boxes path len arg env fd_actions s s' r :
  objs (b_tm s) !! b_tid s = None →
  sys_spawn_process (prof := prof) hhdm phys_offset user_sel kernel_sel kernel_root default_trampoline
    fs_open cr3 elf_parse init_usr init_kernel read_user load_fat load_actions read_bin execute boxes
    path len arg env fd_actions s = Ret (s', r) →
  spawn_contract s s' r (λ t pid, pid = t_pid t).
Proof.
  intros Hfresh. unfold sys_spawn_process. do 4 (apply contract_check; intros _).
  destruct (read_bin _) as [bytes|e]; [|by intros [= <- <-]].
  set (is_builtin := bool_decide _). clearbody is_builtin.
  intros [(s1 & b & R1 & R2)|(e & R1 & ->)]%mthen_Ret_inv.
  2: { apply new_builder in R1 as [Hq _]. done. }
  apply new_builder in R1 as [Hq1 Hb]. specialize (Hb b eq_refl). revert R2.
  apply (contract_build (inner b)); [done|destruct (fat_thin _ =? 0);
    [by apply advances_ok|apply file_actions_advances]|].
  intros b2 s2 Hq2 Hb2. apply (contract_end _ t_pid _ s s2 s' r (inner b)); try done; try apply Hb.
  destruct is_builtin.
  - apply (finishes_build (inner b)).
    + eapply advances_same; [apply code_advances, as_kernel_advances|done].
    + intros b3 Hb3. by apply code_finishes, build_kernel_finishes.
  - apply (finishes_build (inner b)).
    + eapply advances_same; [apply code_advances, as_usr_advances|done].
    + intros b3 Hb3. apply (finishes_build (inner b)).
      * eapply advances_same; [apply code_advances, arg_env_advances|done].
      * intros b4 Hb4. by apply code_finishes, build_usr_finishes.
Qed.

(** Kernel threads, from a builder of the next thread on. *)
Lemma kernel_task_spawns {X} (val : Task → X) (b : TaskBuilder Init) t0 s0 s s' r :
  b_tm s = b_tm s0 ∧ b_rr s = b_rr s0 → same_thread t0 (inner b) →
  tid t0 = b_tid s0 → t_state t0 = Ready → objs (b_tm s0) !! b_tid s0 = None →
  (let? b := as_kernel kernel_sel kernel_root b in
   let? t := build_kernel init_kernel b in
   let? _ := add_built_task t in mok (val t) : B X) s = Ret (s', r) →
  spawn_contract s0 s' r (λ t x, x = val t).
Proof.
  intros Hq Hb Hid Hst Hfresh.
  apply (contract_build (inner b)); [done|apply as_kernel_advances|]. intros b2 s2 Hq2 Hb2.
  apply (contract_last _ add_built_task val s0 s2 s' r t0); try done.
  apply build_kernel_finishes. by eapply same_trans.
Qed.

(** [spawn_fn_with_init], for an [init] that works on the builder. *)
Lemma spawn_fn_spawns func exit init s s' r :
  (∀ b, advances (inner b) (init b : B _)) → objs (b_tm s) !! b_tid s = None →
  spawn_fn_with_init kernel_sel kernel_root default_trampoline init_kernel func exit init s = Ret (s', r) →
  spawn_contract s s' r (λ t x, x = t).
Proof.
  intros Hinit Hfresh. unfold spawn_fn_with_init. apply contract_quiet; [done|auto with quiet|].
  intros b s1 R1 Hq1. apply from_fn_spec in R1 as [Hid Hst].
  apply (contract_build (inner b)); [done|apply (Hinit (with_exit_info b exit))|].
  intros b2 s2 Hq2 Hb2. by apply (kernel_task_spawns id b2 (inner b) s s2 s' r).
Qed.

(** User threads, from a builder of the next thread on. *)
Lemma user_task_spawns {X} (val : Task → X) (b : TaskBuilder Init) t0 s0 s s' r :
  b_tm s = b_tm s0 ∧ b_rr s = b_rr s0 → same_thread t0 (inner b) →
  tid t0 = b_tid s0 → t_state t0 = Ready → objs (b_tm s0) !! b_tid s0 = None →
  (let? b := as_usr (prof := prof) hhdm phys_offset user_sel kernel_sel cr3 elf_parse b in
   let? t := build_usr init_usr b in
   let? _ := add_built_task t in mok (val t) : B X) s = Ret (s', r) →
  spawn_contract s0 s' r (λ t x, x = val t).
Proof.
  intros Hq Hb Hid Hst Hfresh.
  apply (contract_build (inner b)); [done|apply as_usr_advances|]. intros b2 s2 Hq2 Hb2.
  apply (contract_last _ add_built_task val s0 s2 s' r t0); try done.
  apply build_usr_finishes. by eapply same_trans.
Qed.

Lemma with_name_advances {S} (b : TaskBuilder S) name : advances (inner b) (with_name b name : B _).
Proof. unfold with_name. apply with_advances. auto with quiet. Qed.

(** The name and the files of a new builder. *)
Lemma named_contract {X} (b : TaskBuilder Init) name (k : TaskBuilder Init → B X) s0 s s' r id :
  b_tm s = b_tm s0 ∧ b_rr s = b_rr s0 →
  (∀ b2 s2, b_tm s2 = b_tm s0 ∧ b_rr s2 = b_rr s0 → same_thread (inner b) (inner b2) →
     k b2 s2 = Ret (s', r) → spawn_contract s0 s' r id) →
  (let? b := with_name b name in let? b := with_default_files fs_open b true in k b) s = Ret (s', r) →
  spawn_contract s0 s' r id.
Proof.
  intros Hq Hk. apply (contract_build (inner b)); [done|apply with_name_advances|]. intros b1 s1 Hq1 Hb1.
  apply (contract_build (inner b1)); [done|apply default_files_advances|]. intros b2 s2 Hq2 Hb2.
  apply Hk; [done|]. by eapply same_trans.
Qed.

(** The threads the kernel adds for itself. *)
Inductive KernelSpawn : Set :=
| SpawnKtask (func : Z) (name : option str)
| SpawnUsrTask (func : Z) (name : str)
| SpawnUsrTaskAt (addr : Z) (name : str).

Definition run_kernel_spawn (c : KernelSpawn) : B unit :=
  match c with
  | SpawnKtask func (Some name) =>
      add_named_ktask kernel_sel kernel_root default_trampoline fs_open init_kernel func name
  | SpawnKtask func None => add_ktask kernel_sel kernel_root default_trampoline fs_open init_kernel func
  | SpawnUsrTask func name =>
      add_named_usr_task (prof := prof) hhdm phys_offset user_sel kernel_sel default_trampoline fs_open
        cr3 elf_parse init_usr func name
  | SpawnUsrTaskAt addr name =>
      add_named_usr_task_from_addr (prof := prof) hhdm phys_offset user_sel kernel_sel
        default_trampoline fs_open cr3 elf_parse init_usr addr name
  end.

(** They too are one spawn transition, or none. *)
Lemma kernel_spawns c s s' r :
  objs (b_tm s) !! b_tid s = None → run_kernel_spawn c s = Ret (s', r) →
  spawn_contract s s' r (λ _ u, u = tt).
Proof.
  intros Hfresh. destruct c as [func [name|]|func name|addr name]; cbn [run_kernel_spawn].
  all: apply contract_quiet; [done|auto with quiet|]; intros b s1 R1 Hq1.
  all: first [apply from_fn_spec in R1 as [Hid Hst]|apply from_addr_spec in R1 as [Hid Hst]].
  - apply named_contract; [done|]. intros b2 s2 Hq2 Hb2.
    by apply (kernel_task_spawns (λ _, tt) b2 (inner b)).
  - apply (contract_build (inner b)); [done|apply default_files_advances|]. intros b2 s2 Hq2 Hb2.
    by apply (kernel_task_spawns (λ _, tt) b2 (inner b)).
  - apply named_contract; [done|]. intros b2 s2 Hq2 Hb2. by apply (user_task_spawns (λ _, tt) b2 (inner b)).
  - apply named_contract; [done|]. intros b2 s2 Hq2 Hb2. by apply (user_task_spawns (λ _, tt) b2 (inner b)).
Qed.

End Spawn2.

(** ** The stacks of the threads of a process *)

(** The pages of the stack of the [i]-th thread, without its guard page. *)
Definition thread_stack (i : Z) : list Z :=
  region (USER_STACK_START + i * USER_STACK_SIZE + PAGE) (USER_STACK_SIZE - PAGE).

(** The thread's number leaves its stack in user space. *)
Definition low_thread (i : Z) : Prop := 0 <= i ∧ USER_STACK_START + (i + 2) * USER_STACK_SIZE < 2 ^ 47.

Lemma thread_stacks_apart i j pg :
  low_thread i → low_thread j → i ≠ j → pg ∈ thread_stack i → pg ∉ thread_stack j.
Proof.
  intros [Hi Hi'] [Hj Hj'] Hne Hin Hin'.
  assert (Hal : ∀ k, aligned (USER_STACK_START + k * USER_STACK_SIZE + PAGE)).
  { intros k. unfold aligned, USER_STACK_START, USER_STACK_SIZE, PAGE.
    replace (0x10000000 + k * (1024 * 1024) + 4096) with ((65536 + k * 256 + 1) * 4096) by lia.
    apply Z_mod_mult. }
  destruct (decide (i < j)).
  - revert Hin'. refine (region_disjoint _ _ _ _ pg (Hal i) (Hal j) _ _ _ Hin);
      unfold USER_STACK_START, USER_STACK_SIZE, PAGE in *; lia.
  - revert Hin. refine (region_disjoint _ _ _ _ pg (Hal j) (Hal i) _ _ _ Hin');
      unfold USER_STACK_START, USER_STACK_SIZE, PAGE in *; lia.
Qed.

Section UserStack.
Context {P A : Type} `{VirtLaws} `{MapperLaws P A} `{FrameAllocator A}.

Lemma userstack_eq (p : P) (a : A) i :
  low_thread i →
  allocate_userstack p a (USER_STACK_START + i * USER_STACK_SIZE) =
    let! x := map_pages (thread_stack i) (Z.lor (Z.lor WRITABLE PRESENT) USER_ACCESSIBLE) p a in
    let '(p, a, r) := x in
    Ret (p, a, match r with
               | Ok _ => Ok (USER_STACK_START + (i + 1) * USER_STACK_SIZE - 16)
               | Err _ => Err StackNotBuilt
               end).
Proof.
  intros [Hi Hlow]. set (base := USER_STACK_START + i * USER_STACK_SIZE).
  assert (Hal : aligned base).
  { unfold base, aligned, USER_STACK_START, USER_STACK_SIZE, PAGE.
    replace (0x10000000 + i * (1024 * 1024)) with ((65536 + i * 256) * 4096) by lia. apply Z_mod_mult. }
  assert (Hal1 : aligned (base + PAGE)) by (replace PAGE with (PAGE * 1) by lia; by apply aligned_step).
  assert (Hb : 0 <= base ∧ base + 2 * USER_STACK_SIZE < 2 ^ 47).
  { unfold base, USER_STACK_START, USER_STACK_SIZE in *. lia. }
  unfold allocate_userstack. rewrite decide_False by (unfold aligned in Hal; lia).
  rewrite low_add by (unfold USER_STACK_SIZE, PAGE in *; lia). cbn [obind].
  rewrite align_up_aligned by (done || (apply low_canonical; unfold USER_STACK_SIZE, PAGE in *; lia)).
  cbn [obind]. change (align_up USER_STACK_SIZE PAGE) with USER_STACK_SIZE.
  rewrite low_add by (unfold USER_STACK_SIZE in *; lia). cbn [obind].
  rewrite va_diff_le by (unfold USER_STACK_SIZE, PAGE in *; lia). cbn [obind]. unfold map_region.
  rewrite decide_False by (intros Hn; exact (Hn eq_refl)).
  replace (base + USER_STACK_SIZE - (base + PAGE)) with (USER_STACK_SIZE - PAGE) by lia.
  destruct (region_range (base + PAGE) (USER_STACK_SIZE - PAGE)) as (E1 & E2 & E3);
    [done|unfold fits, USER_STACK_SIZE, PAGE in *; lia|].
  rewrite E1. cbn [obind]. rewrite E2. cbn [obind]. rewrite E3.
  replace (stack_top (base + USER_STACK_SIZE)) with (USER_STACK_START + (i + 1) * USER_STACK_SIZE - 16).
  - done.
  - rewrite stack_top_aligned.
    + unfold base. lia.
    + unfold USER_STACK_SIZE in *. lia.
    + unfold base, USER_STACK_START, USER_STACK_SIZE.
      replace (0x10000000 + i * (1024 * 1024) + 1024 * 1024) with ((16777216 + i * 65536 + 65536) * 16) by lia.
      apply Z_mod_mult.
Qed.

(** A stack that was built: new pages, all of them, and nothing else. *)
Lemma userstack_view (p p' : P) (a a' : A) i top :
  low_thread i →
  allocate_userstack p a (USER_STACK_START + i * USER_STACK_SIZE) = Ret (p', a', Ok top) →
  top = USER_STACK_START + (i + 1) * USER_STACK_SIZE - 16 ∧
  (∀ pg, pg ∈ thread_stack i → view p !! pg = None ∧ is_Some (view p' !! pg)) ∧
  (∀ pg, pg ∉ thread_stack i → view p' !! pg = view p !! pg).
Proof.
  intros Hi. rewrite userstack_eq by done.
  destruct (map_pages _ _ p a) as [[[p1 a1] r]| | |] eqn:E; try done. cbn [obind].
  intros [= -> -> Hr]. destruct r as [[]|]; [|done]. injection Hr as <-. split; [done|].
  destruct (map_pages_view _ _ _ _ _ _ _ E) as (m & Hv & Hd & Hin & Hall). rewrite Hv. split.
  - intros pg Hpg. destruct (Hall eq_refl pg Hpg) as [f Hf]. split.
    + by eapply map_disjoint_Some_l.
    + exists f. by apply lookup_union_Some_l.
  - intros pg Hpg. rewrite lookup_union. destruct (m !! pg) eqn:Em; [|by rewrite (left_id None _)].
    exfalso. apply Hpg, Hin. by rewrite Em.
Qed.

End UserStack.

Lemma align_up_multiple i :
  0 <= i * USER_STACK_SIZE < 2 ^ 47 → align_up (i * USER_STACK_SIZE) PAGE = i * USER_STACK_SIZE.
Proof.
  intros Hr. destruct (page_round (i * USER_STACK_SIZE)) as [Hal Hb]; [lia|unfold PAGE; lia|].
  unfold aligned, PAGE, USER_STACK_SIZE in *. Z.to_euclidean_division_equations. lia.
Qed.

Section Threads.
Context {prof : Profile} {P A : Type} `{VirtLaws} `{PageIncl} `{MapperLaws P A} `{FrameAllocator A}
  `{RootTable P} `{Hardware P}.
Context (user_sel kernel_sel : Z * Z).
Implicit Types s : Build P A.

(** The kernel-stack step changes only the stacks. *)
Lemma kstack_frame s s' (top : Z) :
  kstack s = Ret (s', Ok top) → b_cores s' = b_cores s ∧ b_mem s' = b_mem s.
Proof.
  unfold kstack. destruct (allocate_kstack _) as [x| | |]; try done. by intros [= <- _].
Qed.

(** Mapping through an owned table stays in that table. *)
Lemma map_pages_owned pages flags (g : P) tp (a : A) p' a' r :
  map_pages pages flags (g, OwnedTable tp) a = Ret (p', a', r) →
  ∃ tp', p' = (g, OwnedTable tp') ∧ root tp' = root tp.
Proof.
  revert tp a. induction pages as [|pg pages IH]; intros tp a; cbn [map_pages].
  { intros [= <- _ _]. by exists tp. }
  destruct (is_ok _); [intros [= <- _ _]; by exists tp|].
  destruct (alloc_frame a) as [[a1 [f|]]| | |]; try done; cbn [obind]; [|intros [= <- _ _]; by exists tp].
  cbn [map_to APageTable_Mapper the_table snd].
  destruct (map_to (table tp) pg f flags a1) as [[p1 a2] [u|u]]; cbn [put_table snd fst].
  - intros (tp' & -> & Hr)%IH. by exists tp'.
  - intros [= <- _ _]. by eexists.
Qed.

Lemma map_pages_global pages flags (g : P) (a : A) p' a' r :
  map_pages pages flags (g, GlobalTable) a = Ret (p', a', r) → snd p' = GlobalTable.
Proof.
  revert g a. induction pages as [|pg pages IH]; intros g a; cbn [map_pages].
  { by intros [= <- _ _]. }
  destruct (is_ok _); [by intros [= <- _ _]|].
  destruct (alloc_frame a) as [[a1 [f|]]| | |]; try done; cbn [obind]; [|by intros [= <- _ _]].
  cbn [map_to APageTable_Mapper the_table snd fst].
  destruct (map_to g pg f flags a1) as [[p1 a2] [u|u]]; cbn [put_table snd fst]; [apply IH|by intros [= <- _ _]].
Qed.

Lemma ustack_owned s s' tp i t' top :
  low_thread i →
  ustack (OwnedTable tp) (USER_STACK_START + i * USER_STACK_SIZE) s = Ret (s', Ok (t', top)) →
  b_cores s' = b_cores s ∧ pagetable (b_stacks s') = pagetable (b_stacks s) ∧
  top = USER_STACK_START + (i + 1) * USER_STACK_SIZE - 16 ∧
  ∃ tp', t' = OwnedTable tp' ∧ root tp' = root tp ∧
    (∀ pg, pg ∈ thread_stack i → view (table tp) !! pg = None ∧ is_Some (view (table tp') !! pg)) ∧
    (∀ pg, pg ∉ thread_stack i → view (table tp') !! pg = view (table tp) !! pg).
Proof.
  intros Hi. unfold ustack.
  destruct (allocate_userstack _ _ _) as [[[p a] r]| | |] eqn:E; try done. cbn [obind].
  intros [= <- Hr]. destruct r as [top'|]; [|done]. injection Hr as <- <-.
  pose proof E as E'. rewrite userstack_eq in E' by done.
  destruct (map_pages _ _ _ _) as [[[p1 a1] r1]| | |] eqn:Em; try done. cbn [obind] in E'.
  injection E' as -> -> _. apply map_pages_owned in Em as (tp' & -> & Hroot).
  destruct (userstack_view _ _ _ _ i top' Hi E) as (Htop & Hin & Hout).
  cbn. split_and!; try done. by exists tp'.
Qed.

(** C11: a new thread of a process gets a stack of its own: with the thread's
    number [i], the pages of the [i]-th stack were unmapped and are mapped
    afterwards, no other page of the process changes, the stack pointer is at
    its top, the pages of other threads' stacks are disjoint from them; the
    thread shares the core (descriptors and page table) of the process, which
    counts one thread more. *)
Theorem thread_gets_own_stack b task core c s s' b' :
  t_core task = Shared core → b_cores s !! core = Some c → low_thread (c_tidx c) →
  like_existing_usr (prof := prof) user_sel kernel_sel b task s = Ret (s', Ok b') →
  let i := c_tidx c in
  usr_stack_top (marker b') = USER_STACK_START + (i + 1) * USER_STACK_SIZE - 16 ∧
  t_core (inner b') = Shared core ∧ u_rip (marker b') = tb_entry b ∧
  ∃ tp tp' c', c_pagedir c = OwnedTable tp ∧ b_cores s' !! core = Some c' ∧
    c_pagedir c' = OwnedTable tp' ∧ u_cr3 (marker b') = root tp ∧ root tp' = root tp ∧
    c_tidx c' = i + 1 ∧ c_fds c' = c_fds c ∧ c_pid c' = c_pid c ∧
    (∀ pg, pg ∈ thread_stack i → view (table tp) !! pg = None ∧ is_Some (view (table tp') !! pg)) ∧
    (∀ pg, pg ∉ thread_stack i → view (table tp') !! pg = view (table tp) !! pg) ∧
    (∀ j pg, low_thread j → j ≠ i → pg ∈ thread_stack i → pg ∉ thread_stack j).
Proof.
  intros Hcore Hc Hi. unfold like_existing_usr. rewrite Hcore. cbn [try_clone deref]. rewrite Hc. intros Hrun.
  run_inv Hrun. apply kstack_frame in Hrun0 as [Hcs _]. cbn [b_cores set_cores] in Hcs.
  destruct ustack_range as (Hu & _). rewrite Hu in Hrun. cbn [obind] in Hrun.
  set (i := c_tidx c) in *. destruct Hi as [Hi0 Hlow].
  assert (Hr : 0 <= i * USER_STACK_SIZE < 2 ^ 47).
  { unfold USER_STACK_START, USER_STACK_SIZE in *. lia. }
  unfold umul, uadd in Hrun. rewrite uarith_in_range in Hrun by (unfold in_usize, USIZE_MAX; lia).
  cbn [obind] in Hrun. rewrite uarith_in_range in Hrun by (unfold in_usize, USIZE_MAX, PAGE; lia).
  cbn [obind] in Hrun. rewrite align_up_multiple in Hrun by done.
  rewrite low_add in Hrun by (unfold USER_STACK_START, USER_STACK_SIZE in *; lia). cbn [obind] in Hrun.
  run_inv Hrun. destruct a0 as [tbl usr_end].
  assert (Hi : low_thread i) by (by split).
  destruct (c_pagedir c) as [|tp] eqn:Hpd.
  - exfalso. unfold ustack in Hrun0. rewrite userstack_eq in Hrun0 by done.
    destruct (map_pages _ _ _ _) as [[[p1 a1] r1]| | |] eqn:Em; try done. cbn [obind] in Hrun0.
    apply map_pages_global in Em. injection Hrun0 as <- Hr1. destruct r1; [|done].
    injection Hr1 as <- _. rewrite Em in Hrun. run_inv Hrun. done.
  - apply (ustack_owned _ _ _ i) in Hrun0 as (Hcs1 & _ & -> & tp' & -> & Hroot & Hin & Hout); [|done].
    run_inv Hrun. injection Hrun as <- <-. unfold with_core in Hrun0. injection Hrun0 as <-.
    cbn [core_ref inner t_core set_ustack set_kstack set_core deref b_cores TaskBuild.set_cores usr_stack_top
         marker UsrTaskInfo_new u_rip u_cr3].
    rewrite Hcs1, Hcs, lookup_alter_eq, lookup_insert_eq. split_and!; try done.
    eexists tp, tp', _. split; [done|]. split; [done|]. cbn. split_and!; try done.
    + unfold wrap64, wrap. rewrite Z.mod_small; [done|]. unfold USER_STACK_SIZE in Hr. lia.
    + intros j pg Hj Hne Hpg. by apply (thread_stacks_apart i j).
Qed.

End Threads.

(** ** The files of a new process *)

(** The effect of an action on the table of the child, given the parent's. *)
Definition action_spec (fs_open : str → Z → Result SysErrCode ptr) (read_user : Z → Z → list u8)
    (parent child : FDMap) (act : FDAction) : Result SysErrCode FDMap :=
  match act with
  | FDOpenAct config fd =>
      match fs_open (read_user (fat_thin (fdopen_path config)) (fat_size (fdopen_path config)))
              (fdopen_flags config) with
      | Ok f => Ok (<[fd := f]> child)
      | Err e => Err e
      end
  | FDClose fd => Ok (delete fd child)
  | FDDup from to =>
      match child !! from with Some f => Ok (<[to := f]> child) | None => Err NoFile end
  | FDClear => Ok ∅
  | FDInherit from to =>
      match parent !! from with Some f => Ok (<[to := f]> child) | None => Err NoFile end
  end.

Fixpoint actions_spec (fs_open : str → Z → Result SysErrCode ptr) (read_user : Z → Z → list u8)
    (parent child : FDMap) (acts : list FDAction) : Result SysErrCode FDMap :=
  match acts with
  | [] => Ok child
  | act :: acts =>
      match action_spec fs_open read_user parent child act with
      | Ok child => actions_spec fs_open read_user parent child acts
      | Err e => Err e
      end
  end.

Lemma override_union (t : FDMap) (files : list (Z * ptr)) :
  NoDup files.*1 → override_table t files = list_to_map files ∪ t.
Proof.
  unfold override_table. revert t. induction files as [|[fd f] files IH]; intros t Hnd; cbn [foldl].
  { change (t = ∅ ∪ t). by rewrite (left_id_L ∅ (∪)). }
  cbn [fmap list_fmap fst] in Hnd. apply NoDup_cons in Hnd as [Hfd Hnd]. rewrite IH by done.
  rewrite list_to_map_cons, <- insert_union_l, insert_union_r; [done|].
  by apply not_elem_of_list_to_map_1.
Qed.

Lemma in_order_map (t : FDMap) : list_to_map (in_order t) = t ∧ NoDup (in_order t).*1.
Proof.
  assert (Hp : in_order t ≡ₚ map_to_list t) by apply merge_sort_Permutation.
  assert (Hnd : NoDup (in_order t).*1) by (rewrite Hp; apply NoDup_fst_map_to_list).
  split; [|done]. rewrite (list_to_map_proper _ _ Hnd Hp). apply list_to_map_to_list.
Qed.

Section Files.
Context {P A : Type}.
Context (fs_open : str → Z → Result SysErrCode ptr) (read_user : Z → Z → list u8).
Implicit Types s : Build P A.

Lemma with_core_fds {S} (b : TaskBuilder S) s c (f : FDMap → FDMap) :
  b_cores s !! core_ref b = Some c →
  with_core b (λ c, set_c_fds c (f (c_fds c))) s =
    Ret (TaskBuild.set_cores s (<[core_ref b := set_c_fds c (f (c_fds c))]> (b_cores s)), Ok tt).
Proof.
  intros Hc. unfold with_core. do 3 f_equal. apply map_eq. intros k.
  destruct (decide (k = core_ref b)) as [->|Hne].
  - by rewrite lookup_alter_eq, lookup_insert_eq, Hc.
  - by rewrite lookup_alter_ne, lookup_insert_ne by done.
Qed.

(** One action, on the child's core [c]. *)
Lemma file_action_spec {S} (b : TaskBuilder S) act s cur c cp :
  b_cores s !! core_ref b = Some c → current_thread (b_tm s) = Some cur →
  b_cores s !! deref (t_core cur) = Some cp →
  file_action fs_open read_user b act s =
    match action_spec fs_open read_user (c_fds cp) (c_fds c) act with
    | Ok t => Ret (TaskBuild.set_cores s (<[core_ref b := set_c_fds c t]> (b_cores s)), Ok b)
    | Err e => Ret (s, Err e)
    end.
Proof.
  intros Hc Hcur Hcp.
  assert (Hf : ∀ f : FDMap → FDMap, code NoFile (let? _ := with_core b (λ c, set_c_fds c (f (c_fds c))) in mok b) s =
    Ret (TaskBuild.set_cores s (<[core_ref b := set_c_fds c (f (c_fds c))]> (b_cores s)), Ok b)).
  { intros f. unfold code. rewrite (mthen_ok _ _ _ _ _ (with_core_fds b s c f Hc)). done. }
  destruct act as [config fd|fd|from to|from to|]; cbn [file_action action_spec].
  - destruct (fs_open _ _); [apply (Hf (λ t, <[fd := _]> t))|done].
  - apply (Hf (delete fd)).
  - assert (Hg : code NoFile (get_file b from) s = Ret (s, Ok (c_fds c !! from))).
    { unfold code, get_file, mthen, get_core. by rewrite Hc. }
    rewrite (mthen_ok _ _ _ _ _ Hg). destruct (c_fds c !! from) as [f|]; [apply (Hf (λ t, <[to := f]> t))|done].
  - rewrite Hcur, Hcp. unfold fd_get. destruct (c_fds cp !! from) as [f|]; [apply (Hf (λ t, <[to := f]> t))|done].
  - apply (Hf (λ _, ∅)).
Qed.

Lemma file_actions_spec {S} (b : TaskBuilder S) acts s cur c cp :
  b_cores s !! core_ref b = Some c → current_thread (b_tm s) = Some cur →
  b_cores s !! deref (t_core cur) = Some cp → deref (t_core cur) ≠ core_ref b →
  match actions_spec fs_open read_user (c_fds cp) (c_fds c) acts with
  | Ok t => file_actions fs_open read_user b acts s =
      Ret (TaskBuild.set_cores s (<[core_ref b := set_c_fds c t]> (b_cores s)), Ok b)
  | Err e => ∃ s', file_actions fs_open read_user b acts s = Ret (s', Err e)
  end.
Proof.
  revert s c. induction acts as [|act acts IH]; intros s c Hc Hcur Hcp Hne; cbn [file_actions].
  { cbn. unfold mok. do 2 f_equal. destruct c, s. cbn in *. unfold TaskBuild.set_cores. cbn.
    f_equal. by rewrite insert_id. }
  pose proof (file_action_spec b act s cur c cp Hc Hcur Hcp) as Hact.
  cbn [actions_spec]. destruct (action_spec _ _ _ _ act) as [t|e].
  - rewrite (mthen_ok _ _ _ _ _ Hact).
    set (s1 := TaskBuild.set_cores s (<[core_ref b := set_c_fds c t]> (b_cores s))) in *.
    specialize (IH s1 (set_c_fds c t)). cbn [c_fds set_c_fds] in IH.
    assert (E1 : b_cores s1 !! core_ref b = Some (set_c_fds c t)) by apply lookup_insert_eq.
    assert (E2 : b_cores s1 !! deref (t_core cur) = Some cp) by (cbn; by rewrite lookup_insert_ne).
    specialize (IH E1 Hcur E2 Hne). destruct (actions_spec _ _ _ t acts) as [t'|e]; [|done].
    rewrite IH. unfold TaskBuild.set_cores. cbn. by rewrite insert_insert_eq.
  - rewrite (mthen_err _ _ _ _ _ Hact). eauto.
Qed.

(** C25: the descriptors of a spawned process are the ones the abstract table
    says: it starts with the parent's table, then each action opens, closes,
    duplicates within the child, inherits from the parent or clears, in order,
    and the first action that fails decides the error of the call; no other
    core changes, and nothing here panics or blocks. *)
Theorem spawn_files_spec {S} (b : TaskBuilder S) acts s cur c cp :
  b_cores s !! core_ref b = Some c → c_fds c = ∅ → current_thread (b_tm s) = Some cur →
  b_cores s !! deref (t_core cur) = Some cp → deref (t_core cur) ≠ core_ref b →
  let run := (let? b := code BadMsg (with_default_files fs_open b true) in
              file_actions fs_open read_user b acts) s in
  match actions_spec fs_open read_user (c_fds cp) (c_fds cp) acts with
  | Ok t => run = Ret (TaskBuild.set_cores s (<[core_ref b := set_c_fds c t]> (b_cores s)), Ok b)
  | Err e => ∃ s', run = Ret (s', Err e)
  end.
Proof.
  intros Hc Hempty Hcur Hcp Hne. cbv zeta.
  set (s1 := TaskBuild.set_cores s (<[core_ref b := set_c_fds c (c_fds cp)]> (b_cores s))).
  assert (E : code BadMsg (with_default_files fs_open b true) s = Ret (s1, Ok b)).
  { unfold code, with_default_files. rewrite Hcur, Hcp. unfold override_files.
    rewrite (mthen_ok _ _ _ _ _ (with_core_fds b s c (λ t, override_table t (in_order (c_fds cp))) Hc)).
    destruct (in_order_map (c_fds cp)) as [Hm Hnd]. cbn [obind mok fst snd].
    rewrite override_union, Hm, Hempty, (right_id_L ∅ (∪)) by done. done. }
  rewrite (mthen_ok _ _ _ _ _ E).
  pose proof (file_actions_spec b acts s1 cur (set_c_fds c (c_fds cp)) cp) as Hacts.
  cbn [c_fds set_c_fds] in Hacts.
  assert (E1 : b_cores s1 !! core_ref b = Some (set_c_fds c (c_fds cp))) by apply lookup_insert_eq.
  assert (E2 : b_cores s1 !! deref (t_core cur) = Some cp) by (cbn; by rewrite lookup_insert_ne).
  specialize (Hacts E1 Hcur E2 Hne). destruct (actions_spec _ _ _ _ acts) as [t|e]; [|done].
  rewrite Hacts. unfold s1, TaskBuild.set_cores. cbn. by rewrite insert_insert_eq.
Qed.

End Files.

(** ** Arguments and environment *)

(** The bytes that are copied: none behind a null pointer. *)
Definition used (ptr_ : Z) (bytes : list u8) : list u8 := if ptr_ =? 0 then [] else bytes.

Section ArgEnv.
Context {P A : Type} `{VirtLaws} `{PageIncl} `{SupplyLaws P A} `{!RootTable P} `{!Hardware P}
  `{!HardwareLaws P A}.
Context (read_user : Z → Z → list u8).
Implicit Types s : Build P A.

(** The bytes [bytes] are at [addr] in the address space [p]. *)
Definition holds (p : P) (mem : Z → u8) (addr : Z) (bytes : list u8) : Prop :=
  ∀ k, addr <= k < addr + zlen bytes → mem (place p k) = nth (Z.to_nat (k - addr)) bytes (byte 0).

Lemma push_block_spec (p : P) pages mem top ptr_ bytes :
  maps_once p pages → top < 2 ^ 47 →
  let l := used ptr_ bytes in
  zlen l <= top → (∀ k, top - zlen l <= k < top → k - k mod PAGE ∈ pages) →
  ∃ mem', push_block p mem top ptr_ bytes =
      Ret (mem', top - zlen l, if zlen l =? 0 then 0 else top - zlen l) ∧
    holds p mem' (top - zlen l) l ∧
    (∀ y, (∀ k, top - zlen l <= k < top → place p k ≠ y) → mem' y = mem y).
Proof.
  intros Hmap Htop l Hle Hpg. unfold push_block, l, used in *. destruct (ptr_ =? 0); cbn [orb].
  { exists mem. unfold zlen. cbn. rewrite Z.sub_0_r. split; [done|]. split; [|done].
    intros k Hk. unfold zlen in Hk. cbn in Hk. lia. }
  destruct (zlen bytes =? 0) eqn:E0.
  { apply Z.eqb_eq in E0. exists mem. rewrite E0, Z.sub_0_r. split; [done|]. split; [|done].
    intros k Hk. lia. }
  pose proof (zlen_nonneg bytes).
  rewrite va_sub_canonical by (try (left; lia); lia). cbn [obind].
  destruct (store_range p pages mem (top - zlen bytes) bytes) as (mem' & -> & Hin & Hout); [done| |].
  - intros k Hk. apply Hpg. lia.
  - exists mem'. cbn [obind]. split; [done|]. split; [done|].
    intros y Hy. apply Hout. intros k Hk. apply Hy. lia.
Qed.

(** Addresses of the first thread's stack lie on its pages. *)
Lemma ustack_page k :
  USER_STACK_START + PAGE <= k < USER_STACK_START + USER_STACK_SIZE → k - k mod PAGE ∈ ustack_pages.
Proof.
  intros Hk. apply region_elem. exists (Z.to_nat ((k - USER_STACK_START - PAGE) / PAGE)).
  change (npages (USER_STACK_SIZE - PAGE)) with 255%nat.
  assert (0 <= (k - USER_STACK_START - PAGE) / PAGE < 255).
  { unfold USER_STACK_START, USER_STACK_SIZE, PAGE in *. Z.to_euclidean_division_equations. lia. }
  split; [lia|]. rewrite Z2Nat.id by lia. unfold USER_STACK_START, USER_STACK_SIZE, PAGE in *.
  Z.to_euclidean_division_equations. lia.
Qed.

Lemma ustack_pages_len : zlen ustack_pages = 255.
Proof. unfold zlen, ustack_pages, region, pages_from. by rewrite length_fmap, length_seq. Qed.

(** C29: the arguments and the environment of a new process are on its stack:
    the bytes the parent passed are below the top, found through the new
    process's own page table, the argument registers hold the counts and
    their addresses (null for an absent block), the stack pointer starts below
    them, and the kernel's own table is as before.  With room for the tables
    the call succeeds for everything that fits into the stack. *)
Theorem arg_env_spec b argc argv envc envp s c tp :
  b_cores s !! core_ref b = Some c → c_pagedir c = OwnedTable tp →
  maps_once (table tp) ustack_pages →
  (∀ pg, pg ∈ ustack_pages → view (pagetable (b_stacks s)) !! pg = None ∧
                             mappable (pagetable (b_stacks s)) pg) →
  alloc_wf (frames (b_stacks s)) → 3 * 255 <= room (frames (b_stacks s)) →
  usr_stack_top (marker b) = USER_STACK_START + USER_STACK_SIZE - 16 →
  0 <= argc → 0 <= envc → zlen (read_user argv argc) = argc → zlen (read_user envp envc) = envc →
  argc + envc <= USER_STACK_SIZE - PAGE - 16 →
  let top := usr_stack_top (marker b) in
  let la := used argv (read_user argv argc) in
  let le := used envp (read_user envp envc) in
  ∃ s' b', allocate_arg_env read_user b argc argv envc envp s = Ret (s', Ok b') ∧
    tb_args b' = [argc; if zlen la =? 0 then 0 else top - zlen la;
                  envc; if zlen le =? 0 then 0 else top - zlen la - zlen le; 0; 0] ∧
    usr_stack_top (marker b') = top - zlen la - zlen le ∧
    holds (table tp) (b_mem s') (top - zlen la) la ∧
    holds (table tp) (b_mem s') (top - zlen la - zlen le) le ∧
    b_cores s' = b_cores s ∧ view (pagetable (b_stacks s')) = view (pagetable (b_stacks s)).
Proof.
  intros Hc Hpd Hmap Hfree Hwf Hroom Htop Ha0 He0 Hal Hel Hfit top la le.
  assert (Hla : 0 <= zlen la <= argc) by (pose proof (zlen_nonneg la); unfold la, used in *; destruct (argv =? 0);
    [unfold zlen; cbn; lia|lia]).
  assert (Hle : 0 <= zlen le <= envc) by (pose proof (zlen_nonneg le); unfold le, used in *; destruct (envp =? 0);
    [unfold zlen; cbn; lia|lia]).
  assert (Hbound : USER_STACK_START + PAGE <= top - zlen la - zlen le ∧ top < USER_STACK_START + USER_STACK_SIZE).
  { unfold top. rewrite Htop. lia. }
  unfold allocate_arg_env.
  assert (Eg : get_core b s = Ret (s, Ok c)) by (unfold get_core; by rewrite Hc).
  rewrite (mthen_ok _ _ _ _ _ Eg).
  rewrite decide_False by (unfold ISIZE_MAX, USER_STACK_SIZE, PAGE in *; lia).
  rewrite copy_ustack_eq. set (fl := Z.lor _ _). set (g := pagetable (b_stacks s)) in *.
  assert (Hdon : ∀ pg, donor_of s c pg = translate_page (table tp) pg) by (intros pg; unfold donor_of; by rewrite Hpd).
  destruct (copy_pages_total (donor_of s c) ustack_pages fl g (frames (b_stacks s)))
    as (p1 & a1 & E1 & _).
  { apply pages_from_NoDup. } { done. } { rewrite ustack_pages_len. lia. }
  { intros pg Hpg. destruct (Hfree pg Hpg). split; [|done]. rewrite Hdon.
    destruct (proj1 Hmap pg Hpg) as (f & Hf & _). rewrite translate_view in Hf. by destruct (translate_page _ pg). }
  rewrite E1. cbn [obind].
  assert (Hv1 : ∀ pg, pg ∈ ustack_pages → view p1 !! pg = view (table tp) !! pg).
  { intros pg Hpg. rewrite (copy_pages_view (donor_of s c) ustack_pages fl g (frames (b_stacks s)) p1 a1); [|apply pages_from_NoDup| |done].
    - rewrite decide_True, Hdon by done. by rewrite translate_view.
    - intros q Hq. by apply Hfree. }
  assert (Hmap1 : maps_once p1 ustack_pages).
  { split.
    - intros pg Hpg. rewrite Hv1 by done. by apply Hmap.
    - intros pg1 pg2 f Hp1 Hp2. rewrite !Hv1 by done. by apply Hmap. }
  assert (Hplace : ∀ k, k - k mod PAGE ∈ ustack_pages → place p1 k = place (table tp) k).
  { intros k Hk. unfold place. by rewrite Hv1. }
  assert (Hpage : ∀ k, top - zlen la - zlen le <= k < top → k - k mod PAGE ∈ ustack_pages).
  { intros k Hk. apply ustack_page. lia. }
  assert (Hlow : top < 2 ^ 47) by (unfold USER_STACK_START, USER_STACK_SIZE in *; lia).
  assert (Hpos : 0 <= USER_STACK_START + PAGE) by done.
  destruct (push_block_spec p1 ustack_pages (b_mem s) top argv (read_user argv argc)) as (mem1 & E2 & Hh1 & _);
    [done|done|fold la; lia|fold la; intros k Hk; apply Hpage; lia|]. fold la in E2, Hh1.
  fold top. rewrite E2. cbn [obind].
  destruct (push_block_spec p1 ustack_pages mem1 (top - zlen la) envp (read_user envp envc))
    as (mem2 & E3 & Hh2 & Hout2);
    [done|lia|fold le; lia|fold le; intros k Hk; apply Hpage; lia|]. fold le in E3, Hh2, Hout2.
  rewrite E3. cbn [obind].
  rewrite unmap_ustack_eq.
  destruct (unmap_pages_from_view ustack_pages p1) as (p2 & E4 & Hv2); [apply pages_from_NoDup| |].
  { intros pg Hpg. destruct (proj1 Hmap1 pg Hpg) as (f & Hf & _). eauto. }
  rewrite E4. cbn [obind fst]. eexists _, _. split; [done|]. cbn [tb_args marker usr_stack_top set_usr_top b_mem
    set_bmem b_cores b_stacks pagetable set_stacks]. split_and!; try done.
  - intros k Hk. rewrite <- Hplace by (apply Hpage; lia). rewrite Hout2; [by apply Hh1|].
    intros j Hj Heq. apply (place_inj p1 ustack_pages) in Heq; [lia|done|apply Hpage; lia|apply Hpage; lia].
  - intros k Hk. rewrite <- Hplace by (apply Hpage; lia). by apply Hh2.
  - apply map_eq. intros q. rewrite Hv2. case_decide as Hq; [symmetry; by apply Hfree|].
    rewrite (copy_pages_view (donor_of s c) ustack_pages fl g (frames (b_stacks s)) p1 a1); [|apply pages_from_NoDup| |done].
    + by rewrite decide_False.
    + intros q' Hq'. by apply Hfree.
Qed.

End ArgEnv.

(** ** The calls *)

Section Calls.
Context {prof : Profile} {P A : Type} `{VirtOps} `{PageIncl} `{Mapper P A} `{FrameAllocator A}
  `{RootTable P} `{Hardware P}.
Context (hhdm phys_offset : Z) (user_sel kernel_sel : Z * Z) (kernel_root default_trampoline : Z).
Context (fs_open : str → Z → Result SysErrCode ptr) (cr3 : Z * list Z)
  (elf_parse : list u8 → option (Z * option (list ProgramHeader)))
  (init_usr : UsrTaskInfo → Z → list Z → Z) (init_kernel : KTaskInfo → Z → list Z → Z)
  (read_user : Z → Z → list u8) (load_fat : Z → FatPtr) (load_actions : FatPtr → list FDAction)
  (read_bin : str → Result SysErrCode (list u8)) (execute : Z) (boxes : list Z).

Inductive SpawnCall : Set :=
| CallSpawn (elf_data len : Z)
| CallThreadCreate (start_routine args : Z)
| CallSpawnProcess (path len arg env fd_actions : Z).

Definition run_call (c : SpawnCall) : M (Build P A) SysErrCode Z :=
  match c with
  | CallSpawn elf_data len =>
      let? _ := sys_spawn (prof := prof) hhdm phys_offset user_sel kernel_sel default_trampoline
                  fs_open cr3 elf_parse init_usr read_user elf_data len in mok 0
  | CallThreadCreate start_routine args =>
      sys_thread_create (prof := prof) hhdm user_sel kernel_sel default_trampoline init_usr
        start_routine args
  | CallSpawnProcess path len arg env fd_actions =>
      sys_spawn_process (prof := prof) hhdm phys_offset user_sel kernel_sel kernel_root
        default_trampoline fs_open cr3 elf_parse init_usr init_kernel read_user load_fat load_actions
        read_bin execute boxes path len arg env fd_actions
  end.

(** C8: [spawn], [thread_create] and [spawn_process] refine the task manager:
    whatever they do on the way, a call that succeeds is exactly one spawn
    transition of the scheduler's state machine, for a Ready thread with the
    next id, which is at the end of the run queue and is the thread or
    process the call reports; a call that fails changes neither the task
    tables nor the queue. *)
Theorem spawn_call_is_step c s s' r :
  objs (b_tm s) !! b_tid s = None → run_call c s = Ret (s', r) →
  match r with
  | Ok v => ∃ t, spawned s s' t ∧
      v = match c with
          | CallSpawn _ _ => 0
          | CallThreadCreate _ _ => tid t
          | CallSpawnProcess _ _ _ _ _ => t_pid t
          end
  | Err _ => b_tm s' = b_tm s ∧ b_rr s' = b_rr s
  end.
Proof.
  intros Hfresh. destruct c as [elf_data len|start args|path len arg env acts]; cbn [run_call]; intros Hrun.
  - apply mthen_Ret_inv in Hrun as [(s1 & u & R1 & R2)|(e & R1 & ->)];
      apply spawn_spawns in R1; try done.
    injection R2 as <- <-. destruct R1 as (t & Ht & _). by exists t.
  - by apply thread_create_spawns in Hrun.
  - by apply spawn_process_spawns in Hrun.
Qed.

End Calls.

(** ** Findings and examples *)

(** The first process of a running system gets the process id 0, the id the
    boot process has: the counter starts at 0 and processes without a parent
    are given 0 without advancing it. *)
Lemma first_pid_collides {P A} (s : Build P A) cur g :
  b_pid s = 0 → current_thread (b_tm s) = Some cur → tree (b_tm s) !! t_pgrid cur = Some g →
  t_pid cur = 0 → t_pid (snd (Task_new s)) = t_pid cur.
Proof.
  intros Hp Hcur Hg Hpid. unfold Task_new, TaskCore_new. cbn. rewrite Hcur.
  unfold current_pgr. rewrite Hcur. cbn. rewrite Hg. cbn. by rewrite Hpid.
Qed.

(** A program that can not be loaded costs a kernel stack: the slot is taken
    first and no later failure gives it back. *)
Lemma failed_program_leaks_stack {prof : Profile} {P A} `{VirtOps} `{PageIncl} `{Mapper P A}
    `{FrameAllocator A} `{RootTable P} `{Hardware P} hhdm off us ks cr3 parse (b : TaskBuilder Init)
    (s s' : Build P A) top s1 e :
  kstack s = Ret (s1, Ok top) →
  as_usr (prof := prof) hhdm off us ks cr3 parse b s = Ret (s', Err e) →
  in_use (b_stacks s') = in_use (b_stacks s1).
Proof.
  intros Hk. unfold as_usr. rewrite (mthen_ok _ _ _ _ _ Hk). intros Hrun.
  assert (Hn : ∀ s s' r, new_pagedir hhdm off cr3 s = Ret (s', r) → in_use (b_stacks s') = in_use (b_stacks s)).
  { intros s2 s3 r. unfold new_pagedir. destruct (create_new_pagedir _ _ _ _ _ _); try done. by intros [= <- _]. }
  assert (Hu : ∀ t st s s' r, ustack t st s = Ret (s', r) → in_use (b_stacks s') = in_use (b_stacks s)).
  { intros t st s2 s3 r. unfold ustack. destruct (allocate_userstack _ _ _) as [[[p a] x]| | |]; try done.
    by intros [= <- _]. }
  assert (Hl : ∀ en d t s s' r, load_elf (prof := prof) parse en d t s = Ret (s', r) →
    in_use (b_stacks s') = in_use (b_stacks s)).
  { intros en d t s2 s3 r. unfold load_elf. destruct d as [d|]; [|by intros [= <- _]].
    destruct (parse d) as [[x segs]|]; [|by intros [= <- _]]. destruct (va_new x); try done. cbn [obind].
    destruct (apply_elf _ _ _ _ _ _) as [[[[[n o] al] mm] r']| | |]; try done. by intros [= <- _]. }
  apply mthen_Ret_inv in Hrun as [(s2 & tbl & R1 & Hrun)|(e' & R1 & _)]; [|by apply Hn in R1].
  apply Hn in R1. rewrite <- R1. destruct (va_align_up USER_STACK_START); try done. cbn [obind] in Hrun.
  apply mthen_Ret_inv in Hrun as [(s3 & [tbl' ue] & R2 & Hrun)|(e' & R2 & _)]; [|by apply Hu in R2].
  apply Hu in R2. rewrite <- R2. rewrite (mthen_ok _ _ _ _ _ eq_refl) in Hrun.
  destruct (try_get_owned tbl'); [|done].
  apply mthen_Ret_inv in Hrun as [(s4 & [en tp] & R3 & Hrun)|(e' & R3 & _)].
  - apply Hl in R3. apply mthen_Ret_inv in Hrun as [(s5 & u & R4 & Hrun)|(e' & R4 & _)]; [done|].
    unfold mut_core in R4. by destruct (try_mut _).
  - apply Hl in R3. by rewrite R3.
Qed.

(** A process with one thread: its stack is mapped, its core is shared. *)
Definition main_stack : gmap Z Z := list_to_map (zip ustack_pages (pages_from 0x4000000 255)).

Definition sample_core : Core (gmap Z Z) :=
  mkCore (OwnedTable (mkTPT main_stack 0x1000)) 0 5 0 {[0 := 7%positive]} USER_MMAP_START None None Running 1.

Definition sample_thread : Task :=
  mkTask 1 5 0 (Shared 0) Running DataNone 0 0 (Some 0) (Some 0) true.

Definition sample_tm : TaskManager :=
  mkTM 1 {[1]} {[5 := 0]} {[0 := ProcessGroup_new 5 (Process_new sample_thread)]} []
    {[1 := sample_thread]} ∅ [] [] [].

Definition sample_build : Build (gmap Z Z) (list Z) :=
  mkBuild sample_tm 2 6 (fresh_stacks (pages_from 0x8000000 1200)) {[0 := sample_core]} 1 (λ _, byte 0) RR_new.

Definition sample_init_usr (i : UsrTaskInfo) (_ : Z) (_ : list Z) : Z := u_kstack_top i - 752.

Definition sample_create : M (Build (gmap Z Z) (list Z)) SysErrCode Z :=
  run_call (prof := Release) LOW_HHDM LOW_HHDM (0x33, 0x2b) (0x8, 0x10) 0x1000 0xa000
    (λ _ _, Err NoFile) (0, []) (λ _, None) sample_init_usr (λ _ _ _, 0) (λ _ _, []) (λ _, mkFatPtr 0 0)
    (λ _, []) (λ _, Err NoFile) 0 [] (CallThreadCreate 0x401000 77).

Lemma sample_create_ok :
  match sample_create sample_build with Ret (_, Ok v) => v =? 2 | _ => false end = true.
Proof. vm_compute. reflexivity. Qed.

Lemma spawn_call_is_step_witness :
  ∃ s' t, sample_create sample_build = Ret (s', Ok 2) ∧ spawned sample_build s' t ∧ tid t = 2.
Proof.
  pose proof sample_create_ok as Hok. unfold sample_create in *.
  destruct (run_call _ _ _ _ _ _ _ _ _ _ _ _ _ _ _ _ _ _ sample_build) as [[s' [v|e]]| | |] eqn:E;
    try discriminate Hok.
  apply Z.eqb_eq in Hok. subst v.
  destruct (spawn_call_is_step _ _ _ _ _ _ _ _ _ _ _ _ _ _ _ _ _ _ sample_build s' (Ok 2) eq_refl E)
    as (t & Ht & Hv). exists s', t. split; [reflexivity|]. split; [exact Ht|exact (eq_sym Hv)].
Defined.

(** The builder step of the same call. *)
Definition sample_builder : TaskBuilder Init :=
  mkTaskBuilder (mkTask 2 6 0 (Owned 1) Ready DataNone 0 0 None None false) PUnset 0xa000 0x401000
    Args_default None.

Definition sample_like : M (Build (gmap Z Z) (list Z)) ThreadingError (TaskBuilder UsrTaskInfo) :=
  like_existing_usr (prof := Release) (0x33, 0x2b) (0x8, 0x10) sample_builder sample_thread.

Lemma sample_like_ok :
  match sample_like sample_build with Ret (_, Ok _) => true | _ => false end = true.
Proof. vm_compute. reflexivity. Qed.

Lemma thread_gets_own_stack_witness :
  ∃ s' b', sample_like sample_build = Ret (s', Ok b') ∧
    usr_stack_top (marker b') = USER_STACK_START + 2 * USER_STACK_SIZE - 16.
Proof.
  pose proof sample_like_ok as Hok.
  destruct (sample_like sample_build) as [[s' [b'|e]]| | |] eqn:E; try discriminate Hok.
  destruct (thread_gets_own_stack (prof := Release) (P := gmap Z Z) (0x33, 0x2b) (0x8, 0x10) sample_builder sample_thread 0
              sample_core sample_build s' b' eq_refl eq_refl ltac:(by split) E) as (Hu & _).
  exists s', b'. split; [reflexivity|exact Hu].
Defined.

Definition sample_files : Build (gmap Z Z) (list Z) :=
  mkBuild sample_tm 3 7 (fresh_stacks []) {[0 := sample_core;
    1 := mkCore GlobalTable 0 6 0 ∅ 0 None (Some 1) Ready 1]} 2 (λ _, byte 0) RR_new.

Lemma spawn_files_spec_witness :
  ∃ s', (let? b := code BadMsg (with_default_files (λ _ _, Err NoFile) sample_builder true) in
         file_actions (λ _ _, Err NoFile) (λ _ _, []) b [FDDup 0 1; FDClose 0; FDInherit 0 2]) sample_files
        = Ret (s', Ok sample_builder) ∧
    (c_fds <$> b_cores s' !! 1) = Some ({[1 := 7%positive; 2 := 7%positive]} : FDMap).
Proof.
  pose proof (spawn_files_spec (λ _ _, Err NoFile) (λ _ _, []) sample_builder
    [FDDup 0 1; FDClose 0; FDInherit 0 2] sample_files sample_thread
    (mkCore GlobalTable 0 6 0 ∅ 0 None (Some 1) Ready 1) sample_core eq_refl eq_refl eq_refl eq_refl
    ltac:(done)) as Hs.
  eexists. split; [exact Hs|]. vm_compute. reflexivity.
Defined.

(** Two argument bytes and one of the environment. *)
Definition sample_args (ptr_ n : Z) : list u8 :=
  if ptr_ =? 0x500 then [byte 65; byte 66] else [byte 67].

Definition sample_ready : TaskBuilder UsrTaskInfo :=
  mkTaskBuilder sample_thread PUser 0xa000 0x401000 Args_default
    (UsrTaskInfo_new 0x401000 8008 (USER_STACK_START + USER_STACK_SIZE - 16) 0x1000 (0x33, 0x2b) (0x8, 0x10)).

Lemma main_stack_once : maps_once (main_stack : gmap Z Z) ustack_pages.
Proof.
  assert (Hl : length ustack_pages = length (pages_from 0x4000000 255)) by done.
  assert (Hfst : (zip ustack_pages (pages_from 0x4000000 255)).*1 = ustack_pages) by (apply fst_zip; by rewrite Hl).
  assert (Hlook : ∀ i pg, ustack_pages !! i = Some pg → main_stack !! pg = Some (0x4000000 + PAGE * Z.of_nat i)).
  { intros i pg Hi. apply elem_of_list_to_map_1; [rewrite Hfst; apply pages_from_NoDup|].
    apply list_elem_of_lookup_2 with i.
    pose proof (lookup_lt_Some _ _ _ Hi) as Hlt. change (length ustack_pages) with 255%nat in Hlt.
    assert (Hp : pages_from 0x4000000 255 !! i = Some (0x4000000 + PAGE * Z.of_nat i)).
    { unfold pages_from. by rewrite list_lookup_fmap, lookup_seq_lt. }
    by rewrite lookup_zip_with, Hi, Hp. }
  split.
  - intros pg [i Hi]%list_elem_of_lookup_1. exists (0x4000000 + PAGE * Z.of_nat i). split; [by apply Hlook|].
    unfold PAGE. rewrite Z.mul_comm, Z_mod_plus_full. done.
  - intros pg1 pg2 f [i Hi]%list_elem_of_lookup_1 [j Hj]%list_elem_of_lookup_1.
    cbn [view gmap_MapperLaws]. rewrite (Hlook i pg1 Hi), (Hlook j pg2 Hj). intros [= <-] [= Heq].
    assert (i = j) as -> by (unfold PAGE in Heq; lia). congruence.
Qed.

Lemma arg_env_spec_witness :
  ∃ s' b', allocate_arg_env sample_args sample_ready 2 0x500 1 0x600 sample_build = Ret (s', Ok b') ∧
    tb_args b' = [2; USER_STACK_START + USER_STACK_SIZE - 18; 1; USER_STACK_START + USER_STACK_SIZE - 19; 0; 0].
Proof.
  destruct (arg_env_spec sample_args sample_ready 2 0x500 1 0x600 sample_build sample_core
              (mkTPT main_stack 0x1000)) as (s' & b' & E & Hargs & _).
  - reflexivity.
  - reflexivity.
  - exact main_stack_once.
  - intros pg _. split; [reflexivity|exact I].
  - split; [apply pages_from_NoDup|]. apply Forall_forall. intros f (k & _ & ->)%elem_of_pages_from.
    unfold PAGE. rewrite Z.mul_comm, Z_mod_plus_full. reflexivity.
  - vm_compute. discriminate.
  - reflexivity.
  - lia.
  - lia.
  - reflexivity.
  - reflexivity.
  - unfold USER_STACK_SIZE, PAGE. lia.
  - exists s', b'. split; [exact E|exact Hargs].
Defined.
