(* ===== verification/Tty.v ===== *)
(** Character devices: pipes (kernel/src/kernel/devices/tty/mod.rs), the
    keyboard ring (kernel/src/drivers/keyboard/queue.rs), standard input
    (kernel/src/kernel/devices/tty/source.rs), output queues (sink.rs) and
    the translation of keys to bytes (kernel/src/drivers/tty/mod.rs).

    The scancode decoder is a library's: its state and its step are
    arguments. *)
From S2P Require Import Prelude Abi Fd.
Open Scope Z_scope.

(** ** Pipes *)

(** The lock descriptor only names the wait queue. *)
Record Pipe : Type := mkPipe {
  pipe_buf : list u8;
  cap : Z;
  readers : Z;
  writers : Z
}.

Definition Pipe_new (c : Z) : Pipe := mkPipe [] (if decide (0 <= c) then c else USIZE_MAX) 0 0.

Definition inc_handles (p : Pipe) (mode : Z) : Pipe :=
  if contains mode FPerms_WRITE then mkPipe (pipe_buf p) (cap p) (readers p) (wrap64 (writers p + 1))
  else if contains mode FPerms_READ then mkPipe (pipe_buf p) (cap p) (wrap64 (readers p + 1)) (writers p)
  else p.

Definition dec_handles (p : Pipe) (mode : Z) : Pipe :=
  if contains mode FPerms_WRITE then mkPipe (pipe_buf p) (cap p) (readers p) (wrap64 (writers p - 1))
  else if contains mode FPerms_READ then mkPipe (pipe_buf p) (cap p) (wrap64 (readers p - 1)) (writers p)
  else p.

Definition Pipe_write (p : Pipe) (buf : list u8) : Pipe * Result FSError Z :=
  let can_push := saturating_sub (cap p) (zlen (pipe_buf p)) in
  if decide (can_push = 0) then (p, Err (simple StorageFull))
  else
    let can_push := Z.min can_push (zlen buf) in
    (mkPipe (pipe_buf p ++ take (Z.to_nat can_push) buf) (cap p) (readers p) (writers p), Ok can_push).

(** [read] into a buffer; the new buffer is returned. *)
Definition Pipe_read (p : Pipe) (buf : list u8) : Pipe * list u8 * Result FSError Z :=
  if decide (pipe_buf p = [] ∧ writers p = 0) then (p, buf, Err (simple TimedOut))
  else
    let len := Z.min (zlen buf) (zlen (pipe_buf p)) in
    let n := Z.to_nat len in
    (mkPipe (drop n (pipe_buf p)) (cap p) (readers p) (writers p),
     take n (pipe_buf p) ++ drop n buf, Ok len).

(** [on_open], [on_clone] and [on_drop]. *)
Definition Pipe_on_open (p : Pipe) (perms : Z) : Pipe := inc_handles p perms.
Definition Pipe_on_clone (p : Pipe) (perms : Z) : Pipe := inc_handles p perms.
Definition Pipe_on_drop (p : Pipe) (perms : Z) : Pipe := dec_handles p perms.

(** ** Output queues *)

(** [SerialBackend] and [FbBackend]: a queue of bytes. *)
Definition TTYSink_write (q : list u8) (bytes : list u8) : list u8 :=
  foldl (λ q b, q ++ [b]) q bytes.

(** [flush] hands the queued bytes over one by one. *)
Fixpoint TTYSink_flush (q : list u8) (out : list u8) : list u8 * list u8 :=
  match q with
  | [] => ([], out)
  | b :: q => TTYSink_flush q (out ++ [b])
  end.

(** ** The keyboard ring *)

Definition STDIN_QUEUE_SIZE : Z := 50.

Record KeyboardBuffer : Type := mkKB { kb_inner : list u8; kb_count : Z }.

Definition KeyboardBuffer_new : KeyboardBuffer :=
  mkKB (replicate (Z.to_nat STDIN_QUEUE_SIZE) (byte 0)) 0.

Definition kb_index (cursor : Z) : nat := Z.to_nat (cursor mod STDIN_QUEUE_SIZE).

(** [self.inner.get(idx).unwrap()]; the index is below the array's length. *)
Definition kb_put (k : KeyboardBuffer) (element : u8) : KeyboardBuffer :=
  mkKB (<[kb_index (kb_count k) := element]> (kb_inner k)) (wrap64 (kb_count k + 1)).

Definition cursor_is_valid (k : KeyboardBuffer) (cursor : Z) : bool :=
  bool_decide (saturating_sub (kb_count k) STDIN_QUEUE_SIZE <= cursor < kb_count k).

Definition is_up_to_date (k : KeyboardBuffer) (cursor : Z) : bool := bool_decide (kb_count k = cursor).

Definition kb_load (k : KeyboardBuffer) (cursor : Z) : Outcome u8 :=
  match kb_inner k !! kb_index cursor with Some b => Ret b | None => Panic end.

Definition read1 (k : KeyboardBuffer) (cursor : Z) : Outcome (option u8) :=
  if cursor_is_valid k cursor then let! b := kb_load k cursor in Ret (Some b) else Ret None.

(** [readn]: [room] is what is left of the buffer; the bytes read are
    returned. *)
Fixpoint readn (k : KeyboardBuffer) (cursor : Z) (room : nat) : Outcome (list u8) :=
  match room with
  | O => Ret []
  | S room =>
      if cursor_is_valid k cursor then
        let! b := kb_load k cursor in
        let! bs := readn k (cursor + 1) room in
        Ret (b :: bs)
      else Ret []
  end.

Definition get_current (prof : Profile) (k : KeyboardBuffer) : Outcome Z := usub prof (kb_count k) 1.

Definition kb_clear (k : KeyboardBuffer) : KeyboardBuffer := mkKB (kb_inner k) 0.
Definition kb_is_empty (k : KeyboardBuffer) : bool := bool_decide (kb_count k = 0).

(** ** Keys to bytes *)

(** The keys the code distinguishes. *)
Inductive KeyCode : Set :=
| Escape | Backspace | Delete | ArrowUp | ArrowLeft | ArrowDown | ArrowRight | Home | End_ | PageUp
| PageDown | Insert | F1 | F2 | F3 | F4 | F5 | F6 | F7 | F8 | F9 | F10 | F11 | F12 | OtherKey.

Inductive DecodedKey : Set := RawKey (k : KeyCode) | Unicode (c : Z).

Definition ControlCode_ESC : u8 := byte 27.
Definition ControlCode_BS : u8 := byte 8.

(** [write]: the new buffer and the count, -1 when it does not fit. *)
Definition key_write (buf bytes : list u8) : list u8 * Z :=
  if decide (zlen buf < zlen bytes) then (buf, -1)
  else (bytes ++ drop (length bytes) buf, zlen bytes).

Definition esc (s : string) : list u8 := ControlCode_ESC :: lit s.

(** [char::encode_utf8]. *)
Definition utf8_bytes (c : Z) : list u8 :=
  let b z := byte (Z.to_nat z) in
  if decide (c < 0x80) then [b c]
  else if decide (c < 0x800) then [b (0xC0 + c / 64); b (0x80 + c mod 64)]
  else if decide (c < 0x10000) then
    [b (0xE0 + c / 4096); b (0x80 + c / 64 mod 64); b (0x80 + c mod 64)]
  else [b (0xF0 + c / 262144); b (0x80 + c / 4096 mod 64); b (0x80 + c / 64 mod 64); b (0x80 + c mod 64)].

(** The sequence of a raw key, [None] for a key that is not handled. *)
Definition raw_sequence (k : KeyCode) : option (list u8) :=
  match k with
  | Escape => Some [ControlCode_ESC] | Backspace => Some [ControlCode_BS]
  | Delete => Some (esc "[3~") | ArrowUp => Some (esc "[A") | ArrowLeft => Some (esc "[D")
  | ArrowDown => Some (esc "[B") | ArrowRight => Some (esc "[C") | Home => Some (esc "[H")
  | End_ => Some (esc "[F") | PageUp => Some (esc "[5~") | PageDown => Some (esc "[6~")
  | Insert => Some (esc "[2~") | F1 => Some (esc "OP") | F2 => Some (esc "OQ") | F3 => Some (esc "OR")
  | F4 => Some (esc "OS") | F5 => Some (esc "[15~") | F6 => Some (esc "[17~") | F7 => Some (esc "[18~")
  | F8 => Some (esc "[19~") | F9 => Some (esc "[20~") | F10 => Some (esc "[21~") | F11 => Some (esc "[23~")
  | F12 => Some (esc "[24~") | OtherKey => None
  end.

(** [map_key]; [encode_utf8] panics when the buffer is too small. *)
Definition map_key (key : DecodedKey) (buf : list u8) : Outcome (list u8 * Z) :=
  match key with
  | RawKey k => match raw_sequence k with
                | Some bytes => Ret (key_write buf bytes)
                | None => Ret (buf, 0)
                end
  | Unicode c =>
      if decide (zlen buf < zlen (utf8_bytes c)) then Panic
      else Ret (utf8_bytes c ++ drop (length (utf8_bytes c)) buf, zlen (utf8_bytes c))
  end.

(** ** Standard input *)

Section Stdin.
Context (prof : Profile) {D : Type} (parse_scancode : D → u8 → D * Result unit DecodedKey).

(** The translation loop shared by the two [read_buf]s: [buf] is the part
    not yet written. *)
Fixpoint map_loop (d : D) (bytes buf : list u8) (n_mapped : Z) : Outcome (D * list u8 * Z) :=
  match bytes with
  | [] => Ret (d, buf, n_mapped)
  | b :: bytes =>
      let '(d, r) := parse_scancode d b in
      match r with
      | Err _ => map_loop d bytes buf n_mapped
      | Ok key =>
          let! x := map_key key buf in
          let '(buf, mapped) := x in
          if decide (mapped < 0) then Ret (d, buf, n_mapped)
          else
            let n := Z.to_nat mapped in
            let! y := map_loop d bytes (drop n buf) (n_mapped + mapped) in
            let '(d, rest, total) := y in
            Ret (d, take n buf ++ rest, total)
      end
  end.

(** [OwnedStdin] is its cursor. *)
Definition OwnedStdin_new (k : KeyboardBuffer) : Outcome Z := get_current prof k.

Definition OwnedStdin_read (k : KeyboardBuffer) (cursor : Z) : Outcome (Z * option u8) :=
  if is_up_to_date k cursor then Ret (cursor, None)
  else
    let! cursor := if cursor_is_valid k cursor then Ret cursor else get_current prof k in
    let! r := read1 k cursor in
    Ret (match r with Some _ => wrap64 (cursor + 1) | None => cursor end, r).

Definition OwnedStdin_read_buf (k : KeyboardBuffer) (d : D) (self : Z) (buf : list u8) (offset : Z)
    : Outcome (Z * D * list u8 * Z) :=
  let! cursor := uadd prof self offset in
  if is_up_to_date k cursor then Ret (self, d, buf, 0)
  else
    let! self :=
      if cursor_is_valid k cursor then Ret self
      else let! c := get_current prof k in
           Ret (saturating_sub c (Z.min (zlen buf) STDIN_QUEUE_SIZE)) in
    let! scancodes := readn k self (length buf) in
    let self := wrap64 (self + zlen scancodes) in
    let! x := map_loop d scancodes buf 0 in
    let '(d, buf, n) := x in
    Ret (self, d, buf, n).

(** [StdInFileFactory]: one cursor per process. *)
Definition ensure_init (k : KeyboardBuffer) (open_files : gmap Z Z) (pid : Z) : Outcome (gmap Z Z) :=
  match open_files !! pid with
  | Some _ => Ret open_files
  | None => let! c := OwnedStdin_new k in Ret (<[pid := c]> open_files)
  end.

Definition Factory_read (k : KeyboardBuffer) (open_files : gmap Z Z) (current_pid : option Z)
    : Outcome (gmap Z Z * option u8) :=
  match current_pid with
  | None => Ret (open_files, None)
  | Some pid =>
      let! open_files := ensure_init k open_files pid in
      match open_files !! pid with
      | None => Ret (open_files, None)
      | Some c => let! x := OwnedStdin_read k c in
                  let '(c, r) := x in Ret (<[pid := c]> open_files, r)
      end
  end.

Definition Factory_read_buf (k : KeyboardBuffer) (d : D) (open_files : gmap Z Z)
    (current_pid : option Z) (buf : list u8) (offset : Z)
    : Outcome (gmap Z Z * D * list u8 * Result FSError Z) :=
  match current_pid with
  | None => Ret (open_files, d, buf, Err (simple NotFound))
  | Some pid =>
      let! open_files := ensure_init k open_files pid in
      match open_files !! pid with
      | None => Ret (open_files, d, buf, Err (simple NotFound))
      | Some c => let! x := OwnedStdin_read_buf k d c buf offset in
                  let '(c, d, buf, n) := x in Ret (<[pid := c]> open_files, d, buf, Ok n)
      end
  end.

(** [KeyboardBackend]. *)
Definition KeyboardBackend_read (k : KeyboardBuffer) : Outcome (option u8) :=
  let! c := get_current prof k in read1 k c.

(** The first loop of its [read_buf]. *)
Fixpoint backend_collect (k : KeyboardBuffer) (room : nat) : Outcome (list u8) :=
  match room with
  | O => Ret []
  | S room =>
      let! r := KeyboardBackend_read k in
      match r with
      | None => Ret []
      | Some b => let! bs := backend_collect k room in Ret (b :: bs)
      end
  end.

Definition KeyboardBackend_read_buf (k : KeyboardBuffer) (d : D) (buf : list u8)
    : Outcome (D * list u8 * Z) :=
  let! scancodes := backend_collect k (length buf) in
  map_loop d scancodes buf 0.

End Stdin.

(** ** Pipes are bounded queues *)

Inductive PipeOp : Type :=
| PWrite (b : list u8) | PRead (b : list u8) | POpen (perms : Z) | PClone (perms : Z) | PDrop (perms : Z).

(** A pipe with all bytes its writers were told are accepted and all bytes
    its readers received. *)
Definition pipe_op (s : Pipe * list u8 * list u8) (op : PipeOp) : Pipe * list u8 * list u8 :=
  let '(p, accepted, delivered) := s in
  match op with
  | PWrite b => match Pipe_write p b with
                | (p, Ok n) => (p, accepted ++ take (Z.to_nat n) b, delivered)
                | (p, Err _) => (p, accepted, delivered)
                end
  | PRead b => match Pipe_read p b with
               | (p, b, Ok n) => (p, accepted, delivered ++ take (Z.to_nat n) b)
               | (p, _, Err _) => (p, accepted, delivered)
               end
  | POpen m => (Pipe_on_open p m, accepted, delivered)
  | PClone m => (Pipe_on_clone p m, accepted, delivered)
  | PDrop m => (Pipe_on_drop p m, accepted, delivered)
  end.

Definition pipe_inv (c : Z) (s : Pipe * list u8 * list u8) : Prop :=
  let '(p, accepted, delivered) := s in
  accepted = delivered ++ pipe_buf p ∧ cap p = cap (Pipe_new c) ∧ zlen (pipe_buf p) <= cap p.

Lemma handles_frame p m :
  pipe_buf (inc_handles p m) = pipe_buf p ∧ cap (inc_handles p m) = cap p ∧
  pipe_buf (dec_handles p m) = pipe_buf p ∧ cap (dec_handles p m) = cap p.
Proof. unfold inc_handles, dec_handles. by repeat case_match. Qed.

Lemma Pipe_write_spec p b :
  zlen (pipe_buf p) <= cap p →
  let n := Z.min (cap p - zlen (pipe_buf p)) (zlen b) in
  Pipe_write p b =
  if decide (zlen (pipe_buf p) = cap p) then (p, Err (simple StorageFull))
  else (mkPipe (pipe_buf p ++ take (Z.to_nat n) b) (cap p) (readers p) (writers p), Ok n).
Proof.
  intros Hle. unfold Pipe_write, saturating_sub.
  replace (Z.max 0 (cap p - zlen (pipe_buf p))) with (cap p - zlen (pipe_buf p)) by lia.
  repeat case_decide; lia || done.
Qed.

Lemma pipe_op_inv c s op : pipe_inv c s → pipe_inv c (pipe_op s op).
Proof.
  destruct s as [[p acc] del]. intros (Hacc & Hcap & Hle).
  destruct op as [b|b|m|m|m]; cbn [pipe_op].
  - rewrite Pipe_write_spec by done. case_decide; [done|]. cbn [pipe_inv pipe_buf cap].
    split; [by rewrite Hacc, app_assoc|]. split; [done|].
    unfold zlen in *. rewrite length_app, length_take. lia.
  - unfold Pipe_read. case_decide; [done|]. cbn [pipe_inv pipe_buf cap].
    set (n := Z.to_nat (Z.min (zlen b) (zlen (pipe_buf p)))).
    assert (Hn : length (take n (pipe_buf p)) = n) by (unfold n, zlen; rewrite length_take; lia).
    split; [|split; [done|unfold zlen in *; rewrite length_drop; lia]].
    rewrite <-Hn at 1. rewrite take_app_length. by rewrite Hacc, <-app_assoc, take_drop.
  - destruct (handles_frame p m) as (H1 & H2 & _). unfold Pipe_on_open, pipe_inv. by rewrite H1, H2.
  - destruct (handles_frame p m) as (H1 & H2 & _). unfold Pipe_on_clone, pipe_inv. by rewrite H1, H2.
  - destruct (handles_frame p m) as (_ & _ & H1 & H2). unfold Pipe_on_drop, pipe_inv. by rewrite H1, H2.
Qed.

(** C30: a pipe is a bounded first-in first-out queue: after any sequence of
    writes, reads and handle changes, the bytes the writers were told are
    accepted are exactly those delivered so far followed by those still in
    the pipe, which never exceed its capacity; a further write is refused
    exactly when the pipe is full and otherwise takes what fits, and a read
    fails exactly when the pipe is empty and has no writer. *)
Theorem pipe_fifo c ops :
  let '(p, accepted, delivered) := foldl pipe_op (Pipe_new c, [], []) ops in
  accepted = delivered ++ pipe_buf p ∧
  zlen (pipe_buf p) <= cap p ∧ cap p = (if decide (0 <= c) then c else USIZE_MAX) ∧
  (∀ b, (Pipe_write p b).2 =
     if decide (zlen (pipe_buf p) = cap p) then Err (simple StorageFull)
     else Ok (Z.min (cap p - zlen (pipe_buf p)) (zlen b))) ∧
  (∀ b, (Pipe_read p b).2 =
     if decide (pipe_buf p = [] ∧ writers p = 0) then Err (simple TimedOut)
     else Ok (Z.min (zlen b) (zlen (pipe_buf p)))).
Proof.
  assert (Hinv : pipe_inv c (foldl pipe_op (Pipe_new c, [], []) ops)).
  { assert (H0 : pipe_inv c (Pipe_new c, [], [])).
    { split; [done|]. split; [done|]. unfold Pipe_new. cbn [pipe_buf cap].
      change (zlen []) with 0. unfold USIZE_MAX. case_decide; lia. }
    revert H0. generalize (Pipe_new c, @nil u8, @nil u8).
    induction ops as [|op ops IH]; intros s Hs; [done|]. simpl. by apply IH, pipe_op_inv. }
  destruct (foldl pipe_op _ ops) as [[p acc] del]. destruct Hinv as (Hacc & Hcap & Hle).
  do 3 (split; [done|]). split; intros b.
  - rewrite Pipe_write_spec by done. by case_decide.
  - unfold Pipe_read. by case_decide.
Qed.

(** ** The ring keeps the last scancodes *)

Definition kb_of (xs : list u8) : KeyboardBuffer := foldl kb_put KeyboardBuffer_new xs.

Definition ring_inv (xs : list u8) (k : KeyboardBuffer) : Prop :=
  kb_count k = zlen xs ∧ length (kb_inner k) = 50%nat ∧
  ∀ i, (i < length xs)%nat → zlen xs - 50 <= Z.of_nat i → kb_inner k !! kb_index (Z.of_nat i) = xs !! i.

Lemma kb_index_lt i : (kb_index i < 50)%nat.
Proof. unfold kb_index, STDIN_QUEUE_SIZE. pose proof (Z.mod_pos_bound i 50). lia. Qed.

Lemma kb_index_inj i j : 0 <= i → i < j → j - i < 50 → kb_index i ≠ kb_index j.
Proof.
  intros Hi Hij Hd. unfold kb_index, STDIN_QUEUE_SIZE.
  pose proof (Z.mod_pos_bound i 50). pose proof (Z.mod_pos_bound j 50).
  pose proof (Z.div_mod i 50). pose proof (Z.div_mod j 50). lia.
Qed.

Lemma kb_of_inv xs : zlen xs <= USIZE_MAX → ring_inv xs (kb_of xs).
Proof.
  induction xs as [|x xs IH] using rev_ind; intros Hlen.
  { split; [done|]. split; [done|]. simpl. lia. }
  rewrite zlen_app in Hlen. change (zlen [x]) with 1 in Hlen.
  destruct IH as (Hc & Hl & Hr); [lia|].
  unfold kb_of. rewrite foldl_app. cbn [foldl]. fold (kb_of xs). unfold kb_put.
  split; [|split]; cbn [kb_count kb_inner].
  - rewrite Hc, zlen_app. unfold zlen in *. simpl. unfold wrap64, wrap, USIZE_MAX in *.
    apply Z.mod_small. lia.
  - by rewrite length_insert.
  - intros i Hi Hi'. rewrite length_app in Hi. simpl in Hi. rewrite zlen_app in Hi'.
    change (zlen [x]) with 1 in Hi'. rewrite Hc.
    destruct (decide (i = length xs)) as [->|Hne].
    + unfold zlen. rewrite list_lookup_insert_eq by (rewrite Hl; apply kb_index_lt).
      by rewrite list_lookup_middle.
    + rewrite list_lookup_insert_ne by (apply not_eq_sym, kb_index_inj; [lia|unfold zlen; lia|lia]).
      rewrite lookup_app_l by lia. apply Hr; lia.
Qed.

(** A reader of the keyboard ring whose cursor is at most 50 scancodes
    behind gets exactly the scancodes put since, in order, as many as its
    buffer holds, without panicking. *)
Lemma keyboard_ring_reads xs c n :
  zlen xs <= USIZE_MAX → (c <= length xs)%nat → zlen xs - STDIN_QUEUE_SIZE <= Z.of_nat c →
  readn (kb_of xs) (Z.of_nat c) n = Ret (take n (drop c xs)).
Proof.
  intros Hlen. destruct (kb_of_inv xs Hlen) as (Hc & Hl & Hr). unfold STDIN_QUEUE_SIZE.
  revert c. induction n as [|n IH]; intros c Hle Hv; [by rewrite take_0|]. cbn [readn].
  unfold cursor_is_valid, saturating_sub, STDIN_QUEUE_SIZE. rewrite Hc.
  case_bool_decide as Hlt.
  - assert (Hc' : (c < length xs)%nat) by (unfold zlen in *; lia).
    destruct (lookup_lt_is_Some_2 xs c Hc') as [x Hx].
    unfold kb_load. rewrite Hr, Hx by (unfold zlen in *; lia). cbn [obind].
    replace (Z.of_nat c + 1) with (Z.of_nat (S c)) by lia.
    rewrite IH by lia. cbn [obind]. by rewrite (drop_S xs x c) by done.
  - assert (c = length xs) as -> by (unfold zlen in *; lia). by rewrite drop_all.
Qed.

Lemma keyboard_ring_reads_witness :
  readn (kb_of (byte <$> seq 0 120)) 100 30 = Ret (byte <$> seq 100 20).
Proof.
  change (byte <$> seq 100 20) with (take 30 (drop 100 (byte <$> seq 0 120))).
  apply (keyboard_ring_reads (byte <$> seq 0 120) 100 30); vm_compute; congruence || lia.
Defined.

(** Reading the raw keyboard device does not advance anything: every byte of
    the result is the newest scancode. *)
Theorem keyboard_backend_repeats prof xs b n :
  zlen (xs ++ [b]) <= USIZE_MAX → backend_collect prof (kb_of (xs ++ [b])) n = Ret (replicate n b).
Proof.
  intros Hlen. destruct (kb_of_inv (xs ++ [b]) Hlen) as (Hc & Hl & Hr).
  assert (Hz : zlen (xs ++ [b]) = zlen xs + 1) by (by rewrite zlen_app).
  assert (Hread : KeyboardBackend_read prof (kb_of (xs ++ [b])) = Ret (Some b)).
  { unfold KeyboardBackend_read, get_current, usub. pose proof (zlen_nonneg xs).
    rewrite uarith_in_range by (unfold in_usize; lia). cbn [obind].
    unfold read1, cursor_is_valid, saturating_sub, STDIN_QUEUE_SIZE.
    rewrite Hc, bool_decide_eq_true_2 by lia. unfold kb_load.
    replace (zlen (xs ++ [b]) - 1) with (Z.of_nat (length xs)) by (unfold zlen in *; lia).
    rewrite Hr by (rewrite ?length_app; simpl; unfold zlen in *; lia).
    by rewrite list_lookup_middle. }
  induction n as [|n IH]; [done|]. cbn [backend_collect]. rewrite Hread. cbn [obind].
  by rewrite IH.
Qed.

(** A key sequence that fills the buffer exactly, followed by a character,
    panics in the kernel: the [Unicode] arm of [map_key] has no length
    check. *)
Theorem stdin_full_buffer_panics {D} (parse : D → u8 → D * Result unit DecodedKey)
    d d1 d2 b1 b2 k c s bytes buf :
  parse d b1 = (d1, Ok (RawKey k)) → raw_sequence k = Some s → length buf = length s →
  parse d1 b2 = (d2, Ok (Unicode c)) →
  map_loop parse d (b1 :: b2 :: bytes) buf 0 = Panic.
Proof.
  intros H1 Hs Hb H2. cbn [map_loop]. rewrite H1. unfold map_key at 1. rewrite Hs. cbn [obind].
  unfold key_write, zlen. rewrite decide_False by lia. rewrite decide_False by lia.
  rewrite (drop_ge buf) by lia. rewrite app_nil_r, drop_ge by lia. rewrite H2.
  unfold map_key. rewrite decide_True; [done|]. unfold utf8_bytes, zlen.
  repeat case_decide; simpl; lia.
Qed.

(** What is written to an output queue leaves it in order at the next
    flush. *)
Lemma sink_in_order q bytes out :
  TTYSink_flush (TTYSink_write q bytes) out = ([], out ++ q ++ bytes).
Proof.
  assert (Hw : TTYSink_write q bytes = q ++ bytes).
  { unfold TTYSink_write. revert q. induction bytes as [|b bytes IH]; intros q; simpl.
    - by rewrite app_nil_r.
    - by rewrite IH, <-app_assoc. }
  rewrite Hw. generalize (q ++ bytes). clear q bytes Hw. intros l. revert out.
  induction l as [|b l IH]; intros out; simpl; [by rewrite app_nil_r|].
  by rewrite IH, <-app_assoc.
Qed.
