(* ===== verification/WaitCalls.v ===== *)
(** Calls that wait: the wait manager (kernel/src/drivers/wait_manager.rs),
    the waiting part of [read], [waittime], [wait_pid] and [thread_join]
    (kernel/src/kernel/abi/syscalls/funcs.rs), and [JoinHandle]
    (kernel/src/kernel/threading/mod.rs).

    A waiting thread gives the processor away and goes on when the scheduler
    picks it again.  What happens in between is not up to the thread: it is a
    list of [Turn]s, each a function on the state, of which every yield takes
    one.  A call that still waits when the list ends is [NoFuel]. *)
From stdpp Require Import sorting.
From S2P Require Import Prelude Abi Io Fd Listing RamFile FsRepr RamFS VFS Tasks Wait Syscalls.
Open Scope Z_scope.

(** ** State *)

(** [RawJoinHandle]: shared by the handle and the thread it stands for. *)
Record RawJoinHandle : Set := mkRaw { finished : bool; val : option Z }.

Definition RawJoinHandle_default : RawJoinHandle := mkRaw false None.

(** The kernel of Syscalls.v, [WAIT_MANAGER], the keyboard buffer, the
    interrupt flag and the join handles. *)
Record Sched : Type := mkSched {
  s_k : Kernel;
  s_mgr : option WaitObserver;
  s_keys : bool;
  s_if : bool;
  s_joins : gmap ptr RawJoinHandle
}.

Definition s_tm (s : Sched) : TaskManager := k_tm (s_k s).
Definition s_now (s : Sched) : Z := k_millis (s_k s).
Definition s_env (s : Sched) : Env := mkEnv (s_now s) (s_keys s).

Definition set_kernel (s : Sched) (k : Kernel) : Sched :=
  mkSched k (s_mgr s) (s_keys s) (s_if s) (s_joins s).
Definition set_wait (s : Sched) (m : TaskManager) (o : WaitObserver) : Sched :=
  mkSched (set_tm (s_k s) m) (Some o) (s_keys s) (s_if s) (s_joins s).
Definition set_mgr (s : Sched) (o : WaitObserver) : Sched :=
  mkSched (s_k s) (Some o) (s_keys s) (s_if s) (s_joins s).
Definition set_joins (s : Sched) (j : gmap ptr RawJoinHandle) : Sched :=
  mkSched (s_k s) (s_mgr s) (s_keys s) (s_if s) j.

(** One absence from the processor; [t_tries] are the attempts of
    [try_block] that find the task table readable. *)
Record Turn : Type := mkTurn { t_tries : list bool; t_away : Sched → Sched }.

Abbreviation W E := (M (list Turn * Sched) E).

Section calls.
Context {prof : Profile} {E : Type}.

Definition the_state : W E Sched := λ st, Ret (st, Ok (snd st)).
Definition put_state (s : Sched) : W E unit := λ st, Ret ((fst st, s), Ok tt).

(** A computation on the kernel. *)
Definition on_kernel {A} (m : M Kernel E A) : W E A :=
  λ st, let! r := m (s_k (snd st)) in Ret ((fst st, set_kernel (snd st) (fst r)), snd r).

(** ** wait_manager.rs *)

(** [__sys_yield]: the turn ends when the thread runs again. *)
Definition sys_yield_turn : W E unit :=
  λ st, match fst st with
        | [] => NoFuel
        | t :: ts => Ret ((ts, t_away t (snd st)), Ok tt)
        end.

(** [threading::yield_now]: without interrupts it only spins. *)
Definition yield_now : W E unit :=
  let? s := the_state in if s_if s then sys_yield_turn else mok tt.

Definition next_tries (st : list Turn * Sched) : list bool :=
  match fst st with [] => [] | t :: _ => t_tries t end.

Definition add_wait (id : ThreadID) (data : list QueuTypeCondition) : W E (option unit) :=
  λ st, match s_mgr (snd st) with
        | None => Ret (st, Ok None)
        | Some o =>
            let r := enqueue (s_env (snd st)) (s_tm (snd st)) o id data (next_tries st) in
            Ret ((fst st, set_wait (snd st) (fst r) (snd r)), Ok (Some tt))
        end.

Definition mgr_add_queue (q : Queue) (k : QueueType) : W E (option unit) :=
  λ st, match s_mgr (snd st) with
        | None => Ret (st, Ok None)
        | Some o =>
            let r := add_queue o q k in Ret ((fst st, set_mgr (snd st) (fst r)), Ok (snd r))
        end.

(** The [unwrap] of the cell panics before the manager is started. *)
Definition mgr_remove_queue (k : QueueType) : W E unit :=
  λ st, match s_mgr (snd st) with
        | None => Panic
        | Some o => Ret ((fst st, set_mgr (snd st) (remove_queue o k)), Ok tt)
        end.

Definition wait_self (data : list QueuTypeCondition) : W E (option unit) :=
  let? s := the_state in
  let? r := add_wait (current_tid (s_tm s)) data in
  match r with
  | None => mok None
  | Some _ => let? _ := yield_now in mok (Some tt)
  end.

(** [start_wait_managment] up to the thread it spawns: [init_once] keeps the
    manager of an earlier call. *)
Definition start_wait_managment : W E unit :=
  λ st, match s_mgr (snd st) with
        | Some _ => Ret (st, Ok tt)
        | None =>
            match add_queue (mkWaitObserver []) (TimeQ []) QTimer with
            | (_, None) => Panic
            | (o, Some _) =>
                match add_queue o (KeyQ []) QKeyBoard with
                | (_, None) => Panic
                | (o, Some _) => Ret ((fst st, set_mgr (snd st) o), Ok tt)
                end
            end
        end.

(** One round of the manager's thread with the events it finds. *)
Definition manager_round (pending : list QueueType) (s : Sched) : Outcome Sched :=
  match s_mgr s with
  | None => Panic
  | Some o =>
      let r := process_signals (s_env s) (s_tm s) o pending in
      Ret (set_wait s (fst r) (snd r))
  end.

End calls.

(** ** funcs.rs *)

Section syscalls.
Context {prof : Profile} (hhdm : Z) (hash : str → Z).

Abbreviation Sys := (W SysErrCode).

Definition until (timeout : Z) (s : Sched) : QueuTypeCondition :=
  mkQTC QTimer (CTime (wrap64 timeout + s_now s)).

Definition sys_waittime (duration : Z) : Sys unit :=
  let? s := the_state in
  let? r := wait_self [until duration s] in
  mlift (ok_or EWouldBlock r).

Definition process_state (m : TaskManager) (pid : ProcessID) : option TaskState :=
  core ← processes m !! pid; c ← cores m !! core; Some (core_state c).

(** The closure of [wait_pid]: it looks at the tables when it is called. *)
Definition process_gone (m : TaskManager) (pid : Z) : bool :=
  match process_state m pid with
  | None => true
  | Some st => bool_decide (st = Zombie)
  end.

Definition change_of (st : option TaskState) : Z :=
  match st with
  | Some Running | Some Ready => TaskStateChange_WAKEUP
  | Some Blocking | Some Sleeping => TaskStateChange_BLOCK
  | None | Some Zombie => TaskStateChange_EXIT
  end.

(** The common end of [wait_pid] and [thread_join]: a queue of their own,
    the wait, the state afterwards, and the queue removed whatever happened. *)
Definition wait_for (k : QueueType) (data : list QueuTypeCondition)
    (state : Sched → option TaskState) : Sys Z :=
  let? _ := mgr_add_queue (GenQ []) k in
  let? r := wait_self data in
  let? s := the_state in
  let? _ := mgr_remove_queue k in
  match r with
  | None => merr NoProcess
  | Some _ => mok (change_of (state s))
  end.

Definition timeout_cond (timeout : Z) (s : Sched) : list QueuTypeCondition :=
  if 0 <? timeout then [until timeout s] else [].

Definition sys_wait_pid (id timeout w_flags tw_flags : Z) : Sys Z :=
  if negb (contains tw_flags TaskWaitOptions_W_EXIT) then merr Cancelled
  else if timeout =? 0 then mok 0
  else
    let? s := the_state in
    let conditions := timeout_cond timeout s ++ [mkQTC (QProcess id) (CGeneric id process_gone)] in
    if contains w_flags WaitOptions_NOBLOCK then merr EWouldBlock
    else wait_for (QProcess id) conditions (λ s, process_state (s_tm s) id).

(** The task is an [Arc]: its state can be read after it left the table. *)
Definition sys_thread_join (id timeout w_flags tw_flags : Z) : Sys Z :=
  let? s := the_state in
  match thread (s_tm s) id with
  | None => merr NoChild
  | Some _ =>
      if timeout =? 0 then mok 0
      else
        let conditions := timeout_cond timeout s ++ [mkQTC (QThread id) (CThread id tw_flags)] in
        if contains w_flags WaitOptions_NOBLOCK then merr EWouldBlock
        else wait_for (QThread id) conditions (λ s, state_of (s_tm s) id)
  end.

(** [FileRepr::get_waiter] for [File]: the nodes of the file systems have
    none of their own, so a file without a path has none. *)
Definition get_waiter (file : File Repr) : option QueuTypeCondition :=
  p ← path file; Some (mkQTC (QFile (hash p)) CNone).

(** [file.read_continuous] into the user's buffer. *)
Definition read_into (h : ptr) (buf len : Z) : M Kernel SysErrCode Z :=
  let? file := get_handle h in
  let? b := user_bytes buf len in
  λ k, let! r := read_continuous ((k_fs k, file), b) in
       let '(((w, file'), b'), res) := r in
       let k := set_handles (set_fs (set_mem k (mem_write (k_mem k) buf b')) w)
                  (<[h := file']> (k_handles k)) in
       Ret (k, match res with Ok n => Ok n | Err e => Err (FSError_into e) end).

(** The loop of [read]; a waiting round takes a turn, see [sys_read]. *)
Fixpoint read_loop (fuel : nat) (h : ptr) (buf len timeout deadline : Z)
    (conditions : list QueuTypeCondition) : Sys Z :=
  match fuel with
  | O => λ _, NoFuel
  | S fuel =>
      let? n := on_kernel (read_into h buf len) in
      let? s := the_state in
      if (n =? 0) && ((timeout <? 0) || (s_now s <? deadline)) then
        let? r := wait_self conditions in
        match r with
        | None => merr EWouldBlock
        | Some _ => read_loop fuel h buf len timeout deadline conditions
        end
      else mok n
  end.

(** [read]: the fast path of Syscalls.v, then the wait.  The fast path leaves
    the current task and its descriptor as they were. *)
Definition sys_read (fd buf len timeout : Z) : Sys Z :=
  let? r := on_kernel (sys_read_fast hhdm fd buf len timeout) in
  match r with
  | Some n => mok n
  | None =>
      let? s := the_state in
      let? t := on_kernel current_or_err in
      let? h := on_kernel (handle_or_err t fd) in
      let? file := on_kernel (get_handle h) in
      let deadline := wrap64 timeout + s_now s in
      let? more :=
        match get_waiter file with
        | Some c => let? _ := mgr_add_queue (GenQ []) (q_type c) in mok [c]
        | None => mok []
        end in
      let conditions := timeout_cond timeout s ++ more in
      match conditions with
      | [] => merr EWouldBlock
      | _ => λ st, read_loop (S (length (fst st))) h buf len timeout deadline conditions st
      end
  end.

End syscalls.

(** ** threading/mod.rs: [JoinHandle] *)

Record JoinHandle : Set := mkJoin { jh_inner : ptr; jh_task : option ThreadID }.

Definition JoinHandle_default (inner : ptr) : JoinHandle := mkJoin inner None.

Definition attach (self : JoinHandle) (id : ThreadID) : JoinHandle :=
  mkJoin (jh_inner self) (Some id).

(** The error of [wait]: the state data of a thread that ended early. *)
Inductive JoinError : Set := Terminated (d : TaskStateData).

Section join.
Implicit Types self : JoinHandle.

Definition raw_of (s : Sched) self : RawJoinHandle :=
  default RawJoinHandle_default (s_joins s !! jh_inner self).

(** The closure around the spawned function: the value first, then the flag. *)
Definition complete self (v : Z) (s : Sched) : Sched :=
  set_joins s (<[jh_inner self := mkRaw true (Some v)]> (s_joins s)).

Definition is_task_alive self (s : Sched) : option bool :=
  id ← jh_task self; t ← objs (s_tm s) !! id; Some (negb (bool_decide (t_state t = Zombie))).

Definition is_done self (s : Sched) : bool :=
  finished (raw_of s self) ||
  negb (match is_task_alive self s with Some v => v | None => false end).

(** [get_return]: [take] runs whether or not the thread has finished. *)
Definition get_return self (s : Sched) : Sched * option Z :=
  let raw := raw_of s self in
  (set_joins s (<[jh_inner self := mkRaw (finished raw) None]> (s_joins s)),
   if finished raw then val raw else None).

Definition exit_cond self : list QueuTypeCondition :=
  let id := default 0 (jh_task self) in
  [mkQTC (QThread id) (CThread id TaskWaitOptions_W_EXIT)].

Fixpoint wait_loop (fuel : nat) self : W JoinError unit :=
  match fuel with
  | O => λ _, NoFuel
  | S fuel =>
      let? s := the_state in
      if is_done self s then mok tt
      else
        let? _ := add_wait (current_tid (s_tm s)) (exit_cond self) in
        let? _ := yield_now in
        wait_loop fuel self
  end.

Definition JoinHandle_wait self : W JoinError Z :=
  let? s := the_state in
  let? _ := match jh_task self with
            | Some id => if is_done self s then mok None else mgr_add_queue (GenQ []) (QThread id)
            | None => mok None
            end in
  let? _ := (λ st, wait_loop (S (length (fst st))) self st) in
  let? _ := match jh_task self with
            | Some id => mgr_remove_queue (QThread id)
            | None => mok tt
            end in
  let? s := the_state in
  let '(s, r) := get_return self s in
  let? _ := put_state s in
  match r with
  | Some v => mok v
  | None =>
      match id ← jh_task self; objs (s_tm s) !! id with
      | Some t => if bool_decide (t_state t = Zombie) then merr (Terminated (t_data t)) else mpanic
      | None => mpanic
      end
  end.

(** [wait_while]: [f] runs until the thread is done, on a state [S] that has
    the scheduler's in it. *)
Section busy.
Context {S : Type} (sched_of : S → Sched) (waiting : W JoinError Z → M S JoinError Z).

Fixpoint busy_loop (fuel : nat) (f : M S JoinError unit) self : M S JoinError unit :=
  match fuel with
  | O => λ _, NoFuel
  | Datatypes.S fuel => λ st,
      if is_done self (sched_of st) then Ret (st, Ok tt)
      else mthen f (λ _, busy_loop fuel f self) st
  end.

Definition wait_while (fuel : nat) (f : M S JoinError unit) self : M S JoinError Z :=
  let? _ := busy_loop fuel f self in waiting (JoinHandle_wait self).

End busy.

End join.

(** ** Signals only wake *)

(** The threads that slept may be ready now, nothing else differs. *)
Record wakes (m m' : TaskManager) : Prop := {
  wakes_lut : lut m' = lut m;
  wakes_procs : processes m' = processes m;
  wakes_cores : cores m' = cores m;
  wakes_state j : state_of m' j = state_of m j ∨
    (state_of m' j = Some Ready ∧ (state_of m j = Some Blocking ∨ state_of m j = Some Sleeping))
}.

#[export] Instance wakes_preorder : PreOrder wakes.
Proof.
  split.
  - intros m. split; auto.
  - intros m1 m2 m3 [L1 P1 C1 S1] [L2 P2 C2 S2]. split; try congruence.
    intros j. destruct (S1 j) as [E1|[E1 K1]], (S2 j) as [E2|[E2 K2]]; rewrite E2; rewrite ?E1 in *; auto.
Qed.

Lemma wake_wakes m id : wakes m (fst (wake m id)).
Proof.
  assert (E : processes (fst (wake m id)) = processes m ∧ cores (fst (wake m id)) = cores m).
  { unfold wake. destruct (thread m id); [|done]. simpl. by destruct (may_wake _). }
  destruct E as [E1 E2]. split; [apply wake_lut|done|done|].
  intros j. rewrite wake_state. case_decide; [|by left].
  destruct (state_of m j) as [[]|]; auto.
Qed.

Lemma foldl_wakes {A} (f : TaskManager → A → TaskManager) l m :
  (∀ m x, wakes m (f m x)) → wakes m (foldl f m l).
Proof.
  intros Hf. revert m. induction l as [|x l IH]; intros m; simpl; [reflexivity|].
  etrans; [apply Hf|apply IH].
Qed.

Lemma TimeWaitQueue_signal_wakes env m q : wakes m (fst (TimeWaitQueue_signal env m q)).
Proof.
  revert m. induction q as [|[t id] q IH]; intros m; simpl; [reflexivity|].
  case_match; [|reflexivity]. etrans; [apply wake_wakes|apply IH].
Qed.

Lemma queue_signal_wakes env m q : wakes m (fst (queue_signal env m q)).
Proof.
  destruct q as [q|q|q]; unfold queue_signal.
  - pose proof (TimeWaitQueue_signal_wakes env m q) as H. by destruct (TimeWaitQueue_signal env m q).
  - unfold KeyBoardQueue_signal. cbn [fst]. apply foldl_wakes. intros. apply wake_wakes.
  - unfold GenericWaitQueue_signal. cbn [fst]. apply foldl_wakes. intros.
    case_match; [apply wake_wakes|reflexivity].
Qed.

Lemma process_signals_wakes env m o pending : wakes m (fst (process_signals env m o pending)).
Proof.
  revert m o. induction pending as [|k pending IH]; intros m o; simpl; [reflexivity|].
  destruct (q_get (queues o) k) as [q|]; [|apply IH].
  pose proof (queue_signal_wakes env m q) as Hq. destruct (queue_signal env m q) as [m1 q1].
  etrans; [exact Hq|apply IH].
Qed.

(** A thread that was ready or woken is ready afterwards. *)
Lemma wakes_ready m m' j : wakes m m' → state_of m j = Some Ready → state_of m' j = Some Ready.
Proof. intros H Hj. destruct (wakes_state _ _ H j) as [E|[E _]]; congruence. Qed.

Lemma generic_signal_reaches env m q n :
  n ∈ q → node_id n ∈ lut m →
  (∀ m', wakes m m' → is_given env m' (node_cond n) = true) →
  state_of m (node_id n) = Some Blocking →
  state_of (fst (GenericWaitQueue_signal env m q)) (node_id n) = Some Ready.
Proof.
  intros Hn Hl Hg Hs. unfold GenericWaitQueue_signal. cbn [fst].
  assert (Hw : ∀ m x, wakes m (if is_given env m (node_cond x) then fst (wake m (node_id x)) else m)).
  { intros. case_match; [apply wake_wakes|reflexivity]. }
  revert m Hl Hg Hs. induction q as [|x q IH]; intros m Hl Hg Hs; simpl; [by apply not_elem_of_nil in Hn|].
  apply elem_of_cons in Hn as [->|Hn].
  - rewrite Hg by reflexivity. eapply wakes_ready; [apply foldl_wakes, Hw|].
    rewrite wake_state, decide_True by done. by rewrite Hs.
  - destruct (wakes_state _ _ (Hw m x) (node_id n)) as [E|[E _]].
    + apply IH; [done| |intros m' Hm'; apply Hg; etrans; [apply Hw|done]|congruence].
      by rewrite (wakes_lut _ _ (Hw m x)).
    + eapply wakes_ready; [apply foldl_wakes, Hw|done].
Qed.

(** A round that meets the event wakes the thread. *)
Lemma process_signals_reaches env m o pending k q n :
  k ∈ pending → q_get (queues o) k = Some (GenQ q) → n ∈ q → node_id n ∈ lut m →
  (∀ m', wakes m m' → is_given env m' (node_cond n) = true) →
  state_of m (node_id n) = Some Blocking →
  state_of (fst (process_signals env m o pending)) (node_id n) = Some Ready.
Proof.
  intros Hk Hq Hn Hl Hg Hs. revert m o Hl Hg Hs Hq.
  induction pending as [|k' pending IH]; intros m o Hl Hg Hs Hq; simpl; [by apply not_elem_of_nil in Hk|].
  destruct (decide (k' = k)) as [->|Hne].
  - rewrite Hq. pose proof (generic_signal_reaches env m q n Hn Hl Hg Hs) as Hr.
    unfold queue_signal. destruct (GenericWaitQueue_signal env m q) as [m1 q1].
    eapply wakes_ready; [apply process_signals_wakes|exact Hr].
  - apply elem_of_cons in Hk as [->|Hk]; [done|].
    destruct (q_get (queues o) k') as [q'|] eqn:Hq'; [|by apply IH].
    pose proof (queue_signal_wakes env m q') as Hw. destruct (queue_signal env m q') as [m1 q1].
    cbn [fst] in Hw. destruct (wakes_state _ _ Hw (node_id n)) as [E|[E _]].
    + apply IH; [done|by rewrite (wakes_lut _ _ Hw)|intros m' Hm'; apply Hg; by etrans|congruence|].
      cbn [queues]. rewrite q_get_set, decide_False by done. done.
    + eapply wakes_ready; [apply process_signals_wakes|done].
Qed.

(** ** Going to sleep on one condition *)

Definition asleep (m : TaskManager) (c : ThreadID) : TaskManager := update_obj m c (set_state Blocking).

Definition with_node (o : WaitObserver) (k : QueueType) (q : list WaitNode) (n : WaitNode)
    : WaitObserver := mkWaitObserver (q_set (queues o) k (GenQ (q ++ [n]))).

Lemma enqueue_one env m o c k cond q tries t :
  is_given env m cond = false → is_given env (asleep m c) cond = false →
  q_get (queues o) k = Some (GenQ q) → thread m c = Some t → may_block t = true →
  enqueue env m o c [mkQTC k cond] (true :: tries) =
    (asleep m c, with_node o k q (mkWaitNode c cond)).
Proof.
  intros G1 G2 Hq Ht Hb. unfold enqueue, enqueue_all. cbn [q_cond q_type]. rewrite G1, Hq.
  change (take 5 (true :: tries)) with (true :: take 4 tries). cbn [block_retry].
  unfold any_given. cbn [existsb q_cond]. rewrite G1. cbn [orb].
  unfold try_block, try_thread. rewrite Ht, Hb.
  fold (asleep m c). rewrite G2. done.
Qed.

(** The queue [wait_for] uses: an existing one is kept. *)
Definition own_queue (o : WaitObserver) (k : QueueType) : WaitObserver :=
  fst (add_queue o (GenQ []) k).

(** Queues of threads and processes are generic queues. *)
Definition generic_at (o : WaitObserver) (k : QueueType) : Prop :=
  match q_get (queues o) k with Some (GenQ _) | None => True | _ => False end.

Lemma own_queue_get o k : generic_at o k → ∃ q, q_get (queues (own_queue o k)) k = Some (GenQ q).
Proof.
  unfold generic_at, own_queue, add_queue. intros H.
  destruct (q_get (queues o) k) as [[]|] eqn:E; try done; cbn [fst queues].
  - by eexists.
  - exists []. cbn [q_get]. by rewrite decide_True.
Qed.

Lemma q_get_remove o k : q_get (queues (remove_queue o k)) k = None.
Proof.
  unfold remove_queue. cbn [queues]. induction (queues o) as [|[k' q] l IH]; [done|].
  rewrite filter_cons. case_decide as Hd; cbn [fst] in Hd; [|done]. cbn [q_get].
  by rewrite decide_False.
Qed.

(** A wait with the manager running is one turn. *)
Lemma wait_self_runs {E} data tries away ts s o m' o' :
  s_mgr s = Some o → s_if s = true →
  enqueue (s_env s) (s_tm s) o (current_tid (s_tm s)) data tries = (m', o') →
  wait_self (E := E) data (mkTurn tries away :: ts, s) =
    Ret ((ts, away (set_wait s m' o')), Ok (Some tt)).
Proof.
  intros Hm Hi He. unfold wait_self, the_state, mthen, add_wait, next_tries.
  cbn [fst snd t_tries]. rewrite Hm, He. cbn [fst snd].
  unfold yield_now, mthen, the_state. cbn [snd]. unfold set_wait at 1. cbn [s_if]. rewrite Hi.
  done.
Qed.

(** What the others see while the caller sleeps. *)
Definition sleeping_state (s : Sched) (o : WaitObserver) (k : QueueType) (q : list WaitNode)
    (cond : WaitCondition) : Sched :=
  let c := current_tid (s_tm s) in
  set_wait s (asleep (s_tm s) c) (with_node (own_queue o k) k q (mkWaitNode c cond)).

(** A round of the manager's thread with these events. *)
Definition handled (pending : list QueueType) (s : Sched) : Sched :=
  match manager_round pending s with Ret s => s | _ => s end.

Section woken.
Context (s : Sched) (o : WaitObserver) (k : QueueType) (cond : WaitCondition) (t : Task).
Context (state : Sched → option TaskState) (tries : list bool) (away : Sched → Sched).
Let c := current_tid (s_tm s).
Context (Hmgr : s_mgr s = Some o) (Hif : s_if s = true) (Hgen : generic_at o k).
Context (Ht : thread (s_tm s) c = Some t) (Hb : may_block t = true).
Context (G1 : is_given (s_env s) (s_tm s) cond = false).
Context (G2 : is_given (s_env s) (asleep (s_tm s) c) cond = false).

Lemma wait_for_runs :
  ∃ q, q_get (queues (own_queue o k)) k = Some (GenQ q) ∧
    ∀ s3 o3, away (sleeping_state s o k q cond) = s3 → s_mgr s3 = Some o3 →
      wait_for k [mkQTC k cond] state ([mkTurn (true :: tries) away], s) =
        Ret (([], set_mgr s3 (remove_queue o3 k)), Ok (change_of (state s3))).
Proof.
  destruct (own_queue_get o k Hgen) as [q Hq]. exists q. split; [done|].
  intros s3 o3 Haway Ho3.
  unfold wait_for. unfold mgr_add_queue at 1, mthen at 1. cbn [fst snd]. rewrite Hmgr.
  change (fst (add_queue o (GenQ []) k)) with (own_queue o k).
  pose proof (enqueue_one (s_env s) (s_tm s) (own_queue o k) c k cond q tries t G1 G2 Hq Ht Hb) as He.
  erewrite mthen_ok by (eapply (wait_self_runs _ _ _ [] (set_mgr s (own_queue o k))); [done|done|exact He]).
  change (set_wait (set_mgr s _) _ _) with (sleeping_state s o k q cond). rewrite Haway.
  unfold the_state, mgr_remove_queue, mthen. cbn [fst snd]. by rewrite Ho3.
Qed.

(** The wait ends with the caller ready again when, while it sleeps, the
    condition comes true for good and the manager handles the event. *)
Lemma wait_for_woken (dies : Sched → Sched) pending :
  k ∈ pending → (∀ s1, s_mgr (dies s1) = s_mgr s1) →
  (∀ q, let s2 := dies (sleeping_state s o k q cond) in
     state_of (s_tm s2) c = Some Blocking ∧ c ∈ lut (s_tm s2) ∧
     ∀ m', wakes (s_tm s2) m' → is_given (s_env s2) m' cond = true) →
  (∀ s1, away s1 = handled pending (dies s1)) →
  ∃ q s3 o3, wakes (s_tm (dies (sleeping_state s o k q cond))) (s_tm s3) ∧
    state_of (s_tm s3) c = Some Ready ∧
    wait_for k [mkQTC k cond] state ([mkTurn (true :: tries) away], s) =
      Ret (([], set_mgr s3 (remove_queue o3 k)), Ok (change_of (state s3))).
Proof.
  intros Hk Hd Hs Ha. destruct wait_for_runs as (q & Hq & Hrun).
  destruct (Hs q) as (Hbl & Hl & Hg). set (s2 := dies _) in *.
  pose proof (Hd (sleeping_state s o k q cond)) as Hm2. fold s2 in Hm2. cbn [sleeping_state set_wait s_mgr] in Hm2.
  set (o2 := with_node _ _ _ _) in Hm2.
  exists q, (handled pending s2), (snd (process_signals (s_env s2) (s_tm s2) o2 pending)).
  assert (Htm : s_tm (handled pending s2) = fst (process_signals (s_env s2) (s_tm s2) o2 pending)).
  { unfold handled, manager_round. by rewrite Hm2. }
  split; [rewrite Htm; apply process_signals_wakes|]. split.
  - rewrite Htm. apply (process_signals_reaches _ _ _ _ k (q ++ [mkWaitNode c cond]) (mkWaitNode c cond));
      try done; [|apply elem_of_app; right; left].
    unfold o2, with_node. cbn [queues]. rewrite q_get_set, decide_True, Hq by done. done.
  - apply Hrun; [apply Ha|]. unfold handled, manager_round. fold s2. by rewrite Hm2.
Qed.

End woken.

(** ** Waiting for the end of a thread or process *)

Definition thread_dies (id : ThreadID) (s : Sched) : Sched :=
  set_kernel s (set_tm (s_k s) (fst (Tasks.kill (s_tm s) id 0))).

Definition process_dies (pid : ProcessID) (s : Sched) : Sched :=
  set_kernel s (set_tm (s_k s) (fst (kill_process (s_tm s) pid))).

Lemma state_of_asleep m c j :
  state_of (asleep m c) j = if decide (j = c) then (λ _, Blocking) <$> state_of m j else state_of m j.
Proof.
  unfold asleep, state_of. cbn [objs update_obj set_objs]. case_decide; subst.
  - rewrite lookup_alter_eq. by destruct (objs m !! c).
  - by rewrite lookup_alter_ne.
Qed.

Lemma thread_state m id t : thread m id = Some t → id ∈ lut m ∧ state_of m id = Some (t_state t).
Proof. intros [Hl Ht]%thread_Some. split; [done|]. unfold state_of. by rewrite Ht. Qed.

Lemma thread_of_state m id s : id ∈ lut m → state_of m id = Some s → ∃ t, thread m id = Some t ∧ t_state t = s.
Proof.
  unfold thread, state_of. intros Hl. rewrite decide_True by done.
  destruct (objs m !! id) as [t|]; [|done]. intros [= <-]. eauto.
Qed.

Lemma kill_state m id t sig :
  thread m id = Some t →
  lut (fst (Tasks.kill m id sig)) = lut m ∧ state_of (fst (Tasks.kill m id sig)) id = Some Zombie ∧
  ∀ j, j ≠ id → state_of (fst (Tasks.kill m id sig)) j = state_of m j.
Proof.
  intros Ht. unfold Tasks.kill. rewrite Ht. apply thread_Some in Ht as [_ Ht]. cbn [fst].
  change (update ?m (set_state Zombie t)) with (set_zombies m (zombies m ++ [tid t])).
  unfold state_of, update_obj. cbn [set_zombies set_objs lut objs]. split; [done|]. split.
  - by rewrite !lookup_alter_eq, Ht.
  - intros j Hj. by rewrite !lookup_alter_ne.
Qed.

Lemma exit_given env m id :
  is_given env m (CThread id TaskWaitOptions_W_EXIT) =
    match thread m id with Some t => bool_decide (t_state t = Zombie) | None => true end.
Proof.
  unfold is_given. destruct (thread m id); [|done].
  change (contains _ _) with true at 1. change (contains TaskWaitOptions_W_EXIT TaskWaitOptions_W_WAKEUP) with false.
  change (contains TaskWaitOptions_W_EXIT TaskWaitOptions_W_BLOCK) with false. cbn [andb orb].
  by rewrite orb_false_r, orb_false_r.
Qed.

(** The target is dead, the sleeper still sleeps. *)
Lemma dead_while_asleep s o k q cond id c t tc :
  c = current_tid (s_tm s) → id ≠ c →
  thread (s_tm s) id = Some t → thread (s_tm s) c = Some tc →
  let m2 := s_tm (thread_dies id (sleeping_state s o k q cond)) in
  lut m2 = lut (s_tm s) ∧ state_of m2 id = Some Zombie ∧ state_of m2 c = Some Blocking.
Proof.
  intros -> Hne Ht Hc. set (s1 := sleeping_state _ _ _ _ _).
  destruct (thread_state _ _ _ Ht) as [Hl Hs], (thread_state _ _ _ Hc) as [Hlc Hsc].
  assert (E1 : s_tm s1 = asleep (s_tm s) (current_tid (s_tm s))) by done.
  destruct (thread_of_state (s_tm s1) id (t_state t)) as (t1 & Ht1 & _).
  { done. }
  { rewrite E1, state_of_asleep. by rewrite decide_False. }
  destruct (kill_state _ _ _ 0 Ht1) as (K1 & K2 & K3).
  change (s_tm (thread_dies id s1)) with (fst (Tasks.kill (s_tm s1) id 0)). cbv zeta.
  split; [by rewrite K1|]. split; [done|].
  rewrite K3 by done. rewrite E1, state_of_asleep, decide_True, Hsc by done. done.
Qed.

Lemma zombie_given env m id :
  id ∈ lut m → state_of m id = Some Zombie →
  ∀ m', wakes m m' → is_given env m' (CThread id TaskWaitOptions_W_EXIT) = true.
Proof.
  intros Hl Hz m' Hm'. rewrite exit_given.
  destruct (thread_of_state m' id Zombie) as (t' & -> & Ht').
  - by rewrite (wakes_lut _ _ Hm').
  - destruct (wakes_state _ _ Hm' id) as [->|[_ [E|E]]]; [done|congruence|congruence].
  - rewrite Ht'. by apply bool_decide_eq_true.
Qed.

Lemma alive_not_given env m id st :
  id ∈ lut m → state_of m id = Some st → st ≠ Zombie →
  is_given env m (CThread id TaskWaitOptions_W_EXIT) = false.
Proof.
  intros Hl Hs Hz. rewrite exit_given. destruct (thread_of_state m id st) as (t' & -> & Ht'); [done..|].
  rewrite Ht'. by apply bool_decide_eq_false.
Qed.

(** C12: a thread that joins another one sleeps until that thread is killed
    and the manager handles the event, whatever other events come with it:
    the join then returns [EXIT], the caller is ready and the queue is gone. *)
Theorem join_returns_after_exit s o id t tc timeout tries pending away :
  let c := current_tid (s_tm s) in
  s_mgr s = Some o → s_if s = true → generic_at o (QThread id) →
  id ≠ c → thread (s_tm s) id = Some t → t_state t ≠ Zombie →
  thread (s_tm s) c = Some tc → may_block tc = true → timeout < 0 →
  QThread id ∈ pending → (∀ s1, away s1 = handled pending (thread_dies id s1)) →
  ∃ s' o', sys_thread_join id timeout 0 TaskWaitOptions_W_EXIT ([mkTurn (true :: tries) away], s) =
      Ret (([], s'), Ok TaskStateChange_EXIT) ∧
    state_of (s_tm s') c = Some Ready ∧ s_mgr s' = Some o' ∧ q_get (queues o') (QThread id) = None.
Proof.
  intros c Hm Hi Hgen Hne Ht Hz Hc Hb Hto Hk Ha.
  destruct (thread_state _ _ _ Ht) as [Hl Hs], (thread_state _ _ _ Hc) as [Hlc Hsc].
  pose proof (λ q, dead_while_asleep s o (QThread id) q (CThread id TaskWaitOptions_W_EXIT)
    id c t tc eq_refl Hne Ht Hc) as D.
  destruct (wait_for_woken s o (QThread id) (CThread id TaskWaitOptions_W_EXIT) tc
    (λ s, state_of (s_tm s) id) tries away Hm Hi Hgen Hc Hb) with (dies := thread_dies id) (pending := pending)
    as (q & s3 & o3 & Hw & Hr & Hrun); try done.
  - by eapply alive_not_given.
  - eapply (alive_not_given _ _ _ (t_state t)); [done| |done].
    rewrite state_of_asleep. by rewrite decide_False.
  - intros q. destruct (D q) as (D1 & D2 & D3). cbv zeta. split; [done|]. split; [by rewrite D1|].
    apply zombie_given; [by rewrite D1|done].
  - destruct (D q) as (D1 & D2 & _).
    assert (Hz3 : state_of (s_tm s3) id = Some Zombie).
    { destruct (wakes_state _ _ Hw id) as [->|[_ [E|E]]]; [done|congruence|congruence]. }
    exists (set_mgr s3 (remove_queue o3 (QThread id))), (remove_queue o3 (QThread id)).
    split; [|split; [done|split; [done|apply q_get_remove]]].
    unfold sys_thread_join, the_state, mthen. cbn [snd]. rewrite Ht.
    destruct (Z.eqb_spec timeout 0); [lia|]. unfold timeout_cond.
    destruct (Z.ltb_spec 0 timeout); [lia|]. change (contains 0 WaitOptions_NOBLOCK) with false.
    cbn [app]. by rewrite Hrun, Hz3.
Qed.

Lemma kill_frame m id t sig :
  thread m id = Some t →
  let m' := fst (Tasks.kill m id sig) in
  snd (Tasks.kill m id sig) = Some tt ∧ processes m' = processes m ∧ cores m' = cores m ∧
  (∀ j, is_Some (thread m j) → is_Some (thread m' j)).
Proof.
  intros Ht. unfold Tasks.kill. rewrite Ht. cbn [fst snd].
  change (update ?m (set_state Zombie t)) with (set_zombies m (zombies m ++ [tid t])).
  do 3 (split; [done|]). intros j. unfold thread, update_obj. cbn [set_zombies set_objs lut objs].
  case_decide; [|done]. intros [x Hx]. destruct (decide (j = id)) as [->|].
  - rewrite !lookup_alter_eq, Hx. by eexists.
  - rewrite !lookup_alter_ne by done. by eexists.
Qed.

Lemma kill_all_frame m ids c :
  (c ∉ ids) → (∀ i, i ∈ ids → is_Some (thread m i)) →
  ∃ m', kill_all m ids = (m', Some tt) ∧ lut m' = lut m ∧ processes m' = processes m ∧
    cores m' = cores m ∧ state_of m' c = state_of m c.
Proof.
  revert m. induction ids as [|i ids IH]; intros m Hc Hi; cbn [kill_all]; [by exists m|].
  destruct (Hi i) as [t Ht]; [by left|].
  destruct (kill_state m i t 0 Ht) as (L & _ & S), (kill_frame m i t 0 Ht) as (R & P & C & T).
  destruct (Tasks.kill m i 0) as [m1 r]. cbn [fst snd] in *. subst r.
  destruct (IH m1) as (m' & K & L' & P' & C' & S'); [set_solver|intros j Hj; apply T, Hi; by right|].
  exists m'. rewrite K. split; [done|]. rewrite L', P', C', S', L, P, C. repeat split. apply S. set_solver.
Qed.

(** A process whose threads are all in the table, and its core. *)
Definition process_at (m : TaskManager) (pid : ProcessID) (core : Z) (k : TaskCore) (p : Process) : Prop :=
  processes m !! pid = Some core ∧ cores m !! core = Some k ∧
  (∃ g, tree m !! core_pgrid k = Some g ∧ members g !! pid = Some p) ∧
  (∀ i, i ∈ threads p → is_Some (thread m i)).

Lemma process_asleep m pid core k p c :
  process_at m pid core k p → process_at (asleep m c) pid core k p.
Proof.
  intros (H1 & H2 & H3 & H4). split; [done|]. split; [done|]. split; [done|].
  intros i Hi. destruct (H4 i Hi) as [t [Hl Ht]%thread_Some].
  unfold thread, asleep, update_obj. cbn [set_objs lut objs]. rewrite decide_True by done.
  destruct (decide (i = c)) as [->|]; [rewrite lookup_alter_eq, Ht|rewrite lookup_alter_ne, Ht by done]; by eexists.
Qed.

Lemma kill_process_frame m pid core k p c :
  process_at m pid core k p → (c ∉ threads p) →
  let m' := fst (kill_process m pid) in
  lut m' = lut m ∧ process_state m' pid = Some Zombie ∧ state_of m' c = state_of m c.
Proof.
  intros (H1 & H2 & (g & H3 & H3') & H4) Hc. unfold kill_process. rewrite H1. cbn [mbind option_bind].
  rewrite H2. cbn [mbind option_bind]. rewrite H3. cbn [mbind option_bind]. rewrite H3'. cbn [mbind option_bind].
  assert (Hel : ∀ i, i ∈ sorted_elements (threads p) ↔ i ∈ threads p).
  { intros i. unfold sorted_elements. rewrite merge_sort_Permutation. apply elem_of_elements. }
  destruct (kill_all_frame m (sorted_elements (threads p)) c) as (m' & -> & L & P & C & S).
  { by rewrite Hel. }
  { intros i Hi. apply H4. by apply Hel. }
  cbn [fst]. unfold process_state, state_of. cbn [post_event set_process_state set_cores lut processes cores objs].
  split; [done|]. rewrite P, H1. cbn [mbind option_bind]. rewrite lookup_alter_eq, C, H2. done.
Qed.

Lemma process_given env m pid :
  is_given env m (CGeneric pid process_gone) =
    match process_state m pid with Some st => bool_decide (st = Zombie) | None => true end.
Proof. done. Qed.

(** A process that waits for another one sleeps until it is killed and the
    manager handles the event. *)
Lemma wait_pid_returns_after_kill s o pid core k p tc timeout tries pending away :
  let c := current_tid (s_tm s) in
  s_mgr s = Some o → s_if s = true → generic_at o (QProcess pid) →
  process_at (s_tm s) pid core k p → core_state k ≠ Zombie → (c ∉ threads p) →
  thread (s_tm s) c = Some tc → may_block tc = true → timeout < 0 →
  QProcess pid ∈ pending → (∀ s1, away s1 = handled pending (process_dies pid s1)) →
  ∃ s' o', sys_wait_pid pid timeout 0 TaskWaitOptions_W_EXIT ([mkTurn (true :: tries) away], s) =
      Ret (([], s'), Ok TaskStateChange_EXIT) ∧
    state_of (s_tm s') c = Some Ready ∧ s_mgr s' = Some o' ∧ q_get (queues o') (QProcess pid) = None.
Proof.
  intros c Hm Hi Hgen Hp Hz Hnc Hc Hb Hto Hk Ha.
  destruct (thread_state _ _ _ Hc) as [Hlc Hsc].
  assert (D : ∀ q, let m2 := s_tm (process_dies pid (sleeping_state s o (QProcess pid) q (CGeneric pid process_gone))) in
    lut m2 = lut (s_tm s) ∧ process_state m2 pid = Some Zombie ∧ state_of m2 c = Some Blocking).
  { intros q. destruct (kill_process_frame (asleep (s_tm s) c) pid core k p c) as (D1 & D2 & D3); [by apply process_asleep|done|].
    cbv zeta. change (s_tm (process_dies _ _)) with (fst (kill_process (asleep (s_tm s) c) pid)).
    split; [done|]. split; [done|]. rewrite D3, state_of_asleep, decide_True, Hsc by done. done. }
  assert (G : ∀ m, processes m = processes (s_tm s) → cores m = cores (s_tm s) →
    is_given (s_env s) m (CGeneric pid process_gone) = false).
  { intros m P C. rewrite process_given. unfold process_state. destruct Hp as (H1 & H2 & _).
    rewrite P, H1. cbn [mbind option_bind]. rewrite C, H2. cbn [mbind option_bind]. by apply bool_decide_eq_false. }
  assert (K : ∀ m m', wakes m m' → process_state m' pid = process_state m pid).
  { intros m m' Hw. unfold process_state. by rewrite (wakes_procs _ _ Hw), (wakes_cores _ _ Hw). }
  destruct (wait_for_woken s o (QProcess pid) (CGeneric pid process_gone) tc
    (λ s, process_state (s_tm s) pid) tries away Hm Hi Hgen Hc Hb) with (dies := process_dies pid) (pending := pending)
    as (q & s3 & o3 & Hw & Hr & Hrun); try done.
  - by apply G.
  - by apply G.
  - intros q. destruct (D q) as (D1 & D2 & D3). cbv zeta. split; [done|]. split; [by rewrite D1|].
    intros m' Hm'. rewrite process_given, (K _ _ Hm'), D2. by apply bool_decide_eq_true.
  - destruct (D q) as (_ & D2 & _).
    exists (set_mgr s3 (remove_queue o3 (QProcess pid))), (remove_queue o3 (QProcess pid)).
    split; [|split; [done|split; [done|apply q_get_remove]]].
    unfold sys_wait_pid, the_state, mthen. change (negb (contains _ _)) with false.
    destruct (Z.eqb_spec timeout 0); [lia|]. cbn [snd]. unfold timeout_cond.
    destruct (Z.ltb_spec 0 timeout); [lia|]. change (contains 0 WaitOptions_NOBLOCK) with false.
    cbn [app]. by rewrite Hrun, (K _ _ Hw), D2.
Qed.

(** ** Reading with a deadline *)

(** The clock does not move while the file is read. *)
Lemma read_into_millis {prof : Profile} h buf len k k' r :
  read_into h buf len k = Ret (k', r) → k_millis k' = k_millis k.
Proof.
  unfold read_into, mthen, get_handle, user_bytes. intros H.
  destruct (k_handles k !! h) as [file|]; [|done].
  destruct (read_continuous _) as [[[[w f] b'] res]| | |]; [|done..].
  by injection H as <- _.
Qed.

(** One round of the loop of [read]: it returns what the file gave, or, with
    nothing read and time left, waits for one turn and reads again. *)
Lemma read_loop_step {prof : Profile} fuel ts s o h buf len timeout deadline conds k' n :
  s_if s = true → s_mgr s = Some o → read_into h buf len (s_k s) = Ret (k', Ok n) →
  read_loop (S fuel) h buf len timeout deadline conds (ts, s) =
    if (n =? 0) && ((timeout <? 0) || (s_now s <? deadline)) then
      match ts with
      | [] => NoFuel
      | t :: ts =>
          let r := enqueue (s_env (set_kernel s k')) (k_tm k') o (current_tid (k_tm k')) conds (t_tries t) in
          read_loop fuel h buf len timeout deadline conds
            (ts, t_away t (set_wait (set_kernel s k') (fst r) (snd r)))
      end
    else Ret ((ts, set_kernel s k'), Ok n).
Proof.
  intros Hi Ho Hr. cbn [read_loop]. unfold mthen at 1, on_kernel. cbn [snd fst]. rewrite Hr.
  cbn [obind fst snd]. unfold the_state at 1, mthen at 1. cbn [snd].
  unfold s_now at 1. cbn [set_kernel s_k]. rewrite (read_into_millis _ _ _ _ _ _ Hr). fold (s_now s).
  case_match; [|done]. destruct ts as [|[tr aw] ts].
  - unfold wait_self, the_state, add_wait, yield_now, sys_yield_turn, mthen.
    cbn [fst snd set_kernel s_mgr]. rewrite Ho. cbn [fst snd set_wait set_kernel s_if]. unfold the_state. cbn [snd set_wait set_kernel s_if]. by rewrite Hi.
  - cbv zeta. cbn [t_tries t_away].
    destruct (enqueue (s_env (set_kernel s k')) (k_tm k') o (current_tid (k_tm k')) conds tr) as [m' o'] eqn:He.
    erewrite mthen_ok by (by apply (wait_self_runs _ _ _ _ (set_kernel s k') o m' o')). done.
Qed.

(** ** Join handles *)

Definition alive (m : TaskManager) (id : ThreadID) : option bool :=
  (λ st, negb (bool_decide (st = Zombie))) <$> state_of m id.

Lemma is_task_alive_alive self s :
  is_task_alive self s = id ← jh_task self; alive (s_tm s) id.
Proof.
  unfold is_task_alive, alive, state_of. destruct (jh_task self); [|done]. cbn [mbind option_bind].
  by destruct (objs _ !! _).
Qed.

Lemma wake_alive m id j : alive (fst (wake m id)) j = alive m j.
Proof.
  unfold alive. rewrite wake_state. case_decide; [|done]. by destruct (state_of m j) as [[]|].
Qed.

Lemma try_block_alive r m id j : alive (fst (try_block r m id)) j = alive m j.
Proof.
  unfold try_block. destruct (try_thread r m id) as [t|] eqn:Ht; [|done].
  destruct (may_block t) eqn:Hb; [|done]. cbn [fst]. fold (asleep m id).
  unfold alive. rewrite state_of_asleep. case_decide; [subst j|done].
  apply try_thread_Some, thread_state in Ht as [_ ->]. cbn. unfold may_block in Hb.
  by destruct (t_state t).
Qed.

Lemma enqueue_alive env m o id data tries j :
  alive (fst (enqueue env m o id data tries)) j = alive m j.
Proof.
  unfold enqueue. destruct (enqueue_all env m o id data) as [o' []]; [|done]. cbn [fst].
  generalize (take 5 tries). clear tries. intros l. revert m. induction l as [|r l IH]; intros m; cbn [block_retry]; [done|].
  case_match; [done|]. pose proof (try_block_alive r m id j) as Hb.
  destruct (try_block r m id) as [m1 [[]|]]; cbn [fst] in Hb.
  - case_match; [by rewrite wake_alive|done].
  - by rewrite IH.
Qed.

(** Interrupts stay on and the manager stays. *)
Definition keeps (t : Turn) : Prop := ∀ s,
  s_if s = true → is_Some (s_mgr s) → s_if (t_away t s) = true ∧ is_Some (s_mgr (t_away t s)).

(** The state in which the waiting thread leaves the processor, and the one
    it finds after some turns. *)
Definition slept (self : JoinHandle) (t : Turn) (s : Sched) : Sched :=
  match s_mgr s with
  | Some o =>
      let '(m, o) := enqueue (s_env s) (s_tm s) o (current_tid (s_tm s)) (exit_cond self) (t_tries t) in
      set_wait s m o
  | None => s
  end.

Definition absent (self : JoinHandle) (ts : list Turn) (s : Sched) : Sched :=
  foldl (λ s t, t_away t (slept self t s)) s ts.

Lemma wait_loop_step fuel self t ts s :
  s_if s = true → is_Some (s_mgr s) → is_done self s = false →
  wait_loop (S fuel) self (t :: ts, s) = wait_loop fuel self (ts, t_away t (slept self t s)) ∧
    s_if (slept self t s) = true ∧ is_Some (s_mgr (slept self t s)) ∧ is_done self (slept self t s) = false.
Proof.
  intros Hi [o Ho] Hd. unfold slept. rewrite Ho.
  set (r := enqueue (s_env s) (s_tm s) o (current_tid (s_tm s)) (exit_cond self) (t_tries t)).
  rewrite (surjective_pairing r). split; [|split; [done|split; [by eexists|]]].
  - cbn [wait_loop]. unfold the_state at 1, mthen at 1. cbn [snd]. rewrite Hd.
    unfold add_wait, mthen at 1. cbn [snd fst]. rewrite Ho. change (next_tries _) with (t_tries t). fold r.
    unfold yield_now, mthen at 1 2, the_state. cbn [snd fst set_wait s_if]. rewrite Hi. done.
  - unfold is_done in *. rewrite is_task_alive_alive in *. unfold raw_of in *.
    cbn [set_wait s_joins]. change (s_tm (set_wait s (fst r) (snd r))) with (fst r).
    destruct (jh_task self) as [id|]; [|done]. cbn [mbind option_bind] in *. unfold r. by rewrite enqueue_alive.
Qed.

(** Turns in which the thread waited for does not finish. *)
Definition idle (self : JoinHandle) (t : Turn) : Prop :=
  keeps t ∧ ∀ s, is_done self s = false → is_done self (t_away t s) = false.

Lemma wait_loop_runs self pre t post v s :
  Forall (idle self) pre → keeps t → s_if s = true → is_Some (s_mgr s) → is_done self s = false →
  raw_of (absent self (pre ++ [t]) s) self = mkRaw true (Some v) →
  wait_loop (S (length (pre ++ t :: post))) self (pre ++ t :: post, s) =
    Ret ((post, absent self (pre ++ [t]) s), Ok tt) ∧ is_Some (s_mgr (absent self (pre ++ [t]) s)).
Proof.
  intros Hpre Ht. revert s. induction Hpre as [|t0 pre [K0 D0] Hpre IH]; intros s Hi Ho Hd Hv.
  - cbn [app length].
    destruct (wait_loop_step (S (length post)) self t post s Hi Ho Hd) as (-> & I1 & M1 & D1).
    split; [|by apply Ht]. cbn [wait_loop]. unfold the_state, mthen. cbn [snd]. unfold is_done at 1.
    change (absent self ([] ++ [t]) s) with (t_away t (slept self t s)) in Hv. by rewrite Hv.
  - cbn [app length].
    destruct (wait_loop_step (S (length (pre ++ t :: post))) self t0 (pre ++ t :: post) s Hi Ho Hd)
      as (-> & I1 & M1 & D1).
    destruct (K0 _ I1 M1) as [I2 M2]. by apply IH; [| |apply D0|].
Qed.

(** The state in which [wait] starts to wait. *)
Definition with_queue (s : Sched) (id : ThreadID) : Sched :=
  match s_mgr s with
  | Some o => set_mgr s (fst (add_queue o (GenQ []) (QThread id)))
  | None => s
  end.

(** Waiting on a join handle returns the value of the thread once the
    thread has stored it, however many turns that takes, and takes the value
    out; the queue of the thread is removed. *)
Lemma join_handle_returns self id pre t post v s :
  jh_task self = Some id → Forall (idle self) pre → keeps t →
  s_if s = true → is_Some (s_mgr s) → is_done self s = false →
  raw_of (absent self (pre ++ [t]) (with_queue s id)) self = mkRaw true (Some v) →
  ∃ s' o, JoinHandle_wait self (pre ++ t :: post, s) = Ret ((post, s'), Ok v) ∧
    raw_of s' self = mkRaw true None ∧ s_mgr s' = Some o ∧ q_get (queues o) (QThread id) = None.
Proof.
  intros Hid Hpre Ht Hi [o Ho] Hd. unfold with_queue. rewrite Ho.
  set (s1 := set_mgr s (fst (add_queue o (GenQ []) (QThread id)))). intros Hv.
  destruct (wait_loop_runs self pre t post v s1) as [Hrun [o2 M2]]; try done.
  revert Hrun M2 Hv. generalize (absent self (pre ++ [t]) s1). intros s2 Hrun M2 R2.
  exists (fst (get_return self (set_mgr s2 (remove_queue o2 (QThread id))))), (remove_queue o2 (QThread id)).
  split; [|split; [|split; [done|apply q_get_remove]]].
  - unfold JoinHandle_wait, the_state at 1, mthen at 1. cbn [snd]. rewrite Hid, Hd.
    unfold mgr_add_queue, mthen at 1. cbn [snd fst]. rewrite Ho. fold s1.
    unfold mthen at 1. cbn [fst]. rewrite Hrun.
    unfold mgr_remove_queue, mthen at 1. cbn [snd fst]. rewrite M2.
    unfold the_state, mthen at 1. cbn [snd]. unfold get_return at 1.
    change (raw_of (set_mgr s2 _) self) with (raw_of s2 self). rewrite R2. cbn [finished val].
    unfold put_state, mthen. cbn [fst]. unfold get_return. cbn [fst].
    change (raw_of (set_mgr s2 _) self) with (raw_of s2 self). by rewrite R2.
  - unfold get_return. cbn [fst]. unfold raw_of at 1. cbn [set_joins s_joins].
    rewrite lookup_insert_eq. cbn [default]. change (raw_of (set_mgr s2 _) self) with (raw_of s2 self).
    by rewrite R2.
Qed.

(** A second wait finds the flag set and the value gone: while the thread
    has not reached its exit yet, the kernel panics. *)
Lemma second_wait_panics self id s t o :
  jh_task self = Some id → raw_of s self = mkRaw true None → s_mgr s = Some o →
  objs (s_tm s) !! id = Some t → t_state t ≠ Zombie →
  JoinHandle_wait self ([], s) = Panic.
Proof.
  intros Hid Hr Ho Ht Hz. unfold JoinHandle_wait, the_state, mthen. cbn [snd]. rewrite Hid.
  assert (Hd : is_done self s = true) by (unfold is_done; by rewrite Hr).
  rewrite Hd. cbn [mok]. cbn [length fst wait_loop]. unfold the_state, mthen. cbn [snd]. rewrite Hd. cbn [mok].
  unfold mgr_remove_queue. cbn [snd fst]. rewrite Ho. unfold get_return. cbn [snd].
  change (raw_of (set_mgr s _) self) with (raw_of s self). rewrite Hr. cbn [finished val].
  unfold put_state. cbn [mbind option_bind fst]. change (s_tm (set_joins (set_mgr s _) _)) with (s_tm s).
  rewrite Ht. by rewrite bool_decide_eq_false_2.
Qed.

(** ** Lost wake-ups *)

(** No queue has a node for the thread. *)
Definition nowhere (o : WaitObserver) (c : ThreadID) : Prop :=
  ∀ k q, q_get (queues o) k = Some q → ¬ in_queue c q.

Lemma wake_other m id c : id ≠ c → state_of (fst (wake m id)) c = state_of m c.
Proof. intros H. rewrite wake_state. by rewrite decide_False by (intros [? _]; congruence). Qed.

Lemma wakes_other {A} (f : TaskManager → A → TaskManager) l m c :
  (∀ m x, x ∈ l → state_of (f m x) c = state_of m c) → state_of (foldl f m l) c = state_of m c.
Proof.
  revert m. induction l as [|x l IH]; intros m Hf; [done|]. cbn [foldl].
  rewrite IH by (intros; apply Hf; by right). apply Hf. left.
Qed.

Lemma signal_ignores env m q c :
  ¬ in_queue c q →
  state_of (fst (queue_signal env m q)) c = state_of m c ∧ ¬ in_queue c (snd (queue_signal env m q)).
Proof.
  assert (Hin : ∀ (q : list WaitNode) x, x ∈ q → c ∉ (node_id <$> q) → node_id x ≠ c).
  { intros l x Hx Hc <-. apply Hc. by apply list_elem_of_fmap_2. }
  destruct q as [q|q|q]; unfold queue_signal; cbn [in_queue]; intros Hn.
  - revert m Hn. induction q as [|[t id] q IH]; intros m Hn; cbn [TimeWaitQueue_signal]; [done|].
    rewrite fmap_cons in Hn. cbn [snd] in Hn. destruct (t <=? env_now env); [|split; [done|cbn [snd in_queue]; by rewrite fmap_cons]].
    specialize (IH (fst (wake m id)) ltac:(set_solver)). destruct (TimeWaitQueue_signal _ _ _) as [m1 q1].
    cbn [fst snd in_queue] in *. rewrite wake_other in IH by set_solver. done.
  - unfold KeyBoardQueue_signal. cbn [fst snd in_queue]. split; [|apply not_elem_of_nil].
    apply wakes_other. intros m' x Hx. by apply wake_other, (Hin q).
  - unfold GenericWaitQueue_signal. cbn [fst snd in_queue]. split; [|apply not_elem_of_nil].
    apply wakes_other. intros m' x Hx. case_match; [|done]. by apply wake_other, (Hin q).
Qed.

Lemma process_signals_ignores env m o pending c :
  nowhere o c →
  state_of (fst (process_signals env m o pending)) c = state_of m c ∧
  nowhere (snd (process_signals env m o pending)) c.
Proof.
  revert m o. induction pending as [|k pending IH]; intros m o Hn; cbn [process_signals]; [done|].
  destruct (q_get (queues o) k) as [q|] eqn:Hq; [|by apply IH].
  destruct (signal_ignores env m q c (Hn _ _ Hq)) as [S1 S2].
  destruct (queue_signal env m q) as [m1 q1]. cbn [fst snd] in *. rewrite <- S1. apply IH.
  intros k' q'. cbn [queues]. rewrite q_get_set. case_decide; [rewrite Hq; by intros [= <-]|by apply Hn].
Qed.

(** A thread that no queue knows sleeps through every round. *)
Lemma stranded s o c pending :
  s_mgr s = Some o → nowhere o c → state_of (s_tm (handled pending s)) c = state_of (s_tm s) c.
Proof.
  intros Hm Hn. unfold handled, manager_round. rewrite Hm.
  change (s_tm (set_wait s ?m ?o)) with m. by apply process_signals_ignores.
Qed.

(** ** Sleeping *)

(** The timer queue does not look at a thread whose deadlines lie ahead. *)
Lemma timer_early env m q c :
  (∀ t, (t, c) ∈ q → env_now env < t) →
  let r := TimeWaitQueue_signal env m q in
  state_of (fst r) c = state_of m c ∧ (∀ t, (t, c) ∈ snd r ↔ (t, c) ∈ q) ∧
  (Sorted.StronglySorted time_le q → Sorted.StronglySorted time_le (snd r)).
Proof.
  revert m. induction q as [|[t id] q IH]; intros m Hc; cbn [TimeWaitQueue_signal]; [done|].
  destruct (Z.leb_spec t (env_now env)) as [Hle|Hgt]; [|done].
  assert (Hne : id ≠ c) by (intros ->; specialize (Hc t ltac:(left)); lia).
  destruct (IH (fst (wake m id))) as (S1 & Q1 & O1); [intros t' Ht'; apply Hc; by right|].
  split; [by rewrite S1, wake_other|]. split.
  - intros t'. rewrite Q1, elem_of_cons. split; [by right|]. intros [?|?]; [congruence|done].
  - intros Hs. apply O1. by inversion Hs.
Qed.

(** It wakes a thread whose deadline has passed, and forgets it. *)
Lemma wake_all_ready m ids c :
  c ∈ ids → c ∈ lut m → state_of m c = Some Blocking → state_of (wake_all m ids) c = Some Ready.
Proof.
  unfold wake_all. revert m. induction ids as [|x ids IH]; intros m Hc Hl Hs; [by apply not_elem_of_nil in Hc|].
  cbn [foldl]. assert (Hw : state_of (fst (wake m x)) c = Some Ready ∨
    (c ∈ ids ∧ state_of (fst (wake m x)) c = Some Blocking)).
  { destruct (decide (x = c)) as [->|Hne].
    - left. rewrite wake_state, decide_True by done. by rewrite Hs.
    - right. apply elem_of_cons in Hc as [?|Hc]; [congruence|]. split; [done|]. by rewrite wake_other. }
  destruct Hw as [Hr|[Hin Hb]].
  - eapply wakes_ready; [apply foldl_wakes; intros; apply wake_wakes|done].
  - apply IH; [done| |done]. by rewrite wake_lut.
Qed.

(** The thread sleeps in the timer queue until [d], and in no other. *)
Record dozing (m : TaskManager) (o : WaitObserver) (c : ThreadID) (d : Z) : Prop := {
  dz_state : state_of m c = Some Blocking;
  dz_lut : c ∈ lut m;
  dz_timer : ∃ q, q_get (queues o) QTimer = Some (TimeQ q) ∧ Sorted.StronglySorted time_le q ∧
    ∀ t, (t, c) ∈ q ↔ t = d;
  dz_other : ∀ k q, k ≠ QTimer → q_get (queues o) k = Some q → ¬ in_queue c q
}.

(** The signals of the other queues pass it by. *)
Lemma dozing_other env m o c d k q :
  dozing m o c d → k ≠ QTimer → q_get (queues o) k = Some q →
  dozing (fst (queue_signal env m q))
    (mkWaitObserver (q_set (queues o) k (snd (queue_signal env m q)))) c d.
Proof.
  intros [Hs Hl (qt & Ht & Hso & Hc) Ho] Hk Hq. destruct (signal_ignores env m q c (Ho _ _ Hk Hq)) as [S1 S2].
  split.
  - congruence.
  - by rewrite (wakes_lut _ _ (queue_signal_wakes env m q)).
  - exists qt. cbn [queues]. rewrite q_get_set, decide_False by done. done.
  - intros k' q' Hk'. cbn [queues]. rewrite q_get_set. case_decide; [rewrite Hq; by intros [= <-]|by apply Ho].
Qed.

(** Before the deadline nothing wakes it. *)
Lemma dozing_early env m o c d pending :
  env_now env < d → dozing m o c d →
  let r := process_signals env m o pending in dozing (fst r) (snd r) c d.
Proof.
  intros Hd. revert m o. induction pending as [|k pending IH]; intros m o Hz; cbn [process_signals]; [done|].
  destruct (q_get (queues o) k) as [q|] eqn:Hq; [|by apply IH].
  assert (Hz' : dozing (fst (queue_signal env m q))
    (mkWaitObserver (q_set (queues o) k (snd (queue_signal env m q)))) c d).
  { destruct (decide (k = QTimer)) as [->|Hk]; [|by apply dozing_other].
    destruct Hz as [Hs Hl (qt & Ht & Hso & Hc) Ho]. assert (q = TimeQ qt) as -> by congruence.
    unfold queue_signal. destruct (timer_early env m qt c) as (S1 & Q1 & O1); [intros t ->%Hc; done|].
    pose proof (TimeWaitQueue_signal_wakes env m qt) as Hw.
    destruct (TimeWaitQueue_signal env m qt) as [m1 q1]. cbn [fst snd] in *. split.
    - congruence.
    - by rewrite (wakes_lut _ _ Hw).
    - exists q1. cbn [queues]. rewrite q_get_set, decide_True, Hq by done.
      split; [done|]. split; [by apply O1|]. intros t. by rewrite Q1.
    - intros k' q' Hk'. cbn [queues]. rewrite q_get_set, decide_False by done. by apply Ho. }
  destruct (queue_signal env m q) as [m1 q1]. by apply IH.
Qed.

(** A timer event after the deadline wakes it and takes it out of the queue. *)
Lemma dozing_due env m o c d pending :
  d <= env_now env → QTimer ∈ pending → dozing m o c d →
  let r := process_signals env m o pending in
  state_of (fst r) c = Some Ready ∧ nowhere (snd r) c.
Proof.
  intros Hd. revert m o. induction pending as [|k pending IH]; intros m o Hin Hz; [by apply not_elem_of_nil in Hin|].
  cbn [process_signals]. destruct (decide (k = QTimer)) as [->|Hk].
  - destruct Hz as [Hs Hl (qt & Ht & Hso & Hc) Ho]. rewrite Ht. unfold queue_signal.
    rewrite (timer_signal_spec env m qt Hso). set (o1 := mkWaitObserver _).
    assert (Hr : state_of (wake_all m (filter (λ n, fst n <= env_now env) qt).*2) c = Some Ready).
    { apply wake_all_ready; [|done|done]. apply list_elem_of_fmap. exists (d, c). split; [done|].
      apply list_elem_of_filter. split; [done|]. by apply Hc. }
    assert (Hn : nowhere o1 c).
    { intros k' q'. cbn [queues o1]. rewrite q_get_set. case_decide as Hk.
      - subst. rewrite Ht. intros [= <-]. cbn [in_queue]. intros (n & -> & Hnf)%list_elem_of_fmap.
        apply list_elem_of_filter in Hnf as [Hlt Hnq]. destruct n as [t' c']. apply Hc in Hnq as ->. cbn in Hlt. lia.
      - by apply Ho. }
    set (m1 := wake_all m _) in *. destruct (process_signals_ignores env m1 o1 pending c Hn) as [S1 N1].
    cbv zeta. by rewrite S1.
  - apply elem_of_cons in Hin as [?|Hin]; [congruence|].
    destruct (q_get (queues o) k) as [q|] eqn:Hq; [|by apply IH].
    pose proof (dozing_other env m o c d k q Hz Hk Hq) as Hz'.
    destruct (queue_signal env m q) as [m1 q1]. by apply IH.
Qed.

(** What the others do while the thread is away: at some time of the clock the
    manager's thread handles some events. *)
Definition at_time (now : Z) (s : Sched) : Sched :=
  let k := s_k s in
  set_kernel s (mkKernel (k_tm k) (k_fs k) (k_mem k) (k_fds k) (k_handles k) (k_next k) now).

Definition rounds (rs : list (Z * list QueueType)) (s : Sched) : Sched :=
  foldl (λ s r, handled (snd r) (at_time (fst r) s)) s rs.

Definition dozes (s : Sched) (c : ThreadID) (d : Z) : Prop :=
  ∃ o, s_mgr s = Some o ∧ dozing (s_tm s) o c d.

Lemma dozes_rounds rs s c d :
  Forall (λ r, fst r < d) rs → dozes s c d → dozes (rounds rs s) c d.
Proof.
  intros Hrs. revert s. induction Hrs as [|[now pending] rs Hr Hrs IH]; intros s Hz; [done|].
  apply IH. destruct Hz as (o & Ho & Hz). cbn [fst snd] in *. unfold handled, manager_round.
  change (s_mgr (at_time now s)) with (s_mgr s). rewrite Ho. eexists. split; [done|].
  apply (dozing_early (s_env (at_time now s)) (s_tm s) o c d pending Hr Hz).
Qed.

(** Going to sleep: the thread is blocked and its deadline is in the timer
    queue. *)
Lemma waittime_dozes s o q t duration tries :
  let c := current_tid (s_tm s) in
  s_mgr s = Some o → s_if s = true →
  q_get (queues o) QTimer = Some (TimeQ q) → Sorted.StronglySorted time_le q → nowhere o c →
  thread (s_tm s) c = Some t → may_block t = true → 0 < duration < 2 ^ 64 →
  ∃ s1, dozes s1 c (s_now s + duration) ∧
    ∀ away ts, sys_waittime duration (mkTurn (true :: tries) away :: ts, s) = Ret ((ts, away s1), Ok tt).
Proof.
  intros c Hm Hi Hq Hs Hn Ht Hb Hd.
  assert (Hw : wrap64 duration + s_now s = s_now s + duration).
  { unfold wrap64, wrap. rewrite Z.mod_small by lia. lia. }
  set (d := s_now s + duration) in *.
  set (o1 := mkWaitObserver (q_set (queues o) QTimer (TimeQ (heap_push (d, c) q)))).
  assert (G : ∀ m, is_given (s_env s) m (CTime d) = false).
  { intros m. cbn [is_given s_env env_now]. apply Z.leb_gt. unfold d. lia. }
  assert (He : enqueue (s_env s) (s_tm s) o c [mkQTC QTimer (CTime d)] (true :: tries) = (asleep (s_tm s) c, o1)).
  { unfold enqueue, enqueue_all. cbn [q_cond q_type]. rewrite G, Hq. cbn [queue_enqueue].
    change (take 5 (true :: tries)) with (true :: take 4 tries). cbn [block_retry].
    unfold any_given. cbn [existsb q_cond]. rewrite G. cbn [orb]. unfold try_block, try_thread. rewrite Ht, Hb.
    fold (asleep (s_tm s) c). by rewrite G. }
  exists (set_wait s (asleep (s_tm s) c) o1). split.
  - exists o1. split; [done|]. apply thread_state in Ht as [Hl Hst]. split.
    + change (s_tm (set_wait s ?m ?o)) with m. rewrite state_of_asleep, decide_True, Hst by done. done.
    + done.
    + exists (heap_push (d, c) q). cbn [queues o1]. rewrite q_get_set, decide_True, Hq by done.
      split; [done|]. split; [by apply heap_push_sorted|]. intros t'. rewrite heap_push_elem.
      split; [|intros ->; by left]. intros [[= ->]|Hin]; [done|]. destruct (Hn _ _ Hq).
      cbn [in_queue]. apply list_elem_of_fmap. by exists (t', c).
    + intros k q' Hk. cbn [queues o1]. rewrite q_get_set, decide_False by done. apply Hn.
  - intros away ts. unfold sys_waittime, the_state, mthen at 1. cbn [snd]. unfold until. rewrite Hw. fold d.
    unfold mthen. by rewrite (wait_self_runs _ _ _ _ s o _ _ Hm Hi He).
Qed.

(** C33: [waittime] puts the caller to sleep until its deadline.  While the
    others run, no event that the manager handles before the deadline wakes it,
    whatever the event; the first timer event it handles at or after the
    deadline makes it ready and takes it out of every queue; and when the
    thread runs again, the call returns success. *)
Theorem sleep_until_deadline s o q t duration tries :
  let c := current_tid (s_tm s) in
  let deadline := s_now s + duration in
  s_mgr s = Some o → s_if s = true →
  q_get (queues o) QTimer = Some (TimeQ q) → Sorted.StronglySorted time_le q → nowhere o c →
  thread (s_tm s) c = Some t → may_block t = true → 0 < duration < 2 ^ 64 →
  ∃ s1,
    (∀ away ts, sys_waittime duration (mkTurn (true :: tries) away :: ts, s) = Ret ((ts, away s1), Ok tt)) ∧
    (∀ rs, Forall (λ r, fst r < deadline) rs →
       state_of (s_tm (rounds rs s1)) c = Some Blocking ∧
       ∀ now pending, deadline <= now → QTimer ∈ pending →
         let s2 := rounds (rs ++ [(now, pending)]) s1 in
         state_of (s_tm s2) c = Some Ready ∧ ∃ o2, s_mgr s2 = Some o2 ∧ nowhere o2 c).
Proof.
  intros c deadline Hm Hi Hq Hs Hn Ht Hb Hd.
  destruct (waittime_dozes s o q t duration tries Hm Hi Hq Hs Hn Ht Hb Hd) as (s1 & Hz & Hrun).
  exists s1. split; [exact Hrun|]. intros rs Hrs. destruct (dozes_rounds rs s1 _ _ Hrs Hz) as (o1 & Ho1 & Hz1).
  split; [apply Hz1|]. intros now pending Hnow Hp s2. unfold s2, rounds. rewrite foldl_app. fold (rounds rs s1).
  cbn [foldl fst snd]. unfold handled, manager_round.
  change (s_mgr (at_time now (rounds rs s1))) with (s_mgr (rounds rs s1)). rewrite Ho1.
  destruct (dozing_due (s_env (at_time now (rounds rs s1))) (s_tm (rounds rs s1)) o1 c deadline pending Hnow Hp Hz1)
    as [S2 N2]. split; [exact S2|]. eexists. split; [done|exact N2].
Qed.

Definition sample_sched : Sched :=
  mkSched (mkKernel (update_current (sample_manager [1; 2; 3]) 1) (init_world 0) (λ _, zero) ∅ ∅ 1 0)
    (Some (mkWaitObserver [(QTimer, TimeQ [])])) true true ∅.

Definition exits (id : ThreadID) : WaitCondition := CThread id TaskWaitOptions_W_EXIT.

(** Thread 1, asleep in a join of thread 2. *)
Definition joining : Sched := sleeping_state sample_sched (mkWaitObserver [(QTimer, TimeQ [])]) (QThread 2) [] (exits 2).

(** [exit] posts the event of the thread before it kills it.  If the manager
    handles the event in between, the joining thread is taken out of the
    queue without being woken, and no later event wakes it. *)
Lemma exit_race_strands_joiner pending :
  let s := thread_dies 2 (handled [QThread 2] joining) in
  state_of (s_tm s) 2 = Some Zombie ∧ state_of (s_tm (handled pending s)) 1 = Some Blocking.
Proof.
  intros s. split; [vm_compute; reflexivity|].
  assert (Hm : ∃ o, s_mgr s = Some o ∧ nowhere o 1).
  { eexists. split; [vm_compute; reflexivity|]. intros k q. cbn [queues q_get].
    repeat case_decide; intros [= <-]; cbn [in_queue]; apply not_elem_of_nil. }
  destruct Hm as (o & Ho & Hn). rewrite (stranded s o) by done. vm_compute. reflexivity.
Qed.

(** Threads 1 and 3 join thread 2; the join of thread 1 times out and removes
    the queue both sleep in.  Thread 3 is not woken when thread 2 ends. *)
Lemma second_joiner_stranded pending :
  let s3 := set_kernel joining (set_tm (s_k joining) (update_current (s_tm joining) 3)) in
  let both := sleeping_state s3 (with_node (mkWaitObserver [(QTimer, TimeQ []); (QThread 2, GenQ [])]) (QThread 2) []
                (mkWaitNode 1 (exits 2))) (QThread 2) [mkWaitNode 1 (exits 2)] (exits 2) in
  ∀ o, s_mgr both = Some o →
  let s := thread_dies 2 (set_mgr both (remove_queue o (QThread 2))) in
  state_of (s_tm s) 2 = Some Zombie ∧ state_of (s_tm (handled pending s)) 3 = Some Blocking.
Proof.
  intros s3 both o Ho s.
  assert (Hm : ∃ o', s_mgr s = Some o' ∧ nowhere o' 3 ∧ state_of (s_tm s) 2 = Some Zombie ∧
    state_of (s_tm s) 3 = Some Blocking).
  { injection Ho as <-. eexists. split; [vm_compute; reflexivity|]. split.
    - intros k q. cbn [queues q_get]. repeat case_decide; intros [= <-]; cbn [in_queue]; apply not_elem_of_nil.
    - split; vm_compute; reflexivity. }
  destruct Hm as (o' & Ho' & Hn & Hz & Hs). split; [done|]. by rewrite (stranded s o').
Qed.

(** Every file's waiter is a condition that holds at once: a read that waits
    for a file never sleeps, it asks again on every turn, and with a timeout
    each round leaves one more node in the timer queue. *)
Lemma file_wait_never_sleeps env m o id deadline k q tries :
  q_get (queues o) QTimer = Some (TimeQ q) → env_now env < deadline →
  enqueue env m o id [mkQTC QTimer (CTime deadline); mkQTC k CNone] tries =
    (m, mkWaitObserver (q_set (queues o) QTimer (TimeQ (heap_push (deadline, id) q)))).
Proof.
  intros Hq Ht. unfold enqueue, enqueue_all. cbn [q_cond q_type is_given].
  destruct (Z.leb_spec deadline (env_now env)); [lia|]. by rewrite Hq.
Qed.

(** ** Instances *)

Lemma join_returns_after_exit_witness :
  ∃ s' o', sys_thread_join 2 (-1) 0 TaskWaitOptions_W_EXIT
      ([mkTurn [true] (λ s, handled [QKeyBoard; QThread 2] (thread_dies 2 s))], sample_sched) =
      Ret (([], s'), Ok TaskStateChange_EXIT) ∧
    state_of (s_tm s') 1 = Some Ready ∧ s_mgr s' = Some o' ∧ q_get (queues o') (QThread 2) = None.
Proof.
  eapply (join_returns_after_exit sample_sched (mkWaitObserver [(QTimer, TimeQ [])]) 2 _ _ (-1) []
    [QKeyBoard; QThread 2] (λ s, handled [QKeyBoard; QThread 2] (thread_dies 2 s))).
  - reflexivity.
  - reflexivity.
  - exact I.
  - vm_compute. discriminate.
  - vm_compute. reflexivity.
  - discriminate.
  - vm_compute. reflexivity.
  - reflexivity.
  - lia.
  - right. left.
  - reflexivity.
Defined.

(** A turn in which a second passes. *)
Definition tick (t : Sched) : Sched :=
  set_kernel t (mkKernel (k_tm (s_k t)) (k_fs (s_k t)) (k_mem (s_k t)) (k_fds (s_k t)) (k_handles (s_k t))
    (k_next (s_k t)) (k_millis (s_k t) + 1000)).

(** Descriptor 0 of thread 1 is a file. *)
Definition reading_sched : Sched := set_kernel sample_sched open_kernel.

(** Thread 1 sleeps for a second and a half; the clock counts whole seconds. *)
Lemma sleep_until_deadline_witness :
  ∃ s1, (∀ away ts, sys_waittime 1500 (mkTurn [true] away :: ts, sample_sched) = Ret ((ts, away s1), Ok tt)) ∧
    state_of (s_tm (rounds [(0, [QTimer]); (1000, [QTimer; QKeyBoard])] s1)) 1 = Some Blocking ∧
    state_of (s_tm (rounds [(0, [QTimer]); (1000, [QTimer; QKeyBoard]); (2000, [QTimer])] s1)) 1 = Some Ready.
Proof.
  destruct (sleep_until_deadline sample_sched (mkWaitObserver [(QTimer, TimeQ [])]) []
    (sample_task 1 1) 1500 []) as (s1 & Hrun & Hsl).
  - reflexivity.
  - reflexivity.
  - reflexivity.
  - constructor.
  - intros k q. cbn [queues q_get]. case_decide; [|done]. intros [= <-]. apply not_elem_of_nil.
  - vm_compute. reflexivity.
  - reflexivity.
  - lia.
  - exists s1. split; [exact Hrun|].
    destruct (Hsl [(0, [QTimer]); (1000, [QTimer; QKeyBoard])]) as [Hb Hr]; [repeat constructor|].
    split; [exact Hb|]. apply (Hr 2000 [QTimer]); [done|left].
Defined.

Definition sample_handle : JoinHandle := attach (JoinHandle_default 1) 2.

Lemma join_handle_returns_witness :
  ∃ s' o, JoinHandle_wait sample_handle
      ([mkTurn [true] tick; mkTurn [true] (complete sample_handle 7)], sample_sched) = Ret (([], s'), Ok 7) ∧
    raw_of s' sample_handle = mkRaw true None ∧ s_mgr s' = Some o ∧ q_get (queues o) (QThread 2) = None.
Proof.
  apply (join_handle_returns sample_handle 2 [mkTurn [true] tick] (mkTurn [true] (complete sample_handle 7)) [] 7 sample_sched).
  - reflexivity.
  - repeat constructor; done.
  - done.
  - reflexivity.
  - eexists. reflexivity.
  - vm_compute. reflexivity.
  - vm_compute. reflexivity.
Defined.
