(* ===== verification/Closures.v ===== *)
(** Threads that run a closure (kernel/src/kernel/threading/mod.rs: [spawn],
    [spawn_with_init], [spawn_fn_with_init]; threading/trampoline/mod.rs;
    [Arg::from_fn] and [as_closure] of threading/task.rs).

    The builder works on [Build] (TaskBuild.v), the handle on [Sched]
    (WaitCalls.v); [Host] has both, with one task manager, and the boxes that
    the two sides hand each other as plain addresses. *)
From stdpp Require Import gmap.
From S2P Require Import Prelude Abi Fd RamFile VFS Tasks Wait Syscalls FrameAlloc Paging Mmap PageDir Elf Context TaskBuild BuildProps WaitCalls.
Open Scope Z_scope.

(** ** Closures and exit information *)

(** The closure [wrapper] of [spawn_with_init]: the function, which may use
    the whole state, and the shared part of the handle. *)
Record Closure : Type := mkClosure { cl_func : Sched → Sched * Z; cl_raw : ptr }.

(** Calling it: the function, then its value, then the flag. *)
Definition call_closure (c : Closure) (s : Sched) : Sched :=
  let '(s, ret) := cl_func c s in
  let raw := default RawJoinHandle_default (s_joins s !! cl_raw c) in
  let s := set_joins s (<[cl_raw c := mkRaw (finished raw) (Some ret)]> (s_joins s)) in
  set_joins s (<[cl_raw c := mkRaw true (Some ret)]> (s_joins s)).

(** [Callback]: [default_exit], or the closure of [spawn_fn_with_init]. *)
Inductive Callback : Set := CbDefault | CbStore (raw : ptr).

Record TaskExitInfo : Set := mkExitInfo { ei_trampoline : Z; ei_callback : Callback }.

(** [exit], up to the yield that does not come back. *)
Definition exit (status : Z) (s : Sched) : Outcome Sched :=
  let! r := sys_exit status (s_k s) in Ret (set_kernel s (fst r)).

(** [ret as i64] *)
Definition default_exit (ret : Z) (s : Sched) : Outcome Sched := exit (as_i64 ret) s.

Definition run_callback (cb : Callback) (ret : Z) (s : Sched) : Outcome Sched :=
  match cb with
  | CbDefault => default_exit ret s
  | CbStore raw =>
      let s := set_joins s (<[raw := mkRaw true (Some ret)]> (s_joins s)) in
      exit 0 s
  end.

(** ** State *)

Record Host (P A : Type) : Type := mkHost {
  h_sched : Sched;
  h_build : Build P A;
  h_boxes : gmap Z Closure;
  h_exits : gmap Z TaskExitInfo;
  h_next : Z
}.
Arguments mkHost {P A} _ _ _ _ _.
Arguments h_sched {P A} _.
Arguments h_build {P A} _.
Arguments h_boxes {P A} _.
Arguments h_exits {P A} _.
Arguments h_next {P A} _.

Section Host.
Context {P A : Type}.
Abbreviation HM E := (M (Host P A) E).
Implicit Types h : Host P A.

Definition with_sched h (s : Sched) : Host P A :=
  mkHost s (h_build h) (h_boxes h) (h_exits h) (h_next h).

(** The builder's state with the task manager of the kernel. *)
Definition synced h : Build P A :=
  let b := h_build h in
  mkBuild (s_tm (h_sched h)) (b_tid b) (b_pid b) (b_stacks b) (b_cores b) (b_next b) (b_mem b) (b_rr b).

Definition on_build {E X} (m : M (Build P A) E X) : HM E X :=
  λ h, let! r := m (synced h) in
       let s := h_sched h in
       Ret (mkHost (set_kernel s (set_tm (s_k s) (b_tm (fst r)))) (fst r) (h_boxes h) (h_exits h) (h_next h),
            snd r).

(** [JoinHandle::default()] *)
Definition new_handle {E} : HM E JoinHandle :=
  λ h, let s := h_sched h in
       let p := fresh (dom (s_joins s)) in
       Ret (with_sched h (set_joins s (<[p := RawJoinHandle_default]> (s_joins s))), Ok (JoinHandle_default p)).

(** [Arg::from_fn] *)
Definition Arg_from_fn {E} (c : Closure) : HM E Z :=
  λ h, Ret (mkHost (h_sched h) (h_build h) (<[h_next h := c]> (h_boxes h)) (h_exits h) (h_next h + 1),
            Ok (h_next h)).

(** [Arg::as_closure]: the box is taken; an address that is no box is not
    defined. *)
Definition as_closure {E} (arg : Z) : HM E Closure :=
  λ h, match h_boxes h !! arg with
       | Some c => Ret (mkHost (h_sched h) (h_build h) (delete arg (h_boxes h)) (h_exits h) (h_next h), Ok c)
       | None => Panic
       end.

(** [TaskExitInfo::new_with_default_trampoline] *)
Definition exit_info_new {E} (trampoline : Z) (cb : Callback) : HM E Z :=
  λ h, Ret (mkHost (h_sched h) (h_build h) (h_boxes h)
              (<[h_next h := mkExitInfo trampoline cb]> (h_exits h)) (h_next h + 1), Ok (h_next h)).

(** ** The thread's side *)

(** [closure_trampoline]: returns [ProcessReturn::default()]. *)
Definition closure_trampoline {E} (func : Z) : HM E Z :=
  let? c := as_closure func in
  λ h, Ret (with_sched h (call_closure c (h_sched h)), Ok 0).

Definition kernel_return_trampoline {E} (ret info : Z) : HM E unit :=
  λ h, match h_exits h !! info with
       | Some i => let! s := run_callback (ei_callback i) ret (h_sched h) in Ret (with_sched h s, Ok tt)
       | None => Panic
       end.

(** A thread that starts in [closure_trampoline] with [arg] in its first
    argument and returns through its exit information. *)
Definition closure_thread {E} (arg info : Z) : HM E unit :=
  let? ret := closure_trampoline arg in
  kernel_return_trampoline ret info.

End Host.

(** ** Spawning *)

Section Spawn.
Context {P A : Type} `{VirtOps} `{PageIncl} `{Mapper P A} `{FrameAllocator A} `{RootTable P} `{Hardware P}.
Context (kernel_sel : Z * Z) (kernel_root return_trampoline closure_addr default_exit_info : Z).
Context (fs_open : str → Z → Result SysErrCode ptr) (init_kernel : KTaskInfo → Z → list Z → Z).
Abbreviation B := (M (Build P A) ThreadingError).
Abbreviation HT := (M (Host P A) ThreadingError).
Implicit Types h : Host P A.

(** [spawn_fn_with_init]: the handle's value is what the function returns. *)
Definition spawn_fn_handle (func : Z) (init : TaskBuilder Init → B (TaskBuilder Init)) : HT JoinHandle :=
  let? handle := new_handle in
  let? info := exit_info_new return_trampoline (CbStore (jh_inner handle)) in
  let? t := on_build (spawn_fn_with_init kernel_sel kernel_root default_exit_info init_kernel func info init) in
  mok (attach handle (tid t)).

Definition spawn_with_init (func : Sched → Sched * Z) (init : TaskBuilder Init → B (TaskBuilder Init)) :
    HT JoinHandle :=
  let? handle := new_handle in
  let? arg := Arg_from_fn (mkClosure func (jh_inner handle)) in
  λ h,
    let! args := Args_set (args_macro []) 0 arg in
    (let? outer := spawn_fn_handle closure_addr (λ b, init (with_args b args)) in
     mok (match jh_task outer with Some p => attach handle p | None => handle end)) h.

Definition spawn (func : Sched → Sched * Z) : HT JoinHandle :=
  spawn_with_init func (λ b, with_default_files fs_open b true).

End Spawn.

(** ** The value reaches the handle *)

Lemma call_closure_raw c s :
  s_joins (call_closure c s) !! cl_raw c = Some (mkRaw true (Some (snd (cl_func c s)))).
Proof. unfold call_closure. destruct (cl_func c s) as [s1 ret]. apply lookup_insert_eq. Qed.

Lemma call_closure_frame c s :
  s_k (call_closure c s) = s_k (fst (cl_func c s)) ∧ s_if (call_closure c s) = s_if (fst (cl_func c s)) ∧
  s_mgr (call_closure c s) = s_mgr (fst (cl_func c s)).
Proof. unfold call_closure. by destruct (cl_func c s). Qed.

(** The kernel after [exit]. *)
Definition exited (s : Sched) : Sched :=
  let m := post_event (s_tm s) (QThread (current_tid (s_tm s))) EXIT in
  set_kernel s (set_tm (s_k s) (fst (Tasks.kill m (current_tid m) 0))).

Lemma exit_eq status s : exit status s = Ret (exited s).
Proof. done. Qed.

(** The life of a closure thread: whatever the closure does, its value and the
    flag are in the handle, its box is gone and the thread has exited. *)
Lemma closure_thread_spec {P A E} (h : Host P A) arg info c tr outer :
  h_boxes h !! arg = Some c → h_exits h !! info = Some (mkExitInfo tr (CbStore outer)) → outer ≠ cl_raw c →
  let s := set_joins (call_closure c (h_sched h))
             (<[outer := mkRaw true (Some 0)]> (s_joins (call_closure c (h_sched h)))) in
  closure_thread (E := E) arg info h =
    Ret (mkHost (exited s) (h_build h) (delete arg (h_boxes h)) (h_exits h) (h_next h), Ok tt) ∧
  s_joins (exited s) !! cl_raw c = Some (mkRaw true (Some (snd (cl_func c (h_sched h))))).
Proof.
  intros Hc Hi Hne s. split.
  - unfold closure_thread, closure_trampoline, as_closure, kernel_return_trampoline, mthen. rewrite Hc.
    cbn [with_sched h_exits h_sched]. rewrite Hi. done.
  - change (s_joins (exited s)) with (s_joins s). unfold s. cbn [set_joins s_joins].
    rewrite lookup_insert_ne by done. apply call_closure_raw.
Qed.

Section SpawnSpec.
Context {P A : Type} `{VirtOps} `{PageIncl} `{Mapper P A} `{FrameAllocator A} `{RootTable P} `{Hardware P}.
Context (kernel_sel : Z * Z) (kernel_root return_trampoline closure_addr default_exit_info : Z).
Context (fs_open : str → Z → Result SysErrCode ptr) (init_kernel : KTaskInfo → Z → list Z → Z).
Abbreviation B := (M (Build P A) ThreadingError).
Implicit Types h : Host P A.

Lemma default_files_same {S} (b b' : TaskBuilder S) clone (s s' : Build P A) :
  with_default_files fs_open b clone s = Ret (s', Ok b') → b' = b.
Proof.
  unfold with_default_files. destruct (if clone then _ else _) as [cur|].
  - destruct (b_cores s !! deref (t_core cur)); [|done]. by intros [= _ <-].
  - destruct (fs_open _ _); [|done]. destruct (fs_open _ _); [|done]. destruct (fs_open _ _); [|done].
    by intros [= _ <-].
Qed.

(** What the stack of the new thread is built from. *)
Lemma spawn_fn_start func info args (s s' : Build P A) t :
  spawn_fn_with_init kernel_sel kernel_root default_exit_info init_kernel func info
    (λ b, with_default_files fs_open (with_args b args) true) s = Ret (s', Ok t) →
  ∃ entry, va_new func = Ret entry ∧
    krsp t = init_kernel (KTaskInfo_new entry (kernel_stack_top t) kernel_sel kernel_root) info args.
Proof.
  unfold spawn_fn_with_init. intros [(s1 & b & R1 & R2)|(e & _ & ?)]%mthen_Ret_inv; [|done].
  unfold from_fn in R1. destruct (Task_new s) as [s0 t0]. destruct (va_new func) as [entry| | |] eqn:Hv; try done.
  injection R1 as <- <-.
  apply mthen_Ret_inv in R2 as [(s2 & b2 & R2 & R3)|(e & _ & ?)]; [|done].
  apply default_files_same in R2 as ->.
  apply mthen_Ret_inv in R3 as [(s3 & b3 & R3 & R4)|(e & _ & ?)]; [|done].
  apply mthen_Ret_inv in R3 as [(s4 & top & _ & R3)|(e & _ & ?)]; [|done]. injection R3 as _ <-.
  apply mthen_Ret_inv in R4 as [(s5 & t5 & R4 & R5)|(e & _ & ?)]; [|done]. injection R4 as _ <-.
  apply mthen_Ret_inv in R5 as [(s6 & u & _ & R6)|(e & _ & ?)]; [|done]. injection R6 as _ <-.
  by exists entry.
Qed.

(** The addresses a [spawn] in [h] uses. *)
Definition arg_of h : Z := h_next h.
Definition info_of h : Z := h_next h + 1.
Definition raw_of_spawn h : ptr := fresh (dom (s_joins (h_sched h))).

Record closure_spawned (func : Sched → Sched * Z) h h' (handle : JoinHandle) (t : Task) : Prop := {
  cs_spawned : spawned (synced h) (h_build h') t;
  cs_handle : handle = attach (JoinHandle_default (raw_of_spawn h)) (tid t);
  cs_start : ∃ entry, va_new closure_addr = Ret entry ∧
    krsp t = init_kernel (KTaskInfo_new entry (kernel_stack_top t) kernel_sel kernel_root)
               (info_of h) (arg_of h :: replicate 5 0);
  cs_tm : s_tm (h_sched h') = b_tm (h_build h');
  cs_env : s_if (h_sched h') = s_if (h_sched h) ∧ s_mgr (h_sched h') = s_mgr (h_sched h);
  cs_raw : raw_of (h_sched h') handle = RawJoinHandle_default;
  cs_boxes : h_boxes h' = <[arg_of h := mkClosure func (jh_inner handle)]> (h_boxes h);
  cs_info : ∃ outer, h_exits h' !! info_of h = Some (mkExitInfo return_trampoline (CbStore outer)) ∧
    outer ≠ jh_inner handle
}.

Lemma spawn_spec func h h' handle :
  objs (s_tm (h_sched h)) !! b_tid (h_build h) = None →
  spawn kernel_sel kernel_root return_trampoline closure_addr default_exit_info fs_open init_kernel
    func h = Ret (h', Ok handle) →
  ∃ t, closure_spawned func h h' handle t.
Proof.
  intros Hfresh. unfold spawn, spawn_with_init, new_handle, Arg_from_fn, mthen at 1 2.
  unfold Args_set. rewrite decide_True by (cbn; lia). cbn [obind].
  change (<[0%nat := ?a]> (args_macro [])) with (a :: replicate 5 0).
  intros [(h1 & outer & R1 & R2)|(e & _ & ?)]%mthen_Ret_inv; [|done].
  unfold spawn_fn_handle, new_handle, exit_info_new, mthen at 1 2 in R1.
  cbn [with_sched h_sched set_joins s_joins h_next h_exits h_boxes h_build JoinHandle_default jh_inner] in R1.
  set (p := fresh (dom (s_joins (h_sched h)))) in *.
  set (q := fresh (dom (<[p := RawJoinHandle_default]> (s_joins (h_sched h))))) in *.
  assert (Hpq : q ≠ p).
  { pose proof (is_fresh (dom (<[p := RawJoinHandle_default]> (s_joins (h_sched h))))) as Hf.
    fold q in Hf. rewrite dom_insert in Hf. set_solver. }
  apply mthen_Ret_inv in R1 as [(h2 & t & R1 & R3)|(e & _ & ?)]; [|done]. injection R3 as <- <-.
  injection R2 as <- <-. unfold on_build in R1.
  destruct (spawn_fn_with_init _ _ _ _ _ _ _ _) as [[b r]| | |] eqn:Hrun; try done. injection R1 as <- ->.
  exists t. pose proof (spawn_fn_start _ _ _ _ _ _ Hrun) as Hstart.
  apply (spawn_fn_spawns _ _ _ fs_open (λ _, None) _ (λ _ _, [])) in Hrun as (t' & Hsp & <-); [| |done].
  2: { intros b0. change (inner b0) with (inner (with_args b0 (h_next h :: replicate 5 0))).
       apply default_files_advances. }
  split; try done.
  - unfold raw_of. cbn [h_sched set_kernel s_joins attach JoinHandle_default jh_inner with_sched set_joins jh_task].
    rewrite lookup_insert_ne, lookup_insert_eq by done. done.
  - exists q. split; [|done]. apply lookup_insert_eq.
Qed.

End SpawnSpec.

(** ** Joining the closure *)

(** The scheduler switches to a thread. *)
Definition switched (s : Sched) (id : ThreadID) : Sched :=
  set_kernel s (set_tm (s_k s) (update_current (s_tm s) id)).

(** The turn in which the thread [id], started with [arg] and [info], runs to
    its end. *)
Definition thread_turn {P A} (h : Host P A) (arg info : Z) (id : ThreadID) (s : Sched) : Sched :=
  match closure_thread (E := ThreadingError) arg info (with_sched h (switched s id)) with
  | Ret (h2, _) => switched (h_sched h2) (current_tid (s_tm s))
  | _ => s
  end.

(** Interrupts stay on and the manager stays. *)
Definition gentle (func : Sched → Sched * Z) : Prop := ∀ s,
  s_if s = true → is_Some (s_mgr s) → s_if (fst (func s)) = true ∧ is_Some (s_mgr (fst (func s))).

Section Join.
Context {P A : Type} `{VirtOps} `{PageIncl} `{Mapper P A} `{FrameAllocator A} `{RootTable P} `{Hardware P}.
Context (kernel_sel : Z * Z) (kernel_root return_trampoline closure_addr default_exit_info : Z).
Context (fs_open : str → Z → Result SysErrCode ptr) (init_kernel : KTaskInfo → Z → list Z → Z).
Implicit Types h : Host P A.

Lemma thread_turn_spec func h h' handle t s :
  closure_spawned kernel_sel kernel_root return_trampoline closure_addr init_kernel func h h' handle t →
  let s' := thread_turn h' (arg_of h) (info_of h) (tid t) s in
  raw_of s' handle = mkRaw true (Some (snd (func (switched s (tid t))))) ∧
  (gentle func → s_if s = true → is_Some (s_mgr s) → s_if s' = true ∧ is_Some (s_mgr s')).
Proof.
  intros [Hsp Hh Hst Htm Henv Hraw Hbox (outer & Hinfo & Hne)].
  destruct (closure_thread_spec (E := ThreadingError) (with_sched h' (switched s (tid t))) (arg_of h) (info_of h)
    (mkClosure func (jh_inner handle)) return_trampoline outer) as [Hrun Hval]; [|done|done|].
  { cbn [with_sched h_boxes]. rewrite Hbox. apply lookup_insert_eq. }
  unfold thread_turn. rewrite Hrun. cbn [h_sched with_sched] in *. split.
  - unfold raw_of. unfold switched at 1. cbn [set_kernel s_joins].
    cbn [cl_raw cl_func] in Hval. rewrite Hval. done.
  - intros Hg Hi Hm. cbn [switched set_kernel s_if s_mgr exited set_joins].
    destruct (call_closure_frame (mkClosure func (jh_inner handle)) (switched s (tid t))) as (_ & -> & ->).
    by apply Hg.
Qed.

Lemma spawned_not_done func h h' handle t :
  closure_spawned kernel_sel kernel_root return_trampoline closure_addr init_kernel func h h' handle t →
  is_done handle (h_sched h') = false.
Proof.
  intros [Hsp Hh Hst Htm Henv Hraw _ _]. unfold is_done. rewrite Hraw. cbn [finished RawJoinHandle_default orb].
  unfold is_task_alive. rewrite Hh. cbn [attach jh_task mbind option_bind]. rewrite Htm.
  rewrite (sp_object _ _ _ Hsp). cbn. by rewrite (sp_ready _ _ _ Hsp).
Qed.

(** C13: [spawn] of a closure adds one ready thread whose stack is set up to
    call [closure_trampoline] with the boxed closure, and waiting on the
    handle returns the closure's value: the one it computes in the state in
    which the thread runs, however many turns the caller is away before that
    and whatever happens in them.  The handle's queue is gone afterwards. *)
Theorem spawned_closure_joins func h h' handle pre tries post :
  objs (s_tm (h_sched h)) !! b_tid (h_build h) = None →
  spawn kernel_sel kernel_root return_trampoline closure_addr default_exit_info fs_open init_kernel
    func h = Ret (h', Ok handle) →
  s_if (h_sched h) = true → is_Some (s_mgr (h_sched h)) → gentle func → Forall (idle handle) pre →
  let id := b_tid (h_build h) in
  let turn := mkTurn tries (thread_turn h' (arg_of h) (info_of h) id) in
  let before := slept handle turn (absent handle pre (with_queue (h_sched h') id)) in
  (∃ t entry, spawned (synced h) (h_build h') t ∧ va_new closure_addr = Ret entry ∧
     krsp t = init_kernel (KTaskInfo_new entry (kernel_stack_top t) kernel_sel kernel_root)
                (info_of h) (arg_of h :: replicate 5 0)) ∧
  ∃ s' o, JoinHandle_wait handle (pre ++ turn :: post, h_sched h') =
      Ret ((post, s'), Ok (snd (func (switched before id)))) ∧
    s_mgr s' = Some o ∧ q_get (queues o) (QThread id) = None.
Proof.
  intros Hfresh Hrun Hi Hm Hg Hpre id turn before.
  destruct (spawn_spec _ _ _ _ _ _ _ _ _ _ _ Hfresh Hrun) as [t Hcs].
  assert (Hid : tid t = id) by apply Hcs. destruct (cs_env _ _ _ _ _ _ _ _ _ _ Hcs) as [Hi' Hm'].
  split.
  { destruct (cs_start _ _ _ _ _ _ _ _ _ _ Hcs) as (entry & Hv & Hk). exists t, entry.
    split; [apply Hcs|done]. }
  destruct (join_handle_returns handle id pre turn post (snd (func (switched before id))) (h_sched h'))
    as (s' & o & Hw & _ & Ho & Hq); try done.
  - by rewrite (cs_handle _ _ _ _ _ _ _ _ _ _ Hcs), <- Hid.
  - intros s Hs1 Hs2. destruct (thread_turn_spec _ _ _ _ _ s Hcs) as [_ Hk]. rewrite Hid in Hk. by apply Hk.
  - by rewrite Hi'.
  - by rewrite Hm'.
  - by eapply spawned_not_done.
  - unfold absent. rewrite foldl_app. cbn [foldl]. fold (absent handle pre (with_queue (h_sched h') id)).
    fold before. destruct (thread_turn_spec _ _ _ _ _ before Hcs) as [Hv _]. rewrite Hid in Hv. exact Hv.
  - by exists s', o.
Qed.

End Join.

(** ** Findings and examples *)

(** When the thread can not be built, the boxed closure is lost: its address
    was only in the arguments. *)
Lemma failed_spawn_leaks_closure {P A} `{VirtOps} `{PageIncl} `{Mapper P A} `{FrameAllocator A}
    `{RootTable P} `{Hardware P} kernel_sel root tr addr info fs_open init_kernel func (h h' : Host P A) e :
  spawn kernel_sel root tr addr info fs_open init_kernel func h = Ret (h', Err e) →
  h_boxes h' = <[arg_of h := mkClosure func (raw_of_spawn h)]> (h_boxes h).
Proof.
  unfold spawn, spawn_with_init, new_handle, Arg_from_fn, mthen at 1 2.
  unfold Args_set. rewrite decide_True by (cbn; lia). cbn [obind].
  intros [(h1 & outer & _ & R2)|(e' & R1 & _)]%mthen_Ret_inv; [done|].
  unfold spawn_fn_handle, new_handle, exit_info_new, mthen at 1 2 in R1.
  apply mthen_Ret_inv in R1 as [(h2 & t & R1 & R3)|(e2 & R1 & _)]; [done|]. unfold on_build in R1.
  destruct (spawn_fn_with_init _ _ _ _ _ _ _ _) as [[b r]| | |]; try done. by injection R1 as <- _.
Qed.

Definition sample_host : Host (gmap Z Z) (list Z) :=
  mkHost (mkSched (mkKernel sample_tm (init_world 0) (λ _, zero) ∅ ∅ 1 0)
            (Some (mkWaitObserver [(QTimer, TimeQ [])])) true true ∅) sample_build ∅ ∅ 0x9000.

(** A closure that sees which thread it runs in, and the clock. *)
Definition sample_func (s : Sched) : Sched * Z := (s, current_tid (s_tm s) + s_now s).

Definition sample_spawn : M (Host (gmap Z Z) (list Z)) ThreadingError JoinHandle :=
  spawn (0x8, 0x10) 0x1000 0xa000 0xb000 0xc000 (λ _ _, Err NoFile) (λ _ _ _, 0) sample_func.

Definition sample_before (h' : Host (gmap Z Z) (list Z)) (handle : JoinHandle) : Sched :=
  slept handle (mkTurn [true] (thread_turn h' 0x9000 0x9001 2))
    (absent handle [mkTurn [true] tick] (with_queue (h_sched h') 2)).

Lemma sample_spawn_ok :
  match sample_spawn sample_host with
  | Ret (h', Ok handle) => snd (sample_func (switched (sample_before h' handle) 2)) =? 1002
  | _ => false
  end = true.
Proof. vm_compute. reflexivity. Qed.

(** The thread runs in the second turn, a second after the call: the joined
    value is 2 + 1000. *)
Lemma spawned_closure_joins_witness :
  ∃ h' handle s', sample_spawn sample_host = Ret (h', Ok handle) ∧
    JoinHandle_wait handle ([mkTurn [true] tick; mkTurn [true] (thread_turn h' 0x9000 0x9001 2)], h_sched h') =
      Ret (([], s'), Ok 1002).
Proof.
  pose proof sample_spawn_ok as Hok. unfold sample_spawn in *.
  destruct (spawn _ _ _ _ _ _ _ _ sample_host) as [[h' [handle|e]]| | |] eqn:E; try discriminate Hok.
  destruct (spawned_closure_joins (0x8, 0x10) 0x1000 0xa000 0xb000 0xc000 (λ _ _, Err NoFile) (λ _ _ _, 0)
    sample_func sample_host h' handle [mkTurn [true] tick] [true] []) as [_ (s' & o & Hw & _)].
  - vm_compute. reflexivity.
  - exact E.
  - reflexivity.
  - eexists. reflexivity.
  - intros s Hi Hm. split; assumption.
  - repeat constructor; done.
  - exists h', handle, s'. split; [reflexivity|]. etransitivity; [exact Hw|].
    do 3 f_equal. apply Z.eqb_eq, Hok.
Defined.
