(* ===== verification/TestRunner.v ===== *)
(** The kernel's test runner (kernel/src/lib.rs: [kernel_test_runner],
    [exit_qemu]; kernel/src/common/mod.rs: [KernelTest];
    kernel/tiny-os-common/src/testing/mod.rs: [TestConfig]).

    Every test is a thread of its own.  The runner opens its files, spawns it,
    waits for its value and kills it after ten seconds; the verdicts decide
    the code the machine is left with.  The state is the one of Closures.v,
    the turns the runner spends off the processor, and what it printed.  Its
    two descriptors are the serial port, so printing always succeeds. *)
From stdpp Require Import pretty.
From S2P Require Import Prelude Abi Fd RamFile VFS Tasks Wait Syscalls FrameAlloc Paging Mmap PageDir Elf Context TaskBuild BuildProps WaitCalls Closures.
Open Scope Z_scope.

(** ** Tests *)

Record TestConfig : Type := mkTestConfig {
  should_panic : bool;
  verbose : bool;
  open_files : list (Z * str)
}.

Record KernelTest : Type := mkKernelTest { kt_name : str; kt_func : Z; kt_config : TestConfig }.

Inductive QemuExitCode : Set := QemuSuccess | QemuFailed.

#[export] Instance QemuExitCode_eq_dec : EqDecision QemuExitCode.
Proof. solve_decision. Defined.

(** What is written to the port 0xf4. *)
Definition QemuExitCode_discr (c : QemuExitCode) : Z :=
  match c with QemuSuccess => 0x10 | QemuFailed => 0x11 end.

(** Milliseconds. *)
Definition MAX_TEST_TIME : Z := 10000.

(** ** State *)

Record Runner (P A : Type) : Type := mkRunner {
  r_turns : list Turn;
  r_host : Host P A;
  r_out : list str;          (* texts, in the order they were printed *)
  r_port : list Z            (* values written to the port 0xf4 *)
}.
Arguments mkRunner {P A} _ _ _ _.
Arguments r_turns {P A} _.
Arguments r_host {P A} _.
Arguments r_out {P A} _.
Arguments r_port {P A} _.

Definition r_sched {P A} (r : Runner P A) : Sched := h_sched (r_host r).

Section Runner.
Context {P A : Type}.
Abbreviation RM E := (M (Runner P A) E).

Definition say {E} (s : str) : RM E unit :=
  λ r, Ret (mkRunner (r_turns r) (r_host r) (r_out r ++ [s]) (r_port r), Ok tt).

Definition on_host {E X} (m : M (Host P A) E X) : RM E X :=
  λ r, let! x := m (r_host r) in Ret (mkRunner (r_turns r) (fst x) (r_out r) (r_port r), snd x).

Definition on_sched {E X} (m : W E X) : RM E X :=
  λ r, let! x := m (r_turns r, r_sched r) in
       Ret (mkRunner (fst (fst x)) (with_sched (r_host r) (snd (fst x))) (r_out r) (r_port r), snd x).

(** A [Result] that is matched on. *)
Definition attempt {E E' X} (m : RM E X) : RM E' (Result E X) :=
  λ r, let! x := m r in Ret (fst x, Ok (snd x)).

Definition exit_qemu {E} (exit_code : QemuExitCode) : RM E unit :=
  λ r, Ret (mkRunner (r_turns r) (r_host r) (r_out r) (r_port r ++ [QemuExitCode_discr exit_code]), Ok tt).

(** [tls::task_data().kill(id, sig)], the result dropped. *)
Definition kill_thread {E} (id : ThreadID) (sig : Z) : RM E unit :=
  on_sched (on_kernel (λ k, Ret (set_tm k (fst (Tasks.kill (k_tm k) id sig)), Ok tt))).

(** [current.add_fd(fd, file)] *)
Definition add_own_fd {E} (fd : Z) (file : ptr) : RM E unit :=
  on_host (λ h,
    let b := h_build h in
    match current_thread (s_tm (h_sched h)) with
    | None => Panic
    | Some t =>
        let cores := alter (λ c, set_c_fds c (fst (add_fd (c_fds c) fd file))) (deref (t_core t)) (b_cores b) in
        Ret (mkHost (h_sched h) (TaskBuild.set_cores b cores) (h_boxes h) (h_exits h) (h_next h), Ok tt)
    end).

(** ** Texts *)

Definition colour (code : string) (text : string) : str :=
  byte 27 :: lit "[" ++ lit code ++ lit "m" ++ lit text ++ byte 27 :: lit "[0m".
Definition NEWLINE : str := [byte 10].
Definition ERR_LINE : str := colour "31" "[ERR]" ++ NEWLINE.
Definition ERR_BOLD_LINE : str := colour "1;31" "[ERR]" ++ NEWLINE.
Definition OK_LINE : str := colour "32" "[OK]" ++ NEWLINE.
Definition OK_PANIC_LINE : str := colour "33" "[OK]" ++ NEWLINE.
Definition TIMEOUT_TEXT : str := colour "31" "[TASK TIMEOUT] ".

Definition max_name (tests : list KernelTest) : nat :=
  foldr Nat.max 0%nat (map (λ t, length (kt_name t)) tests).

Definition dots (max_len : nat) (t : KernelTest) : str :=
  replicate (max_len - length (kt_name t) + 3) ("."%char).

(** ** One test *)

Section run.
Context `{VirtOps} `{PageIncl} `{Mapper P A} `{FrameAllocator A} `{RootTable P} `{Hardware P}.
Context (kernel_sel : Z * Z) (kernel_root return_trampoline default_exit_info : Z).
Context (fs_open : str → Z → Result SysErrCode ptr) (init_kernel : KTaskInfo → Z → list Z → Z).
Abbreviation B := (M (Build P A) ThreadingError).

(** [try_fold]: the first file that does not open ends it. *)
Fixpoint open_test_files (acc : list (Z * ptr)) (files : list (Z * str)) : Result SysErrCode (list (Z * ptr)) :=
  match files with
  | [] => Ok acc
  | (fd, path) :: files =>
      match fs_open path OpenOptions_WRITE with
      | Ok file => open_test_files (acc ++ [(fd, file)]) files
      | Err e => Err e
      end
  end.

Definition test_init (files : list (Z * ptr)) (b : TaskBuilder Init) : B (TaskBuilder Init) :=
  let? b := with_default_files fs_open (with_args b (args_macro [])) true in
  override_files b files.

Definition spawn_test (t : KernelTest) (files : list (Z * ptr)) : M (Host P A) ThreadingError JoinHandle :=
  spawn_fn_handle kernel_sel kernel_root return_trampoline default_exit_info init_kernel (kt_func t) (test_init files).

(** The body of [wait_while]. *)
Definition watch (start_time : Z) (handle : JoinHandle) : RM JoinError unit :=
  λ r,
    let now := s_now (r_sched r) in
    if now <? start_time then Panic
    else if MAX_TEST_TIME <=? now - start_time then
      (let? _ := say TIMEOUT_TEXT in
       match jh_task handle with
       | Some id => kill_thread id 1
       | None => mpanic
       end) r
    else on_sched yield_now r.

(** A round takes a turn or kills the thread, and one more ends the loop. *)
Definition watch_fuel (r : Runner P A) : nat := S (S (length (r_turns r))).

Definition await_test (handle : JoinHandle) : RM JoinError Z :=
  λ r, wait_while r_sched on_sched (watch_fuel r) (watch (s_now (r_sched r)) handle) handle r.

(** How a test ended. *)
Inductive TestResult : Set := NotOpened | NotSpawned | Ended (r : Result JoinError Z).

(** The line printed, and whether [tests_failed] is set. *)
Definition verdict (c : TestConfig) (r : TestResult) : str * bool :=
  match r with
  | NotOpened | NotSpawned => (ERR_LINE, false)
  | Ended (Ok v) =>
      if (v =? 0) && negb (should_panic c) then (OK_LINE, false)
      else if should_panic c && negb (v =? 0) then (OK_PANIC_LINE, false)
      else (ERR_LINE, true)
  | Ended (Err _) => if should_panic c then (OK_PANIC_LINE, false) else (ERR_BOLD_LINE, true)
  end.

(** The part of the loop body before the verdict. *)
Definition execute_test {E} (t : KernelTest) : RM E TestResult :=
  match open_test_files [] (open_files (kt_config t)) with
  | Err _ => mok NotOpened
  | Ok files =>
      let? s := attempt (on_host (spawn_test t files)) in
      match s with
      | Err _ => mok NotSpawned
      | Ok handle => let? r := attempt (await_test handle) in mok (Ended r)
      end
  end.

Definition run_test {E} (max_len : nat) (t : KernelTest) : RM E bool :=
  let? _ := say (kt_name t ++ dots max_len t ++ lit " ") in
  let? res := execute_test t in
  let '(line, failed) := verdict (kt_config t) res in
  let? _ := say line in
  mok failed.

Fixpoint run_tests {E} (max_len : nat) (tests_failed : bool) (tests : list KernelTest) : RM E bool :=
  match tests with
  | [] => mok tests_failed
  | t :: tests =>
      let? failed := run_test max_len t in
      run_tests max_len (tests_failed || failed) tests
  end.

(** [fs::open(..).unwrap()] *)
Definition open_serial {E} : RM E ptr :=
  match fs_open (lit "/proc/kernel/io/serial") OpenOptions_WRITE with Ok f => mok f | Err _ => mpanic end.

Definition kernel_test_runner {E} (tests : list KernelTest) : RM E Z :=
  let? f := open_serial in
  let? _ := add_own_fd STDERR_FILENO f in
  let? f := open_serial in
  let? _ := add_own_fd STDOUT_FILENO f in
  let? _ := say (lit "running " ++ lit (pretty (length tests)) ++ lit " tests..." ++ NEWLINE) in
  let? tests_failed := run_tests (max_name tests) false tests in
  let? _ := on_sched yield_now in
  let? _ := exit_qemu (if tests_failed then QemuFailed else QemuSuccess) in
  mok 0.

End run.
End Runner.

(** ** A test ends in time *)

(** The thread of the handle exists and can be killed while it lives, and a
    handle that is marked finished has its value. *)
Record sane (self : JoinHandle) (s : Sched) : Prop := {
  sa_if : s_if s = true;
  sa_mgr : is_Some (s_mgr s);
  sa_task : ∃ id t, jh_task self = Some id ∧ objs (s_tm s) !! id = Some t ∧
    (t_state t ≠ Zombie → id ∈ lut (s_tm s));
  sa_value : finished (raw_of s self) = true → is_Some (val (raw_of s self))
}.

(** A turn after which this still holds.  The clock counts whole seconds, so
    most turns leave it where it is; it does not go back. *)
Definition fair (self : JoinHandle) (t : Turn) : Prop :=
  ∀ s, sane self s → sane self (t_away t s) ∧ s_now s <= s_now (t_away t s).

(** The state after some turns. *)
Definition after (ts : list Turn) (s : Sched) : Sched := foldl (λ s t, t_away t s) s ts.

Section Ends.
Context {P A : Type}.
Implicit Types r : Runner P A.

(** The runner after turns, and after the thread was killed. *)
Definition waited_for r (ts rest : list Turn) : Runner P A :=
  mkRunner rest (with_sched (r_host r) (after ts (r_sched r))) (r_out r) (r_port r).

Definition dead (self : JoinHandle) (s : Sched) : Sched :=
  match jh_task self with
  | Some id => set_kernel s (set_tm (s_k s) (fst (Tasks.kill (s_tm s) id 1)))
  | None => s
  end.

Definition killed self r : Runner P A :=
  mkRunner (r_turns r) (with_sched (r_host r) (dead self (r_sched r))) (r_out r ++ [TIMEOUT_TEXT]) (r_port r).

Lemma waited_for_nil r ts : r_turns r = ts → waited_for r [] ts = r.
Proof. intros <-. by destruct r as [ts [] o q]. Qed.

(** A killed thread is done and has no value. *)
Lemma dead_done self s :
  sane self s → is_done self s = false →
  is_done self (dead self s) = true ∧ s_mgr (dead self s) = s_mgr s ∧
  finished (raw_of (dead self s) self) = false ∧
  ∃ id t, jh_task self = Some id ∧ objs (s_tm (dead self s)) !! id = Some t ∧ t_state t = Zombie.
Proof.
  intros [_ _ (id & t & Hid & Ht & Hl) _] Hd. unfold is_done, is_task_alive in Hd. rewrite Hid in Hd.
  cbn [mbind option_bind] in Hd. rewrite Ht in Hd. apply orb_false_iff in Hd as [Hf Hz].
  cbn [mbind option_bind] in Hz. rewrite negb_involutive in Hz. apply bool_decide_eq_false in Hz.
  assert (Hth : thread (s_tm s) id = Some t) by (unfold thread; rewrite decide_True by auto; done).
  destruct (kill_state (s_tm s) id t 1 Hth) as (_ & Hs & _). unfold state_of in Hs.
  apply fmap_Some in Hs as (t' & Ht' & Hz'). unfold dead. rewrite Hid.
  split; [|split; [done|]].
  - unfold is_done, is_task_alive. rewrite Hid. cbn [mbind option_bind].
    change (s_tm (set_kernel s _)) with (fst (Tasks.kill (s_tm s) id 1)). rewrite Ht'. cbn [mbind option_bind].
    rewrite bool_decide_eq_true_2 by done. apply orb_true_r.
  - split; [done|]. exists id, t'. done.
Qed.

(** Waiting on a handle that is done takes no turn. *)
Lemma wait_done self s o ts :
  s_mgr s = Some o → is_done self s = true →
  (finished (raw_of s self) = true → is_Some (val (raw_of s self))) →
  (finished (raw_of s self) = false → ∃ id t, jh_task self = Some id ∧ objs (s_tm s) !! id = Some t ∧ t_state t = Zombie) →
  ∃ s', JoinHandle_wait self (ts, s) = Ret ((ts, s'),
    if finished (raw_of s self) then match val (raw_of s self) with Some v => Ok v | None => Err (Terminated DataNone) end
    else Err (Terminated (match id ← jh_task self; objs (s_tm s) !! id with Some t => t_data t | None => DataNone end))).
Proof.
  intros Ho Hd Hv Hz. unfold JoinHandle_wait, the_state, mthen. cbn [snd]. rewrite Hd.
  assert (Hq : ∀ X (k : unit → W JoinError X), (match jh_task self with Some _ => mok None | None => mok (E := JoinError) None end) (ts, s) = Ret ((ts, s), Ok (A := option unit) None))
    by (by destruct (jh_task self)).
  rewrite (Hq unit (λ _, mok tt)). cbn [fst wait_loop]. unfold the_state, mthen. cbn [snd]. rewrite Hd. cbn [mok].
  assert (Hr : ∃ s1, (match jh_task self with Some id => mgr_remove_queue (QThread id) | None => mok (E := JoinError) tt end)
    (ts, s) = Ret ((ts, s1), Ok tt) ∧ raw_of s1 self = raw_of s self ∧ s_tm s1 = s_tm s).
  { destruct (jh_task self) as [id|]; [|by exists s]. unfold mgr_remove_queue. cbn [snd fst]. rewrite Ho. by eexists. }
  destruct Hr as (s1 & -> & Hraw & Htm). unfold get_return. cbn [snd]. rewrite Hraw. unfold put_state. cbn [fst].
  destruct (finished (raw_of s self)) eqn:Hf.
  - destruct (Hv eq_refl) as [v ->]. by eexists.
  - destruct (Hz eq_refl) as (id & t & Hid & Ht & Hzt). rewrite Hid. cbn [mbind option_bind].
    change (s_tm (set_joins s1 _)) with (s_tm s1). rewrite Htm, Ht. rewrite bool_decide_eq_true_2 by done. by eexists.
Qed.

(** One round. *)
Lemma watch_kills self start r :
  sane self (r_sched r) → start <= s_now (r_sched r) → MAX_TEST_TIME <= s_now (r_sched r) - start →
  watch start self r = Ret (killed self r, Ok tt).
Proof.
  intros Hs Hst Hm. unfold watch. destruct (Z.ltb_spec (s_now (r_sched r)) start); [lia|].
  destruct (Z.leb_spec MAX_TEST_TIME (s_now (r_sched r) - start)); [|lia].
  destruct (sa_task _ _ Hs) as (id & t & Hid & _). unfold killed, dead, mthen, say. by rewrite Hid.
Qed.

Lemma watch_yields self start r t ts :
  sane self (r_sched r) → start <= s_now (r_sched r) → s_now (r_sched r) - start < MAX_TEST_TIME →
  r_turns r = t :: ts → watch start self r = Ret (waited_for r [t] ts, Ok tt).
Proof.
  intros Hs Hst Hm Hr. unfold watch. destruct (Z.ltb_spec (s_now (r_sched r)) start); [lia|].
  destruct (Z.leb_spec MAX_TEST_TIME (s_now (r_sched r) - start)); [lia|].
  unfold on_sched, yield_now, mthen, the_state. cbn [snd]. by rewrite (sa_if _ _ Hs), Hr.
Qed.

(** The last round: the thread is done already, or it is killed. *)
Lemma watch_ends self start r fuel :
  (2 <= fuel)%nat → sane self (r_sched r) → start <= s_now (r_sched r) →
  is_done self (r_sched r) = true ∨ MAX_TEST_TIME <= s_now (r_sched r) - start →
  sane self (r_sched r) ∧
  if is_done self (r_sched r) then busy_loop r_sched fuel (watch start self) self r = Ret (r, Ok tt)
  else MAX_TEST_TIME <= s_now (r_sched r) - start ∧
    busy_loop r_sched fuel (watch start self) self r = Ret (killed self r, Ok tt).
Proof.
  intros Hfu Hs Hst Hend. split; [done|]. destruct fuel as [|[|fuel]]; [lia..|].
  destruct (is_done self (r_sched r)) eqn:Hd; [cbn [busy_loop]; by rewrite Hd|].
  destruct Hend as [?|Hm]; [done|]. split; [done|]. destruct (dead_done self _ Hs Hd) as (Hdd & _).
  cbn [busy_loop]. rewrite Hd. unfold mthen at 1. rewrite watch_kills by done. cbn [busy_loop].
  change (r_sched (killed self r)) with (dead self (r_sched r)). by rewrite Hdd.
Qed.

(** The loop: turns until the thread is done, or until its time is up. *)
Lemma watch_loop self start ts : Forall (fair self) ts → ∀ r fuel,
  r_turns r = ts → (length ts + 2 <= fuel)%nat → sane self (r_sched r) → start <= s_now (r_sched r) →
  start + MAX_TEST_TIME <= s_now (after ts (r_sched r)) →
  ∃ k, let s := after (take k ts) (r_sched r) in let r1 := waited_for r (take k ts) (drop k ts) in
    (k <= length ts)%nat ∧
    (∀ j, (j < k)%nat → s_now (after (take j ts) (r_sched r)) < start + MAX_TEST_TIME ∧
       is_done self (after (take j ts) (r_sched r)) = false) ∧
    sane self s ∧
    if is_done self s then busy_loop r_sched fuel (watch start self) self r = Ret (r1, Ok tt)
    else MAX_TEST_TIME <= s_now s - start ∧
      busy_loop r_sched fuel (watch start self) self r = Ret (killed self r1, Ok tt).
Proof.
  intros Hts. induction Hts as [|t ts Ht Hts IH]; intros r fuel Hr Hfu Hs Hst Hlen.
  all: destruct (decide (is_done self (r_sched r) = true ∨ MAX_TEST_TIME <= s_now (r_sched r) - start)) as [Hend|Hgo].
  1, 3: exists 0%nat; cbn [take drop]; rewrite (waited_for_nil _ _ Hr); cbn [after foldl]; cbv zeta;
    (split; [lia|]; split; [lia|]); apply watch_ends; [lia|done..].
  - exfalso. apply Hgo. right. cbn in Hlen. lia.
  - destruct (Ht _ Hs) as [Hs' Hnow]. destruct fuel as [|fuel]; [cbn in Hfu; lia|].
    set (r2 := waited_for r [t] ts).
    assert (Hd : is_done self (r_sched r) = false).
    { destruct (is_done self (r_sched r)); [by destruct Hgo; left|done]. }
    assert (Hstep : busy_loop r_sched (S fuel) (watch start self) self r = busy_loop r_sched fuel (watch start self) self r2).
    { cbn [busy_loop]. rewrite Hd. unfold mthen.
      by rewrite (watch_yields _ _ _ t ts) by (done || lia). }
    rewrite Hstep.
    destruct (IH r2 fuel) as (k & Hk & Hj & Hsane & Hres); [done|cbn in Hfu; lia|done|cbn; lia|done|].
    exists (S k). split; [cbn; lia|]. split; [|split; [done|exact Hres]].
    intros [|j] Hjk; [cbn; split; [lia|done]|]. apply Hj. lia.
Qed.

End Ends.

Section EndsSpec.
Context {P A : Type} `{VirtOps} `{PageIncl} `{Mapper P A} `{FrameAllocator A} `{RootTable P} `{Hardware P}.
Context (kernel_sel : Z * Z) (kernel_root return_trampoline default_exit_info : Z).
Context (fs_open : str → Z → Result SysErrCode ptr) (init_kernel : KTaskInfo → Z → list Z → Z).
Implicit Types r : Runner P A.
Abbreviation spawn_test := (spawn_test (P := P) (A := A) kernel_sel kernel_root return_trampoline default_exit_info
  fs_open init_kernel).
Abbreviation run_test := (run_test (P := P) (A := A) kernel_sel kernel_root return_trampoline default_exit_info
  fs_open init_kernel).

Lemma test_init_advances files b : advances (inner b) (test_init (P := P) (A := A) fs_open files b).
Proof.
  unfold test_init. change (inner b) with (inner (with_args b (args_macro []))).
  apply advances_bind; [apply default_files_advances|]. intros b2 Hb2. unfold override_files.
  apply advances_quiet; [apply with_core_quiet|]. intros _. by apply advances_ok.
Qed.

(** A new thread can be waited for. *)
Lemma test_spawned t files h h' handle :
  objs (s_tm (h_sched h)) !! b_tid (h_build h) = None → s_if (h_sched h) = true → is_Some (s_mgr (h_sched h)) →
  spawn_test t files h = Ret (h', Ok handle) → sane handle (h_sched h').
Proof.
  intros Hfresh Hi Hm. unfold TestRunner.spawn_test, spawn_fn_handle, new_handle, exit_info_new, mthen at 1 2.
  cbn [with_sched h_sched set_joins s_joins h_next h_exits h_boxes h_build JoinHandle_default jh_inner].
  set (p := fresh (dom (s_joins (h_sched h)))).
  intros [(h2 & tk & R1 & R3)|(e & _ & ?)]%mthen_Ret_inv; [|done]. injection R3 as <- <-. unfold on_build in R1.
  destruct (spawn_fn_with_init _ _ _ _ _ _ _ _) as [[b x]| | |] eqn:Hrun; try done. injection R1 as <- ->.
  apply (spawn_fn_spawns _ _ _ fs_open (λ _, None) _ (λ _ _, [])) in Hrun as (t' & Hsp & <-);
    [|intros; apply test_init_advances|done].
  split; [done|done| |].
  - exists (tid tk), tk. split; [done|]. split; [apply (sp_object _ _ _ Hsp)|]. intros _. apply (sp_known _ _ _ Hsp).
  - unfold raw_of. cbn. rewrite lookup_insert_eq. done.
Qed.

(** The result of the wait, in the state that ended the loop. *)
Definition ended_with (self : JoinHandle) (s : Sched) (res : Result JoinError Z) : Prop :=
  match res with
  | Ok v => raw_of s self = mkRaw true (Some v)
  | Err (Terminated d) => finished (raw_of s self) = false ∧
      ∃ id t, jh_task self = Some id ∧ objs (s_tm s) !! id = Some t ∧ t_state t = Zombie ∧ t_data t = d
  end.

Lemma wait_ended self s ts :
  is_Some (s_mgr s) → is_done self s = true → (∃ id t, jh_task self = Some id ∧ objs (s_tm s) !! id = Some t) →
  (finished (raw_of s self) = true → is_Some (val (raw_of s self))) →
  ∃ s' res, JoinHandle_wait self (ts, s) = Ret ((ts, s'), res) ∧ ended_with self s res.
Proof.
  intros [o Ho] Hd (id & t & Hid & Ht) Hv.
  assert (Hz : finished (raw_of s self) = false → t_state t = Zombie).
  { intros Hf. unfold is_done, is_task_alive in Hd. rewrite Hf, Hid in Hd. cbn [mbind option_bind orb] in Hd.
    rewrite Ht in Hd. cbn [mbind option_bind] in Hd. rewrite negb_involutive in Hd. by apply bool_decide_eq_true in Hd. }
  destruct (wait_done self s o ts Ho Hd Hv) as (s' & Hw); [intros Hf; exists id, t; auto|].
  eexists s', _. split; [exact Hw|]. destruct (finished (raw_of s self)) eqn:Hf.
  - destruct (Hv eq_refl) as [v Hval]. rewrite Hval. cbn [ended_with].
    destruct (raw_of s self). cbn in *. congruence.
  - rewrite Hid. cbn [mbind option_bind]. rewrite Ht. cbn [ended_with]. split; [done|]. exists id, t. auto.
Qed.

(** The wait after the loop: for a thread that is done or has been killed. *)
Lemma wait_after self s ts :
  sane self s →
  let s3 := if is_done self s then s else dead self s in
  ∃ s' res, JoinHandle_wait self (ts, s3) = Ret ((ts, s'), res) ∧ ended_with self s3 res ∧
    (is_done self s = false → ∃ e, res = Err e).
Proof.
  intros Hs. cbv zeta. destruct (is_done self s) eqn:Hd.
  - destruct (sa_task _ _ Hs) as (id & tk & Hid & Ht & _).
    destruct (wait_ended self s ts (sa_mgr _ _ Hs) Hd) as (s' & res & Hw & He);
      [by exists id, tk|apply (sa_value _ _ Hs)|]. by exists s', res.
  - destruct (dead_done self s Hs Hd) as (Hdd & Hmgr & Hf & id & tk & Hid & Ht & _).
    destruct (wait_ended self (dead self s) ts) as (s' & res & Hw & He);
      [rewrite Hmgr; apply (sa_mgr _ _ Hs)|done|by exists id, tk|by rewrite Hf|].
    exists s', res. split; [done|]. split; [done|]. intros _. destruct res as [v|e]; [|by exists e].
    cbn [ended_with] in He. by rewrite He in Hf.
Qed.

(** C18: a test whose thread was started gets a verdict in time, whatever the
    other threads do, as long as the clock goes on.  The runner stops waiting
    at the first check that finds the thread done or ten seconds gone since
    the start: at every check before, less than ten seconds had passed.  If the
    thread is done, the verdict is taken from the value it returned or from its
    death; else ten seconds have passed, the timeout is printed, the thread is
    killed, and the verdict is the one of a thread that died. *)
Theorem test_ends_in_time {E} max_len t files r h' handle :
  open_test_files fs_open [] (open_files (kt_config t)) = Ok files →
  objs (s_tm (r_sched r)) !! b_tid (h_build (r_host r)) = None →
  s_if (r_sched r) = true → is_Some (s_mgr (r_sched r)) →
  spawn_test t files (r_host r) = Ret (h', Ok handle) →
  let start := s_now (h_sched h') in
  let at_check j := after (take j (r_turns r)) (h_sched h') in
  Forall (fair handle) (r_turns r) →
  start + MAX_TEST_TIME <= s_now (after (r_turns r) (h_sched h')) →
  ∃ k r' res, r_turns r' = drop k (r_turns r) ∧
    (∀ j, (j < k)%nat → s_now (at_check j) < start + MAX_TEST_TIME ∧ is_done handle (at_check j) = false) ∧
    let s := at_check k in
    let '(line, failed) := verdict (kt_config t) (Ended res) in
    (run_test max_len t : M _ E bool) r = Ret (r', Ok failed) ∧
    if is_done handle s
    then ended_with handle s res ∧ r_out r' = r_out r ++ [kt_name t ++ dots max_len t ++ lit " "; line]
    else start + MAX_TEST_TIME <= s_now s ∧ ended_with handle (dead handle s) res ∧ (∃ e, res = Err e) ∧
      r_out r' = r_out r ++ [kt_name t ++ dots max_len t ++ lit " "; TIMEOUT_TEXT; line].
Proof.
  intros Hfiles Hfresh Hi Hm Hspawn start at_check Hfair Hlen.
  pose proof (test_spawned t files (r_host r) h' handle Hfresh Hi Hm Hspawn) as Hsane.
  set (head := kt_name t ++ dots max_len t ++ lit " ").
  set (r2 := mkRunner (r_turns r) h' (r_out r ++ [head]) (r_port r)).
  destruct (watch_loop handle (s_now (h_sched h')) (r_turns r) Hfair r2 (watch_fuel r2)) as (k & _ & Hk & Hs & Hres);
    [done|unfold watch_fuel; cbn [r_turns r2]; lia|done|done|done|].
  cbn zeta in Hk, Hs, Hres. change (r_sched r2) with (h_sched h') in *.
  set (s := after (take k (r_turns r)) (h_sched h')) in *.
  set (r3 := if is_done handle s then waited_for r2 (take k (r_turns r)) (drop k (r_turns r))
             else killed handle (waited_for r2 (take k (r_turns r)) (drop k (r_turns r)))).
  assert (Hloop : busy_loop r_sched (watch_fuel r2) (watch (s_now (h_sched h')) handle) handle r2 = Ret (r3, Ok tt)).
  { unfold r3. destruct (is_done handle s); [exact Hres|apply Hres]. }
  set (s3 := if is_done handle s then s else dead handle s).
  assert (Hs3 : r_sched r3 = s3) by (unfold r3, s3; by destruct (is_done handle s)).
  destruct (wait_after handle s (drop k (r_turns r)) Hs) as (s' & res & Hw & He & Herr). fold s3 in Hw, He.
  destruct (verdict (kt_config t) (Ended res)) as [line failed] eqn:Hv.
  exists k, (mkRunner (drop k (r_turns r)) (with_sched (r_host r3) s') (r_out r3 ++ [line]) (r_port r3)), res.
  split; [done|]. split; [exact Hk|]. cbv zeta. unfold at_check. fold s. rewrite Hv. split.
  - unfold TestRunner.run_test, mthen at 1, say at 1. fold head. unfold execute_test. rewrite Hfiles.
    unfold mthen at 1 2, attempt at 1, on_host. cbn [r_host]. rewrite Hspawn. cbn [obind fst snd r_turns r_out r_port].
    fold r2. unfold mthen at 1, attempt, await_test, wait_while, mthen at 1.
    change (s_now (r_sched r2)) with (s_now (h_sched h')). rewrite Hloop.
    assert (Ht3 : r_turns r3 = drop k (r_turns r)) by (unfold r3; by destruct (is_done handle s)).
    unfold on_sched. rewrite Hs3, Ht3, Hw. cbn [obind fst snd mok]. rewrite Hv. done.
  - unfold s3 in He. destruct (is_done handle s) eqn:Hd; unfold r3; cbn [r_out waited_for killed r2].
    + split; [done|]. by rewrite <- app_assoc.
    + destruct Hres as [Hnow _]. split; [lia|]. split; [done|]. split; [by apply Herr|]. by rewrite <- !app_assoc.
Qed.

End EndsSpec.

(** ** The exit code *)

(** Nothing but [exit_qemu] writes to the port. *)
Definition keeps_port {P A E X} (m : M (Runner P A) E X) : Prop :=
  ∀ r r' x, m r = Ret (r', x) → r_port r' = r_port r.

Section Port.
Context {P A E : Type}.

Lemma keeps_port_bind {X Y} (m : M (Runner P A) E X) (k : X → M (Runner P A) E Y) :
  keeps_port m → (∀ x, keeps_port (k x)) → keeps_port (mthen m k).
Proof.
  intros Hm Hk r r' y [(r1 & x & R1 & R2)|(e & R1 & ->)]%mthen_Ret_inv; [|by apply (Hm _ _ _ R1)].
  rewrite (Hk _ _ _ _ R2). by apply (Hm _ _ _ R1).
Qed.

Lemma port_then {X Y} (m : M (Runner P A) E X) (k : X → M (Runner P A) E Y) r r' y :
  mthen m k r = Ret (r', Ok y) → keeps_port m → ∃ r1 x, k x r1 = Ret (r', Ok y) ∧ r_port r1 = r_port r.
Proof.
  intros [(r1 & x & R1 & R2)|(e & _ & ?)]%mthen_Ret_inv Hm; [|done]. exists r1, x. split; [done|]. by apply (Hm _ _ _ R1).
Qed.

Lemma keeps_port_pure {X} (x : X) : keeps_port (mok x : M (Runner P A) E X).
Proof. by intros r r' y [= <- _]. Qed.

Lemma keeps_port_panic {X} : keeps_port (mpanic : M (Runner P A) E X).
Proof. intros r r' y [=]. Qed.

Lemma keeps_port_say s : keeps_port (say s : M (Runner P A) E unit).
Proof. by intros r r' y [= <- _]. Qed.

Lemma keeps_port_host {X} (m : M (Host P A) E X) : keeps_port (on_host m).
Proof. intros r r' y. unfold on_host. destruct (m _) as [x| | |]; try done. by intros [= <- _]. Qed.

Lemma keeps_port_sched {X} (m : W E X) : keeps_port (P := P) (A := A) (on_sched m).
Proof. intros r r' y. unfold on_sched. destruct (m _) as [x| | |]; try done. by intros [= <- _]. Qed.

Lemma keeps_port_attempt {E' X} (m : M (Runner P A) E' X) : keeps_port m → keeps_port (E := E) (attempt m).
Proof.
  intros Hm r r' y. unfold attempt. destruct (m r) as [[r1 x]| | |] eqn:R; try done. intros [= <- _]. by apply (Hm _ _ _ R).
Qed.

End Port.
Create HintDb port.
#[export] Hint Resolve keeps_port_bind keeps_port_pure keeps_port_panic keeps_port_say keeps_port_host
  keeps_port_sched keeps_port_attempt : port.

Lemma await_keeps_port {P A} handle : keeps_port (P := P) (A := A) (await_test handle).
Proof.
  assert (Hw : ∀ start, keeps_port (P := P) (A := A) (watch start handle)).
  { intros start r r' x. unfold watch. destruct (_ <? _); [done|]. destruct (_ <=? _).
    - apply keeps_port_bind; [auto with port|]. intros _. destruct (jh_task handle); unfold kill_thread; auto with port.
    - apply keeps_port_sched. }
  intros r. unfold await_test, wait_while. apply keeps_port_bind; [|auto with port].
  generalize (s_now (r_sched r)). intros start. generalize (watch_fuel r). clear r. intros fuel.
  induction fuel as [|fuel IH]; intros r r' x; cbn [busy_loop]; [done|].
  destruct (is_done _ _); [by intros [= <- _]|]. by apply keeps_port_bind.
Qed.

Section Code.
Context {P A E : Type} `{VirtOps} `{PageIncl} `{Mapper P A} `{FrameAllocator A} `{RootTable P} `{Hardware P}.
Context (kernel_sel : Z * Z) (kernel_root return_trampoline default_exit_info : Z).
Context (fs_open : str → Z → Result SysErrCode ptr) (init_kernel : KTaskInfo → Z → list Z → Z).
Implicit Types r : Runner P A.
Abbreviation run_tests := (run_tests (P := P) (A := A) kernel_sel kernel_root return_trampoline default_exit_info
  fs_open init_kernel).
Abbreviation kernel_test_runner := (kernel_test_runner (P := P) (A := A) kernel_sel kernel_root return_trampoline
  default_exit_info fs_open init_kernel).

Lemma run_tests_port max_len tests failed : keeps_port (run_tests max_len failed tests : M _ E bool).
Proof.
  revert failed. induction tests as [|t tests IH]; intros failed; cbn [TestRunner.run_tests]; [auto with port|].
  apply keeps_port_bind; [|auto]. unfold run_test. apply keeps_port_bind; [auto with port|]. intros _.
  apply keeps_port_bind.
  - unfold execute_test. destruct (open_test_files _ _ _); [|auto with port].
    apply keeps_port_bind; [auto with port|]. intros [handle|e]; [|auto with port].
    apply keeps_port_bind; [|auto with port]. apply keeps_port_attempt, await_keeps_port.
  - intros res. destruct (verdict _ _). auto with port.
Qed.

(** The flag is that of the tests before, or one of the verdicts. *)
Lemma run_tests_failed max_len tests failed r r' b :
  (run_tests max_len failed tests : M _ E bool) r = Ret (r', Ok b) →
  ∃ results, length results = length tests ∧
    b = failed || existsb (λ '(t, res), snd (verdict (kt_config t) res)) (zip tests results).
Proof.
  revert failed r. induction tests as [|t tests IH]; intros failed r; cbn [TestRunner.run_tests].
  { intros [= _ <-]. exists []. by rewrite orb_false_r. }
  intros [(r1 & f & R1 & R2)|(e & _ & ?)]%mthen_Ret_inv; [|done].
  apply IH in R2 as (results & Hlen & ->). unfold run_test in R1.
  apply mthen_Ret_inv in R1 as [(r2 & u & _ & R1)|(e & _ & ?)]; [|done].
  apply mthen_Ret_inv in R1 as [(r3 & res & _ & R1)|(e & _ & ?)]; [|done].
  destruct (verdict (kt_config t) res) as [line f'] eqn:Hv.
  apply mthen_Ret_inv in R1 as [(r4 & u' & _ & R1)|(e & _ & ?)]; [|done]. injection R1 as _ <-.
  exists (res :: results). split; [cbn; by rewrite Hlen|]. cbn [zip zip_with existsb]. rewrite Hv. by rewrite orb_assoc.
Qed.

(** The machine is left with exactly one code: the failing one when a test
    that was started got a failing verdict. *)
Lemma exit_code_spec tests r r' z :
  (kernel_test_runner tests : M _ E Z) r = Ret (r', Ok z) →
  z = 0 ∧ ∃ results, length results = length tests ∧
    r_port r' = r_port r ++ [QemuExitCode_discr
      (if existsb (λ '(t, res), snd (verdict (kt_config t) res)) (zip tests results) then QemuFailed else QemuSuccess)].
Proof.
  unfold TestRunner.kernel_test_runner.
  assert (Hs : keeps_port (open_serial fs_open : M (Runner P A) E ptr)).
  { unfold open_serial. destruct (fs_open _ _); auto with port. }
  assert (Hf : ∀ fd f, keeps_port (add_own_fd fd f : M (Runner P A) E unit)) by (unfold add_own_fd; auto with port).
  intros (r1 & f1 & R & E1)%port_then; [|done]. apply port_then in R as (r2 & u2 & R & E2); [|done].
  apply port_then in R as (r3 & f3 & R & E3); [|done]. apply port_then in R as (r4 & u4 & R & E4); [|done].
  apply port_then in R as (r5 & u5 & R & E5); [|auto with port].
  apply mthen_Ret_inv in R as [(r6 & b & R6 & R)|(e & _ & ?)]; [|done].
  destruct (run_tests_failed _ _ _ _ _ _ R6) as (results & Hlen & ->). apply run_tests_port in R6.
  apply port_then in R as (r7 & u7 & R & E7); [|auto with port].
  unfold exit_qemu, mthen in R. injection R as <- <-. split; [done|]. exists results. split; [done|].
  cbn [r_port orb]. congruence.
Qed.

(** Tests whose files cannot be opened print an error and are not counted: a
    run of nothing but such tests succeeds. *)
Lemma unopened_not_counted max_len tests failed r :
  Forall (λ t, ∃ e, open_test_files fs_open [] (open_files (kt_config t)) = Err e) tests →
  ∃ r', (run_tests max_len failed tests : M _ E bool) r = Ret (r', Ok failed) ∧
    r_out r' = r_out r ++ concat (map (λ t, [kt_name t ++ dots max_len t ++ lit " "; ERR_LINE]) tests).
Proof.
  intros Hall. revert r. induction Hall as [|t tests [e He] Hall IH]; intros r; cbn [TestRunner.run_tests map concat].
  { exists r. by rewrite app_nil_r. }
  set (r1 := mkRunner (r_turns r) (r_host r) ((r_out r ++ [kt_name t ++ dots max_len t ++ lit " "]) ++ [ERR_LINE]) (r_port r)).
  destruct (IH r1) as (r' & Hr & Hout). exists r'. split.
  - unfold mthen at 1, run_test, mthen at 1, say at 1, execute_test. rewrite He.
    unfold mthen at 1. cbn [mok verdict fst snd]. unfold mthen, say. cbn [mok]. rewrite orb_false_r. exact Hr.
  - rewrite Hout. cbn [r1 r_out app]. by rewrite <- !app_assoc.
Qed.

End Code.

(** ** Instances *)

Definition tick_turn : Turn := mkTurn [true] tick.

Lemma tick_fair self : fair self tick_turn.
Proof. intros s [? ? ? ?]. split; [by split|]. unfold s_now. cbn. lia. Qed.

(** A turn within the same second. *)
Definition idle_turn : Turn := mkTurn [true] id.

Lemma idle_fair self : fair self idle_turn.
Proof. intros s Hs. by split. Qed.

Lemma clock_done self ts s :
  Forall (λ t, t = tick_turn ∨ t = idle_turn) ts → is_done self (after ts s) = is_done self s.
Proof.
  intros Hts. revert s. induction Hts as [|t ts [-> | ->] _ IH]; intros s; [done|..]; exact (IH _).
Qed.

Definition sample_test (panics : bool) : KernelTest :=
  mkKernelTest (lit "t") 0xb000 (mkTestConfig panics false []).

Definition sample_runner (turns : nat) : Runner (gmap Z Z) (list Z) :=
  mkRunner (replicate turns tick_turn) sample_host [] [].

Definition sample_run_test (t : KernelTest) : M (Runner (gmap Z Z) (list Z)) unit bool :=
  run_test (0x8, 0x10) 0x1000 0xa000 0xc000 (λ _ _, Err NoFile) (λ _ _ _, 0) 1 t.

Lemma sample_test_spawns :
  match spawn_test (0x8, 0x10) 0x1000 0xa000 0xc000 (λ _ _, Err NoFile) (λ _ _ _, 0) (sample_test false) [] sample_host with
  | Ret (h', Ok handle) => negb (is_done handle (h_sched h'))
  | _ => false
  end = true.
Proof. vm_compute. reflexivity. Qed.

(** A second that takes three turns. *)
Definition second : list Turn := [idle_turn; idle_turn; tick_turn].

Definition slow_runner : Runner (gmap Z Z) (list Z) :=
  mkRunner (concat (replicate 10 second)) sample_host [] [].

Lemma slow_turns : Forall (λ t, t = tick_turn ∨ t = idle_turn) (r_turns slow_runner).
Proof. cbn. repeat (constructor; [by auto|]). constructor. Qed.

Lemma slow_clock s : s_now (after (r_turns slow_runner) s) = s_now s + MAX_TEST_TIME.
Proof. unfold s_now, MAX_TEST_TIME. cbn. lia. Qed.

(** A test whose thread never gets to its end fails. *)
Lemma test_ends_in_time_witness :
  ∃ r', sample_run_test (sample_test false) slow_runner = Ret (r', Ok true).
Proof.
  pose proof sample_test_spawns as Hok. unfold sample_run_test.
  destruct (spawn_test _ _ _ _ _ _ (sample_test false) [] sample_host) as [[h' [handle|e]]| | |] eqn:E;
    try discriminate Hok.
  destruct (test_ends_in_time (0x8, 0x10) 0x1000 0xa000 0xc000 (λ _ _, Err NoFile) (λ _ _ _, 0) (E := unit) 1
    (sample_test false) [] slow_runner h' handle) as (k & r' & res & _ & _ & Hrun).
  - reflexivity.
  - vm_compute. reflexivity.
  - reflexivity.
  - eexists. reflexivity.
  - exact E.
  - eapply Forall_impl; [exact slow_turns|]. intros t [-> | ->]; [apply tick_fair|apply idle_fair].
  - rewrite slow_clock. done.
  - cbv beta zeta in Hrun. rewrite clock_done in Hrun by (apply Forall_take, slow_turns).
    rewrite (proj1 (negb_true_iff _) Hok) in Hrun.
    destruct (verdict _ _) as [line failed] eqn:Hv. destruct Hrun as (Hrun & _ & _ & (e & ->) & _).
    injection Hv as _ <-. exists r'. exact Hrun.
Defined.

(** A test that is meant to panic and hangs instead is reported as passed; the
    test [timeout] of lib.rs is of this kind. *)
Lemma hung_should_panic_passes :
  match sample_run_test (sample_test true) (sample_runner 12) with
  | Ret (r', Ok failed) => negb failed && bool_decide (r_out r' = [lit "t... "; TIMEOUT_TEXT; OK_PANIC_LINE])
  | _ => false
  end = true.
Proof. vm_compute. reflexivity. Qed.
