(* ===== verification/PipeCall.v ===== *)
(** The [pipe] call (kernel/src/kernel/abi/syscalls/funcs.rs) and pipes
    behind the [FileRepr] trait (kernel/src/kernel/devices/tty/mod.rs): two
    files of the descriptor table share one pipe of Tty.v. *)
From S2P Require Import Prelude Abi Io Fd RamFile FsRepr Tasks Syscalls Tty.
Open Scope Z_scope.

(** ** Pipes as files *)

(** The pipes of the kernel; an [Arc<Pipe>] is a key. *)
Abbreviation Pipes := (gmap ptr Pipe).

Definition pipe_at {A} (self : ptr) (f : Pipe → Outcome A) (s : Pipes) : Outcome A :=
  match s !! self with Some p => f p | None => Panic end.

Definition pipe_fstat (self : ptr) : M Pipes FSError FStat :=
  mok (set_node_type FStat_default NodeType_FILE).

Definition pipe_file_read (self : ptr) : Reader Pipes := λ _offset '(s, buf),
  pipe_at self (λ p, let '(p, buf, r) := Pipe_read p buf in Ret ((<[self := p]> s, buf), r)) s.

Definition pipe_file_write (self : ptr) : Writer Pipes := λ buf _offset s,
  pipe_at self (λ p, let '(p, r) := Pipe_write p buf in Ret (<[self := p]> s, r)) s.

(** [on_open], [on_clone] and [on_drop] count the handles. *)
Definition pipe_hook (f : Pipe → Z → Pipe) (self : ptr) (meta : FileMetadata) : M Pipes FSError unit :=
  λ s, pipe_at self (λ p, Ret (<[self := f p (meta_perms meta)]> s, Ok tt)) s.

(** One round per byte in the pipe, and the growing buffer, as for files. *)
Definition pipe_fuel (self : ptr) (s : Pipes) : nat :=
  match s !! self with Some p => length (pipe_buf p) + 3 | None => 0 end.

#[export] Instance Pipe_FileRepr {prof : Profile} : FileRepr Pipes ptr := {
  fr_fstat := pipe_fstat;
  fr_update_perms _ := default_update_perms;
  fr_clear _ := default_clear;
  fr_read := pipe_file_read;
  fr_read_to_end self offset st :=
    read_to_end prof (pipe_fuel self (fst st)) (pipe_file_read self) offset st;
  fr_write := pipe_file_write;
  fr_write_all self buf offset := write_all prof (length buf) (pipe_file_write self) buf offset;
  fr_on_open := pipe_hook Pipe_on_open;
  fr_on_clone := pipe_hook Pipe_on_clone;
  fr_on_drop := pipe_hook Pipe_on_drop;
  fr_on_close _ := default_hook
}.

(** ** The call *)

Record PipeKernel : Type := mkPK {
  pk_tm : TaskManager;
  pk_mem : Z → u8;
  pk_fds : gmap Z FDMap;
  pk_files : gmap ptr (File ptr);
  pk_pipes : Pipes;
  pk_next : ptr
}.

Section call.
Context {prof : Profile} (hhdm : Z).

Abbreviation PSys := (M PipeKernel SysErrCode).

(** [Arc::new]. *)
Definition new_pipe (p : Pipe) : PSys ptr :=
  λ k, Ret (mkPK (pk_tm k) (pk_mem k) (pk_fds k) (pk_files k) (<[pk_next k := p]> (pk_pipes k))
              (Pos.succ (pk_next k)), Ok (pk_next k)).

Definition new_file (f : File ptr) : PSys ptr :=
  λ k, Ret (mkPK (pk_tm k) (pk_mem k) (pk_fds k) (<[pk_next k := f]> (pk_files k)) (pk_pipes k)
              (Pos.succ (pk_next k)), Ok (pk_next k)).

(** [FileBuilder::new(pipe).with_perms(perms).finish()]; these have no error
    for a caller to see. *)
Definition pipe_end (pipe : ptr) (perms : Z) : PSys (File ptr) :=
  λ k, let! r := (let? f := FileBuilder_with_perms (FileBuilder_new (Shared pipe)) perms in finish f)
                   (pk_pipes k) in
       match r with
       | (s, Ok f) => Ret (mkPK (pk_tm k) (pk_mem k) (pk_fds k) (pk_files k) s (pk_next k), Ok f)
       | (_, Err _) => Panic
       end.

Definition pk_table (k : PipeKernel) (t : Task) : FDMap := default ∅ (pk_fds k !! core_of t).

(** [next_fd] and [add_fd] of the current task. *)
Definition open_next (t : Task) (h : ptr) : PSys Z :=
  λ k, let! r := add_next_file prof (pk_table k t) h in
       Ret (mkPK (pk_tm k) (pk_mem k) (<[core_of t := fst r]> (pk_fds k)) (pk_files k) (pk_pipes k) (pk_next k),
            Ok (snd r)).

Definition store32 (addr z : Z) : PSys unit :=
  λ k, Ret (mkPK (pk_tm k) (mem_write (pk_mem k) addr (le32 z)) (pk_fds k) (pk_files k) (pk_pipes k) (pk_next k),
            Ok tt).

Definition sys_pipe (fds cap : Z) : PSys unit :=
  let? _ := (λ k, let! ok := valid_ptr prof hhdm fds 1 8 in
                  if ok then mok tt k else merr AddrNotValid k) in
  let? t := (λ k, Ret (k, ok_or NoProcess (current_thread (pk_tm k)))) in
  let? pipe := new_pipe (Pipe_new cap) in
  let? reader := pipe_end pipe FPerms_READ in
  let? writer := pipe_end pipe FPerms_WRITE in
  let? r := new_file reader in
  let? read_fd := open_next t r in
  let? w := new_file writer in
  let? write_fd := open_next t w in
  let? _ := store32 fds read_fd in
  store32 (fds + 4) write_fd.

End call.

(** ** What the caller gets *)

(** Two 32-bit stores in a row. *)
Lemma store_pair mem fds a b :
  map (λ i, mem_write (mem_write mem fds (le32 a)) (fds + 4) (le32 b) (fds + Z.of_nat i)) (seq 0 8)
    = le32 a ++ le32 b.
Proof.
  apply list_eq. intros i. destruct (decide (i < 8)%nat) as [Hi|Hi].
  2: { rewrite !lookup_ge_None_2; [done| |]; rewrite ?length_map, ?length_seq; [cbn|]; lia. }
  rewrite list_lookup_fmap, lookup_seq_lt by done. cbn [fmap option_fmap option_map].
  destruct (decide (i < 4)%nat) as [H4|H4].
  - rewrite mem_write_out by lia. rewrite lookup_app_l by (cbn; lia).
    destruct (le32 a !! i) as [x|] eqn:Hx; [|apply lookup_ge_None in Hx; cbn in Hx; lia].
    by rewrite (mem_write_at _ _ _ _ x).
  - rewrite lookup_app_r by (cbn; lia). change (length (le32 a)) with 4%nat.
    destruct (le32 b !! (i - 4)%nat) as [x|] eqn:Hx; [|apply lookup_ge_None in Hx; cbn in Hx; lia].
    replace (fds + Z.of_nat (0 + i)) with (fds + 4 + Z.of_nat (i - 4)) by lia.
    by rewrite (mem_write_at _ _ _ _ x).
Qed.

Definition end_file (pipe : ptr) (p : Z) : File ptr := mkFile (Shared pipe) FCursor_default p None.

Section spec.
Context {prof : Profile}.

Lemma pipe_end_runs k pipe p x :
  pk_pipes k !! pipe = Some x → p = FPerms_READ ∨ p = FPerms_WRITE →
  pipe_end pipe p k =
    Ret (mkPK (pk_tm k) (pk_mem k) (pk_fds k) (pk_files k) (<[pipe := inc_handles x p]> (pk_pipes k)) (pk_next k),
         Ok (end_file pipe p)).
Proof.
  intros Hx Hp. unfold pipe_end, FileBuilder_with_perms, FileBuilder_new, Fd.with_perms, finish.
  assert (contains p FPerms_APPEND = false ∧ contains p (Z.lor FPerms_WRITE FPerms_TRUNCATE) = false) as [E1 E2]
    by (destruct Hp as [->| ->]; split; reflexivity).
  cbn [perms File_new set_perms]. change (Z.lor FPerms_empty p) with p. rewrite E1.
  unfold mthen. cbn [mok]. cbn [perms set_perms]. rewrite E2. cbn [mok].
  cbn [fr_on_open Pipe_FileRepr]. unfold pipe_hook, pipe_at. cbn [deref repr set_perms File_new]. rewrite Hx. done.
Qed.

Lemma open_next_runs k t h :
  (∀ d, is_Some (pk_table k t !! d) → 0 <= d < U32_MAX) →
  ∃ fd, open_next t h k =
      Ret (mkPK (pk_tm k) (pk_mem k) (<[core_of t := <[fd := h]> (pk_table k t)]> (pk_fds k))
             (pk_files k) (pk_pipes k) (pk_next k), Ok fd) ∧
    pk_table k t !! fd = None ∧ 0 <= fd ∧ (∀ d, is_Some (pk_table k t !! d) → d < fd) ∧
    (fd = 0 ∨ ∃ d, is_Some (pk_table k t !! d) ∧ fd = d + 1).
Proof.
  intros Hb. unfold open_next, add_next_file, next_fd.
  destruct (last_key (pk_table k t)) as [m|] eqn:Hm.
  - pose proof (last_key_elem _ _ Hm) as He. destruct (Hb m He). rewrite decide_True by lia.
    exists (m + 1). split; [done|].
    assert (Hlt : ∀ d, is_Some (pk_table k t !! d) → d < m + 1).
    { intros d [h' Hd]. destruct (last_key_ge _ _ _ Hd) as (m' & Hm' & ?). rewrite Hm in Hm'. simplify_eq. lia. }
    split; [|split; [lia|split; [done|eauto]]].
    apply eq_None_not_Some. intros Hs%Hlt. lia.
  - assert (Hno : ∀ d, ¬ is_Some (pk_table k t !! d)).
    { intros d [h' Hd]. destruct (last_key_ge _ _ _ Hd) as (? & ? & _). congruence. }
    exists 0. split; [done|]. split; [by apply eq_None_not_Some|]. split; [lia|].
    split; [intros d Hd; by destruct (Hno d)|by left].
Qed.

(** Bytes written into an empty pipe come out at the other end. *)
Lemma pipe_flow s0 pipe cp rd wr b buf :
  s0 !! pipe = Some (mkPipe [] cp rd wr) → 0 < cp → wr ≠ 0 →
  let n := Z.min cp (zlen b) in
  ∃ s w, write_continuous b (s0, end_file pipe FPerms_WRITE) = Ret ((s, w), Ok n) ∧
  ∃ s' r', let m := Z.to_nat (Z.min (zlen buf) n) in
    read_continuous ((s, end_file pipe FPerms_READ), buf) =
      Ret (((s', r'), take m b ++ drop m buf), Ok (Z.of_nat m)).
Proof.
  intros Hp Hc Hw n. pose proof (zlen_nonneg b). pose proof (zlen_nonneg buf).
  set (p1 := mkPipe (take (Z.to_nat n) b) cp rd wr).
  exists (<[pipe := p1]> s0). eexists. split.
  { unfold write_continuous, File_write. change (may_write _) with true. cbn [negb deref repr end_file fr_write Pipe_FileRepr].
    unfold pipe_file_write, pipe_at. rewrite Hp. unfold Pipe_write. cbn [cap pipe_buf readers writers].
    change (zlen []) with 0. unfold saturating_sub. replace (Z.max 0 (cp - 0)) with cp by lia.
    rewrite decide_False by lia. reflexivity. }
  eexists _, _. intros m. unfold read_continuous, File_read. change (may_read _) with true.
  cbn [negb deref repr end_file fr_read Pipe_FileRepr]. unfold pipe_file_read, pipe_at. rewrite lookup_insert_eq.
  unfold Pipe_read. cbn [pipe_buf writers p1]. rewrite decide_False by (intros [_ ?]; done).
  assert (E : Z.min (zlen buf) (zlen (take (Z.to_nat n) b)) = Z.of_nat m).
  { unfold m, n, zlen in *. rewrite length_take. lia. }
  rewrite E, Nat2Z.id, take_take. replace (m `min` Z.to_nat n)%nat with m by (unfold m; lia). reflexivity.
Qed.

(** A successful [pipe] call opens two new descriptors, stores them at
    [fds], and leaves every other descriptor alone; they are the ends of one
    empty pipe with one reader and one writer.  What is written at one end
    is read at the other, and the read end cannot be written. *)
Lemma pipe_call_spec hhdm k t fds c :
  valid_ptr prof hhdm fds 1 8 = Ret true → current_thread (pk_tm k) = Some t →
  (∀ d, is_Some (pk_table k t !! d) → 0 <= d < U32_MAX - 1) →
  ∃ k' rfd wfd pipe hr hw,
    sys_pipe hhdm fds c k = Ret (k', Ok tt) ∧
    (pk_table k t !! rfd = None ∧ pk_table k t !! wfd = None ∧ rfd ≠ wfd) ∧
    pk_table k' t = <[wfd := hw]> (<[rfd := hr]> (pk_table k t)) ∧
    map (λ i, pk_mem k' (fds + Z.of_nat i)) (seq 0 8) = le32 rfd ++ le32 wfd ∧
    pk_files k' !! hr = Some (end_file pipe FPerms_READ) ∧
    pk_files k' !! hw = Some (end_file pipe FPerms_WRITE) ∧
    pk_pipes k' !! pipe = Some (mkPipe [] (cap (Pipe_new c)) 1 1) ∧
    (∀ b buf, c ≠ 0 →
       let n := Z.min (cap (Pipe_new c)) (zlen b) in
       ∃ s w, write_continuous b (pk_pipes k', end_file pipe FPerms_WRITE) = Ret ((s, w), Ok n) ∧
       ∃ s' r', let m := Z.to_nat (Z.min (zlen buf) n) in
         read_continuous ((s, end_file pipe FPerms_READ), buf) =
           Ret (((s', r'), take m b ++ drop m buf), Ok (Z.of_nat m))) ∧
    (∀ b s, write_continuous b (s, end_file pipe FPerms_READ) =
       Ret ((s, end_file pipe FPerms_READ), Err (simple PermissionDenied))).
Proof.
  intros Hv Ht Hb. set (p0 := pk_next k).
  set (k3 := mkPK (pk_tm k) (pk_mem k) (pk_fds k)
    (<[Pos.succ p0 := end_file p0 FPerms_READ]> (pk_files k))
    (<[p0 := mkPipe [] (cap (Pipe_new c)) 1 1]> (pk_pipes k)) (Pos.succ (Pos.succ p0))).
  destruct (open_next_runs k3 t (Pos.succ p0)) as (rfd & R1 & R2 & R3 & R4 & R5).
  { intros d Hd. specialize (Hb d Hd). lia. }
  change (pk_table k3 t) with (pk_table k t) in *.
  set (k4 := mkPK (pk_tm k) (pk_mem k) (<[core_of t := <[rfd := Pos.succ p0]> (pk_table k t)]> (pk_fds k))
    (<[Pos.succ (Pos.succ p0) := end_file p0 FPerms_WRITE]> (pk_files k3)) (pk_pipes k3) (Pos.succ (Pos.succ (Pos.succ p0)))).
  assert (T4 : pk_table k4 t = <[rfd := Pos.succ p0]> (pk_table k t)).
  { unfold pk_table at 1. cbn [pk_fds k4]. by rewrite lookup_insert_eq. }
  destruct (open_next_runs k4 t (Pos.succ (Pos.succ p0))) as (wfd & W1 & W2 & W3 & W4 & _).
  { intros d. rewrite T4. destruct (decide (d = rfd)) as [->|].
    - intros _. destruct R5 as [->|(d & Hd & ->)]; [unfold U32_MAX; lia|]. specialize (Hb d Hd). lia.
    - rewrite lookup_insert_ne by done. intros Hd. specialize (Hb d Hd). lia. }
  rewrite T4 in *. 
  assert (Hne : rfd ≠ wfd) by (intros ->; by rewrite lookup_insert_eq in W2).
  rewrite lookup_insert_ne in W2 by done.
  eexists _, rfd, wfd, p0, (Pos.succ p0), (Pos.succ (Pos.succ p0)).
  split.
  { unfold sys_pipe. erewrite mthen_ok by (cbv beta; by rewrite Hv).
    erewrite mthen_ok by (cbv beta; by rewrite Ht). erewrite mthen_ok by done.
    erewrite mthen_ok by (eapply pipe_end_runs; [apply lookup_insert_eq|by left]).
    erewrite mthen_ok by (eapply pipe_end_runs; [apply lookup_insert_eq|by right]).
    cbn [pk_tm pk_mem pk_fds pk_files pk_pipes pk_next]. rewrite !insert_insert_eq.
    erewrite mthen_ok by done. cbn [pk_tm pk_mem pk_fds pk_files pk_pipes pk_next].
    change (inc_handles (inc_handles (Pipe_new c) FPerms_READ) FPerms_WRITE)
      with (mkPipe [] (cap (Pipe_new c)) 1 1).
    erewrite mthen_ok by exact R1. erewrite mthen_ok by done.
    erewrite mthen_ok by exact W1. erewrite mthen_ok by done. unfold store32. reflexivity. }
  cbn [pk_tm pk_mem pk_fds pk_files pk_pipes pk_next k4 k3].
  split; [done|]. split; [unfold pk_table at 1; cbn [pk_fds]; by rewrite lookup_insert_eq|].
  split; [apply store_pair|].
  split; [rewrite lookup_insert_ne by lia; apply lookup_insert_eq|]. split; [apply lookup_insert_eq|].
  split; [apply lookup_insert_eq|]. split; [|done].
  intros b buf Hc. eapply pipe_flow; [apply lookup_insert_eq| |done].
  unfold Pipe_new. cbn [cap]. unfold USIZE_MAX. case_decide; lia.
Qed.
End spec.

Definition pipe_kernel : PipeKernel :=
  mkPK (update_current (sample_manager [1]) 1) (λ _, zero) {[ 1 := {[ 0 := 9%positive ]} ]} ∅ ∅ 10.

Lemma pipe_call_spec_witness :
  ∃ k' rfd wfd, sys_pipe (prof := Dev) (2 ^ 47) 4096 5 pipe_kernel = Ret (k', Ok tt) ∧
    map (λ i, pk_mem k' (4096 + Z.of_nat i)) (seq 0 8) = le32 rfd ++ le32 wfd ∧ rfd ≠ wfd.
Proof.
  destruct (pipe_call_spec (prof := Dev) (2 ^ 47) pipe_kernel (sample_task 1 1) 4096 5)
    as (k' & rfd & wfd & pipe & hr & hw & H1 & (_ & _ & H2) & _ & H3 & _).
  - reflexivity.
  - reflexivity.
  - intros d [h Hd]. change (pk_table pipe_kernel (sample_task 1 1)) with ({[ 0 := 9%positive ]} : FDMap) in Hd.
    apply lookup_singleton_Some in Hd as [<- _]. unfold U32_MAX. lia.
  - exists k', rfd, wfd. done.
Defined.
