(* ===== verification/Graphics.v ===== *)
(** Frame buffers and drawing: kernel/src/kernel/graphics/{framebuffers,
    colors,mod}.rs.

    A frame buffer is memory: a total function from addresses to bytes.  The
    boot loader's frame buffer is a record of what its methods return. *)
From S2P Require Import Prelude Abi Io Fd RamFile Tasks Syscalls FrameAlloc Paging Mmap.
Open Scope Z_scope.

(** ** colors.rs *)

(** Channels are bytes. *)
Record RGBColor : Set := mkRGB { red : Z; green : Z; blue : Z }.

Definition RGBColor_default : RGBColor := mkRGB 0 0 0.

Inductive ColorCode : Set :=
| CRGB (r g b : Z) | CBlack | CWhite | CRed | CGreen | CBlue | CYellow | CCyan | CMagenta
| CGray | CLightGray | CDarkGray | COrange | CPink | CPurple | CBrown.

Definition RGBColor_from (value : ColorCode) : RGBColor :=
  match value with
  | CRGB r g b => mkRGB r g b
  | CBlack => mkRGB 0 0 0
  | CWhite => mkRGB 255 255 255
  | CRed => mkRGB 255 0 0
  | CGreen => mkRGB 0 255 0
  | CBlue => mkRGB 0 0 255
  | CYellow => mkRGB 255 255 0
  | CCyan => mkRGB 0 255 255
  | CMagenta => mkRGB 255 0 255
  | CGray => mkRGB 128 128 128
  | CLightGray => mkRGB 192 192 192
  | CDarkGray => mkRGB 64 64 64
  | COrange => mkRGB 255 165 0
  | CPink => mkRGB 255 192 203
  | CPurple => mkRGB 128 0 128
  | CBrown => mkRGB 139 69 19
  end.

(** ** framebuffers.rs *)

Record FramBufferConfig : Set := mkFbConfig {
  red_mask_shift : Z; red_mask_size : Z;
  green_mask_shift : Z; green_mask_size : Z;
  blue_mask_shift : Z; blue_mask_size : Z
}.

(** [<<] on [u32]: dev builds trap on an amount of 32 or more, release
    builds use its low five bits. *)
Definition shl32 (prof : Profile) (a s : Z) : Outcome Z :=
  if decide (s < 32) then Ret (wrap 32 (Z.shiftl a s))
  else match prof with Dev => Panic | Release => Ret (wrap 32 (Z.shiftl a (s mod 32))) end.

Definition channel (prof : Profile) (v size shift : Z) : Outcome Z :=
  let! one := shl32 prof 1 size in
  shl32 prof (Z.land v (one - 1)) shift.

Definition get_rgb_pixel (prof : Profile) (color : RGBColor) (config : FramBufferConfig) : Outcome Z :=
  let! r := channel prof (red color) (red_mask_size config) (red_mask_shift config) in
  let! g := channel prof (green color) (green_mask_size config) (green_mask_shift config) in
  let! b := channel prof (blue color) (blue_mask_size config) (blue_mask_shift config) in
  Ret (Z.lor (Z.lor r g) b).

Record BoundingBox : Set := mkBox { box_x : Z; box_y : Z; box_width : Z; box_height : Z }.

(** [From<Rectangle>]: the corner is an [i32], the size a [u32]. *)
Definition BoundingBox_from (x y w h : Z) : BoundingBox := mkBox (wrap64 x) (wrap64 y) w h.

(** The accessors of the [FrameBuffer] trait; its other methods have the
    same body in every implementation and are defined once below. *)
Class FrameBuffer (B : Type) := {
  addr : B → Z;
  bpp : B → Z;
  pitch : B → Z;
  width : B → Z;
  height : B → Z
}.

(** The boot loader's frame buffer. *)
Record Framebuffer : Set := mkFramebuffer {
  lf_addr : Z; lf_width : Z; lf_height : Z; lf_pitch : Z; lf_bpp : Z
}.

Record LimineFrameBuffer : Set := mkLimine { limine_inner : Framebuffer }.

(** [try_new]: the first frame buffer, if there is one. *)
Definition LimineFrameBuffer_try_new (bufs : list Framebuffer) : option LimineFrameBuffer :=
  match bufs with [] => None | f :: _ => Some (mkLimine f) end.

#[export] Instance Limine_FrameBuffer : FrameBuffer LimineFrameBuffer := {
  addr self := lf_addr (limine_inner self);
  bpp self := lf_bpp (limine_inner self);
  pitch self := lf_pitch (limine_inner self);
  width self := lf_width (limine_inner self);
  height self := lf_height (limine_inner self)
}.

Record GlobalFrameBuffer : Set := mkGlobal { global_inner : Framebuffer }.

Definition new_static (FIRST_FRAMEBUFFER : Framebuffer) : GlobalFrameBuffer := mkGlobal FIRST_FRAMEBUFFER.

#[export] Instance Global_FrameBuffer : FrameBuffer GlobalFrameBuffer := {
  addr self := lf_addr (global_inner self);
  bpp self := lf_bpp (global_inner self);
  pitch self := lf_pitch (global_inner self);
  width self := lf_width (global_inner self);
  height self := lf_height (global_inner self)
}.

(** [get_config] reads the masks of the global frame buffer once. *)
Definition get_config (cell : option FramBufferConfig) (masks : FramBufferConfig)
    : option FramBufferConfig * FramBufferConfig :=
  match cell with Some c => (cell, c) | None => (Some masks, masks) end.

Inductive MemMapping : Set := MapKernel | MapUser (id : ThreadID).

Record RawFrameBuffer : Set := mkRawFb {
  raw_addr : Z; raw_width : Z; raw_height : Z; raw_pitch : Z; raw_bpp : Z; mapping : MemMapping
}.

#[export] Instance Raw_FrameBuffer : FrameBuffer RawFrameBuffer := {
  addr := raw_addr; bpp := raw_bpp; pitch := raw_pitch; width := raw_width; height := raw_height
}.

(** ** mod.rs: [Simplegraphics] draws on a frame buffer it borrows *)

Record Simplegraphics (B : Type) : Type := mkSimple { fb : B }.
Arguments mkSimple {B} _.
Arguments fb {B} _.

(** [impl_fb_for_hasfb!]. *)
#[export] Instance Simplegraphics_FrameBuffer {B} `{FrameBuffer B} : FrameBuffer (Simplegraphics B) := {
  addr self := addr (fb self);
  bpp self := bpp (fb self);
  pitch self := pitch (fb self);
  width self := width (fb self);
  height self := height (fb self)
}.

Abbreviation Mem := (Z → u8).

Section methods.
Context {prof : Profile} {B : Type} `{FrameBuffer B} (config : FramBufferConfig).
Implicit Types self : B.

Definition pixel_offset self (x y : Z) : Outcome Z :=
  let! a := umul prof y (pitch self) in
  let! b := umul prof x (bpp self / 8) in
  uadd prof a b.

Definition set_pixel self (value : RGBColor) (mem : Mem) (x y : Z) : Outcome Mem :=
  let! off := pixel_offset self x y in
  let! pixel := get_rgb_pixel prof value config in
  Ret (mem_write mem (addr self + off) (le32 pixel)).

Definition clear_pixel self (mem : Mem) (x y : Z) : Outcome Mem :=
  set_pixel self RGBColor_default mem x y.

Definition fb_fill self (value : RGBColor) (mem : Mem) : Outcome Mem :=
  oforeach (λ mem y,
    oforeach (λ mem x, set_pixel self value mem (Z.of_nat x) (Z.of_nat y))
      (seq 0 (Z.to_nat (width self))) mem)
    (seq 0 (Z.to_nat (height self))) mem.

Definition clear_all self (mem : Mem) : Outcome Mem :=
  oforeach (λ mem y,
    oforeach (λ mem x, clear_pixel self mem (Z.of_nat x) (Z.of_nat y))
      (seq 0 (Z.to_nat (width self))) mem)
    (seq 0 (Z.to_nat (height self))) mem.

(** [impl_write_for_fb!]. *)
Definition fb_write self (buf : list u8) (offset : Z) (mem : Mem) : Outcome (Mem * Result FSError Z) :=
  let! size := umul prof (pitch self) (height self) in
  let! room := usub prof size offset in
  if decide (room <= zlen buf) then Ret (mem, Err (simple UnexpectedEOF))
  else Ret (mem_write mem (addr self + offset) buf, Ok (zlen buf)).

(** [impl_file_for_fb!]. *)
Definition fb_fstat self : FStat := set_node_type FStat_default NodeType_FILE.

Definition as_raw_parts self : Outcome (Z * Z) :=
  let! len := umul prof (height self) (pitch self) in Ret (addr self, len).

(** [DrawTarget::draw_iter]: coordinates are [i32], cast to [usize]. *)
Definition draw_iter self (pixels : list ((Z * Z) * RGBColor)) (mem : Mem) : Outcome Mem :=
  oforeach (λ mem p, set_pixel self (snd p) mem (wrap64 (fst (fst p))) (wrap64 (snd (fst p)))) pixels mem.

(** [OriginDimensions::size]: [as u32]. *)
Definition gfx_size self : Z * Z := (wrap 32 (width self), wrap 32 (height self)).

(** [copy_row]: [len] pixels of four bytes. *)
Definition fb_copy_row self (from len x y : Z) (mem : Mem) : Outcome Mem :=
  let! off := pixel_offset self x y in
  Ret (mem_write mem (addr self + off)
         (map (λ i, mem (from + Z.of_nat i)) (seq 0 (Z.to_nat (4 * len))))).

End methods.

Section blit.
Context {prof : Profile} {B F : Type} `{FrameBuffer B} `{FrameBuffer F}.

Definition copy_rect (self : B) (area : BoundingBox) (buf : F) (mem : Mem) : Outcome Mem :=
  let! x_end := uadd prof (box_width area) (box_x area) in
  if decide (width self < x_end) then Panic else
  let! y_end := uadd prof (box_height area) (box_y area) in
  if decide (height self < y_end) then Panic else
  if decide (bpp buf ≠ bpp self) then Panic else
  oforeach (λ mem row,
    let! off := pixel_offset (prof := prof) buf (box_x area) row in
    fb_copy_row (prof := prof) self (addr buf + off) (box_width area) (box_x area) row mem)
    (map (λ i, box_y area + Z.of_nat i) (seq 0 (Z.to_nat (box_height area)))) mem.

End blit.

(** ** Raw frame buffers own their memory *)

Section raw.
Context {prof : Profile} {P A : Type} `{VirtOps} `{Mapper P A} `{FrameAllocator A}.

(** [PAGETABLE], the tables of the tasks and the frame allocator. *)
Record Spaces : Type := mkSpaces { kernel_table : P; task_tables : gmap ThreadID P; frame_alloc : A }.

Definition raw_pitch_of (width bpp : Z) : Outcome Z :=
  let! bytes := umul prof width (bpp / 8) in Ret (align_up bytes 64).

(** [new_user] maps in the table of the current task, which must exist. *)
Definition new_user (current : ThreadID) (addr width height bpp : Z) (s : Spaces)
    : Outcome (Spaces * RawFrameBuffer) :=
  let! pitch := raw_pitch_of width bpp in
  let! size := umul prof pitch height in
  match task_tables s !! current with
  | None => Panic
  | Some p =>
      let! x := user_map_region addr size p (frame_alloc s) in
      let '(p, a, r) := x in
      match r with
      | Err _ => Panic
      | Ok _ => Ret (mkSpaces (kernel_table s) (<[current := p]> (task_tables s)) a,
                     mkRawFb addr width height pitch bpp (MapUser current))
      end
  end.

Definition new_kernel (addr width height bpp : Z) (s : Spaces) : Outcome (Spaces * RawFrameBuffer) :=
  let! pitch := raw_pitch_of width bpp in
  let! size := umul prof pitch height in
  let! x := kernel_map_region addr size (kernel_table s) (frame_alloc s) in
  let '(p, a, r) := x in
  match r with
  | Err _ => Panic
  | Ok _ => Ret (mkSpaces p (task_tables s) a, mkRawFb addr width height pitch bpp MapKernel)
  end.

(** [Drop]: a failed unmapping is only reported; the buffer of a thread that
    is gone is left alone. *)
Definition raw_drop (self : RawFrameBuffer) (s : Spaces) : Outcome Spaces :=
  let! size := umul prof (raw_height self) (raw_pitch self) in
  match mapping self with
  | MapKernel =>
      let! x := unmap_region (raw_addr self) size (kernel_table s) (frame_alloc s) in
      let '(p, a, _) := x in Ret (mkSpaces p (task_tables s) a)
  | MapUser id =>
      match task_tables s !! id with
      | None => Ret s
      | Some p =>
          let! x := unmap_region (raw_addr self) size p (frame_alloc s) in
          let '(p, a, _) := x in Ret (mkSpaces (kernel_table s) (<[id := p]> (task_tables s)) a)
      end
  end.

End raw.
Arguments Spaces P A : clear implicits.

(** ** Pixels *)

Lemma shl32_ok prof a s : 0 <= s < 32 → 0 <= a → Z.shiftl a s < 2 ^ 32 → shl32 prof a s = Ret (Z.shiftl a s).
Proof.
  intros Hs Ha Hlt. unfold shl32. rewrite decide_True by lia. f_equal. unfold wrap. apply Z.mod_small.
  split; [|done]. by apply Z.shiftl_nonneg.
Qed.

Lemma channel_ok prof v shift :
  0 <= v < 256 → 0 <= shift <= 24 → channel prof v 8 shift = Ret (Z.shiftl v shift).
Proof.
  intros Hv Hs. unfold channel. rewrite shl32_ok by first [lia|reflexivity]. cbn [obind].
  change (Z.shiftl 1 8 - 1) with (Z.ones 8). rewrite Z.land_ones by lia. rewrite Z.mod_small by lia.
  apply shl32_ok; [lia|lia|]. rewrite Z.shiftl_mul_pow2 by lia.
  pose proof (Z.pow_le_mono_r 2 shift 24 ltac:(lia) ltac:(lia)). nia.
Qed.

(** Eight bits per channel, at places that do not overlap. *)
Record truecolor (c : FramBufferConfig) : Prop := {
  tc_sizes : red_mask_size c = 8 ∧ green_mask_size c = 8 ∧ blue_mask_size c = 8;
  tc_red : 0 <= red_mask_shift c <= 24;
  tc_green : 0 <= green_mask_shift c <= 24;
  tc_blue : 0 <= blue_mask_shift c <= 24;
  tc_rg : 8 <= Z.abs (red_mask_shift c - green_mask_shift c);
  tc_rb : 8 <= Z.abs (red_mask_shift c - blue_mask_shift c);
  tc_gb : 8 <= Z.abs (green_mask_shift c - blue_mask_shift c)
}.

Definition is_color (v : RGBColor) : Prop :=
  0 <= red v < 256 ∧ 0 <= green v < 256 ∧ 0 <= blue v < 256.

Lemma byte_bits v i : 0 <= v < 256 → 8 <= i → Z.testbit v i = false.
Proof.
  intros Hv Hi. destruct (Z.eq_dec v 0) as [->|]; [apply Z.bits_0|].
  apply Z.bits_above_log2; [lia|]. apply Z.lt_le_trans with 8; [|done].
  apply Z.log2_lt_pow2; lia.
Qed.

(** One channel of an [lor] of channels. *)
Lemma channel_bits w s t i :
  0 <= w < 256 → 0 <= i < 8 → 0 <= s → 0 <= t → 8 <= Z.abs (s - t) → Z.testbit (Z.shiftl w t) (s + i) = false.
Proof.
  intros Hw Hi Hs Ht Hd. rewrite Z.shiftl_spec by lia. destruct (Z_lt_le_dec (s + i - t) 0).
  - apply Z.testbit_neg_r. lia.
  - apply byte_bits; lia.
Qed.

Lemma extract_channel x v s :
  0 <= v < 256 → 0 <= s → (∀ i, 0 <= i < 8 → Z.testbit x (s + i) = Z.testbit v i) →
  Z.land (Z.shiftr x s) 255 = v.
Proof.
  intros Hv Hs Hb. change 255 with (Z.ones 8). apply Z.bits_inj'. intros i Hi.
  rewrite Z.land_spec, Z.shiftr_spec, Z.testbit_ones_nonneg by lia.
  destruct (Z.ltb_spec i 8).
  - rewrite andb_true_r, Z.add_comm. apply Hb. lia.
  - rewrite andb_false_r. symmetry. apply byte_bits; lia.
Qed.

(** A pixel holds its colour: each channel can be read back. *)
Lemma rgb_roundtrip prof v c :
  truecolor c → is_color v →
  ∃ px, get_rgb_pixel prof v c = Ret px ∧
    Z.land (Z.shiftr px (red_mask_shift c)) 255 = red v ∧
    Z.land (Z.shiftr px (green_mask_shift c)) 255 = green v ∧
    Z.land (Z.shiftr px (blue_mask_shift c)) 255 = blue v.
Proof.
  intros [(S1 & S2 & S3) R G Bl RG RB GB] (Hr & Hg & Hb). unfold get_rgb_pixel.
  rewrite S1, S2, S3, !channel_ok by done. cbn [obind]. eexists. split; [done|].
  split; [|split]; apply extract_channel; try lia; intros i Hi; rewrite !Z.lor_spec.
  - rewrite (channel_bits (green v)), (channel_bits (blue v)), !orb_false_r by lia.
    rewrite Z.shiftl_spec by lia. f_equal. lia.
  - rewrite (channel_bits (red v)), (channel_bits (blue v)), orb_false_r by lia.
    rewrite Z.shiftl_spec by lia. cbn [orb]. f_equal. lia.
  - rewrite (channel_bits (red v)), (channel_bits (green v)) by lia.
    rewrite Z.shiftl_spec by lia. cbn [orb]. f_equal. lia.
Qed.

(** ** Series of stores *)

Definition stores (mem : Mem) (ws : list (Z * list u8)) : Mem :=
  foldl (λ m w, mem_write m (fst w) (snd w)) mem ws.

Definition covers (w : Z * list u8) (a : Z) : Prop := fst w <= a < fst w + zlen (snd w).

Lemma stores_out mem ws a : (∀ w, w ∈ ws → ¬ covers w a) → stores mem ws a = mem a.
Proof.
  revert mem. induction ws as [|w ws IH]; intros mem Hw; [done|]. cbn [stores foldl].
  fold (stores (mem_write mem (fst w) (snd w)) ws).
  rewrite IH by (intros; apply Hw; by right). apply mem_write_out.
  specialize (Hw w ltac:(left)). unfold covers in Hw. lia.
Qed.

(** Stores that agree where they overlap are all visible at the end. *)
Lemma stores_in mem ws w i b :
  (∀ v v' a, v ∈ ws → v' ∈ ws → covers v a → covers v' a → v = v') →
  w ∈ ws → snd w !! i = Some b → stores mem ws (fst w + Z.of_nat i) = b.
Proof.
  intros Hd Hw Hb. assert (Hc : covers w (fst w + Z.of_nat i)).
  { apply lookup_lt_Some in Hb. unfold covers, zlen. lia. }
  revert mem. induction ws as [|v ws IH]; intros mem; [by apply not_elem_of_nil in Hw|].
  cbn [stores foldl]. fold (stores (mem_write mem (fst v) (snd v)) ws).
  destruct (decide (w ∈ ws)) as [Hin|Hout].
  - apply IH; [|done]. intros v1 v2 a H1 H2. by apply Hd; right.
  - apply elem_of_cons in Hw as [->|Hw]; [|done].
    rewrite stores_out; [by apply mem_write_at|].
    intros u Hu Hcu. apply Hout. rewrite (Hd v u (fst v + Z.of_nat i)); [done|left|by right|done|done].
Qed.

(** ** Filling the screen *)

Definition read32 (mem : Mem) (a : Z) : list u8 := map (λ i, mem (a + Z.of_nat i)) (seq 0 4).

Lemma stores_rows {Y} (mem : Mem) (row : Y → list (Z * list u8)) ys :
  foldl (λ m y, stores m (row y)) mem ys = stores mem (concat (map row ys)).
Proof.
  revert mem. induction ys as [|y ys IH]; intros mem; [done|]. cbn [foldl map concat].
  rewrite IH. unfold stores. by rewrite foldl_app.
Qed.

Lemma stores_map {X} (mem : Mem) (f : X → Z * list u8) xs :
  foldl (λ m x, mem_write m (fst (f x)) (snd (f x))) mem xs = stores mem (map f xs).
Proof. revert mem. induction xs as [|x xs IH]; intros mem; [done|]. apply IH. Qed.

(** Four bytes per pixel, rows that do not overlap, an addressable size. *)
Record fb_ok {B} `{FrameBuffer B} (self : B) : Prop := {
  ok_bpp : bpp self = 32;
  ok_width : 0 <= width self ∧ 4 * width self <= pitch self;
  ok_height : 0 <= height self ∧ height self * pitch self <= USIZE_MAX;
  ok_usize : width self <= USIZE_MAX ∧ height self <= USIZE_MAX
}.

Section fb_fill.
Context {prof : Profile} {B : Type} `{FrameBuffer B} (config : FramBufferConfig) (self : B).
Context (Hok : fb_ok self).

Definition pixel_at (x y : Z) : Z := addr self + (y * pitch self + x * 4).

Lemma pixel_offset_ok x y :
  0 <= x <= width self → 0 <= y < height self → pixel_offset (prof := prof) self x y = Ret (y * pitch self + x * 4).
Proof.
  destruct Hok as [Hb [Hw1 Hw2] [Hh1 Hh2]]. intros Hx Hy. unfold pixel_offset. rewrite Hb.
  change (32 / 8) with 4. assert (y * pitch self + pitch self <= height self * pitch self) by nia.
  unfold umul, uadd. rewrite !uarith_in_range; cbn [obind]; rewrite ?uarith_in_range; unfold in_usize; try done; nia.
Qed.

Lemma pixels_apart x y x' y' a :
  0 <= x < width self → 0 <= x' < width self →
  pixel_at x y <= a < pixel_at x y + 4 → pixel_at x' y' <= a < pixel_at x' y' + 4 → x = x' ∧ y = y'.
Proof.
  destruct Hok as [_ [_ Hw] _]. unfold pixel_at. intros Hx Hx' Ha Ha'.
  assert (y = y') as ->; [|lia].
  destruct (Z.lt_trichotomy y y') as [Hl|[->|Hl]]; [|done|].
  - assert (y * pitch self + pitch self <= y' * pitch self) by nia. lia.
  - assert (y' * pitch self + pitch self <= y * pitch self) by nia. lia.
Qed.

Definition pixel_store (px : Z) (y x : nat) : Z * list u8 := (pixel_at (Z.of_nat x) (Z.of_nat y), le32 px).

Definition pixel_stores (px : Z) : list (Z * list u8) :=
  concat (map (λ y, map (pixel_store px y) (seq 0 (Z.to_nat (width self)))) (seq 0 (Z.to_nat (height self)))).

Lemma elem_of_pixel_stores px w :
  w ∈ pixel_stores px ↔
  ∃ x y, 0 <= x < width self ∧ 0 <= y < height self ∧ w = (pixel_at x y, le32 px).
Proof.
  unfold pixel_stores. rewrite list_elem_of_In, in_concat. split.
  - intros (l & Hl & Hw). apply in_map_iff in Hl as (y & <- & Hy%in_seq).
    apply in_map_iff in Hw as (x & <- & Hx%in_seq). exists (Z.of_nat x), (Z.of_nat y).
    split; [lia|]. split; [lia|]. done.
  - intros (x & y & Hx & Hy & ->). eexists. split.
    + apply in_map, in_seq. instantiate (1 := Z.to_nat y). lia.
    + apply in_map_iff. exists (Z.to_nat x). split; [|apply in_seq; lia].
      unfold pixel_store. by rewrite !Z2Nat.id by lia.
Qed.

Lemma fill_stores v mem px :
  get_rgb_pixel prof v config = Ret px → fb_fill (prof := prof) config self v mem = Ret (stores mem (pixel_stores px)).
Proof.
  intros Hpx. unfold fb_fill, pixel_stores. rewrite <- stores_rows. apply oforeach_pure.
  intros m y Hy. apply elem_of_seq in Hy. rewrite <- stores_map. apply oforeach_pure.
  intros m' x Hx. apply elem_of_seq in Hx. unfold set_pixel. rewrite pixel_offset_ok by lia. cbn [obind].
  by rewrite Hpx.
Qed.

(** Filling a frame buffer gives every pixel the colour, whose channels
    can be read back from it, and writes nothing but pixels: the padding of
    the rows and the memory around the buffer stay as they are. *)
Lemma fill_spec v mem :
  truecolor config → is_color v →
  ∃ mem' px, fb_fill (prof := prof) config self v mem = Ret mem' ∧
    (Z.land (Z.shiftr px (red_mask_shift config)) 255 = red v ∧
     Z.land (Z.shiftr px (green_mask_shift config)) 255 = green v ∧
     Z.land (Z.shiftr px (blue_mask_shift config)) 255 = blue v) ∧
    (∀ x y, 0 <= x < width self → 0 <= y < height self → read32 mem' (pixel_at x y) = le32 px) ∧
    (∀ a, (∀ x y, 0 <= x < width self → 0 <= y < height self → ¬ (pixel_at x y <= a < pixel_at x y + 4)) →
       mem' a = mem a).
Proof.
  intros Hc Hv. destruct (rgb_roundtrip prof v config Hc Hv) as (px & Hpx & Hrgb).
  exists (stores mem (pixel_stores px)), px. split; [by apply fill_stores|]. split; [done|]. split.
  - intros x y Hx Hy. apply list_eq. intros i. unfold read32. destruct (decide (i < 4)%nat) as [Hi|Hi].
    2: { rewrite !lookup_ge_None_2; [done| |]; rewrite ?length_map, ?length_seq; [cbn|]; lia. }
    rewrite list_lookup_fmap, lookup_seq_lt by done. cbn [fmap option_fmap option_map].
    destruct (le32 px !! i) as [b|] eqn:Hb; [|apply lookup_ge_None in Hb; cbn in Hb; lia]. f_equal.
    apply (stores_in _ _ (pixel_at x y, le32 px)); [|apply elem_of_pixel_stores; eauto|done].
    intros w w' a (x1 & y1 & X1 & Y1 & ->)%elem_of_pixel_stores (x2 & y2 & X2 & Y2 & ->)%elem_of_pixel_stores C1 C2.
    destruct (pixels_apart x1 y1 x2 y2 a) as [-> ->]; done.
  - intros a Ha. apply stores_out. intros w (x & y & Hx & Hy & ->)%elem_of_pixel_stores Hcov.
    by apply (Ha x y).
Qed.

End fb_fill.

(** ** Copying a rectangle *)

Section copy.
Context {prof : Profile} {B F : Type} `{FrameBuffer B} `{FrameBuffer F} (self : B) (buf : F).
Context (Hself : fb_ok self) (Hbuf : fb_ok buf).

Definition in_area (area : BoundingBox) (x y : Z) : Prop :=
  box_x area <= x < box_x area + box_width area ∧ box_y area <= y < box_y area + box_height area.

(** The row of a rectangle as one store. *)
Definition row_store (mem : Mem) (area : BoundingBox) (y : Z) : Z * list u8 :=
  (pixel_at self (box_x area) y,
   map (λ i, mem (pixel_at buf (box_x area) y + Z.of_nat i)) (seq 0 (Z.to_nat (4 * box_width area)))).

Definition area_rows (area : BoundingBox) : list Z :=
  map (λ i, box_y area + Z.of_nat i) (seq 0 (Z.to_nat (box_height area))).

(** A box inside both buffers. *)
Record box_ok (area : BoundingBox) : Prop := {
  box_pos : 0 <= box_x area ∧ 0 <= box_y area ∧ 0 <= box_width area ∧ 0 <= box_height area;
  box_in_self : box_x area + box_width area <= width self ∧ box_y area + box_height area <= height self;
  box_in_buf : box_x area + box_width area <= width buf ∧ box_y area + box_height area <= height buf
}.

(** The two buffers do not share memory. *)
Definition buffers_apart : Prop :=
  addr self + height self * pitch self <= addr buf ∨ addr buf + height buf * pitch buf <= addr self.

Lemma elem_of_area_rows area y : 0 <= box_height area →
  y ∈ area_rows area ↔ box_y area <= y < box_y area + box_height area.
Proof.
  intros Hh. unfold area_rows. rewrite list_elem_of_In, in_map_iff. split.
  - intros (i & <- & Hi%in_seq). lia.
  - intros Hy. exists (Z.to_nat (y - box_y area)). split; [lia|]. apply in_seq. lia.
Qed.

Lemma row_covers mem area y a :
  0 <= box_width area →
  covers (row_store mem area y) a ↔
  pixel_at self (box_x area) y <= a < pixel_at self (box_x area) y + 4 * box_width area.
Proof.
  intros Hw. unfold covers, row_store, zlen. cbn [fst snd]. rewrite length_map, length_seq. lia.
Qed.

(** No row that is written is read. *)
Lemma source_kept (mem m : Mem) area y y' i :
  box_ok area → buffers_apart → y ∈ area_rows area → y' ∈ area_rows area →
  (i < Z.to_nat (4 * box_width area))%nat →
  ¬ covers (row_store m area y) (pixel_at buf (box_x area) y' + Z.of_nat i).
Proof.
  intros [(? & ? & ? & ?) [? ?] [? ?]] Hd Hy Hy' Hi. rewrite elem_of_area_rows in Hy, Hy' by done.
  rewrite row_covers by done. destruct Hself as [_ [_ W1] [_ _] _], Hbuf as [_ [_ W2] [_ _] _].
  unfold pixel_at, buffers_apart in *.
  assert (y * pitch self + pitch self <= height self * pitch self) by nia.
  assert (y' * pitch buf + pitch buf <= height buf * pitch buf) by nia.
  assert (0 <= y * pitch self) by nia. assert (0 <= y' * pitch buf) by nia. lia.
Qed.

Lemma copy_rows_stores mem area ys m :
  box_ok area → buffers_apart → (∀ y, y ∈ ys → y ∈ area_rows area) →
  (∀ y i, y ∈ area_rows area → (i < Z.to_nat (4 * box_width area))%nat →
     m (pixel_at buf (box_x area) y + Z.of_nat i) = mem (pixel_at buf (box_x area) y + Z.of_nat i)) →
  foldl (λ m y, mem_write m (fst (row_store m area y)) (snd (row_store m area y))) m ys =
    stores m (map (row_store mem area) ys).
Proof.
  intros Hb Hd. revert m. induction ys as [|y ys IH]; intros m Hys Hm; [done|]. cbn [foldl map stores].
  assert (E : snd (row_store m area y) = snd (row_store mem area y)).
  { unfold row_store. cbn [snd]. apply map_ext_in. intros i Hi%in_seq. apply Hm; [apply Hys; left|lia]. }
  rewrite E. change (fst (row_store m area y)) with (fst (row_store mem area y)).
  apply IH; [intros; apply Hys; by right|]. intros y' i Hy' Hi.
  rewrite mem_write_out; [by apply Hm|].
  pose proof (source_kept mem mem area y y' i Hb Hd (Hys y ltac:(left)) Hy' Hi) as Hc.
  unfold covers in Hc. lia.
Qed.

Lemma rows_apart mem area y y' a :
  box_ok area → covers (row_store mem area y) a → covers (row_store mem area y') a → y = y'.
Proof.
  intros [(? & ? & ? & ?) [? _] _]. rewrite !row_covers by done. destruct Hself as [_ [_ W1] _ _].
  unfold pixel_at. intros Ha Ha'. destruct (Z.lt_trichotomy y y') as [Hl|[->|Hl]]; [|done|].
  - assert (y * pitch self + pitch self <= y' * pitch self) by nia. lia.
  - assert (y' * pitch self + pitch self <= y * pitch self) by nia. lia.
Qed.

(** Copying a rectangle that lies in both buffers makes its pixels those of
    the source and writes no other byte. *)
Lemma copy_rect_spec area mem :
  box_ok area → buffers_apart →
  ∃ mem', copy_rect (prof := prof) self area buf mem = Ret mem' ∧
    (∀ x y, in_area area x y → read32 mem' (pixel_at self x y) = read32 mem (pixel_at buf x y)) ∧
    (∀ a, (∀ x y, in_area area x y → ¬ (pixel_at self x y <= a < pixel_at self x y + 4)) → mem' a = mem a).
Proof.
  intros Hb Hd. pose proof Hb as [(Px & Py & Pw & Ph) [Sw Sh] [Bw Bh]].
  pose proof Hself as [Hs1 [_ W1] [_ Hs2] [U1 U2]]. pose proof Hbuf as [Hb1 [_ W2] [_ Hb2] _].
  exists (stores mem (map (row_store mem area) (area_rows area))). split; [|split].
  - unfold copy_rect, uadd. rewrite uarith_in_range by (unfold in_usize; lia). cbn [obind].
    rewrite decide_False by lia. rewrite uarith_in_range by (unfold in_usize; lia). cbn [obind].
    rewrite decide_False by lia. rewrite decide_False by (intros E; apply E; congruence).
    rewrite <- (copy_rows_stores mem area (area_rows area) mem) by done. apply oforeach_pure.
    intros m y Hy. rewrite elem_of_area_rows in Hy by done.
    rewrite (pixel_offset_ok buf Hbuf) by lia. cbn [obind]. unfold fb_copy_row.
    rewrite (pixel_offset_ok self Hself) by lia. done.
  - intros x y [Hx Hy]. unfold read32. apply map_ext_in. intros i Hi%in_seq.
    set (j := Z.to_nat (4 * (x - box_x area) + Z.of_nat i)).
    replace (pixel_at self x y + Z.of_nat i) with (fst (row_store mem area y) + Z.of_nat j)
      by (unfold row_store, pixel_at, j; cbn [fst]; lia).
    apply (stores_in _ _ (row_store mem area y)).
    + intros v v' a (y1 & -> & _)%list_elem_of_fmap (y2 & -> & _)%list_elem_of_fmap C1 C2.
      by rewrite (rows_apart mem area y1 y2 a).
    + apply list_elem_of_fmap. exists y. split; [done|]. by apply elem_of_area_rows.
    + unfold row_store. cbn [snd]. rewrite list_lookup_fmap, lookup_seq_lt by (unfold j; lia).
      cbn [fmap option_fmap option_map]. do 2 f_equal. unfold pixel_at, j. lia.
  - intros a Ha. apply stores_out. intros w (y & -> & Hy)%list_elem_of_fmap Hc.
    rewrite elem_of_area_rows in Hy by done. rewrite row_covers in Hc by done.
    apply (Ha (box_x area + (a - pixel_at self (box_x area) y) / 4) y).
    + split; [|done]. Z.to_euclidean_division_equations. lia.
    + unfold pixel_at in *. Z.to_euclidean_division_equations. lia.
Qed.

End copy.

(** ** Writing to the device file *)

Section write.
Context {B : Type} `{FrameBuffer B} (self : B).

Definition fb_size : Z := pitch self * height self.

(** A write to the frame-buffer file at an offset inside the buffer is
    carried out exactly when it ends before the last byte, and then stores
    the bytes there; otherwise it is refused and memory is unchanged.  Past
    the end the subtraction underflows: a dev build panics, and a release
    build carries out the write, outside the buffer. *)
Lemma fb_write_spec buf offset mem :
  in_usize fb_size → 0 <= offset →
  (∀ prof, offset <= fb_size →
     fb_write (prof := prof) self buf offset mem =
       if decide (offset + zlen buf < fb_size)
       then Ret (mem_write mem (addr self + offset) buf, Ok (zlen buf))
       else Ret (mem, Err (simple UnexpectedEOF))) ∧
  (fb_size < offset <= USIZE_MAX →
     fb_write (prof := Dev) self buf offset mem = Panic ∧
     (zlen buf <= ISIZE_MAX → offset <= ISIZE_MAX →
      fb_write (prof := Release) self buf offset mem =
        Ret (mem_write mem (addr self + offset) buf, Ok (zlen buf)))).
Proof.
  intros Hs Ho. unfold fb_write, umul, usub. fold fb_size. rewrite !uarith_in_range by done. cbn [obind].
  split; [|intros Hgt; split].
  - intros prof Hle. rewrite uarith_in_range by done. cbn [obind].
    rewrite uarith_in_range by (unfold in_usize in *; lia). cbn [obind].
    destruct (decide (fb_size - offset <= zlen buf)), (decide (offset + zlen buf < fb_size)); (done || lia).
  - unfold uarith. by rewrite decide_False by lia.
  - intros Hl Hi. unfold uarith. rewrite decide_False by lia. cbn [obind].
    unfold wrap64, wrap. rewrite <- (Z_mod_plus_full _ 1), Z.mod_small by (unfold in_usize, USIZE_MAX, ISIZE_MAX in *; lia).
    rewrite decide_False; [done|]. unfold in_usize, USIZE_MAX, ISIZE_MAX in *. lia.
Qed.

End write.

(** [draw_iter] is to ignore pixels outside the target; it draws them: one
    to the right of the screen lands in the next row, one below it behind
    the buffer. *)
Lemma draw_outside_hits_next_row {prof : Profile} {B} `{FrameBuffer B} config (self : B) v mem x y :
  fb_ok self → pitch self = 4 * width self → 0 <= x < width self → 0 <= y → y + 1 < height self →
  width self < 2 ^ 31 →
  draw_iter (prof := prof) config self [((width self + x, y), v)] mem =
  draw_iter (prof := prof) config self [((x, y + 1), v)] mem.
Proof.
  intros [Hb Hw [Hh1 Hh2] [_ U2]] Hp Hx Hy Hy1 W31. unfold draw_iter. cbn [oforeach fst snd].
  unfold set_pixel, pixel_offset. rewrite Hb. change (32 / 8) with 4.
  assert (E : ∀ z, in_usize z → wrap64 z = z).
  { intros z Hz. unfold wrap64, wrap. apply Z.mod_small. unfold in_usize, USIZE_MAX in Hz. lia. }
  assert ((y + 2) * pitch self <= height self * pitch self) by nia.
  assert (0 <= y * pitch self) by nia. assert (0 <= pitch self) by lia.
  unfold umul, uadd.
  rewrite !E by (unfold in_usize, USIZE_MAX in *; lia).
  rewrite !uarith_in_range; cbn [obind]; rewrite ?uarith_in_range; cbn [obind]; rewrite ?uarith_in_range;
    try (unfold in_usize in *; nia).
  cbn [obind]. replace (y * pitch self + (width self + x) * 4) with ((y + 1) * pitch self + x * 4) by (rewrite Hp; lia).
  done.
Qed.

(** ** Raw frame buffers *)

Section raw_roundtrip.
Context {prof : Profile} {P A : Type} `{VirtLaws} `{MapperLaws P A} `{FrameAllocator A}.

(** Mapping a region and unmapping it again. *)
Lemma map_unmap_region start len flags (p p1 : P) (a a1 a' : A) :
  aligned start → Mmap.fits start len → map_region start len flags p a = Ret (p1, a1, Ok tt) →
  ∃ p2 a2, unmap_region start len p1 a' = Ret (p2, a2, Ok tt) ∧ view p2 = view p.
Proof.
  intros Hal Hf. unfold map_region, unmap_region. case_decide; [done|].
  destruct (region_range start len Hal Hf) as (-> & He & Hp). cbn [obind]. rewrite He. cbn [obind]. rewrite Hp.
  intros Hm. destruct (map_pages_view _ _ _ _ _ _ _ Hm) as (m & Hv & Hd & Hin & Hall).
  destruct (unmap_pages_view (region start len) p1 a') as (p2 & a2 & -> & Hq).
  { apply pages_from_NoDup. }
  { intros pg Hpg. rewrite Hv. destruct (Hall eq_refl pg Hpg) as [f Hf']. exists f. by apply lookup_union_Some_l. }
  exists p2, a2. split; [done|]. apply map_eq. intros q. rewrite Hq, Hv.
  case_decide as Hq'.
  - destruct (Hall eq_refl q Hq') as [f Hf']. symmetry. by eapply map_disjoint_Some_l.
  - apply lookup_union_r. apply eq_None_not_Some. intros Hs. by apply Hq', Hin.
Qed.

(** Dropping a frame buffer of the kernel gives its address range back. *)
Lemma raw_fb_roundtrip address w h b s s1 fb size :
  new_kernel (prof := prof) address w h b s = Ret (s1, fb) →
  umul prof (raw_pitch fb) h = Ret size → aligned address → Mmap.fits address size →
  ∃ s2, raw_drop (prof := prof) fb s1 = Ret s2 ∧
    view (kernel_table s2) = view (kernel_table s) ∧ task_tables s2 = task_tables s.
Proof.
  unfold new_kernel, raw_drop. intros Hn Hs Hal Hf.
  destruct (raw_pitch_of w b) as [pt| | |]; try done. cbn [obind] in Hn.
  destruct (umul prof pt h) as [sz| | |] eqn:Hsz; try done. cbn [obind] in Hn.
  destruct (kernel_map_region address sz (kernel_table s) (frame_alloc s)) as [[[p a] r]| | |] eqn:Hm; try done.
  cbn [obind] in Hn. destruct r as [[]|]; [|done]. injection Hn as <- <-.
  cbn [raw_pitch raw_height raw_addr mapping kernel_table task_tables frame_alloc] in *.
  rewrite Hsz in Hs. injection Hs as ->.
  assert (umul prof h pt = Ret size) as -> by (unfold umul in *; by rewrite Z.mul_comm).
  cbn [obind]. destruct (map_unmap_region address size kernel_map_flags (kernel_table s) p (frame_alloc s) a a Hal Hf Hm)
    as (p2 & a2 & -> & Hv). cbn [obind]. by eexists.
Qed.

End raw_roundtrip.

(** ** Instances *)

Definition vesa : FramBufferConfig := mkFbConfig 16 8 8 8 0 8.
Definition screen : GlobalFrameBuffer := new_static (mkFramebuffer 1000 3 2 16 32).

Lemma screen_ok : fb_ok screen.
Proof. split; vm_compute; intuition discriminate. Qed.

Lemma fill_spec_witness :
  ∃ mem' px, fb_fill (prof := Dev) vesa screen (mkRGB 1 2 3) (λ _, zero) = Ret mem' ∧
    read32 mem' (pixel_at screen 2 1) = le32 px.
Proof.
  destruct (fill_spec (prof := Dev) vesa screen screen_ok (mkRGB 1 2 3) (λ _, zero))
    as (mem' & px & H1 & _ & H2 & _).
  - split; vm_compute; intuition discriminate.
  - vm_compute. intuition discriminate.
  - exists mem', px. split; [exact H1|]. apply H2; cbn; lia.
Defined.

Lemma fb_write_spec_witness :
  fb_write (prof := Release) screen [byte 7] 5000 (λ _, zero) =
    Ret (mem_write (λ _, zero) 6000 [byte 7], Ok 1).
Proof.
  destruct (fb_write_spec screen [byte 7] 5000 (λ _, zero)) as [_ H].
  - vm_compute. intuition discriminate.
  - lia.
  - destruct H as [_ H]; [vm_compute; intuition discriminate|].
    apply H; vm_compute; discriminate.
Defined.
