(* ===== verification/BootInfo.v ===== *)
(** What the kernel takes from the boot loader (kernel/src/bootinfo.rs), and
    the frame allocator built from it ([init_frame_alloc],
    kernel/src/kernel/mem/paging/alloc.rs).

    The responses of the loader are a record: a request that was not answered
    is [None].  The memory map it hands over is sorted and its usable entries
    do not overlap. *)
From stdpp Require Import sorting.
From S2P Require Import Prelude FrameAlloc Graphics.
Open Scope Z_scope.

(** ** Responses *)

Inductive EntryType : Set := USABLE | OtherEntry (kind : Z).

#[export] Instance EntryType_eq_dec : EqDecision EntryType.
Proof. solve_decision. Defined.

Record Entry : Set := mkEntry { base : Z; entry_length : Z; entry_type : EntryType }.

Record Responses : Type := mkResponses {
  base_revision_supported : bool;
  stack_size_granted : option Z;
  boot_timestamp : option Z;
  rsdp_address : option Z;
  memory_map : option (list Entry);
  hhdm_offset : option Z;
  framebuffers : option (list Framebuffer)
}.

(** [get]: the assertion at the start of [kmain]. *)
Definition bootinfo_get (r : Responses) : Outcome unit :=
  if base_revision_supported r then Ret tt else Panic.

Definition REQUESTED_STACK : Z := 4096 * 5.

Definition stack_size (r : Responses) : Z :=
  match stack_size_granted r with Some _ => REQUESTED_STACK | None => 4096 * 5 end.

(** [get_response().unwrap()] and [expect]. *)
Definition unwrap {X} (o : option X) : Outcome X := match o with Some x => Ret x | None => Panic end.

Definition boot_time (r : Responses) : Outcome Z := unwrap (boot_timestamp r).
Definition rdsp_addr (r : Responses) : Outcome Z := unwrap (rsdp_address r).
Definition get_phys_offset (r : Responses) : Outcome Z := unwrap (hhdm_offset r).
Definition MMAP_ENTRIES (r : Responses) : Outcome (list Entry) := unwrap (memory_map r).
Definition get_framebuffers (r : Responses) : option (list Framebuffer) := framebuffers r.
Definition FIRST_FRAMEBUFFER (r : Responses) : Outcome Framebuffer :=
  unwrap (match framebuffers r with Some (f :: _) => Some f | _ => None end).

(** ** [usable_mmap_entries] *)

Definition HIGH : Z := 0x100000000.

Section regions.
Context (prof : Profile).

(** The body of [filter_map]; [None] for an entry that is not usable. *)
Definition usable_region (r : Responses) (e : Entry) : Outcome (option (Z * Z)) :=
  match entry_type e with
  | USABLE =>
      let! start := (if HIGH <=? base e then
                       let! off := get_phys_offset r in uadd prof (base e) off
                     else Ret (base e)) in
      Ret (Some (start, entry_length e))
  | OtherEntry _ => Ret None
  end.

Fixpoint filter_regions (r : Responses) (es : list Entry) : Outcome (list (Z * Z)) :=
  match es with
  | [] => Ret []
  | e :: es =>
      let! x := usable_region r e in
      let! xs := filter_regions r es in
      Ret (match x with Some x => x :: xs | None => xs end)
  end.

Definition usable_mmap_entries (r : Responses) : Outcome (list (Z * Z)) :=
  let! es := unwrap (memory_map r) in filter_regions r es.

(** [init_frame_alloc] on the memory the kernel finds. *)
Definition init_frame_alloc `{PhysOps} (r : Responses) (mem : Z → Z) : Outcome LinkedListFrameAllocator :=
  let! regions := usable_mmap_entries r in
  let! off := get_phys_offset r in
  LinkedListFrameAllocator_new off regions mem.

End regions.

(** ** Frames of a region *)

(** Rounding to a power of two, as the address library documents it. *)
Class AlignLaws `{PhysOps} := {
  align_up_page : ∀ a, 0 <= a → u64_align_up a PAGE = (a + PAGE - 1) / PAGE * PAGE;
  align_down_page : ∀ a, 0 <= a → u64_align_down a PAGE = a / PAGE * PAGE
}.

(** [PhysAddr::new] panics when one of the bits 52 to 63 is set. *)
Class PhysPanics `{PhysOps} := {
  frame_containing_high : ∀ a, 2 ^ 52 <= a < 2 ^ 64 → frame_containing a = Panic
}.

Section frames.
Context `{AlignLaws}.

(** A frame lies inside a region. *)
Definition frame_in (r : Z * Z) (f : Z) : Prop := f mod PAGE = 0 ∧ fst r <= f ∧ f + PAGE <= fst r + snd r.

Lemma region_frames_spec (r : Z * Z) f : 0 <= fst r → 0 <= snd r → f ∈ region_frames r ↔ frame_in r f.
Proof.
  destruct r as [b l]. cbn [fst snd]. intros Hb Hl. unfold region_frames, frame_in. cbn [fst snd].
  rewrite align_up_page, align_down_page by lia.
  set (u := (b + PAGE - 1) / PAGE). set (d := (b + l) / PAGE).
  assert (Hu : b <= u * PAGE < b + PAGE)
    by (unfold u, PAGE; pose proof (Z.div_mod (b + 4096 - 1) 4096); pose proof (Z.mod_pos_bound (b + 4096 - 1) 4096); lia).
  assert (Hd : d * PAGE <= b + l < d * PAGE + PAGE)
    by (unfold d, PAGE; pose proof (Z.div_mod (b + l) 4096); pose proof (Z.mod_pos_bound (b + l) 4096); lia).
  assert (Hn : (d * PAGE - u * PAGE + PAGE - 1) / PAGE = d - u).
  { replace (d * PAGE - u * PAGE + PAGE - 1) with ((d - u) * PAGE + (PAGE - 1)) by lia.
    rewrite Z.div_add_l by done. unfold PAGE. rewrite Z.div_small by lia. lia. }
  rewrite Hn, list_elem_of_fmap. split.
  - intros (i & -> & Hi%elem_of_seq). split; [|unfold PAGE in *; lia].
    replace (u * PAGE + PAGE * Z.of_nat i) with ((u + Z.of_nat i) * PAGE) by lia. by apply Z.mod_mul.
  - intros (Hm & H1 & H2). apply Z.mod_divide in Hm as [k ->]; [|done].
    exists (Z.to_nat (k - u)). rewrite elem_of_seq. unfold PAGE in *. lia.
Qed.

Lemma region_frames_nodup (r : Z * Z) : NoDup (region_frames r).
Proof.
  destruct r as [b l]. unfold region_frames. apply NoDup_fmap_2; [|apply NoDup_seq].
  intros i j Hij. unfold PAGE in Hij. lia.
Qed.

(** Regions one after the other. *)
Definition before (r1 r2 : Z * Z) : Prop := fst r1 + snd r1 <= fst r2.

Definition regions_ok (rs : list (Z * Z)) : Prop :=
  StronglySorted before rs ∧ Forall (λ r, 0 <= fst r ∧ 0 <= snd r) rs.

Lemma all_frames_spec rs f :
  Forall (λ r, 0 <= fst r ∧ 0 <= snd r) rs → f ∈ all_frames rs ↔ ∃ r, r ∈ rs ∧ frame_in r f.
Proof.
  intros Hrs. rewrite Forall_forall in Hrs. unfold all_frames. rewrite list_elem_of_In, in_concat. split.
  - intros (l & (r & -> & Hr)%list_elem_of_In%list_elem_of_fmap & Hf%list_elem_of_In). exists r.
    split; [done|]. destruct (Hrs r Hr). by apply region_frames_spec.
  - intros (r & Hr & Hf). exists (region_frames r). rewrite <- !list_elem_of_In. split; [by apply list_elem_of_fmap_2|].
    destruct (Hrs r Hr). by apply region_frames_spec.
Qed.

Lemma all_frames_nodup rs : regions_ok rs → NoDup (all_frames rs).
Proof.
  intros [Hs Hp]. induction Hs as [|r rs Hs IH Hb]; [constructor|].
  apply Forall_cons in Hp as [Hr Hp]. unfold all_frames. cbn [fmap list_fmap concat].
  apply NoDup_app. split; [apply region_frames_nodup|]. split; [|by apply IH].
  intros f Hf Hf'. apply region_frames_spec in Hf; [|apply Hr..].
  apply (all_frames_spec rs f Hp) in Hf' as (r' & Hr' & Hf').
  rewrite Forall_forall in Hb. specialize (Hb r' Hr'). unfold before, frame_in, PAGE in *. lia.
Qed.

End frames.

(** ** Memory below four gigabytes *)

Section boot.
Context `{PhysOps} `{!AlignLaws} (prof : Profile).

Definition usable_entries (es : list Entry) : list Entry := filter (λ e, entry_type e = USABLE) es.

Definition region_of (e : Entry) : Z * Z := (base e, entry_length e).

(** The loader's promise: usable entries are sorted and apart. *)
Definition map_ok (es : list Entry) : Prop :=
  StronglySorted (λ e1 e2, base e1 + entry_length e1 <= base e2) (usable_entries es) ∧
  Forall (λ e, 0 <= base e ∧ 0 <= entry_length e) (usable_entries es).

Lemma filter_regions_low r es :
  Forall (λ e, base e < HIGH) (usable_entries es) →
  filter_regions prof r es = Ret (region_of <$> usable_entries es).
Proof.
  unfold usable_entries. induction es as [|e es IH]; [done|]. rewrite filter_cons. cbn [filter_regions].
  unfold usable_region. destruct e as [b l t]. cbn [entry_type base entry_length].
  case_decide as Ht; [|destruct t; [done|]]; intros He.
  - subst t. apply Forall_cons in He as [Hb He]. cbn [base] in Hb.
    destruct (Z.leb_spec HIGH b); [lia|]. cbn [obind]. by rewrite IH.
  - cbn [obind]. by rewrite IH.
Qed.

Lemma regions_low_ok es : map_ok es → regions_ok (region_of <$> usable_entries es).
Proof.
  intros [Hs Hp]. split.
  - induction Hs as [|e es' Hs IH Hb]; [constructor|]. apply Forall_cons in Hp as [_ Hp].
    cbn [fmap list_fmap]. constructor; [by apply IH|]. by apply Forall_fmap.
  - by apply Forall_fmap.
Qed.
(** Low regions give frames the allocator can use. *)
Lemma low_frames_ok off es :
  map_ok es → Forall (λ e, base e + entry_length e <= 2 ^ 52) (usable_entries es) → 0 < off →
  Forall (frame_ok off) (all_frames (region_of <$> usable_entries es)).
Proof.
  intros Hok Hb Ho. apply Forall_forall. intros f Hf. destruct (regions_low_ok _ Hok) as [_ Hp].
  apply (all_frames_spec _ f Hp) in Hf as (r & (e & -> & He)%list_elem_of_fmap & Hm & H1 & H2).
  rewrite Forall_forall in Hb. specialize (Hb e He).
  destruct Hok as [_ Hpos]. rewrite Forall_forall in Hpos. specialize (Hpos e He).
  cbn [region_of fst snd] in *. unfold frame_ok, PAGE in *. lia.
Qed.

(** C4: on a machine whose usable memory starts below four gigabytes, the
    allocator the kernel boots with owns exactly the page frames that lie
    inside a usable entry of the loader's memory map.  Whatever clients do
    with their frames, it never panics, every frame it hands out is such a
    frame, zeroed and not in use, and it refuses only when all are in use. *)
Theorem boot_frames_spec `{!PhysLaws} r es off mem :
  memory_map r = Some es → hhdm_offset r = Some off → 0 < off → map_ok es →
  Forall (λ e, base e < HIGH ∧ base e + entry_length e <= 2 ^ 52) (usable_entries es) →
  let rs := region_of <$> usable_entries es in
  let mine f := ∃ e, e ∈ es ∧ entry_type e = USABLE ∧ frame_in (region_of e) f in
  ∃ s0, init_frame_alloc prof r mem = Ret s0 ∧
  ∀ s owned, rtc (frame_step off rs) (s0, []) (s, owned) →
    NoDup owned ∧ (∀ f, f ∈ owned → mine f) ∧
    ((∃ s' f, allocate_frame off rs s = Ret (s', Some f) ∧ mine f ∧ (f ∉ owned) ∧
        (∀ x, f + off <= x < f + off + PAGE → memory s' x = 0)) ∨
     (∃ s', allocate_frame off rs s = Ret (s', None) ∧ ∀ f, mine f → f ∈ owned)).
Proof.
  intros Hm Hh Ho Hok Hlow rs mine.
  assert (Hmine : ∀ f, f ∈ all_frames rs ↔ mine f).
  { intros f. unfold rs. rewrite all_frames_spec by apply (regions_low_ok _ Hok). split.
    - intros (q & (e & -> & He)%list_elem_of_fmap & Hf). unfold usable_entries in He.
      apply list_elem_of_filter in He as [Ht He]. by exists e.
    - intros (e & He & Ht & Hf). exists (region_of e). split; [|done].
      apply list_elem_of_fmap_2, list_elem_of_filter. done. }
  assert (Hfr : Forall (frame_ok off) (all_frames rs)).
  { apply low_frames_ok; [done| |done]. eapply Forall_impl; [exact Hlow|]. by intros e [_ ?]. }
  assert (Hnd : NoDup (all_frames rs)) by apply all_frames_nodup, regions_low_ok, Hok.
  destruct (new_inv off rs Hfr Hnd mem) as (s0 & Hs0 & Hi0). exists s0. split.
  { unfold init_frame_alloc, usable_mmap_entries, get_phys_offset. rewrite Hm, Hh. cbn [unwrap obind].
    rewrite filter_regions_low; [done|]. eapply Forall_impl; [exact Hlow|]. by intros e [? _]. }
  intros s owned Hr. destruct (reachable_safe off rs Hfr Hnd s0 s owned Hi0 Hr) as (Hn & Hin & Hnext).
  split; [done|]. split; [intros f Hf; by apply Hmine, Hin|].
  destruct Hnext as [(s' & f & Ha & Hf & Hrest)|(s' & Ha & Hp)].
  - left. exists s', f. split; [done|]. split; [by apply Hmine|done].
  - right. exists s'. split; [done|]. intros f Hf. rewrite Hp. by apply Hmine.
Qed.

End boot.

(** ** Memory above four gigabytes

    The start of such a region is moved into the direct mapping before it is
    used as a physical address, which it then no longer is. *)
Lemma high_region_moved prof r e off :
  entry_type e = USABLE → HIGH <= base e → hhdm_offset r = Some off → base e + off < 2 ^ 64 → 0 <= off →
  usable_region prof r e = Ret (Some (base e + off, entry_length e)).
Proof.
  intros Ht Hb Hh Hs Ho. unfold usable_region. rewrite Ht. destruct (Z.leb_spec HIGH (base e)); [|lia].
  unfold get_phys_offset. rewrite Hh. cbn [unwrap obind]. unfold HIGH in *.
  unfold uadd. rewrite uarith_in_range; [done|]. unfold in_usize, USIZE_MAX. lia.
Qed.

(** When the frames below are used up, the next request panics instead of
    being served or refused. *)
Lemma high_memory_panics `{PhysOps} `{!PhysPanics} off low hi fs rs s :
  region_frames hi = fst hi :: fs → 2 ^ 52 <= fst hi < 2 ^ 64 →
  FrameAlloc.head s = 0 → current_batch_end s = length (all_frames low) →
  allocate_frame off (low ++ hi :: rs) s = Panic.
Proof.
  intros Hfs Hhi Hh Hc. unfold allocate_frame. rewrite decide_True by done. unfold add_batch, all_frames.
  rewrite fmap_app, concat_app. fold (all_frames low). rewrite Hc, drop_app_length. cbn [fmap list_fmap concat].
  rewrite Hfs.
  change BATCH with (S (Z.to_nat 9999)). cbn [app take add_frames]. by rewrite frame_containing_high.
Qed.

(** ** Instances *)

#[export] Instance AlignLaws_ref : AlignLaws.
Proof. by constructor. Defined.

#[export] Instance PhysPanics_ref : PhysPanics.
Proof. constructor. intros a Ha. cbn [frame_containing PhysOps_ref]. by rewrite decide_False by lia. Defined.

Definition HHDM : Z := 0xffff800000000000.

Definition boot_with (es : list Entry) : Responses :=
  mkResponses true (Some 0) (Some 0) (Some 0) (Some es) (Some HHDM) None.

(** The first 640 kB and a region at 1 MB, with the hole between them. *)
Definition small_map : list Entry :=
  [mkEntry 0x1000 0x9e000 USABLE; mkEntry 0x9f000 0x61000 (OtherEntry 1); mkEntry 0x100000 0x3800 USABLE].

Lemma boot_frames_spec_witness :
  ∃ s0 s1 f, init_frame_alloc Release (boot_with small_map) (λ _, 7) = Ret s0 ∧
    allocate_frame HHDM (region_of <$> usable_entries small_map) s0 = Ret (s1, Some f) ∧ f mod PAGE = 0.
Proof.
  destruct (boot_frames_spec Release (boot_with small_map) small_map HHDM (λ _, 7)) as (s0 & Hs & Hr).
  - reflexivity.
  - reflexivity.
  - reflexivity.
  - split; repeat constructor; vm_compute; discriminate.
  - repeat constructor; vm_compute; discriminate || reflexivity.
  - destruct (Hr s0 [] (rtc_refl _ _)) as (_ & _ & [(s1 & f & Ha & Hf & _)|(s1 & _ & Hp)]).
    + exists s0, s1, f. destruct Hf as (e & _ & _ & Hf & _). exact (conj Hs (conj Ha Hf)).
    + exfalso. apply (not_elem_of_nil 0x1000), Hp. exists (mkEntry 0x1000 0x9e000 USABLE).
      split; [apply list_elem_of_here|]. split; [reflexivity|]. vm_compute. repeat split; discriminate.
Defined.

(** With little memory below and some above four gigabytes, the machine does
    not get past the first batch. *)
Lemma high_memory_stops_boot :
  init_frame_alloc Release (boot_with (small_map ++ [mkEntry HIGH 0x1000 USABLE])) (λ _, 0) = Panic.
Proof. vm_compute. reflexivity. Qed.
