(* ===== verification/Vga.v ===== *)
(** The VGA text buffer: kernel/src/arch/x86/vga/buf.rs.

    [Volatile] is its content.  A reference into the buffer ([select] and the
    like) is the position it points to. *)
From S2P Require Import Prelude.
Open Scope Z_scope.

(** ** Colours and characters *)

Inductive VGAColor : Set :=
| VBlack | VBlue | VGreen | VCyan | VRed | VMagenta | VBrown | VLightGray
| VDarkGray | VLightBlue | VLightGreen | VLightCyan | VLightRed | VPink | VYellow | VWhite.

(** [as u8]. *)
Definition VGAColor_discr (c : VGAColor) : Z :=
  match c with
  | VBlack => 0 | VBlue => 1 | VGreen => 2 | VCyan => 3 | VRed => 4 | VMagenta => 5
  | VBrown => 6 | VLightGray => 7 | VDarkGray => 8 | VLightBlue => 9 | VLightGreen => 10
  | VLightCyan => 11 | VLightRed => 12 | VPink => 13 | VYellow => 14 | VWhite => 15
  end.

(** [ColorCode]: a byte. *)
Definition ColorCode_new (fg bg : VGAColor) : Z :=
  Z.lor (wrap 8 (Z.shiftl (VGAColor_discr bg) 4)) (VGAColor_discr fg).
Definition ColorCode_fg (self : Z) (fg : VGAColor) : Z :=
  Z.lor (Z.land self 0xF0) (VGAColor_discr fg).
Definition ColorCode_bg (self : Z) (bg : VGAColor) : Z :=
  Z.lor (Z.land self 0x0F) (wrap 8 (Z.shiftl (VGAColor_discr bg) 4)).
Definition ColorCode_default : Z := ColorCode_new VWhite VBlack.

Record ScreenChar : Set := mkChar { ascii_character : u8; color_code : Z }.

Definition char_fg (self : ScreenChar) (color : VGAColor) : ScreenChar :=
  mkChar (ascii_character self) (ColorCode_fg (color_code self) color).
Definition char_bg (self : ScreenChar) (color : VGAColor) : ScreenChar :=
  mkChar (ascii_character self) (ColorCode_bg (color_code self) color).
Definition char_set (self : ScreenChar) (c : u8) : ScreenChar := mkChar c (color_code self).

(** [ScreenRow]: every cell of a row. *)
Definition row_fg (chars : list ScreenChar) (color : VGAColor) := map (λ c, char_fg c color) chars.
Definition row_bg (chars : list ScreenChar) (color : VGAColor) := map (λ c, char_bg c color) chars.
Definition row_char (chars : list ScreenChar) (b : u8) := map (λ c, char_set c b) chars.

(** ** The buffer *)

Definition BUFFER_HEIGHT : nat := 25.
Definition BUFFER_WIDTH : nat := 80.

Abbreviation VGABuffer := (list (list ScreenChar)).

Definition is_valid_row (row : nat) : bool := (row <? BUFFER_HEIGHT)%nat.
Definition is_valid_col (col : nat) : bool := (col <? BUFFER_WIDTH)%nat.

Definition buf_get (self : VGABuffer) (row col : nat) : option ScreenChar :=
  if is_valid_row row && is_valid_col col then r ← self !! row; r !! col else None.

(** Assignment through [get_mut], nothing if it is [None]. *)
Definition buf_update (self : VGABuffer) (row col : nat) (f : ScreenChar → ScreenChar) : VGABuffer :=
  if is_valid_row row && is_valid_col col then alter (alter f col) row self else self.

Definition get_row_mut (self : VGABuffer) (row : nat) : option nat :=
  if is_valid_row row then Some row else None.

(** ** The writer *)

Record VGAWriter : Type := mkWriter { column : nat; row : nat; buffer : VGABuffer }.

Definition set_buffer (self : VGAWriter) (b : VGABuffer) : VGAWriter :=
  mkWriter (column self) (row self) b.
Definition set_column (self : VGAWriter) (c : nat) : VGAWriter :=
  mkWriter c (row self) (buffer self).

(** [WRITER]: starts in the last row of whatever the memory holds. *)
Definition WRITER (memory : VGABuffer) : VGAWriter := mkWriter 0 (BUFFER_HEIGHT - 1) memory.

Definition write_char_unchecked (self : VGAWriter) (char : ScreenChar) (row col : nat) : VGAWriter :=
  set_buffer self (buf_update (buffer self) row col (λ _, char)).

Definition write_byte_unchecked (self : VGAWriter) (b : u8) (row col : nat) : VGAWriter :=
  set_buffer self
    (buf_update (buffer self) row col (λ c, char_bg (char_fg (char_set c b) VWhite) VBlack)).

Definition clear_row (self : VGAWriter) (row : nat) : VGAWriter :=
  foldl (λ w col, write_byte_unchecked w (byte 32) row col) self (seq 0 BUFFER_WIDTH).

(** One assignment of the copying loops; [get] is unwrapped. *)
Definition copy_cell (from to : nat) (self : VGAWriter) (col : nat) : Outcome VGAWriter :=
  match buf_get (buffer self) from col with
  | None => Panic
  | Some character => Ret (write_char_unchecked self character to col)
  end.

Definition vga_shift_up (self : VGAWriter) : Outcome VGAWriter :=
  let! self :=
    oforeach (λ w row, oforeach (copy_cell row (row - 1)) (seq 0 BUFFER_WIDTH) w)
      (seq 1 (BUFFER_HEIGHT - 1)) self in
  Ret (set_column (clear_row self (BUFFER_HEIGHT - 1)) 0).

Definition vga_shift_down (self : VGAWriter) : Outcome VGAWriter :=
  let! self :=
    oforeach (λ w row, oforeach (copy_cell row (row + 1)) (seq 0 BUFFER_WIDTH) w)
      (rev (seq 0 (BUFFER_HEIGHT - 1))) self in
  Ret (set_column self (BUFFER_WIDTH - 1)).

Definition vga_write_byte (self : VGAWriter) (b : u8) : Outcome VGAWriter :=
  if decide (b = byte 10) then vga_shift_up self
  else
    let! self := (if (BUFFER_WIDTH <=? column self)%nat then vga_shift_up self else Ret self) in
    let self := write_byte_unchecked self b (row self) (column self) in
    Ret (set_column self (column self + 1)).

(** [fmt::Write]: what is not printable is shown as a block. *)
Definition printable (b : u8) : bool :=
  ((32 <=? nat_of_ascii b)%nat && (nat_of_ascii b <=? 126)%nat) || bool_decide (b = byte 10).

Definition vga_write_str (self : VGAWriter) (s : list u8) : Outcome VGAWriter :=
  oforeach (λ w b, if printable b then vga_write_byte w b else vga_write_byte w (byte 254)) s self.

Definition select (row col : nat) : option (nat * nat) :=
  if is_valid_row row && is_valid_col col then Some (row, col) else None.

Definition select_prev (self : VGAWriter) : option (nat * nat) :=
  let '(r, c) :=
    if (0 <? column self)%nat then (row self, column self - 1)%nat
    else if (0 <? row self)%nat then (row self - 1, 0)%nat
    else (row self, column self) in
  select r c.

Definition select_next (self : VGAWriter) : option (nat * nat) :=
  let '(r, c) :=
    if (column self <? BUFFER_WIDTH - 1)%nat then (row self, column self + 1)%nat
    else if (row self <? BUFFER_HEIGHT - 1)%nat then (row self + 1, 0)%nat
    else (row self, column self) in
  select r c.

Definition select_row (self : VGAWriter) (row : nat) : option nat := get_row_mut (buffer self) row.

Definition set_prev_pos (self : VGAWriter) : Outcome VGAWriter :=
  if (0 <? column self)%nat then Ret (set_column self (column self - 1)) else vga_shift_down self.

Definition set_next_pos (self : VGAWriter) : Outcome VGAWriter :=
  if (column self <? BUFFER_WIDTH - 1)%nat then Ret (set_column self (column self + 1)) else vga_shift_up self.

Definition current_pos (self : VGAWriter) : nat * nat := (row self, column self).

(** ** Colour codes *)

Lemma discr_range c : 0 <= VGAColor_discr c < 16.
Proof. by destruct c. Qed.

(** Setting one half of a colour code keeps the other half. *)
Lemma color_code_halves code fg bg :
  ColorCode_fg (ColorCode_bg code bg) fg = ColorCode_new fg bg ∧
  ColorCode_bg (ColorCode_fg code fg) bg = ColorCode_new fg bg.
Proof.
  unfold ColorCode_fg, ColorCode_bg, ColorCode_new.
  rewrite !Z.land_lor_distr_l, <- !Z.land_assoc.
  change (Z.land 15 240) with 0. change (Z.land 240 15) with 0. rewrite !Z.land_0_r, !Z.lor_0_l.
  split; destruct fg, bg; reflexivity.
Qed.

(** A cell as the writer leaves it, and an empty row. *)
Definition white (b : u8) : ScreenChar := mkChar b ColorCode_default.
Definition blank_row : list ScreenChar := replicate BUFFER_WIDTH (white (byte 32)).

Lemma cell_white c b : char_bg (char_fg (char_set c b) VWhite) VBlack = white b.
Proof. unfold char_bg, char_fg, char_set, white. cbn [ascii_character color_code]. f_equal. apply color_code_halves. Qed.

(** ** Scrolling *)

Definition dims (b : VGABuffer) : Prop := length b = BUFFER_HEIGHT ∧ Forall (λ r, length r = BUFFER_WIDTH) b.

(** One more cell of a row. *)
Lemma overlay_step {X} (l r : list X) n x f :
  l !! n = Some x → (n < length r)%nat → f (default x (r !! n)) = x →
  alter f n (take n l ++ drop n r) = take (S n) l ++ drop (S n) r.
Proof.
  intros Hl Hr Hf. destruct (lookup_lt_is_Some_2 r n Hr) as [y Hy]. rewrite Hy in Hf. cbn in Hf.
  assert (Hn : length (take n l) = n) by (apply lookup_lt_Some in Hl; rewrite length_take; lia).
  rewrite (take_S_r _ _ _ Hl), <- app_assoc, (drop_S _ _ _ Hy).
  rewrite alter_app_r_alt by lia. rewrite Hn, Nat.sub_diag. cbn. by rewrite Hf.
Qed.

Lemma copy_cells w from to rf rt n :
  buffer w !! from = Some rf → buffer w !! to = Some rt → from ≠ to →
  dims (buffer w) → (n <= BUFFER_WIDTH)%nat →
  oforeach (copy_cell from to) (seq 0 n) w =
    Ret (set_buffer w (<[to := take n rf ++ drop n rt]> (buffer w))).
Proof.
  intros Hf Ht Hne [Hlen Hrows]. rewrite Forall_lookup in Hrows.
  pose proof (Hrows _ _ Hf) as Lf. pose proof (Hrows _ _ Ht) as Lt.
  pose proof (lookup_lt_Some _ _ _ Hf) as Bf. pose proof (lookup_lt_Some _ _ _ Ht) as Bt. rewrite Hlen in Bf, Bt.
  induction n as [|n IH]; intros Hn.
  { cbn [seq oforeach take drop app]. rewrite list_insert_id by done. by destruct w. }
  rewrite seq_S, oforeach_app, IH by lia. cbn [obind oforeach Nat.add].
  destruct (lookup_lt_is_Some_2 rf n ltac:(lia)) as [c Hc].
  assert (V : ∀ r, (r < BUFFER_HEIGHT)%nat → is_valid_row r && is_valid_col n = true).
  { intros r Hr. unfold is_valid_row, is_valid_col. apply andb_true_iff. split; apply Nat.ltb_lt; lia. }
  unfold copy_cell, buf_get. rewrite V by done. cbn [set_buffer buffer].
  rewrite list_lookup_insert_ne by done. rewrite Hf. cbn [mbind option_bind]. rewrite Hc. cbn [obind].
  unfold write_char_unchecked, buf_update. rewrite V by done. cbn [set_buffer buffer column row].
  do 2 f_equal. rewrite !list_insert_alter, list_alter_alter_eq. unfold compose.
  by rewrite (overlay_step rf rt n c) by (done || lia).
Qed.

(** The rows moved so far, then the rows as they were. *)
Lemma copy_up_rows w n :
  dims (buffer w) → (n < BUFFER_HEIGHT)%nat →
  oforeach (λ w row, oforeach (copy_cell row (row - 1)) (seq 0 BUFFER_WIDTH) w) (seq 1 n) w =
    Ret (set_buffer w (take n (tail (buffer w)) ++ drop n (buffer w))).
Proof.
  intros [Hlen Hrows]. induction n as [|n IH]; intros Hn.
  { cbn [seq oforeach take drop app]. by destruct w. }
  rewrite seq_S, oforeach_app, IH by lia. cbn [obind oforeach Nat.add].
  destruct (buffer w) as [|r0 rs] eqn:Hb; [done|]. cbn [tail] in *.
  assert (Hl : length rs = 24%nat) by (cbn in Hlen; unfold BUFFER_HEIGHT in Hlen; lia). unfold BUFFER_HEIGHT in Hn.
  destruct (lookup_lt_is_Some_2 rs n ltac:(lia)) as [rf Hf].
  destruct (lookup_lt_is_Some_2 (r0 :: rs) n ltac:(cbn; lia)) as [rt Ht].
  assert (Hw : ∀ i, (n <= i)%nat → (take n rs ++ drop n (r0 :: rs)) !! i = (r0 :: rs) !! i).
  { intros i Hi. rewrite lookup_app_r by (rewrite length_take; lia). rewrite lookup_drop, length_take. f_equal. lia. }
  assert (Hd : dims (take n rs ++ drop n (r0 :: rs))).
  { split; [rewrite length_app, length_take, length_drop; cbn [length]; unfold BUFFER_HEIGHT; lia|].
    apply Forall_app; split; [|by apply Forall_drop]. apply Forall_take. by inversion Hrows. }
  assert (Lf : length rf = BUFFER_WIDTH).
  { destruct Hd as [_ Hr]. rewrite Forall_lookup in Hrows. apply (Hrows (S n) rf). exact Hf. }
  assert (Lt : length rt = BUFFER_WIDTH) by (rewrite Forall_lookup in Hrows; by apply (Hrows n rt)).
  replace (S n - 1)%nat with n by lia.
  rewrite (copy_cells _ (S n) n rf rt); cbn [set_buffer buffer column row]; [|rewrite Hw by lia; done|by rewrite Hw|lia|done|done].
  cbn [obind]. rewrite (take_ge rf), (drop_ge rt), app_nil_r by lia. do 2 f_equal.
  rewrite list_insert_alter. apply (overlay_step rs (r0 :: rs) n rf); [done|cbn; lia|done].
Qed.

(** A cleared row. *)
Lemma clear_row_spec w r l :
  buffer w !! r = Some l → (r < BUFFER_HEIGHT)%nat → length l = BUFFER_WIDTH →
  clear_row w r = set_buffer w (<[r := blank_row]> (buffer w)).
Proof.
  intros Hr Hb Hl.
  assert (H : ∀ n, (n <= BUFFER_WIDTH)%nat →
    foldl (λ w col, write_byte_unchecked w (byte 32) r col) w (seq 0 n) =
    set_buffer w (<[r := take n blank_row ++ drop n l]> (buffer w))).
  { induction n as [|n IH]; intros Hn.
    { cbn [seq foldl take drop app]. rewrite list_insert_id by done. by destruct w. }
    rewrite seq_S, foldl_app, IH by lia. cbn [foldl Nat.add].
    unfold write_byte_unchecked, buf_update, is_valid_row, is_valid_col.
    rewrite (proj2 (Nat.ltb_lt _ _) Hb), (proj2 (Nat.ltb_lt n BUFFER_WIDTH)) by lia. cbn [andb set_buffer buffer column row].
    f_equal. rewrite !list_insert_alter, list_alter_alter_eq. unfold compose.
    rewrite (overlay_step blank_row l n (white (byte 32))); [done| |lia|apply cell_white].
    unfold blank_row. apply lookup_replicate. split; [done|lia]. }
  unfold clear_row. rewrite H by done. do 3 f_equal. rewrite (drop_ge l), app_nil_r by lia.
  apply take_ge. unfold blank_row. rewrite length_replicate. done.
Qed.

(** Scrolling drops the first row and opens an empty one. *)
Lemma vga_shift_up_spec w top r :
  buffer w = top ++ [r] → dims (buffer w) →
  vga_shift_up w = Ret (mkWriter 0 (row w) (tail (buffer w) ++ [blank_row])).
Proof.
  intros Hb Hd. unfold vga_shift_up. rewrite copy_up_rows by (done || (unfold BUFFER_HEIGHT; lia)). cbn [obind].
  destruct Hd as [Hlen Hrows]. unfold BUFFER_HEIGHT in *.
  assert (Ht : length top = 24%nat) by (rewrite Hb, length_app in Hlen; cbn in Hlen; lia).
  assert (Hr : length r = BUFFER_WIDTH) by (rewrite Hb, Forall_app in Hrows; destruct Hrows as [_ H]; by inversion H).
  assert (E : take 24 (tail (buffer w)) ++ drop 24 (buffer w) = tail (buffer w) ++ [r]).
  { rewrite take_ge by (destruct (buffer w); cbn in *; lia). f_equal. rewrite Hb, drop_app_length'; done. }
  cbn [Nat.sub]. rewrite E.
  assert (L : length (tail (buffer w)) = 24%nat) by (destruct (buffer w); cbn in *; lia).
  rewrite (clear_row_spec _ 24 r); cbn [set_buffer buffer column row set_column];
    [|by rewrite <- L, lookup_app_r, Nat.sub_diag by lia|unfold BUFFER_HEIGHT; lia|done].
  do 2 f_equal. by rewrite <- L, insert_app_r_alt, Nat.sub_diag by lia.
Qed.

(** ** What the screen shows *)

(** The byte that is shown. *)
Definition shown (b : u8) : u8 := if printable b then b else byte 254.

(** The lines of a text on a screen of eighty columns, after the beginning
    [cur] of the first one. *)
Fixpoint wrap_lines (cur s : list u8) : list (list u8) :=
  match s with
  | [] => [cur]
  | b :: s =>
      if decide (b = byte 10) then cur :: wrap_lines [] s
      else if (80 <=? length cur)%nat then cur :: wrap_lines [shown b] s
      else wrap_lines (cur ++ [shown b]) s
  end.

(** A line over a row, and lines on a screen whose last row is [r]. *)
Definition overlay (r : list ScreenChar) (l : list u8) : list ScreenChar :=
  map white l ++ drop (length l) r.
Definition show_lines (r : list ScreenChar) (ls : list (list u8)) : list (list ScreenChar) :=
  match ls with [] => [] | l :: ls => overlay r l :: map (overlay blank_row) ls end.
Definition last_rows (b : VGABuffer) : VGABuffer := drop (length b - BUFFER_HEIGHT) b.

(** No line is longer than the screen is wide, and a line break separates. *)
Lemma wrap_lines_width cur s : (length cur <= 80)%nat → Forall (λ l, length l <= 80)%nat (wrap_lines cur s).
Proof.
  revert cur. induction s as [|b s IH]; intros cur Hc; [by constructor|]. cbn [wrap_lines].
  destruct (decide _); [constructor; [done|apply IH; cbn; lia]|].
  destruct (Nat.leb_spec 80 (length cur)); [constructor; [done|apply IH; cbn; lia]|].
  apply IH. rewrite length_app. cbn. lia.
Qed.

Lemma wrap_lines_break cur s1 s2 :
  wrap_lines cur (s1 ++ byte 10 :: s2) = wrap_lines cur s1 ++ wrap_lines [] s2.
Proof.
  revert cur. induction s1 as [|b s IH]; intros cur; [done|]. cbn [app wrap_lines].
  repeat case_match; cbn [app]; rewrite ?IH; done.
Qed.

Lemma last_rows_snoc hist x :
  (24 <= length hist)%nat → last_rows (hist ++ [x]) = drop (length hist - 24) hist ++ [x].
Proof.
  intros Hl. unfold last_rows, BUFFER_HEIGHT. rewrite length_app. cbn [length].
  rewrite drop_app_le by lia. do 2 f_equal. lia.
Qed.

Lemma overlay_length r l : (length l <= length r)%nat → length (overlay r l) = length r.
Proof. intros. unfold overlay. rewrite length_app, length_map, length_drop. lia. Qed.

Lemma overlay_nil r : overlay r [] = r.
Proof. done. Qed.

(** The writer in the last line of a history. *)
Definition at_line (hist : VGABuffer) (r : list ScreenChar) (cur : list u8) : VGAWriter :=
  mkWriter (length cur) 24 (last_rows (hist ++ [overlay r cur])).

Definition line_ok (hist : VGABuffer) (r : list ScreenChar) (cur : list u8) : Prop :=
  (24 <= length hist)%nat ∧ Forall (λ r, length r = BUFFER_WIDTH) hist ∧
  length r = BUFFER_WIDTH ∧ (length cur <= BUFFER_WIDTH)%nat.

Lemma at_line_scroll hist r cur :
  line_ok hist r cur → vga_shift_up (at_line hist r cur) = Ret (at_line (hist ++ [overlay r cur]) blank_row []).
Proof.
  intros (Hh & Hf & Hr & Hc). unfold at_line. rewrite !last_rows_snoc by (rewrite ?length_app; cbn; lia).
  erewrite vga_shift_up_spec; cbn [buffer column row]; [|done|].
  - do 2 f_equal. rewrite overlay_nil. f_equal. rewrite length_app. cbn [length].
    rewrite drop_app_le by lia.
    destruct (drop (length hist - 24) hist) as [|x xs] eqn:E.
    { apply (f_equal length) in E. rewrite length_drop in E. cbn in E. lia. }
    replace (length hist + 1 - 24)%nat with (length hist - 24 + 1)%nat by lia.
    rewrite <- drop_drop, E. done.
  - split.
    + rewrite length_app, length_drop. cbn [length]. unfold BUFFER_HEIGHT. lia.
    + apply Forall_app; split; [by apply Forall_drop|]. constructor; [|done]. rewrite overlay_length by lia. done.
Qed.

Lemma at_line_put hist r cur c :
  line_ok hist r cur → (length cur < BUFFER_WIDTH)%nat →
  write_byte_unchecked (at_line hist r cur) c 24 (length cur) =
    mkWriter (length cur) 24 (last_rows (hist ++ [overlay r (cur ++ [c])])).
Proof.
  intros (Hh & Hf & Hr & _) Hc. unfold at_line, write_byte_unchecked, buf_update, is_valid_row, is_valid_col.
  rewrite (proj2 (Nat.ltb_lt _ _) Hc). change (24 <? BUFFER_HEIGHT)%nat with true. cbn [andb set_buffer buffer column row].
  f_equal. rewrite !last_rows_snoc by done.
  assert (L : length (drop (length hist - 24) hist) = 24%nat) by (rewrite length_drop; lia).
  rewrite <- L at 1. rewrite alter_app_r_alt, Nat.sub_diag by lia. cbn. do 2 f_equal.
  unfold overlay. rewrite map_app, <- app_assoc, length_app.
  destruct (lookup_lt_is_Some_2 r (length cur) ltac:(lia)) as [y Hy]. rewrite (drop_S _ _ _ Hy).
  rewrite alter_app_r_alt by (rewrite length_map; lia). rewrite length_map, Nat.sub_diag. cbn. f_equal. f_equal.
  - apply cell_white.
  - f_equal. lia.
Qed.

Lemma show_lines_cons hist r l ls : ls ≠ [] →
  hist ++ show_lines r (l :: ls) = (hist ++ [overlay r l]) ++ show_lines blank_row ls.
Proof. intros Hn. destruct ls as [|l' ls]; [done|]. rewrite <- app_assoc. done. Qed.

Lemma wrap_lines_nonempty cur s : wrap_lines cur s ≠ [].
Proof. revert cur. induction s; intros; cbn; repeat case_match; done. Qed.

Lemma write_str_lines hist r cur s :
  line_ok hist r cur →
  ∃ col, vga_write_str (at_line hist r cur) s =
    Ret (mkWriter col 24 (last_rows (hist ++ show_lines r (wrap_lines cur s)))).
Proof.
  revert hist r cur. induction s as [|b s IH]; intros hist r cur Hok; [by eexists|].
  pose proof Hok as (Hh & Hf & Hr & Hc).
  assert (Hok' : ∀ cur', (length cur' <= BUFFER_WIDTH)%nat → line_ok (hist ++ [overlay r cur]) blank_row cur').
  { intros cur' Hc'. split_and!; [rewrite length_app; lia| |done|done].
    apply Forall_app. split; [done|]. constructor; [|done]. rewrite overlay_length by lia. done. }
  unfold vga_write_str. cbn [oforeach wrap_lines].
  assert (E : (if printable b then vga_write_byte (at_line hist r cur) b
               else vga_write_byte (at_line hist r cur) (byte 254)) = vga_write_byte (at_line hist r cur) (shown b)).
  { unfold shown. by destruct (printable b). }
  rewrite E. clear E. unfold vga_write_byte. destruct (decide (b = byte 10)) as [->|Hb].
  - change (shown (byte 10)) with (byte 10). rewrite decide_True by done. rewrite at_line_scroll by done. cbn [obind].
    rewrite show_lines_cons by apply wrap_lines_nonempty. apply IH, Hok'. cbn. lia.
  - rewrite decide_False by (unfold shown; destruct (printable b); done).
    change (column (at_line hist r cur)) with (length cur). change BUFFER_WIDTH with 80%nat.
    destruct (Nat.leb_spec 80 (length cur)) as [Hfull|Hroom].
    + rewrite at_line_scroll by done. cbn [obind]. rewrite show_lines_cons by apply wrap_lines_nonempty.
      pose proof (at_line_put (hist ++ [overlay r cur]) blank_row [] (shown b) (Hok' [] ltac:(cbn; lia)) ltac:(cbn; lia)) as P.
      change (write_byte_unchecked (at_line (hist ++ [overlay r cur]) blank_row []) (shown b)
        (row (at_line (hist ++ [overlay r cur]) blank_row [])) (column (at_line (hist ++ [overlay r cur]) blank_row [])))
        with (write_byte_unchecked (at_line (hist ++ [overlay r cur]) blank_row []) (shown b) 24 (length (@nil u8))).
      rewrite P. apply (IH (hist ++ [overlay r cur]) blank_row [shown b]), Hok'. cbn. lia.
    + cbn [obind].
      change (row (at_line hist r cur)) with 24%nat. rewrite at_line_put by done.
      replace (set_column _ _) with (at_line hist r (cur ++ [shown b])); [apply IH|].
      * split_and!; [done..|rewrite length_app; cbn; unfold BUFFER_WIDTH; lia].
      * unfold at_line, set_column. cbn [column row buffer]. by rewrite length_app.
Qed.

(** C32: Writing a string to a fresh VGA writer scrolls its lines in from the
    bottom of the 25 by 80 screen: whatever the memory held above stays, shifted
    up; the text is broken at line feeds and after eighty characters,
    unprintable bytes appear as a block, every cell written is white on black,
    and the screen shows the last twenty-five rows of all that.  In particular
    writing never panics. *)
Theorem vga_shows_text memory top r s :
  memory = top ++ [r] → length top = 24%nat → Forall (λ r, length r = BUFFER_WIDTH) memory →
  ∃ w, vga_write_str (WRITER memory) s = Ret w ∧ row w = 24%nat ∧
    buffer w = last_rows (top ++ show_lines r (wrap_lines [] s)).
Proof.
  intros -> Ht Hf. apply Forall_app in Hf as [Hf Hr]. inversion Hr as [|? ? Hr' _]; subst.
  destruct (write_str_lines top r [] s) as [col E]; [split_and!; [lia|done|done|cbn; lia]|].
  exists (mkWriter col 24 (last_rows (top ++ show_lines r (wrap_lines [] s)))). split_and!; [|done|done].
  rewrite <- E. f_equal. unfold WRITER, at_line. rewrite last_rows_snoc, Ht by lia. done.
Qed.

Lemma vga_shows_text_witness :
  ∃ w, vga_write_str (WRITER (replicate 24 blank_row ++ [blank_row])) (map byte [72; 105; 10; 7]%nat) = Ret w ∧
    row w = 24%nat ∧
    buffer w = last_rows (replicate 24 blank_row ++ show_lines blank_row [map byte [72; 105]%nat; [byte 254]]).
Proof.
  destruct (vga_shows_text (replicate 24 blank_row ++ [blank_row]) (replicate 24 blank_row) blank_row
    (map byte [72; 105; 10; 7]%nat) eq_refl eq_refl) as (w & E & R & B).
  - apply Forall_app. split; [by apply Forall_replicate|by repeat constructor].
  - exists w. split; [exact E|split; [exact R|]]. rewrite B. f_equal.
Defined.

(** ** The cursor *)

(** Stepping back from the first column selects the first cell of the row
    above, not its last one, so it does not undo stepping forward. *)
Lemma select_prev_not_inverse w :
  row w = 3%nat → column w = 79%nat →
  select_next w = Some (4, 0)%nat ∧ select_prev (mkWriter 0 4 (buffer w)) = Some (3, 0)%nat.
Proof. intros Hr Hc. unfold select_next, select_prev. rewrite Hr, Hc. done. Qed.

(** Inside a row the two are inverse. *)
Lemma select_prev_next w r c :
  select_next w = Some (r, c) → (column w < BUFFER_WIDTH - 1)%nat → (row w < BUFFER_HEIGHT)%nat →
  select_prev (mkWriter c r (buffer w)) = Some (current_pos w).
Proof.
  unfold select_next, select_prev, select, current_pos, is_valid_row, is_valid_col, BUFFER_WIDTH, BUFFER_HEIGHT.
  intros H Hc Hr. rewrite (proj2 (Nat.ltb_lt _ _) Hc) in H. cbn [column row] in *.
  case_match; [|done]. injection H as <- <-.
  rewrite (proj2 (Nat.ltb_lt 0 (column w + 1))) by lia.
  replace (column w + 1 - 1)%nat with (column w) by lia.
  rewrite (proj2 (Nat.ltb_lt _ _) Hr), (proj2 (Nat.ltb_lt (column w) 80)) by lia. done.
Qed.
