(* ===== verification/Apic.v ===== *)
(** The interrupt controllers: kernel/src/arch/x86/interrupt/pic.rs, and the
    clock derived from the timer ([current_time] of kernel/src/arch/x86/mod.rs).

    Device registers, ports and the time stamp counter are the operations of
    [Machine]; [ApicLaws] states what the controllers' manuals promise of
    them, through the configuration [conf] and the time [clock].  What the
    firmware tables and [cpuid] report are arguments. *)
From S2P Require Import Prelude FrameAlloc Paging Mmap PageDir.
Open Scope Z_scope.

(** ** Registers *)

Inductive APICOffset : Set :=
| R0x00 | R0x10 | Ir | Vr | R0x40 | R0x50 | R0x60 | R0x70
| Tpr | Apr | Ppr | Eoi | Rrd | Ldr | Dfr | Svr
| Isr1 | Isr2 | Isr3 | Isr4 | Isr5 | Isr6 | Isr7 | Isr8
| Tmr1 | Tmr2 | Tmr3 | Tmr4 | Tmr5 | Tmr6 | Tmr7 | Tmr8
| Irr1 | Irr2 | Irr3 | Irr4 | Irr5 | Irr6 | Irr7 | Irr8
| Esr | R0x290 | R0x2A0 | R0x2B0 | R0x2C0 | R0x2D0 | R0x2E0 | LvtCmci
| Icr1 | Icr2 | LvtT | LvtTsr | LvtPmcr | LvtLint0 | LvtLint1 | LvtE
| Ticr | Tccr | R0x3A0 | R0x3B0 | R0x3C0 | R0x3D0 | Tdcr | R0x3F0.

#[export] Instance APICOffset_eq_dec : EqDecision APICOffset.
Proof. solve_decision. Defined.

(** [as isize]. *)
Definition APICOffset_discr (r : APICOffset) : Z :=
  match r with
  | R0x00 => 0x0 | R0x10 => 0x10 | Ir => 0x20 | Vr => 0x30
  | R0x40 => 0x40 | R0x50 => 0x50 | R0x60 => 0x60 | R0x70 => 0x70
  | Tpr => 0x80 | Apr => 0x90 | Ppr => 0xA0 | Eoi => 0xB0
  | Rrd => 0xC0 | Ldr => 0xD0 | Dfr => 0xE0 | Svr => 0xF0
  | Isr1 => 0x100 | Isr2 => 0x110 | Isr3 => 0x120 | Isr4 => 0x130
  | Isr5 => 0x140 | Isr6 => 0x150 | Isr7 => 0x160 | Isr8 => 0x170
  | Tmr1 => 0x180 | Tmr2 => 0x190 | Tmr3 => 0x1A0 | Tmr4 => 0x1B0
  | Tmr5 => 0x1C0 | Tmr6 => 0x1D0 | Tmr7 => 0x1E0 | Tmr8 => 0x1F0
  | Irr1 => 0x200 | Irr2 => 0x210 | Irr3 => 0x220 | Irr4 => 0x230
  | Irr5 => 0x240 | Irr6 => 0x250 | Irr7 => 0x260 | Irr8 => 0x270
  | Esr => 0x280 | R0x290 => 0x290 | R0x2A0 => 0x2A0 | R0x2B0 => 0x2B0
  | R0x2C0 => 0x2C0 | R0x2D0 => 0x2D0 | R0x2E0 => 0x2E0 | LvtCmci => 0x2F0
  | Icr1 => 0x300 | Icr2 => 0x310 | LvtT => 0x320 | LvtTsr => 0x330
  | LvtPmcr => 0x340 | LvtLint0 => 0x350 | LvtLint1 => 0x360 | LvtE => 0x370
  | Ticr => 0x380 | Tccr => 0x390 | R0x3A0 => 0x3A0 | R0x3B0 => 0x3B0
  | R0x3C0 => 0x3C0 | R0x3D0 => 0x3D0 | Tdcr => 0x3E0 | R0x3F0 => 0x3F0
  end.

(** [ptr.offset(r as isize / 4)] on a pointer to [u32]. *)
Definition reg (ptr : Z) (r : APICOffset) : Z := ptr + 4 * (APICOffset_discr r / 4).

(** [InterruptIndex] of idt.rs. *)
Inductive InterruptIndex : Set := Timer | Keyboard | Syscall.
Definition InterruptIndex_discr (i : InterruptIndex) : Z :=
  match i with Timer => 0x20 | Keyboard => 0x21 | Syscall => 0x80 end.

Definition CYCLES_PER_TICK : Z := 1000000.
Definition NO_CACHE : Z := 2 ^ 4.

(** ** The machine *)

Class Machine (D : Type) := {
  read_volatile : D → Z → D * Z;
  write_volatile : D → Z → Z → D;
  port_read : D → Z → D * Z;
  port_write : D → Z → Z → D;
  rdtsc_regs : D → D * (Z * Z)      (* edx, eax after cpuid; rdtsc *)
}.

(** The machine, [LAPIC_ADDR] and [CYCLES_PER_SECOND]. *)
Record Apic (D : Type) : Type := mkApic { dev : D; LAPIC_ADDR : Z; CYCLES_PER_SECOND : Z }.
Arguments mkApic {D}. Arguments dev {D}. Arguments LAPIC_ADDR {D}. Arguments CYCLES_PER_SECOND {D}.

(** ** Mapping the registers *)

Section Mapping.
Context {prof : Profile} {P A : Type} `{VirtOps} `{PhysOps} `{PageIncl} `{Mapper P A}.
Context (phys_offset : Z).

Definition apic_flags : Z := Z.lor (Z.lor PRESENT WRITABLE) NO_CACHE.

Definition map_no_cache (physical_address : Z) (mapper : P) (frame_allocator : A)
    : Outcome (P * A * Z) :=
  let! frame := frame_containing physical_address in
  let! v := uadd prof physical_address phys_offset in
  let! va := va_new v in
  let page := va_align_down va in
  match map_to mapper page frame apic_flags frame_allocator with
  | (_, _, Err _) => Panic
  | (mapper, frame_allocator, Ok _) => Ret (mapper, frame_allocator, page)
  end.

(** The loop of [map_physical_region]; [already] tells the error
    [PageAlreadyMapped] of a failed mapping from the others. *)
Fixpoint map_physical_pages (already : P → Z → bool) (pages : list Z) (mapper : P) (frame_allocator : A)
    : Outcome (P * A) :=
  match pages with
  | [] => Ret (mapper, frame_allocator)
  | page :: pages =>
      let! a := usub prof page phys_offset in
      let! frame := frame_containing a in
      match map_to mapper page frame apic_flags frame_allocator with
      | (p, a, Ok _) => map_physical_pages already pages p a
      | (p, a, Err _) =>
          if already mapper page then map_physical_pages already pages p a else Panic
      end
  end.

(** [AcpiHandler::map_physical_region]: the virtual start of the region. *)
Definition map_physical_region (already : P → Z → bool) (physical_address size : Z)
    (mapper : P) (frame_allocator : A) : Outcome (P * A * Z) :=
  let! _ := frame_containing physical_address in
  let! v := uadd prof physical_address phys_offset in
  let! virt_start := va_new v in
  let! e := va_add virt_start size in
  let! last := va_sub e 1 in
  let! r := map_physical_pages already (page_range_inclusive virt_start last) mapper frame_allocator in
  Ret (r, virt_start).

End Mapping.

(** ** Programming the controllers *)

Section Setup.
Context {prof : Profile} {D : Type} `{Machine D}.

(** [p.write_volatile(f(p.read_volatile()))]. *)
Definition modify (d : D) (p : Z) (f : Z → Z) : D :=
  let '(d, v) := read_volatile d p in write_volatile d p (f v).

Definition init_timer (lapic_pointer : Z) (d : D) : D :=
  let d := modify d (reg lapic_pointer Svr) (λ v, Z.lor v 0x100) in
  let d := write_volatile d (reg lapic_pointer LvtT) (Z.lor 0x20 (Z.shiftl 1 16)) in
  write_volatile d (reg lapic_pointer Tdcr) 0x3.

Definition set_timer_count (ptr count : Z) (d : D) : D := write_volatile d (reg ptr Ticr) count.

Definition bit_off (n v : Z) : Z := Z.land v (2 ^ 32 - 1 - Z.shiftl 1 n).

Definition enable_periodic_timer (ptr : Z) (d : D) : D :=
  modify d (reg ptr LvtT) (λ v, Z.lor v (Z.shiftl 1 17)).
Definition enable_one_shot_mode (ptr : Z) (d : D) : D := modify d (reg ptr LvtT) (bit_off 17).

Definition on_dev (f : D → D) (s : Apic D) : Apic D :=
  mkApic (f (dev s)) (LAPIC_ADDR s) (CYCLES_PER_SECOND s).

Definition enable_timer (s : Apic D) : Apic D :=
  on_dev (λ d, modify d (reg (LAPIC_ADDR s) LvtT) (bit_off 16)) s.
Definition disable_timer (s : Apic D) : Apic D :=
  on_dev (λ d, modify d (reg (LAPIC_ADDR s) LvtT) (λ v, Z.lor v (Z.shiftl 1 16))) s.

Definition rdtsc (d : D) : D * Z :=
  let '(d, (hi, lo)) := rdtsc_regs d in (d, Z.lor (wrap64 (Z.shiftl hi 32)) lo).

(** [while tccr.read_volatile() != 0 {}], at most [fuel] reads. *)
Fixpoint wait_expired (fuel : nat) (p : Z) (d : D) : Outcome D :=
  match fuel with
  | O => NoFuel
  | S fuel =>
      let '(d, v) := read_volatile d p in
      if v =? 0 then Ret d else wait_expired fuel p d
  end.

Definition TEST_COUNT : Z := 10000000.

(** [tsc_frequency] of the time stamp leaf if there is one, else the
    [processor_max_frequency] in MHz, else a guess. *)
Definition tsz_freq (tsc_info processor_info : option Z) : Z :=
  match tsc_info with
  | Some freq => freq
  | None => match processor_info with Some base => base * 1000000 | None => 3000000000 end
  end.

Definition calibrate_apic_timer (fuel : nat) (tsc_info processor_info : option Z) (ptr : Z) (s : Apic D)
    : Outcome (Apic D) :=
  let s := on_dev (enable_one_shot_mode ptr) s in
  let s := enable_timer s in
  let '(d, tsc_start) := rdtsc (dev s) in
  let d := set_timer_count ptr TEST_COUNT d in
  let! d := wait_expired fuel (reg ptr Tccr) d in
  let '(d, tsc_end) := rdtsc d in
  let s := disable_timer (mkApic d (LAPIC_ADDR s) (CYCLES_PER_SECOND s)) in
  let! delta_tsc := usub prof tsc_end tsc_start in
  let! n := umul prof TEST_COUNT (tsz_freq tsc_info processor_info) in
  if delta_tsc =? 0 then Panic
  else Ret (mkApic (dev s) (LAPIC_ADDR s) (n / delta_tsc)).

Definition init_keyboard (lapic_pointer : Z) (d : D) : D :=
  write_volatile d (reg lapic_pointer LvtLint1) (InterruptIndex_discr Keyboard).

Definition drain_keyboard (d : D) : D := fst (port_read d 0x60).

Definition disable_pic (d : D) : D := port_write d 0xA1 0xFF.

Definition end_interrupt (s : Apic D) : Apic D :=
  on_dev (λ d, write_volatile d (reg (LAPIC_ADDR s) Eoi) 0) s.

(** [total_ticks * CYCLES_PER_TICK / CYCLES_PER_SECOND], in seconds. *)
Definition current_time (total_ticks : Z) (s : Apic D) : Outcome Z :=
  let! n := umul prof total_ticks CYCLES_PER_TICK in
  if CYCLES_PER_SECOND s =? 0 then Panic else Ret (n / CYCLES_PER_SECOND s).

End Setup.

(** [InterruptModel] as the firmware tables give it. *)
Record ApicInfo : Set := mkInfo { io_apics : list Z; local_apic_address : Z }.
Inductive InterruptModel : Set := ModelApic (apic : ApicInfo) | ModelUnknown.

Section Init.
Context {prof : Profile} {D P A : Type} `{Machine D} `{VirtOps} `{PhysOps} `{PageIncl} `{Mapper P A}.
Context (phys_offset : Z).

Definition init_io_apic (io_apic_addr : Z) (mapper : P) (frame_allocator : A) (s : Apic D)
    : Outcome (P * A * Apic D) :=
  let! r := map_no_cache (prof := prof) phys_offset io_apic_addr mapper frame_allocator in
  let '(mapper, frame_allocator, ioapic_pointer) := r in
  let d := write_volatile (dev s) ioapic_pointer 0x12 in
  let d := write_volatile d (ioapic_pointer + 4 * 4) (InterruptIndex_discr Keyboard) in
  Ret (mapper, frame_allocator, mkApic d (LAPIC_ADDR s) (CYCLES_PER_SECOND s)).

Definition init_local_apic (fuel : nat) (tsc_info processor_info : option Z) (local_apic_addr : Z)
    (mapper : P) (frame_allocator : A) (s : Apic D) : Outcome (P * A * Apic D) :=
  let! r := map_no_cache (prof := prof) phys_offset local_apic_addr mapper frame_allocator in
  let '(mapper, frame_allocator, lapic_pointer) := r in
  let s := mkApic (dev s) lapic_pointer (CYCLES_PER_SECOND s) in
  let s := on_dev (init_timer lapic_pointer) s in
  let! s := calibrate_apic_timer (prof := prof) fuel tsc_info processor_info lapic_pointer s in
  let s := on_dev (enable_periodic_timer lapic_pointer) s in
  let s := on_dev (set_timer_count lapic_pointer CYCLES_PER_TICK) s in
  let s := on_dev (init_keyboard lapic_pointer) s in
  Ret (mapper, frame_allocator, on_dev drain_keyboard s).

(** [init_apic] after the firmware tables are parsed. *)
Definition init_apic (fuel : nat) (tsc_info processor_info : option Z) (interrupt_model : InterruptModel)
    (mapper : P) (frame_allocator : A) (s : Apic D) : Outcome (P * A * Apic D) :=
  match interrupt_model with
  | ModelUnknown => Panic
  | ModelApic apic =>
      match io_apics apic with
      | [] => Panic
      | io_apic_addr :: _ =>
          let! r := init_io_apic io_apic_addr mapper frame_allocator s in
          let '(mapper, frame_allocator, s) := r in
          let! r := init_local_apic fuel tsc_info processor_info (local_apic_address apic) mapper frame_allocator s in
          let '(mapper, frame_allocator, s) := r in
          Ret (mapper, frame_allocator, on_dev disable_pic s)
      end
  end.

End Init.

(** ** What the controllers promise *)

(** The registers that keep what is written to them; the I/O controller has
    an index register and a window onto the selected register. *)
Record Conf : Type := mkConf {
  svr : Z; lvt_timer : Z; lint1 : Z; tdcr : Z; ticr : Z;
  io_select : Z; io_regs : gmap Z Z
}.

Definition conf_get (c : Conf) (r : APICOffset) : option Z :=
  match r with
  | Svr => Some (svr c) | LvtT => Some (lvt_timer c) | LvtLint1 => Some (lint1 c)
  | Tdcr => Some (tdcr c) | Ticr => Some (ticr c) | _ => None
  end.

Definition conf_set (c : Conf) (r : APICOffset) (v : Z) : option Conf :=
  match r with
  | Svr => Some (mkConf v (lvt_timer c) (lint1 c) (tdcr c) (ticr c) (io_select c) (io_regs c))
  | LvtT => Some (mkConf (svr c) v (lint1 c) (tdcr c) (ticr c) (io_select c) (io_regs c))
  | LvtLint1 => Some (mkConf (svr c) (lvt_timer c) v (tdcr c) (ticr c) (io_select c) (io_regs c))
  | Tdcr => Some (mkConf (svr c) (lvt_timer c) (lint1 c) v (ticr c) (io_select c) (io_regs c))
  | Ticr => Some (mkConf (svr c) (lvt_timer c) (lint1 c) (tdcr c) v (io_select c) (io_regs c))
  | _ => None
  end.

(** The bits a register implements. *)
Definition implemented (r : APICOffset) : Z :=
  match r with
  | Svr => 0x1FF | LvtT => 0x700FF | LvtLint1 => 0x1A7FF | Tdcr => 0xB | Ticr => 0xFFFFFFFF | _ => 0
  end.

(** A disabled local controller keeps its interrupts masked: disabling it
    sets the mask bits, and they cannot be cleared before it is enabled. *)
Definition enabled (c : Conf) : bool := Z.testbit (svr c) 8.
Definition settable (c : Conf) (r : APICOffset) (v : Z) : bool :=
  match r with
  | Svr => Z.testbit v 8
  | LvtT | LvtLint1 => enabled c || Z.testbit v 16
  | _ => true
  end.

(** Reading the current count until it is zero. *)
Inductive polled {D} `{Machine D} (p : Z) : D → D → Prop :=
| polled_zero d d' : read_volatile d p = (d', 0) → polled p d d'
| polled_more d d1 v d' : read_volatile d p = (d1, v) → v ≠ 0 → polled p d1 d' → polled p d d'.

(** A local controller at [lb] and an I/O controller at [ib].  Every access
    takes at most [step] cycles; a timer started in one-shot mode with the
    count [n] reads zero between [span_lo n] and [span_hi n] cycles later. *)
Class ApicLaws (D : Type) `{Machine D} (lb ib : Z) := {
  conf : D → Conf;
  clock : D → Z;
  step : Z;
  span_lo : Z → Z;
  span_hi : Z → Z;
  clock_nonneg : ∀ d, 0 <= clock d;
  span_positive : ∀ n, 0 < n → 0 < span_lo n <= span_hi n;
  read_conf : ∀ d r v, conf_get (conf d) r = Some v → ∃ d',
    read_volatile d (lb + APICOffset_discr r) = (d', v) ∧ conf d' = conf d ∧
    clock d <= clock d' <= clock d + step;
  write_conf : ∀ d r v c, conf_set (conf d) r v = Some c → Z.land v (implemented r) = v →
    settable (conf d) r v = true →
    let d' := write_volatile d (lb + APICOffset_discr r) v in
    conf d' = c ∧ clock d <= clock d' <= clock d + step;
  write_select : ∀ d v, let d' := write_volatile d ib v in
    conf d' = mkConf (svr (conf d)) (lvt_timer (conf d)) (lint1 (conf d)) (tdcr (conf d)) (ticr (conf d)) v
                (io_regs (conf d)) ∧ clock d <= clock d' <= clock d + step;
  write_window : ∀ d v, let d' := write_volatile d (ib + 16) v in
    conf d' = mkConf (svr (conf d)) (lvt_timer (conf d)) (lint1 (conf d)) (tdcr (conf d)) (ticr (conf d))
                (io_select (conf d)) (<[io_select (conf d) := v]> (io_regs (conf d))) ∧
    clock d <= clock d' <= clock d + step;
  one_shot_expires : ∀ d n c, 0 < n < 2 ^ 32 → enabled (conf d) = true → Z.testbit (lvt_timer (conf d)) 17 = false →
    conf_set (conf d) Ticr n = Some c →
    let d0 := write_volatile d (lb + APICOffset_discr Ticr) n in
    ∃ d', polled (lb + APICOffset_discr Tccr) d0 d' ∧ conf d' = c ∧
      clock d + span_lo n <= clock d' <= clock d + span_hi n;
  rdtsc_clock : ∀ d, ∃ d' hi lo, rdtsc_regs d = (d', (hi, lo)) ∧ 0 <= hi < 2 ^ 32 ∧ 0 <= lo < 2 ^ 32 ∧
    hi * 2 ^ 32 + lo = clock d' mod 2 ^ 64 ∧ conf d' = conf d ∧ clock d <= clock d' <= clock d + step;
  port_read_conf : ∀ d p, conf (fst (port_read d p)) = conf d;
  port_write_conf : ∀ d p v, conf (port_write d p v) = conf d
}.

Lemma reg_offset ptr r : reg ptr r = ptr + APICOffset_discr r.
Proof. unfold reg. f_equal. by destruct r. Qed.

Lemma lor_shiftl_add hi lo n : 0 <= n → 0 <= lo < 2 ^ n → Z.lor (Z.shiftl hi n) lo = hi * 2 ^ n + lo.
Proof.
  intros Hn Hl. rewrite <- Z.shiftl_mul_pow2 by done. pose proof (Z.add_lor_land (Z.shiftl hi n) lo).
  assert (E : Z.land (Z.shiftl hi n) lo = 0); [|lia]. apply Z.bits_inj'. intros i Hi.
  rewrite Z.land_spec, Z.bits_0, Z.shiftl_spec by done. destruct (Z.ltb_spec i n).
  - by rewrite Z.testbit_neg_r by lia.
  - rewrite <- (Z.mod_small lo (2 ^ n)), Z.mod_pow2_bits_high by lia. apply andb_false_r.
Qed.

Section Calibration.
Context {prof : Profile} {D : Type} {lb ib : Z} `{L : ApicLaws D lb ib}.

(** From [d] to [d'] in at most [n] accesses, with the registers [c]. *)
Definition after (n : Z) (d : D) (c : Conf) (d' : D) : Prop :=
  conf d' = c ∧ clock d <= clock d' <= clock d + n * step.

Lemma after_trans n m k d c d1 c1 d2 : k = n + m → after n d c d1 → after m d1 c1 d2 → after k d c1 d2.
Proof. intros -> [_ H1] [Hc H2]. split; [done|lia]. Qed.

Lemma write_after d r v c :
  conf_set (conf d) r v = Some c → Z.land v (implemented r) = v → settable (conf d) r v = true →
  after 1 d c (write_volatile d (reg lb r) v).
Proof. intros Hc Hi Hn. rewrite reg_offset. destruct (write_conf d r v c Hc Hi Hn) as [? ?]. split; [done|lia]. Qed.

Lemma modify_after d r v f c :
  conf_get (conf d) r = Some v → conf_set (conf d) r (f v) = Some c →
  Z.land (f v) (implemented r) = f v → settable (conf d) r (f v) = true → after 2 d c (modify d (reg lb r) f).
Proof.
  intros Hg Hs Hi Hn. unfold modify. rewrite reg_offset.
  destruct (read_conf d r v Hg) as (d' & -> & Hc & Ht). rewrite <- Hc in Hs, Hn. rewrite <- reg_offset.
  destruct (write_after d' r (f v) c Hs Hi Hn) as [? ?]. split; [done|lia].
Qed.

Lemma rdtsc_after d : clock d + step < 2 ^ 64 →
  ∃ d', rdtsc d = (d', clock d') ∧ after 1 d (conf d) d'.
Proof.
  intros Hb. destruct (rdtsc_clock d) as (d' & hi & lo & E & Hh & Hl & Hv & Hc & Ht).
  exists d'. unfold rdtsc. rewrite E. split; [|split; [done|lia]]. f_equal.
  pose proof (clock_nonneg d). rewrite (Z.mod_small (clock d')) in Hv by lia. rewrite <- Hv.
  unfold wrap64, wrap. rewrite (Z.mod_small (Z.shiftl hi 32)) by (rewrite Z.shiftl_mul_pow2 by lia; lia).
  by apply lor_shiftl_add.
Qed.

Lemma polled_fuel p d d' : polled p d d' →
  ∃ n, ∀ fuel, (n <= fuel)%nat → wait_expired fuel p d = Ret d'.
Proof.
  induction 1 as [d d' E|d d1 v d' E Hv _ [n IH]].
  - exists 1%nat. intros [|fuel] Hf; [lia|]. cbn [wait_expired]. by rewrite E.
  - exists (S n). intros [|fuel] Hf; [lia|]. cbn [wait_expired]. rewrite E.
    rewrite (proj2 (Z.eqb_neq _ _) Hv). apply IH. lia.
Qed.

End Calibration.

(** The next register access from a state with known registers. *)
Ltac next H tac := eapply after_trans; [|exact H|eapply tac; rewrite ?(proj1 H); reflexivity]; reflexivity.

Section Calibrate.
Context {prof : Profile} {D : Type} {lb ib : Z} `{L : ApicLaws D lb ib}.

(** Calibration ends, leaves the timer masked in one-shot mode, and stores the
    frequency of the timer measured against the time stamp counter. *)
Lemma calibrate_spec tsc_info processor_info s b t i sel rg :
  LAPIC_ADDR s = lb → conf (dev s) = mkConf 0x1FF 0x10020 b t i sel rg →
  clock (dev s) + 8 * step + span_hi TEST_COUNT < 2 ^ 64 →
  in_usize (TEST_COUNT * tsz_freq tsc_info processor_info) →
  ∃ n s' delta, (∀ fuel, (n <= fuel)%nat →
      calibrate_apic_timer (prof := prof) fuel tsc_info processor_info lb s = Ret s') ∧
    LAPIC_ADDR s' = lb ∧ conf (dev s') = mkConf 0x1FF 0x10020 b t TEST_COUNT sel rg ∧
    span_lo TEST_COUNT <= delta <= span_hi TEST_COUNT + step ∧
    CYCLES_PER_SECOND s' = TEST_COUNT * tsz_freq tsc_info processor_info / delta.
Proof.
  intros Ha Hc Hb Hf. destruct s as [d la cyc]. cbn [dev LAPIC_ADDR] in *. subst la.
  assert (Hs : 0 <= step) by (destruct (read_conf d Svr _ eq_refl) as (? & _ & _ & ?); lia).
  pose proof (span_positive TEST_COUNT ltac:(done)) as Hpos.
  set (d1 := enable_one_shot_mode lb d).
  assert (H1 : after 2 d (mkConf 0x1FF 0x10020 b t i sel rg) d1)
    by (eapply modify_after; rewrite ?Hc; reflexivity).
  set (d2 := modify d1 (reg lb LvtT) (bit_off 16)).
  assert (H2 : after 4 d (mkConf 0x1FF 0x20 b t i sel rg) d2) by next H1 modify_after.
  destruct (rdtsc_after d2) as (d3 & E3 & H3); [destruct H2; lia|].
  rewrite (proj1 H2) in H3. pose proof (after_trans 4 1 5 _ _ _ _ _ eq_refl H2 H3) as H3'.
  destruct (one_shot_expires d3 TEST_COUNT (mkConf 0x1FF 0x20 b t TEST_COUNT sel rg)) as (d4 & P4 & C4 & T4);
    [by unfold TEST_COUNT|by rewrite (proj1 H3)..|].
  rewrite <- !reg_offset in P4. destruct (polled_fuel _ _ _ P4) as [n Hn].
  destruct (rdtsc_after d4) as (d5 & E5 & H5); [destruct H3' as [_ ?]; lia|]. rewrite C4 in H5.
  set (d6 := modify d5 (reg lb LvtT) (λ v, Z.lor v (Z.shiftl 1 16))).
  assert (H6 : after 3 d4 (mkConf 0x1FF 0x10020 b t TEST_COUNT sel rg) d6) by next H5 modify_after.
  destruct H3' as [_ T3], H5 as [_ T5]. pose proof (clock_nonneg d).
  exists n, (mkApic d6 lb (TEST_COUNT * tsz_freq tsc_info processor_info / (clock d5 - clock d3))), (clock d5 - clock d3).
  split_and!; [|done|apply H6|lia|lia|done].
  intros fuel Hfuel. unfold calibrate_apic_timer, enable_timer, on_dev. cbn [dev LAPIC_ADDR CYCLES_PER_SECOND].
  fold d1 d2. rewrite E3. unfold set_timer_count. rewrite Hn by done. cbn [obind]. rewrite E5.
  unfold usub, umul. rewrite !uarith_in_range by (done || (unfold in_usize, USIZE_MAX in *; lia)). cbn [obind].
  by rewrite (proj2 (Z.eqb_neq _ _)) by lia.
Qed.
End Calibrate.

(** ** Mapping the registers *)

Section MappingLemmas.
Context {prof : Profile} {P A : Type} `{VirtLaws} `{PhysLaws} `{PageInclLaws} `{SupplyLaws P A}.
Context (phys_offset : Z).

(** A page whose direct-mapping address is free. *)
Definition free_page (p : P) (phys : Z) : Prop :=
  aligned phys ∧ 0 <= phys < 2 ^ 52 ∧ canonical (phys + phys_offset) ∧
  mappable p (phys + phys_offset) ∧ view p !! (phys + phys_offset) = None.

Lemma map_no_cache_spec phys (p : P) (a : A) :
  aligned phys_offset → 0 <= phys_offset → free_page p phys → alloc_wf a → 3 <= room a →
  ∃ p' a', map_no_cache (prof := prof) phys_offset phys p a = Ret (p', a', phys + phys_offset) ∧
    view p' = <[phys + phys_offset := phys]> (view p) ∧ room a - 3 <= room a' ∧ alloc_wf a' ∧
    ∀ q, mappable p q → mappable p' q.
Proof.
  intros Ho Hpos (Ha & Hr & Hc & Hm & Hv) Hwf Hroom.
  destruct (map_room p (phys + phys_offset) phys apic_flags a Hwf Hm Hv Hroom) as (p' & a' & E & Hr' & Hwf' & _).
  exists p', a'. unfold map_no_cache. rewrite frame_containing_aligned by done. cbn [obind].
  unfold uadd. rewrite uarith_in_range by (unfold in_usize, canonical, USIZE_MAX in *; lia). cbn [obind].
  rewrite va_new_canonical by done. cbn [obind]. rewrite va_align_down_spec by done.
  assert (E0 : (phys + phys_offset) mod PAGE = 0).
  { unfold aligned in *. rewrite Z.add_mod, Ha, Ho by done. done. }
  rewrite E0, Z.sub_0_r, E. split; [done|].
  pose proof (map_to_view p (phys + phys_offset) phys apic_flags a Hv) as V. rewrite E in V.
  pose proof (λ q, map_mappable p (phys + phys_offset) phys apic_flags a q) as M. rewrite E in M.
  done.
Qed.

(** An unaligned address is lost: the pointer handed back is that of the page. *)
Lemma map_no_cache_drops_offset phys (p p' : P) (a a' : A) ptr :
  map_no_cache (prof := prof) phys_offset phys p a = Ret (p', a', ptr) →
  in_usize (phys + phys_offset) → canonical (phys + phys_offset) →
  ptr = phys + phys_offset - (phys + phys_offset) mod PAGE.
Proof.
  unfold map_no_cache. intros E Hu Hc. destruct (frame_containing phys); [|done..]. cbn [obind] in E.
  unfold uadd in E. rewrite uarith_in_range in E by done. cbn [obind] in E.
  rewrite va_new_canonical in E by done. cbn [obind] in E.
  destruct (map_to _ _ _ _ _) as [[? ?] [?|?]]; [|done]. injection E as _ _ <-. by apply va_align_down_spec.
Qed.

(** Mapping a mapped page is refused and changes no mapping. *)
Hypothesis remap_refused : ∀ (p : P) pg f fl (a : A) v, view p !! pg = Some v →
  ∃ p', map_to p pg f fl a = (p', a, Err tt) ∧ view p' = view p.
Context (already : P → Z → bool).
Hypothesis already_view : ∀ p pg v, view p !! pg = Some v → already p pg = true.

Lemma map_physical_pages_spec pages (p : P) (a : A) :
  Forall (λ pg, in_usize (pg - phys_offset) ∧ aligned (pg - phys_offset) ∧ pg - phys_offset < 2 ^ 52) pages →
  (∀ pg, pg ∈ pages → mappable p pg) → alloc_wf a → 3 * zlen pages <= room a →
  ∃ p' a', map_physical_pages (prof := prof) phys_offset already pages p a = Ret (p', a') ∧
    ∀ pg, view p' !! pg =
      if decide (pg ∈ pages) then Some (default (pg - phys_offset) (view p !! pg)) else view p !! pg.
Proof.
  intros Hf. revert p a. induction Hf as [|page pages (Hu & Ha & Hb) Hf IH]; intros p a Hm Hwf Hr.
  { exists p, a. split; [done|]. intros pg. by rewrite decide_False by apply not_elem_of_nil. }
  assert (Hl : zlen (page :: pages) = 1 + zlen pages) by (unfold zlen; cbn [length]; lia).
  cbn [map_physical_pages]. unfold usub. rewrite uarith_in_range by done. cbn [obind].
  rewrite frame_containing_aligned by (unfold in_usize in Hu; done || lia). cbn [obind].
  pose proof (λ q, map_mappable p page (page - phys_offset) apic_flags a q) as Mm.
  destruct (view p !! page) as [v|] eqn:Hv.
  - destruct (remap_refused p page (page - phys_offset) apic_flags a v Hv) as (p1 & E & V). rewrite E in *.
    rewrite (already_view _ _ _ Hv).
    destruct (IH p1 a) as (p' & a' & E' & V'); [intros; apply Mm, Hm; by right|done|lia|].
    exists p', a'. split; [done|]. intros pg. rewrite V', V.
    destruct (decide (pg = page)) as [->|Hne].
    + rewrite (decide_True (P := page ∈ page :: pages)) by left. rewrite Hv. by case_decide.
    + destruct (decide (pg ∈ pages)); [rewrite decide_True by by right|rewrite decide_False by (rewrite elem_of_cons; tauto)]; done.
  - destruct (map_room p page (page - phys_offset) apic_flags a) as (p1 & a1 & E & R & W & _); [done|apply Hm; left|done|unfold zlen in *; lia|].
    pose proof (map_to_view p page (page - phys_offset) apic_flags a Hv) as V. rewrite E in *. cbn [is_ok] in V.
    destruct (IH p1 a1) as (p' & a' & E' & V'); [intros; apply Mm, Hm; by right|done|lia|].
    exists p', a'. split; [done|]. intros pg. rewrite V', V.
    destruct (decide (pg = page)) as [->|Hne].
    + rewrite (decide_True (P := page ∈ page :: pages)) by left. rewrite lookup_insert_eq, Hv. by case_decide.
    + rewrite lookup_insert_ne by done.
      destruct (decide (pg ∈ pages)); [rewrite decide_True by by right|rewrite decide_False by (rewrite elem_of_cons; tauto)]; done.
Qed.

(** Every page of a firmware table is mapped afterwards, to its own frame
    unless it was mapped before, and no other page changes. *)
Lemma map_physical_region_spec start n k (p : P) (a : A) :
  let virt := start + phys_offset in
  let pages := pages_from virt (S n) in
  aligned start → aligned phys_offset → 0 <= start → 0 <= phys_offset → 0 < k <= PAGE →
  start + PAGE * Z.of_nat (S n) <= 2 ^ 52 →
  canonical virt → canonical (virt + PAGE * Z.of_nat n + k) → (virt < 2 ^ 47 ↔ virt + PAGE * Z.of_nat n + k < 2 ^ 47) →
  (∀ pg, pg ∈ pages → mappable p pg) → alloc_wf a → 3 * Z.of_nat (S n) <= room a →
  ∃ p' a', map_physical_region (prof := prof) phys_offset already start (PAGE * Z.of_nat n + k) p a = Ret (p', a', virt) ∧
    ∀ pg, view p' !! pg =
      if decide (pg ∈ pages) then Some (default (pg - phys_offset) (view p !! pg)) else view p !! pg.
Proof.
  intros virt pages Ha Ho Hs Hp Hk Hb Hc Hc' Hhalf Hm Hwf Hr.
  assert (Hv : aligned virt) by (unfold aligned, virt in *; rewrite Z.add_mod, Ha, Ho by done; done).
  assert (Hc1 : canonical (virt + PAGE * Z.of_nat n + k - 1)) by (unfold canonical, PAGE in *; lia).
  destruct (map_physical_pages_spec pages p a) as (p' & a' & E & V).
  - apply Forall_forall. intros pg (j & Hj & ->)%elem_of_pages_from. unfold virt, aligned, in_usize, USIZE_MAX in *.
    replace (start + phys_offset + PAGE * Z.of_nat j - phys_offset) with (start + PAGE * Z.of_nat j) by lia.
    rewrite Z.mul_comm, Z_mod_plus_full, Z.mul_comm. unfold PAGE in *. split_and!; [lia|lia|done|lia].
  - done.
  - done.
  - unfold zlen, pages, pages_from. rewrite length_fmap, length_seq. done.
  - exists p', a'. split; [|done]. unfold map_physical_region.
    assert (frame_containing start = Ret start) as -> by (apply frame_containing_aligned; [unfold PAGE in *; lia|done]).
    cbn [obind]. unfold uadd. rewrite uarith_in_range by (unfold in_usize, canonical, USIZE_MAX in *; lia).
    cbn [obind]. fold virt. rewrite va_new_canonical by done. cbn [obind].
    rewrite va_add_canonical by (unfold PAGE in *; rewrite ?Z.add_assoc; done || lia). cbn [obind].
    rewrite Z.add_assoc, va_sub_canonical by first [done|unfold canonical, PAGE in *; lia]. cbn [obind].
    replace (virt + PAGE * Z.of_nat n + k - 1) with (virt + PAGE * Z.of_nat n + (k - 1)) by lia.
    rewrite range_inclusive_spec by (done || lia). fold pages. by rewrite E.
Qed.
End MappingLemmas.

(** ** Boot *)

Section Boot.
Context {prof : Profile} {D P A : Type} `{VirtLaws} `{PhysLaws} `{PageInclLaws} `{SupplyLaws P A}.
Context (phys_offset l i : Z) `{L : ApicLaws D (l + phys_offset) (i + phys_offset)}.

Definition booted (lvt : Z) (c : Conf) : Conf :=
  mkConf 0x1FF lvt 0x21 0x3 CYCLES_PER_TICK 0x12 (<[0x12 := 0x21]> (io_regs c)).

Lemma init_io_apic_spec (p : P) (a : A) (s : Apic D) :
  aligned phys_offset → 0 <= phys_offset → free_page phys_offset p i → alloc_wf a → 3 <= room a →
  ∃ p' a' s', init_io_apic (prof := prof) phys_offset i p a s = Ret (p', a', s') ∧
    view p' = <[i + phys_offset := i]> (view p) ∧ room a - 3 <= room a' ∧ alloc_wf a' ∧
    (∀ q, mappable p q → mappable p' q) ∧
    after 2 (dev s) (let c := conf (dev s) in
      mkConf (svr c) (lvt_timer c) (lint1 c) (tdcr c) (ticr c) 0x12 (<[0x12 := 0x21]> (io_regs c))) (dev s').
Proof.
  intros Ho Hp Hf Hw Hr.
  destruct (map_no_cache_spec (prof := prof) phys_offset i p a Ho Hp Hf Hw Hr) as (p' & a' & E & V & R & W & M).
  unfold init_io_apic. rewrite E. cbn [obind]. eexists _, _, _. split; [done|]. do 4 (split; [done|]).
  - cbn [dev]. change (4 * 4) with 16. change (InterruptIndex_discr Keyboard) with 0x21.
    destruct (write_select (dev s) 0x12) as [C1 T1].
    destruct (write_window (write_volatile (dev s) (i + phys_offset) 0x12) 0x21) as [C2 T2].
    split; [rewrite C2, C1; done|lia].
Qed.

Lemma init_local_apic_spec tsc_info processor_info (p : P) (a : A) (s : Apic D) b t n0 m sel rg :
  aligned phys_offset → 0 <= phys_offset → free_page phys_offset p l → alloc_wf a → 3 <= room a →
  conf (dev s) = mkConf 0xFF b t n0 m sel rg →
  clock (dev s) + 12 * step + span_hi TEST_COUNT < 2 ^ 64 →
  in_usize (TEST_COUNT * tsz_freq tsc_info processor_info) →
  ∃ n p' a' s' delta,
    (∀ fuel, (n <= fuel)%nat →
      init_local_apic (prof := prof) phys_offset fuel tsc_info processor_info l p a s = Ret (p', a', s')) ∧
    view p' = <[l + phys_offset := l]> (view p) ∧ LAPIC_ADDR s' = l + phys_offset ∧
    conf (dev s') = mkConf 0x1FF 0x30020 0x21 0x3 CYCLES_PER_TICK sel rg ∧
    span_lo TEST_COUNT <= delta <= span_hi TEST_COUNT + step ∧
    CYCLES_PER_SECOND s' = TEST_COUNT * tsz_freq tsc_info processor_info / delta.
Proof.
  intros Ho Hp Hf Hw Hr Hc Hb Hu.
  destruct (map_no_cache_spec (prof := prof) phys_offset l p a Ho Hp Hf Hw Hr) as (p' & a' & E & V & _).
  set (lb := l + phys_offset) in *. set (d := dev s) in *.
  set (d1 := modify d (reg lb Svr) (λ v, Z.lor v 0x100)).
  assert (S1 : after 2 d (mkConf 0x1FF b t n0 m sel rg) d1) by (eapply modify_after; rewrite ?Hc; reflexivity).
  set (d2 := write_volatile d1 (reg lb LvtT) (Z.lor 0x20 (Z.shiftl 1 16))).
  assert (S2 : after 3 d (mkConf 0x1FF 0x10020 t n0 m sel rg) d2) by next S1 write_after.
  set (d3 := write_volatile d2 (reg lb Tdcr) 0x3).
  assert (S3 : after 4 d (mkConf 0x1FF 0x10020 t 0x3 m sel rg) d3) by next S2 write_after.
  destruct (calibrate_spec (prof := prof) tsc_info processor_info (mkApic d3 lb (CYCLES_PER_SECOND s)) t 0x3 m sel rg)
    as (n & s4 & delta & E4 & A4 & C4 & T4 & F4); [done|apply S3|destruct S3; cbn [dev]; lia|done|].
  set (d4 := dev s4) in *. set (d5 := enable_periodic_timer lb d4).
  assert (S5 : after 2 d4 (mkConf 0x1FF 0x30020 t 0x3 TEST_COUNT sel rg) d5) by (eapply modify_after; rewrite ?C4; reflexivity).
  set (d6 := set_timer_count lb CYCLES_PER_TICK d5).
  assert (S6 : after 3 d4 (mkConf 0x1FF 0x30020 t 0x3 CYCLES_PER_TICK sel rg) d6) by next S5 write_after.
  set (d7 := init_keyboard lb d6).
  assert (S7 : after 4 d4 (mkConf 0x1FF 0x30020 0x21 0x3 CYCLES_PER_TICK sel rg) d7) by next S6 write_after.
  exists n, p', a', (mkApic (drain_keyboard d7) lb (CYCLES_PER_SECOND s4)), delta. split_and!; [|done|done| |lia|lia|done].
  - intros fuel Hfuel. unfold init_local_apic. rewrite E. cbn [obind].
    unfold on_dev at 5. cbn [dev LAPIC_ADDR CYCLES_PER_SECOND].
    change (init_timer lb (dev s)) with d3. rewrite E4 by done. cbn [obind]. unfold on_dev. cbn [dev LAPIC_ADDR CYCLES_PER_SECOND].
    by rewrite A4.
  - cbn [dev]. unfold drain_keyboard. rewrite port_read_conf. apply S7.
Qed.

(** C34: Boot programs the interrupt controllers as the rest of the kernel needs
    them.  With the controllers' pages free in the direct mapping, [init_apic]
    ends (the calibration loop reads zero after finitely many polls), maps
    both pages to their frames and nothing else, enables the local controller,
    routes the keyboard line to the keyboard vector, and leaves the timer
    periodic, on the timer vector, one tick per [CYCLES_PER_TICK], and masked;
    [enable_timer] unmasks it and changes nothing else.  The stored timer
    frequency is the measured one: the count divided by the cycles the timer
    took, up to one register access, in units of the processor's frequency. *)
Theorem init_apic_spec tsc_info processor_info rest (p : P) (a : A) (s : Apic D) :
  aligned phys_offset → 0 <= phys_offset → l ≠ i →
  free_page phys_offset p l → free_page phys_offset p i → alloc_wf a → 6 <= room a →
  svr (conf (dev s)) = 0xFF → clock (dev s) + 16 * step + span_hi TEST_COUNT < 2 ^ 64 →
  in_usize (TEST_COUNT * tsz_freq tsc_info processor_info) →
  ∃ n p' a' s' delta,
    (∀ fuel, (n <= fuel)%nat →
      init_apic (prof := prof) phys_offset fuel tsc_info processor_info (ModelApic (mkInfo (i :: rest) l)) p a s
        = Ret (p', a', s')) ∧
    view p' = <[l + phys_offset := l]> (<[i + phys_offset := i]> (view p)) ∧
    LAPIC_ADDR s' = l + phys_offset ∧
    conf (dev s') = booted 0x30020 (conf (dev s)) ∧
    conf (dev (enable_timer s')) = booted 0x20020 (conf (dev s)) ∧
    span_lo TEST_COUNT <= delta <= span_hi TEST_COUNT + step ∧
    CYCLES_PER_SECOND s' = TEST_COUNT * tsz_freq tsc_info processor_info / delta.
Proof.
  intros Ho Hp Hne Hl Hi Hw Hr Hs Hb Hu.
  destruct (init_io_apic_spec p a s Ho Hp Hi Hw ltac:(lia)) as (p1 & a1 & s1 & E1 & V1 & R1 & W1 & M1 & C1 & T1).
  assert (Hl1 : free_page phys_offset p1 l).
  { destruct Hl as (? & ? & ? & ? & Hv). split_and!; [done|lia|lia|done|by apply M1|].
    rewrite V1, lookup_insert_ne by lia. done. }
  assert (Hstep : 0 <= step) by (destruct (read_conf (dev s) Svr _ eq_refl) as (? & _ & _ & ?); lia).
  cbn zeta in C1. rewrite Hs in C1.
  edestruct (init_local_apic_spec tsc_info processor_info p1 a1 s1) as (n & p2 & a2 & s2 & delta & E2 & V2 & A2 & C2 & T2 & F2);
    [done|done|done|done|lia|exact C1|lia|done|].
  exists n, p2, a2, (on_dev disable_pic s2), delta.
  assert (C3 : conf (dev (on_dev disable_pic s2)) = booted 0x30020 (conf (dev s))).
  { cbn [on_dev dev]. unfold disable_pic. by rewrite port_write_conf, C2. }
  split_and!; [| |done|done| |lia|lia|done].
  - intros fuel Hfuel. unfold init_apic. cbn [io_apics local_apic_address]. rewrite E1. cbn [obind].
    by rewrite E2 by done.
  - by rewrite V2, V1.
  - unfold enable_timer. cbn [on_dev dev LAPIC_ADDR]. rewrite A2.
    pose proof (modify_after (disable_pic (dev s2)) LvtT 0x30020 (bit_off 16) (booted 0x20020 (conf (dev s)))) as X.
    cbn [on_dev dev] in C3. rewrite C3 in X. by apply X.
Qed.

End Boot.

(** ** The clock *)

(** The time the kernel reports is the number of whole seconds that the
    ticks counted so far take at the calibrated frequency; before calibration
    reading it panics, and it never runs backwards. *)
Lemma current_time_spec {prof : Profile} {D} `{Machine D} ticks (s : Apic D) :
  in_usize (ticks * CYCLES_PER_TICK) → 0 <= CYCLES_PER_SECOND s →
  (CYCLES_PER_SECOND s = 0 → current_time (prof := prof) ticks s = Panic) ∧
  (0 < CYCLES_PER_SECOND s → ∃ t, current_time (prof := prof) ticks s = Ret t ∧
     t * CYCLES_PER_SECOND s <= ticks * CYCLES_PER_TICK < (t + 1) * CYCLES_PER_SECOND s ∧
     ∀ ticks' t', 0 <= ticks' <= ticks → current_time (prof := prof) ticks' s = Ret t' → t' <= t).
Proof.
  intros Hu Hc. unfold current_time, umul. rewrite uarith_in_range by done. cbn [obind]. split.
  - intros ->. done.
  - intros Hpos. rewrite (proj2 (Z.eqb_neq _ _)) by lia. eexists. split; [done|]. split.
    + pose proof (Z.div_mod (ticks * CYCLES_PER_TICK) (CYCLES_PER_SECOND s) ltac:(lia)).
      pose proof (Z.mod_pos_bound (ticks * CYCLES_PER_TICK) (CYCLES_PER_SECOND s) Hpos). lia.
    + intros ticks' t' Ht. rewrite uarith_in_range by (unfold in_usize, CYCLES_PER_TICK in *; lia). cbn [obind].
      intros [= <-]. apply Z.div_le_mono; [lia|]. unfold CYCLES_PER_TICK. lia.
Qed.

(** A wait of a second can end after any shorter time: the clock only shows
    whole seconds.  Ten ticks are a second here; a wait that starts at the
    ninth tick ends with the tenth. *)
Lemma second_ends_early {prof : Profile} {D} `{Machine D} (d : D) :
  let s := mkApic d 0 (10 * CYCLES_PER_TICK) in
  current_time (prof := prof) 9 s = Ret 0 ∧ current_time (prof := prof) 10 s = Ret (0 + 1).
Proof. split; unfold current_time, umul; rewrite uarith_in_range; done. Qed.

(** ** A machine for the witnesses: the timer reads zero at the second poll. *)

Definition LB : Z := 0xFEE00000 + LOW_HHDM.
Definition IB : Z := 0xFEC00000 + LOW_HHDM.

Record Toy : Type := mkToy { toy_conf : Conf; toy_clock : N; toy_left : bool }.

Definition all_regs : list APICOffset := [Svr; LvtT; LvtLint1; Tdcr; Ticr].
Definition reg_at (p : Z) : option APICOffset :=
  find (λ r, p =? LB + APICOffset_discr r) all_regs.

#[export] Instance Toy_Machine : Machine Toy := {
  read_volatile d p :=
    (mkToy (toy_conf d) (N.succ (toy_clock d)) (if p =? LB + 0x390 then false else toy_left d),
     if p =? LB + 0x390 then (if toy_left d then 7 else 0)
     else default 0 (r ← reg_at p; conf_get (toy_conf d) r));
  write_volatile d p v :=
    let c := toy_conf d in
    mkToy
      (if p =? IB then mkConf (svr c) (lvt_timer c) (lint1 c) (tdcr c) (ticr c) v (io_regs c)
       else if p =? IB + 16 then
         mkConf (svr c) (lvt_timer c) (lint1 c) (tdcr c) (ticr c) (io_select c) (<[io_select c := v]> (io_regs c))
       else default c (r ← reg_at p; conf_set c r v))
      (N.succ (toy_clock d)) (if p =? LB + 0x380 then true else toy_left d);
  port_read d _ := (d, 0);
  port_write d _ _ := d;
  rdtsc_regs d :=
    let t := Z.of_N (N.succ (toy_clock d)) mod 2 ^ 64 in
    (mkToy (toy_conf d) (N.succ (toy_clock d)) (toy_left d), (t / 2 ^ 32, t mod 2 ^ 32))
}.

#[export] Instance Toy_ApicLaws : ApicLaws Toy LB IB.
Proof.
  refine {| conf := toy_conf; clock := λ d, Z.of_N (toy_clock d); step := 1;
            span_lo := λ _, 1; span_hi := λ _, 3 |};
    cbn [read_volatile write_volatile port_read port_write rdtsc_regs Toy_Machine toy_conf toy_clock].
  - lia.
  - lia.
  - intros d r v Hv. destruct r; try discriminate Hv; injection Hv as <-;
      (eexists; split; [reflexivity|split; [done|cbn [toy_clock]; lia]]).
  - intros d r v c Hc _ _. split; [|lia].
    destruct r; try discriminate Hc; cbn in Hc |- *; injection Hc as <-; done.
  - intros d v. split; [done|lia].
  - intros d v. split; [done|lia].
  - intros d n c Hn _ _ Hc. injection Hc as <-.
    eexists. split; [eapply polled_more; [reflexivity|vm_compute; discriminate|eapply polled_zero; reflexivity]|].
    split; [done|]. cbn [toy_clock]. lia.
  - intros d. eexists _, _, _. split; [done|]. cbn [toy_clock toy_conf].
    set (t := Z.of_N (N.succ (toy_clock d)) mod 2 ^ 64).
    assert (0 <= t < 2 ^ 64) by (apply Z.mod_pos_bound; lia).
    split_and!; [apply Z.div_pos; lia|apply Z.div_lt_upper_bound; lia|apply Z.mod_pos_bound; lia..| |done|lia|lia].
    rewrite Z.mul_comm, <- Z.div_mod by lia. done.
  - done.
  - done.
Defined.

Definition reset_conf : Conf := mkConf 0xFF 0x10000 0x10000 0 0 0 ∅.
Definition reset_apic : Apic Toy := mkApic (mkToy reset_conf 0 false) 0 0.

Lemma init_apic_spec_witness :
  ∃ n p' a' s',
    (∀ fuel, (n <= fuel)%nat →
      init_apic (prof := Dev) (P := gmap Z Z) (A := list Z) LOW_HHDM fuel None (Some 2000)
        (ModelApic (mkInfo [0xFEC00000] 0xFEE00000)) ∅ (pages_from 0 6) reset_apic = Ret (p', a', s')) ∧
    lvt_timer (conf (dev s')) = 0x30020 ∧ lvt_timer (conf (dev (enable_timer s'))) = 0x20020 ∧
    io_regs (conf (dev s')) !! 0x12 = Some 0x21.
Proof.
  destruct (init_apic_spec (prof := Dev) (P := gmap Z Z) (A := list Z) (D := Toy) LOW_HHDM 0xFEE00000 0xFEC00000
              None (Some 2000) [] ∅ (pages_from 0 6) reset_apic)
    as (n & p' & a' & s' & delta & E & _ & _ & C1 & C2 & _).
  - done.
  - done.
  - done.
  - split_and!; [done|done|done|right; done|done|done].
  - split_and!; [done|done|done|right; done|done|done].
  - split; [apply pages_from_NoDup|by repeat constructor].
  - done.
  - done.
  - done.
  - done.
  - exists n, p', a', s'. split; [exact E|].
    split; [exact (f_equal lvt_timer C1)|]. split; [exact (f_equal lvt_timer C2)|].
    exact (f_equal (λ c, io_regs c !! 0x12) C1).
Defined.

Lemma current_time_spec_witness :
  current_time (prof := Release) 25 (mkApic (dev reset_apic) 0 (10 * CYCLES_PER_TICK)) = Ret 2.
Proof.
  destruct (current_time_spec (prof := Release) (D := Toy) 25 (mkApic (dev reset_apic) 0 (10 * CYCLES_PER_TICK)))
    as [_ H]; [done|done|].
  destruct H as (t & E & B & _); [done|]. rewrite E. f_equal. cbn [CYCLES_PER_SECOND] in B. unfold CYCLES_PER_TICK in B. lia.
Defined.
