(* ===== verification/Interrupts.v ===== *)
(** Interrupts: the message queue of kernel/src/kernel/threading/wait/mod.rs
    that carries events from interrupts to the wait manager, the handlers of
    kernel/src/arch/x86/interrupt/handlers.rs, and the descriptor tables of
    idt.rs and gdt.rs.

    The message queue, the descriptor tables and the segment registers are
    library types: [EventQueue], [IdtOps] and [GdtOps] are the operations
    used of them, the [Laws] classes their documented behaviour. *)
From S2P Require Import Prelude Abi Io Fd FrameAlloc Paging Mmap PageDir Tasks Wait Tty Apic.
Open Scope Z_scope.

(** ** wait/mod.rs: the message queue *)

Definition MAX_WAIT_EVENTS : nat := 20.

(** A bounded queue: [push] gives the event back when it is full. *)
Class EventQueue (Q E : Type) := {
  with_slot : Q;
  push : Q → E → Q * Result E unit;
  pop : Q → Q * option E
}.

Class EventQueueLaws (Q E : Type) `{EventQueue Q E} (cap : nat) := {
  contents : Q → list E;
  with_slot_empty : contents with_slot = [];
  push_room : ∀ q e, (length (contents q) < cap)%nat → ∃ q', push q e = (q', Ok tt) ∧ contents q' = contents q ++ [e];
  push_full : ∀ q e, (cap <= length (contents q))%nat → ∃ q', push q e = (q', Err e) ∧ contents q' = contents q;
  pop_first : ∀ q, match pop q with
    | (q', None) => contents q = [] ∧ contents q' = []
    | (q', Some e) => contents q = e :: contents q'
    end
}.

Record WaitEvent : Set := mkEvent { event_type : QueueType; data : Z }.

Definition WaitEvent_new (t : QueueType) : WaitEvent := mkEvent t 0.
Definition WaitEvent_with_data (t : QueueType) (d : Z) : WaitEvent := mkEvent t d.

Section Events.
Context {Q : Type} `{EventQueue Q WaitEvent}.

(** [MESSAGE_QUEUE] is a cell that is filled once. *)
Definition mq_init (cell : option Q) : option Q :=
  match cell with Some q => Some q | None => Some with_slot end.

Definition mq_post_event (cell : option Q) (event : WaitEvent) : option Q * Result WaitEvent unit :=
  let q := match cell with Some q => q | None => with_slot end in
  let '(q, r) := push q event in (Some q, r).

Definition get_event (cell : option Q) : option Q * option WaitEvent :=
  match cell with
  | None => (None, None)
  | Some q => let '(q, e) := pop q in (Some q, e)
  end.

(** The loop of [WaitObserver::process_signals], at most [fuel] events. *)
Fixpoint signal_loop (fuel : nat) (env : Env) (m : TaskManager) (self : WaitObserver) (cell : option Q)
    : Outcome (TaskManager * WaitObserver * option Q) :=
  match fuel with
  | O => NoFuel
  | S fuel =>
      match get_event cell with
      | (cell, None) => Ret (m, self, cell)
      | (cell, Some s) =>
          let '(m, self) := process_signals env m self [event_type s] in
          signal_loop fuel env m self cell
      end
  end.

End Events.

(** ** handlers.rs *)

Section Handlers.
Context {Q D : Type} `{EventQueue Q WaitEvent} `{Machine D} (hash : list u8 → Z).

(** What the handlers touch: the tick counter, [IS_INITIALIZED], the message
    queue, the task manager with its scheduler, the keyboard ring and the
    interrupt controller. *)
Record Irq : Type := mkIrq {
  TOTAL_TIMER_TICKS : Z;
  is_running : bool;
  MESSAGE_QUEUE : option Q;
  irq_tm : TaskManager;
  irq_rr : LazyRoundRobin;
  irq_kb : KeyboardBuffer;
  irq_apic : Apic D
}.

Definition set_mq (s : Irq) (q : option Q) : Irq :=
  mkIrq (TOTAL_TIMER_TICKS s) (is_running s) q (irq_tm s) (irq_rr s) (irq_kb s) (irq_apic s).

Definition current_tick (s : Irq) : Z := TOTAL_TIMER_TICKS s.

(** [timer_interrupt_handler_local_]: [Some id] when it leaves for the thread
    [id].  A full message queue is only reported. *)
Definition timer_interrupt_handler_local (locked r1 r2 r3 : bool) (rsp : Z) (s : Irq)
    : Outcome (Irq * option ThreadID) :=
  if negb (is_running s) then Ret (s, None)
  else if negb (TOTAL_TIMER_TICKS s <? USIZE_MAX) then Panic
  else
    let '(q, _) := mq_post_event (MESSAGE_QUEUE s) (mkEvent QTimer 0) in
    let! r := context_switch_local locked r1 r2 r3 rsp (irq_tm s) (irq_rr s) in
    let '(m, rr, next) := r in
    Ret (mkIrq (TOTAL_TIMER_TICKS s + 1) (is_running s) q m rr (irq_kb s) (irq_apic s), next).

(** The path of the second event, as the source spells it. *)
Definition KEYBOARD_PATH : list u8 := lit "/proc/kernel/io/keyoard".

(** [||]: the second event is posted only after the first. *)
Definition keyboard_interrupt_handler (s : Irq) : Irq :=
  let '(d, scancode) := port_read (dev (irq_apic s)) 0x60 in
  let kb := kb_put (irq_kb s) (byte (Z.to_nat scancode)) in
  let q :=
    match mq_post_event (MESSAGE_QUEUE s) (WaitEvent_new QKeyBoard) with
    | (q, Err _) => q
    | (q, Ok _) => fst (mq_post_event q (WaitEvent_new (QFile (hash KEYBOARD_PATH))))
    end in
  mkIrq (TOTAL_TIMER_TICKS s) (is_running s) q (irq_tm s) (irq_rr s) kb
    (end_interrupt (mkApic d (LAPIC_ADDR (irq_apic s)) (CYCLES_PER_SECOND (irq_apic s)))).

(** The exceptions that stop the kernel, and the spurious interrupt. *)
Definition breakpoint_handler (s : Irq) : Outcome Irq := Panic.
Definition double_fault_handler (s : Irq) : Outcome Irq := Panic.
Definition page_fault_handler (s : Irq) : Outcome Irq := Panic.
Definition gpf_handler (s : Irq) : Outcome Irq := Panic.
Definition spurious_interrupt_handler (s : Irq) : Irq := s.

End Handlers.
Arguments Irq : clear implicits.

Definition SPURIOUS_VECTOR : Z := 0xFF.

(** ** gdt.rs *)

Definition DOUBLE_FAULT_IST_INDEX : Z := 0.
Definition DOUBLE_FAULT_STACK_SIZE : Z := 4096 * 5.

Inductive Descriptor : Set :=
| KernelCode | KernelData | UserCode | UserData | TssSegment.

(** [GlobalDescriptorTable::append]. *)
Class GdtOps (G : Type) := {
  gdt_new : G;
  append : G → Descriptor → G * Z
}.

(** A selector is eight times the index plus the privilege level; the first
    entry is the null descriptor and a task-state segment takes two. *)
Definition entries (d : Descriptor) : Z := match d with TssSegment => 2 | _ => 1 end.
Definition rpl (d : Descriptor) : Z := match d with UserCode | UserData => 3 | _ => 0 end.

Class GdtLaws (G : Type) `{GdtOps G} := {
  used : G → Z;
  used_new : used gdt_new = 1;
  append_spec : ∀ g d, used g + entries d <= 8 →
    snd (append g d) = 8 * used g + rpl d ∧ used (fst (append g d)) = used g + entries d
}.

Record Selectors : Set := mkSelectors {
  code_selector : Z; data_selector : Z; tss_selector : Z;
  user_code_selector : Z; user_data_selector : Z
}.

(** The fields of the task-state segment that are used. *)
Record TaskStateSegment : Set := mkTSS { privilege_stack_0 : Z; interrupt_stack_0 : Z }.

Record Gdt (G : Type) : Type := mkGdt {
  TSS : option TaskStateSegment;
  GDT : option (G * Selectors);
  cs_reg : Z; ss_reg : Z; task_reg : Z
}.
Arguments mkGdt {G}. Arguments TSS {G}. Arguments GDT {G}.
Arguments cs_reg {G}. Arguments ss_reg {G}. Arguments task_reg {G}.

Section Gdt.
Context {G : Type} `{GdtOps G}.

(** [init_once]; [stack_start] is where the linker put the array. *)
Definition init_tss (stack_start : Z) (s : Gdt G) : Gdt G :=
  match TSS s with
  | Some _ => s
  | None => mkGdt (Some (mkTSS 0 (stack_start + DOUBLE_FAULT_STACK_SIZE))) (GDT s) (cs_reg s) (ss_reg s) (task_reg s)
  end.

Definition init_gdt (s : Gdt G) : Gdt G :=
  match GDT s with
  | Some _ => s
  | None =>
      let '(gdt, code_selector) := append gdt_new KernelCode in
      let '(gdt, tss_selector) := append gdt TssSegment in
      let '(gdt, kernel_data_selector) := append gdt KernelData in
      let '(gdt, user_code_selector) := append gdt UserCode in
      let '(gdt, user_data_selector) := append gdt UserData in
      mkGdt (TSS s)
        (Some (gdt, mkSelectors code_selector kernel_data_selector tss_selector user_code_selector user_data_selector))
        (cs_reg s) (ss_reg s) (task_reg s)
  end.

Definition set_tss_kstack (stack : Z) (s : Gdt G) : Outcome (Gdt G) :=
  match TSS s with
  | None => Panic
  | Some t => Ret (mkGdt (Some (mkTSS stack (interrupt_stack_0 t))) (GDT s) (cs_reg s) (ss_reg s) (task_reg s))
  end.

(** Undefined before [init_gdt]. *)
Definition get_user_selectors (s : Gdt G) : Outcome (Z * Z) :=
  match GDT s with None => Panic | Some (_, x) => Ret (user_code_selector x, user_data_selector x) end.
Definition get_kernel_selectors (s : Gdt G) : Outcome (Z * Z) :=
  match GDT s with None => Panic | Some (_, x) => Ret (code_selector x, data_selector x) end.

Definition gdt_init (stack_start : Z) (s : Gdt G) : Outcome (Gdt G) :=
  let s := init_gdt (init_tss stack_start s) in
  match GDT s with
  | None => Panic
  | Some (_, x) => Ret (mkGdt (TSS s) (GDT s) (code_selector x) (data_selector x) (tss_selector x))
  end.

End Gdt.

(** ** idt.rs *)

Inductive Handler : Set :=
| HBreakpoint | HDoubleFault | HPageFault | HGpf | HTimerStub | HKeyboard | HSpurious | HSyscallStub.

Record Gate : Set := mkGate { g_handler : Handler; g_present : bool; g_level : Z; g_stack : option Z; g_selector : Z }.

(** [InterruptDescriptorTable]: setting a handler makes the gate present at
    privilege level 0 with the code segment in use, [cs]. *)
Class IdtOps (T : Type) := {
  idt_new : T;
  set_handler : T → Z → Handler → T;
  set_stack_index : T → Z → Z → T;
  set_present : T → Z → bool → T;
  set_privilege_level : T → Z → Z → T;
  set_code_selector : T → Z → Z → T
}.

Class IdtLaws (T : Type) `{IdtOps T} (cs : Z) := {
  gates : T → gmap Z Gate;
  idt_new_gates : gates idt_new = ∅;
  set_handler_gates : ∀ t v h, gates (set_handler t v h) = <[v := mkGate h true 0 None cs]> (gates t);
  set_stack_gates : ∀ t v i, gates (set_stack_index t v i) =
    alter (λ g, mkGate (g_handler g) (g_present g) (g_level g) (Some i) (g_selector g)) v (gates t);
  set_present_gates : ∀ t v b, gates (set_present t v b) =
    alter (λ g, mkGate (g_handler g) b (g_level g) (g_stack g) (g_selector g)) v (gates t);
  set_level_gates : ∀ t v l, gates (set_privilege_level t v l) =
    alter (λ g, mkGate (g_handler g) (g_present g) l (g_stack g) (g_selector g)) v (gates t);
  set_selector_gates : ∀ t v c, gates (set_code_selector t v c) =
    alter (λ g, mkGate (g_handler g) (g_present g) (g_level g) (g_stack g) c) v (gates t)
}.

(** The vectors of the processor's exceptions. *)
Definition BREAKPOINT : Z := 3.
Definition DOUBLE_FAULT : Z := 8.
Definition GENERAL_PROTECTION : Z := 13.
Definition PAGE_FAULT : Z := 14.

(** [IDT]; [kernel_code] is [get_kernel_selectors().0]. *)
Definition IDT {T} `{IdtOps T} (kernel_code : Z) : T :=
  let idt := set_handler idt_new BREAKPOINT HBreakpoint in
  let idt := set_stack_index (set_handler idt DOUBLE_FAULT HDoubleFault) DOUBLE_FAULT DOUBLE_FAULT_IST_INDEX in
  let idt := set_handler idt PAGE_FAULT HPageFault in
  let idt := set_handler idt GENERAL_PROTECTION HGpf in
  let idt := set_handler idt (InterruptIndex_discr Timer) HTimerStub in
  let idt := set_handler idt (InterruptIndex_discr Keyboard) HKeyboard in
  let idt := set_handler idt SPURIOUS_VECTOR HSpurious in
  let v := InterruptIndex_discr Syscall in
  set_code_selector (set_privilege_level (set_present (set_handler idt v HSyscallStub) v true) v 3) v kernel_code.

(** ** The message queue delivers the first twenty events *)

Section EventLemmas.
Context {Q : Type} `{EventQueueLaws Q WaitEvent MAX_WAIT_EVENTS}.

(** The events waiting in the cell. *)
Definition pending (cell : option Q) : list WaitEvent :=
  match cell with Some q => contents q | None => [] end.

Lemma post_pending cell e :
  pending (fst (mq_post_event cell e)) =
    if decide (length (pending cell) < MAX_WAIT_EVENTS)%nat then pending cell ++ [e] else pending cell.
Proof.
  unfold mq_post_event. set (q := match cell with Some q => q | None => with_slot end).
  assert (Hq : contents q = pending cell) by (unfold q; destruct cell; [done|apply with_slot_empty]).
  rewrite <- Hq. case_decide as Hl.
  - destruct (push_room q e Hl) as (q' & E & C). by rewrite E.
  - destruct (push_full q e ltac:(lia)) as (q' & E & C). by rewrite E.
Qed.

Lemma post_ok cell e :
  snd (mq_post_event cell e) = (if decide (length (pending cell) < MAX_WAIT_EVENTS)%nat then Ok tt else Err e).
Proof.
  unfold mq_post_event. set (q := match cell with Some q => q | None => with_slot end).
  assert (Hq : contents q = pending cell) by (unfold q; destruct cell; [done|apply with_slot_empty]).
  rewrite <- Hq. case_decide as Hl.
  - destruct (push_room q e Hl) as (q' & E & C). by rewrite E.
  - destruct (push_full q e ltac:(lia)) as (q' & E & C). by rewrite E.
Qed.

(** Events posted one after the other, results ignored. *)
Definition post_all (cell : option Q) (es : list WaitEvent) : option Q :=
  foldl (λ c e, fst (mq_post_event c e)) cell es.

Lemma post_all_pending cell es :
  (length (pending cell) <= MAX_WAIT_EVENTS)%nat →
  pending (post_all cell es) = take MAX_WAIT_EVENTS (pending cell ++ es).
Proof.
  revert cell. induction es as [|e es IH]; intros cell Hl.
  { rewrite app_nil_r, take_ge by done. done. }
  cbn [post_all foldl]. fold (post_all (fst (mq_post_event cell e)) es).
  pose proof (post_pending cell e) as E. case_decide as Hc.
  - rewrite IH by (rewrite E, length_app; cbn; lia). rewrite E, <- app_assoc. done.
  - rewrite IH by (rewrite E; done). rewrite E.
    assert (length (pending cell) = MAX_WAIT_EVENTS) by lia.
    by rewrite !take_app_length'.
Qed.

Lemma process_signals_cons env m self k ks :
  process_signals env m self (k :: ks) =
    let '(m1, self1) := process_signals env m self [k] in process_signals env m1 self1 ks.
Proof.
  cbn [process_signals]. destruct (q_get (queues self) k) as [q|]; [|done].
  by destruct (queue_signal env m q).
Qed.

(** The loop of the manager handles the waiting events in order and empties
    the queue. *)
Lemma signal_loop_spec env m self cell fuel :
  (length (pending cell) < fuel)%nat → ∃ cell',
    signal_loop fuel env m self cell =
      Ret (process_signals env m self (event_type <$> pending cell), cell') ∧ pending cell' = [].
Proof.
  revert m self cell. induction fuel as [|fuel IH]; intros m self cell Hf; [lia|]. cbn [signal_loop].
  destruct cell as [q|]; [|by exists None]. cbn [get_event pending] in *.
  pose proof (pop_first q) as P. destruct (pop q) as [q' [e|]].
  - rewrite P in Hf |- *. cbn [length fmap list_fmap] in *.
    rewrite (process_signals_cons env m self (event_type e) (event_type <$> contents q')).
    destruct (process_signals env m self [event_type e]) as [m1 self1].
    apply (IH m1 self1 (Some q')). cbn [pending]. lia.
  - destruct P as [-> P]. by exists (Some q').
Qed.

(** The message queue between the interrupts and the wait manager holds
    twenty events: of a burst posted while the manager does not run, the
    manager later handles exactly what fits, in order, and the rest is lost,
    whatever it was for.  Handling always ends. *)
Lemma burst_delivered env m self cell es fuel :
  (length (pending cell) <= MAX_WAIT_EVENTS < fuel)%nat →
  ∃ cell', signal_loop fuel env m self (post_all cell es) =
    Ret (process_signals env m self (event_type <$> take MAX_WAIT_EVENTS (pending cell ++ es)), cell') ∧
    pending cell' = [].
Proof.
  intros [Hl Hf]. destruct (signal_loop_spec env m self (post_all cell es) fuel) as (cell' & E & P).
  - rewrite post_all_pending, length_take by done. lia.
  - rewrite post_all_pending in E by done. by exists cell'.
Qed.

(** With twenty-one exits between two rounds the last exit is not signalled. *)
Lemma exit_event_lost env m self id fuel :
  (MAX_WAIT_EVENTS < fuel)%nat →
  ∃ cell', signal_loop fuel env m self
      (post_all None ((λ i, WaitEvent_with_data (QThread i) EXIT) <$> seqZ 1 20 ++ [id])) =
    Ret (process_signals env m self (QThread <$> seqZ 1 20), cell').
Proof.
  intros Hf. destruct (signal_loop_spec env m self
    (post_all None ((λ i, WaitEvent_with_data (QThread i) EXIT) <$> seqZ 1 20 ++ [id])) fuel) as (cell' & E & _).
  - rewrite post_all_pending by (cbn; lia). rewrite length_take. lia.
  - exists cell'. rewrite E, post_all_pending by (cbn; lia). done.
Qed.

End EventLemmas.

(** ** Interrupts wake the threads that wait for them *)

(** The signal of a queue wakes the thread. *)
Definition wakes (env : Env) (id : ThreadID) (q : Queue) : Prop :=
  match q with
  | KeyQ q => id ∈ node_id <$> q
  | TimeQ q => Sorted.StronglySorted time_le q ∧ ∃ t, t <= env_now env ∧ (t, id) ∈ q
  | GenQ _ => False
  end.

(** Asleep in the queue [k], or awake again. *)
Definition asleep (m : TaskManager) (id : ThreadID) : Prop :=
  id ∈ lut m ∧ (state_of m id = Some Blocking ∨ state_of m id = Some Sleeping).
Definition awake (m : TaskManager) (id : ThreadID) : Prop := id ∈ lut m ∧ state_of m id = Some Ready.
Definition waits (env : Env) (k : QueueType) (id : ThreadID) (m : TaskManager) (self : WaitObserver) : Prop :=
  awake m id ∨ asleep m id ∧ ∃ q, q_get (queues self) k = Some q ∧ wakes env id q.

Lemma wake_keeps_awake m i id : awake m id → awake (fst (wake m i)) id.
Proof. intros [Hl Hs]. split; [by rewrite wake_lut|]. rewrite wake_state, Hs. by case_decide. Qed.

Lemma wake_asleep m i id : asleep m id → if decide (i = id) then awake (fst (wake m i)) id else asleep (fst (wake m i)) id.
Proof.
  intros [Hl Hs]. case_decide as Hi.
  - subst i. split; [by rewrite wake_lut|]. rewrite wake_state, decide_True by done. by destruct Hs as [-> | ->].
  - split; [by rewrite wake_lut|]. by rewrite wake_state, decide_False by naive_solver.
Qed.

Definition known (m : TaskManager) (id : ThreadID) : Prop := awake m id ∨ asleep m id.

Lemma wake_known m i id : known m id → known (fst (wake m i)) id.
Proof.
  intros [Ha|Hs]; [left; by apply wake_keeps_awake|].
  pose proof (wake_asleep m i id Hs). unfold known. case_decide; tauto.
Qed.

Lemma wake_all_awake m ids id : known m id → id ∈ ids → awake (wake_all m ids) id.
Proof.
  unfold wake_all. revert m. induction ids as [|i ids IH]; intros m Hk Hin; [by apply not_elem_of_nil in Hin|]. cbn [foldl].
  assert (Hkeep : ∀ m, awake m id → awake (foldl (λ m id, fst (wake m id)) m ids) id).
  { clear. induction ids as [|i ids IH]; intros m Ha; [done|]. cbn [foldl]. apply IH. by apply wake_keeps_awake. }
  destruct (decide (i = id)) as [->|Hne].
  - apply Hkeep. destruct Hk as [Ha|Hs]; [by apply wake_keeps_awake|].
    pose proof (wake_asleep m id id Hs) as W. by rewrite decide_True in W.
  - apply IH; [by apply wake_known|]. apply elem_of_cons in Hin as [?|?]; [congruence|done].
Qed.

(** Signals only wake. *)
Lemma foldl_keeps {X Y} (P : X → Prop) (f : X → Y → X) l x :
  (∀ x y, P x → P (f x y)) → P x → P (foldl f x l).
Proof. intros Hf. revert x. induction l as [|y l IH]; intros x Hx; [done|]. cbn [foldl]. by apply IH, Hf. Qed.

Lemma signal_keeps (P : TaskManager → Prop) env m q :
  (∀ m i, P m → P (fst (wake m i))) → P m → P (fst (queue_signal env m q)).
Proof.
  intros Hw Hp. destruct q as [q|q|q]; cbn [queue_signal].
  - assert (P (fst (TimeWaitQueue_signal env m q))) as H.
    { revert m Hp. induction q as [|[t i] q IH]; intros m Hp; [done|]. cbn [TimeWaitQueue_signal].
      destruct (t <=? env_now env); [apply IH; by apply Hw|done]. }
    by destruct (TimeWaitQueue_signal env m q).
  - cbn. apply foldl_keeps; [|done]. intros; by apply Hw.
  - cbn. apply foldl_keeps; [|done]. intros x n Hx. case_match; [by apply Hw|done].
Qed.

Lemma signal_wakes env m q id : known m id → wakes env id q → awake (fst (queue_signal env m q)) id.
Proof.
  intros Hk Hw. destruct q as [q|q|q]; cbn [queue_signal]; [| |done].
  - destruct Hw as (Hs & t & Ht & Hin). rewrite timer_signal_spec by done. cbn [fst].
    apply wake_all_awake; [done|]. apply list_elem_of_fmap. exists (t, id). split; [done|].
    apply list_elem_of_filter. done.
  - cbn. replace (foldl _ m q) with (wake_all m (node_id <$> q)); [by apply wake_all_awake|].
    unfold wake_all. clear Hk Hw. revert m. induction q as [|n q IH]; intros m; [done|]. cbn. apply IH.
Qed.

Lemma process_signals_awake env id m self ks :
  awake m id → awake (fst (process_signals env m self ks)) id.
Proof.
  revert m self. induction ks as [|j ks IH]; intros m self Ha; [done|]. cbn [process_signals].
  destruct (q_get (queues self) j) as [q|]; [|by apply IH].
  pose proof (signal_keeps (λ m, awake m id) env m q (λ m i, wake_keeps_awake m i id) Ha) as X.
  destruct (queue_signal env m q) as [m1 q1]. by apply IH.
Qed.

(** A thread that waits in the queue [k] is awake once an event of [k] has
    been handled, whatever is handled before and after it. *)
Lemma signals_wake_waiter env k id m self ks :
  waits env k id m self → k ∈ ks → awake (fst (process_signals env m self ks)) id.
Proof.
  revert m self. induction ks as [|j ks IH]; intros m self Hw Hin; [by apply not_elem_of_nil in Hin|].
  destruct Hw as [Ha|(Hs & q & Hq & Hwk)]; [by apply process_signals_awake|].
  cbn [process_signals]. destruct (decide (j = k)) as [->|Hne].
  - rewrite Hq. pose proof (signal_wakes env m q id (or_intror Hs) Hwk) as X.
    destruct (queue_signal env m q) as [m1 q1]. by apply process_signals_awake.
  - assert (Hin' : k ∈ ks) by (apply elem_of_cons in Hin as [?|?]; [congruence|done]).
    destruct (q_get (queues self) j) as [q'|]; [|apply IH; [right; eauto|done]].
    pose proof (signal_keeps (λ m, known m id) env m q' (λ m i, wake_known m i id) (or_intror Hs)) as X.
    destruct (queue_signal env m q') as [m1 q1]. apply IH; [|done].
    destruct X as [?|?]; [by left|right]. split; [done|]. exists q. split; [|done].
    cbn [queues]. rewrite q_get_set. by rewrite decide_False.
Qed.

(** A context switch leaves sleeping threads asleep. *)
Lemma update_obj_asleep m i f id :
  (∀ t, t_state t = Blocking ∨ t_state t = Sleeping → t_state (f t) = t_state t) →
  asleep m id → asleep (update_obj m i f) id.
Proof.
  intros Hf [Hl Hs]. split; [done|]. unfold state_of in *. cbn [update_obj set_objs objs].
  destruct (decide (i = id)) as [->|]; [|by rewrite lookup_alter_ne]. rewrite lookup_alter_eq.
  destruct (objs m !! id) as [t|]; [|done]. cbn in *.
  destruct (Hf t) as []; [|done]. destruct Hs; [left|right]; congruence.
Qed.

Lemma switch_asleep l r m s id : asleep m id → asleep (fst (fst (switch l r m s))) id.
Proof.
  intros Ha. unfold switch. destruct l; [done|].
  assert (Hq : asleep (fst (fst (switch_loop r m (queue s)))) id).
  { generalize (queue s). intros q. revert m Ha. induction q as [|i q IH]; intros m Ha; [done|]. cbn [switch_loop].
    destruct (try_thread r m i); [|by apply IH]. destruct (negb _); [by apply IH|]. exact Ha. }
  by destruct (switch_loop r m (queue s)) as [[? ?] ?].
Qed.

Lemma context_switch_asleep l r1 r2 r3 rsp m s m' s' next id :
  context_switch_local l r1 r2 r3 rsp m s = Ret (m', s', next) → asleep m id → asleep m' id.
Proof.
  unfold context_switch_local. intros E Ha. apply obind_ret in E as (c & Hc & E).
  destruct c as [[m0 cur]|]; [|by injection E as <- _ _].
  assert (Ha0 : asleep m0 id).
  { destruct (try_current_thread r1 m) as [t|]; [injection Hc as <- _; by apply update_obj_asleep|].
    destruct (current_tid m =? 0); [|done]. destruct (thread m 1); [|done]. by injection Hc as <- _. }
  pose proof (switch_asleep l r2 m0 s id Ha0) as Ha1.
  destruct (switch l r2 m0 s) as [[m1 s1] [n|]]; [|by injection E as <- _ _].
  cbn [fst] in Ha1. destruct (try_thread r3 m1 n); [|done]. injection E as <- _ _.
  destruct (objs m1 !! cur) as [c|] eqn:Hcur; [|done]. case_bool_decide as Hr; [|done].
  destruct Ha1 as [Hl Hs]. split; [done|]. unfold state_of in *. cbn [update_obj set_objs objs].
  destruct (decide (cur = id)) as [->|]; [|by rewrite lookup_alter_ne].
  rewrite Hcur in Hs. cbn in Hs. destruct Hs; congruence.
Qed.

Section Wakeups.
Context {Q D : Type} `{EventQueueLaws Q WaitEvent MAX_WAIT_EVENTS} `{Machine D} (hash : list u8 → Z).

Lemma loop_wakes env k id m self cell fuel :
  (length (pending cell) <= MAX_WAIT_EVENTS < fuel)%nat → waits env k id m self →
  k ∈ event_type <$> pending cell →
  ∃ m' self' cell', signal_loop fuel env m self cell = Ret (m', self', cell') ∧ awake m' id ∧ pending cell' = [].
Proof.
  intros [Hl Hf] Hw Hk. destruct (signal_loop_spec env m self cell fuel) as (cell' & E & P); [lia|].
  pose proof (signals_wake_waiter env k id m self _ Hw Hk) as Ha.
  destruct (process_signals env m self _) as [m' self']. by exists m', self', cell'.
Qed.

(** C21: Interrupts wake the threads that wait for them.  If the message queue
    has room, then after a key press every thread asleep in the keyboard
    queue, and after a timer tick (with the context switch it makes) every
    thread asleep in the timer queue whose deadline has passed, is ready again
    once the wait manager has handled its events, which it does in finitely
    many steps; whatever other events are waiting in the queue. *)
Theorem interrupts_wake_waiters env id self (s : Irq Q D) fuel :
  (length (pending (MESSAGE_QUEUE s)) < MAX_WAIT_EVENTS < fuel)%nat → asleep (irq_tm s) id →
  ((∃ q, q_get (queues self) QKeyBoard = Some q ∧ wakes env id q) →
   let s' := keyboard_interrupt_handler hash s in
   ∃ m' self' cell', signal_loop fuel env (irq_tm s') self (MESSAGE_QUEUE s') = Ret (m', self', cell') ∧
     awake m' id ∧ pending cell' = []) ∧
  ((∃ q, q_get (queues self) QTimer = Some q ∧ wakes env id q) → is_running s = true →
   ∀ locked r1 r2 r3 rsp s' next,
   timer_interrupt_handler_local locked r1 r2 r3 rsp s = Ret (s', next) →
   current_tick s' = current_tick s + 1 ∧
   ∃ m' self' cell', signal_loop fuel env (irq_tm s') self (MESSAGE_QUEUE s') = Ret (m', self', cell') ∧
     awake m' id ∧ pending cell' = []).
Proof.
  intros [Hl Hf] Ha. split.
  - intros Hq s'. subst s'. unfold keyboard_interrupt_handler.
    destruct (port_read (dev (irq_apic s)) 96) as [d code].
    pose proof (post_pending (MESSAGE_QUEUE s) (WaitEvent_new QKeyBoard)) as P.
    pose proof (post_ok (MESSAGE_QUEUE s) (WaitEvent_new QKeyBoard)) as O.
    rewrite decide_True in P by done. rewrite decide_True in O by done.
    destruct (mq_post_event (MESSAGE_QUEUE s) _) as [q [u|u]]; [|done]. cbn [fst irq_tm MESSAGE_QUEUE] in *.
    pose proof (post_pending q (WaitEvent_new (QFile (hash KEYBOARD_PATH)))) as P2.
    rewrite P in P2. rewrite length_app in P2. apply (loop_wakes env QKeyBoard id); [|right; split; [done|exact Hq]|].
    + unfold MAX_WAIT_EVENTS in *. case_decide as Hc; rewrite P2, !length_app; cbn [length] in *; lia.
    + case_decide; rewrite P2, !fmap_app; set_solver.
  - intros Hq Hr locked r1 r2 r3 rsp s' next E. unfold timer_interrupt_handler_local in E.
    rewrite Hr in E. cbn [negb] in E. destruct (TOTAL_TIMER_TICKS s <? USIZE_MAX); [|done]. cbn [negb] in E.
    pose proof (post_pending (MESSAGE_QUEUE s) (mkEvent QTimer 0)) as P. rewrite decide_True in P by done.
    destruct (mq_post_event (MESSAGE_QUEUE s) _) as [q u]. cbn [fst] in P.
    apply obind_ret in E as ([[m rr] nx] & Ec & E). injection E as <- <-. cbn [irq_tm MESSAGE_QUEUE current_tick TOTAL_TIMER_TICKS].
    split; [done|]. apply (loop_wakes env QTimer id).
    + rewrite P, length_app. unfold MAX_WAIT_EVENTS in *. cbn [length]. lia.
    + right. split; [by eapply context_switch_asleep|done].
    + rewrite P, fmap_app. set_solver.
Qed.

(** With the queue full a key press reaches nobody. *)
Lemma full_queue_drops_key (s : Irq Q D) :
  (MAX_WAIT_EVENTS <= length (pending (MESSAGE_QUEUE s)))%nat →
  pending (MESSAGE_QUEUE (keyboard_interrupt_handler hash s)) = pending (MESSAGE_QUEUE s).
Proof.
  intros Hl. unfold keyboard_interrupt_handler. destruct (port_read (dev (irq_apic s)) 96) as [d code].
  pose proof (post_pending (MESSAGE_QUEUE s) (WaitEvent_new QKeyBoard)) as P.
  pose proof (post_ok (MESSAGE_QUEUE s) (WaitEvent_new QKeyBoard)) as O.
  rewrite decide_False in P by lia. rewrite decide_False in O by lia. by destruct (mq_post_event (MESSAGE_QUEUE s) _) as [q [u|u]].
Qed.

End Wakeups.

(** ** The descriptor tables *)

Section Tables.
Context {G T : Type} `{GdtLaws G} `{IdtLaws T 8}.

Lemma init_gdt_selectors (s : Gdt G) : GDT s = None →
  ∃ g, init_gdt s = mkGdt (TSS s) (Some (g, mkSelectors 8 32 16 43 51)) (cs_reg s) (ss_reg s) (task_reg s).
Proof.
  intros Hn. unfold init_gdt. rewrite Hn. pose proof used_new as U0.
  destruct (append_spec gdt_new KernelCode) as [S1 U1]; [rewrite U0; cbn; lia|].
  destruct (append gdt_new KernelCode) as [g1 s1]. cbn [fst snd entries rpl] in *.
  destruct (append_spec g1 TssSegment) as [S2 U2]; [cbn; lia|].
  destruct (append g1 TssSegment) as [g2 s2]. cbn [fst snd entries rpl] in *.
  destruct (append_spec g2 KernelData) as [S3 U3]; [cbn; lia|].
  destruct (append g2 KernelData) as [g3 s3]. cbn [fst snd entries rpl] in *.
  destruct (append_spec g3 UserCode) as [S4 U4]; [cbn; lia|].
  destruct (append g3 UserCode) as [g4 s4]. cbn [fst snd entries rpl] in *.
  destruct (append_spec g4 UserData) as [S5 U5]; [cbn; lia|].
  destruct (append g4 UserData) as [g5 s5]. cbn [fst snd entries rpl] in *.
  exists g5. repeat f_equal; lia.
Qed.

(** The gates, as one map. *)
Definition idt_gates : gmap Z Gate :=
  <[0x80 := mkGate HSyscallStub true 3 None 8]>
  (<[0xFF := mkGate HSpurious true 0 None 8]>
  (<[0x21 := mkGate HKeyboard true 0 None 8]>
  (<[0x20 := mkGate HTimerStub true 0 None 8]>
  (<[13 := mkGate HGpf true 0 None 8]>
  (<[14 := mkGate HPageFault true 0 None 8]>
  (<[8 := mkGate HDoubleFault true 0 (Some 0) 8]>
  {[3 := mkGate HBreakpoint true 0 None 8]})))))).

Lemma IDT_gates : gates (IDT (T := T) 8) = idt_gates.
Proof.
  unfold IDT.
  repeat (first [rewrite set_selector_gates|rewrite set_level_gates|rewrite set_present_gates
                |rewrite set_stack_gates|rewrite set_handler_gates]).
  rewrite idt_new_gates, !alter_insert_eq. reflexivity.
Qed.

(** The descriptor tables set up at boot.  Kernel and user segments get
    distinct selectors with the right privilege levels, the kernel's are
    loaded, and the stack for interrupts from user mode can be set without
    moving the double-fault stack.  The vectors that the interrupt controllers
    are programmed with lead to the timer stub, the keyboard handler and the
    spurious handler; every gate runs kernel code, and the only gate user
    programs may call is the system call. *)
Lemma descriptor_tables_spec stack_start (s : Gdt G) c :
  TSS s = None → GDT s = None →
  (∃ s', gdt_init stack_start s = Ret s' ∧
    cs_reg s' = 8 ∧ ss_reg s' = 32 ∧ task_reg s' = 16 ∧
    get_kernel_selectors s' = Ret (8, 32) ∧ get_user_selectors s' = Ret (43, 51) ∧
    ∀ stack, ∃ s'', set_tss_kstack stack s' = Ret s'' ∧
      TSS s'' = Some (mkTSS stack (stack_start + DOUBLE_FAULT_STACK_SIZE))) ∧
  let g := gates (IDT (T := T) 8) in
  (g_handler <$> g !! Z.land (lvt_timer (booted 0x20020 c)) 0xFF) = Some HTimerStub ∧
  (g_handler <$> (v ← io_regs (booted 0x20020 c) !! 0x12; g !! Z.land v 0xFF)) = Some HKeyboard ∧
  (g_handler <$> g !! Z.land (svr (booted 0x20020 c)) 0xFF) = Some HSpurious ∧
  (∀ v gate, g !! v = Some gate → g_present gate = true ∧ g_selector gate = 8) ∧
  (∀ v gate, g !! v = Some gate → (3 <= g_level gate ↔ v = 0x80)) ∧
  (g_handler <$> g !! 0x80) = Some HSyscallStub.
Proof.
  intros Ht Hg. split.
  - destruct (init_gdt_selectors (init_tss stack_start s)) as [g E]; [unfold init_tss; by rewrite Ht|].
    unfold gdt_init. rewrite E. cbn [GDT]. eexists. split; [done|]. split_and!; try done.
    intros stack. unfold set_tss_kstack, init_tss. cbn [TSS]. rewrite Ht. cbn [TSS interrupt_stack_0]. by eexists.
  - cbn zeta. rewrite IDT_gates. split_and!; try reflexivity.
    + cbn [booted io_regs]. rewrite lookup_insert_eq. reflexivity.
    + intros v gate. unfold idt_gates. intros Hv.
      repeat (apply lookup_insert_Some in Hv as [[_ <-]|[_ Hv]]; [done|]).
      by apply lookup_singleton_Some in Hv as [_ <-].
    + intros v gate. unfold idt_gates. intros Hv.
      repeat (apply lookup_insert_Some in Hv as [[<- <-]|[_ Hv]]; [cbn; lia|]).
      apply lookup_singleton_Some in Hv as [<- <-]. cbn. lia.
Qed.

End Tables.

(** ** Instances for the witnesses *)

#[export] Instance list_EventQueue : EventQueue (list WaitEvent) WaitEvent := {
  with_slot := [];
  push q e := if decide (length q < MAX_WAIT_EVENTS)%nat then (q ++ [e], Ok tt) else (q, Err e);
  pop q := match q with [] => ([], None) | e :: q => (q, Some e) end
}.

#[export] Instance list_EventQueueLaws : EventQueueLaws (list WaitEvent) WaitEvent MAX_WAIT_EVENTS.
Proof.
  refine {| contents := λ q : list WaitEvent, q |}; cbn [push pop list_EventQueue].
  - done.
  - intros q e Hl. rewrite decide_True by done. eauto.
  - intros q e Hl. rewrite decide_False by lia. eauto.
  - by intros [|e q].
Defined.

Lemma burst_delivered_witness :
  ∃ cell', signal_loop (Q := list WaitEvent) 21 (mkEnv 5 true) (sample_manager [1; 2]) (mkWaitObserver [])
      (post_all None (replicate 25 (WaitEvent_new QTimer))) =
    Ret (process_signals (mkEnv 5 true) (sample_manager [1; 2]) (mkWaitObserver []) (replicate 20 QTimer), cell') ∧
    pending cell' = [].
Proof.
  destruct (burst_delivered (Q := list WaitEvent) (mkEnv 5 true) (sample_manager [1; 2]) (mkWaitObserver []) None
    (replicate 25 (WaitEvent_new QTimer)) 21) as (cell' & E & P).
  - unfold MAX_WAIT_EVENTS. cbn. lia.
  - exists cell'. split; [exact E|exact P].
Defined.

(** Thread 2 waits for a key, thread 3 until the time 4. *)
Definition waiting_tm : TaskManager :=
  update_obj (update_obj (sample_manager [1; 2; 3]) 2 (set_state Blocking)) 3 (set_state Sleeping).
Definition waiting_queues : WaitObserver :=
  mkWaitObserver [(QTimer, TimeQ [(4, 3)]); (QKeyBoard, KeyQ [mkWaitNode 2 CNone])].
Definition waiting_irq : Irq (list WaitEvent) Toy :=
  mkIrq 7 true None waiting_tm (mkRR [1]) KeyboardBuffer_new reset_apic.

Lemma interrupts_wake_waiters_witness :
  let s' := keyboard_interrupt_handler (λ _, 0) waiting_irq in
  ∃ m' self' cell', signal_loop 21 (mkEnv 5 true) (irq_tm s') waiting_queues (MESSAGE_QUEUE s') = Ret (m', self', cell') ∧
    awake m' 2 ∧ pending cell' = [].
Proof.
  destruct (interrupts_wake_waiters (λ _, 0) (mkEnv 5 true) 2 waiting_queues waiting_irq 21) as [H _].
  - unfold MAX_WAIT_EVENTS. cbn. lia.
  - split; [vm_compute; reflexivity|left; vm_compute; reflexivity].
  - apply H. exists (KeyQ [mkWaitNode 2 CNone]). split; [done|]. cbn. by left.
Defined.

#[export] Instance count_GdtOps : GdtOps Z := {
  gdt_new := 1;
  append g d := (g + entries d, 8 * g + rpl d)
}.
#[export] Instance count_GdtLaws : GdtLaws Z.
Proof. by refine {| used := λ g : Z, g |}. Defined.

#[export] Instance gmap_IdtOps : IdtOps (gmap Z Gate) := {
  idt_new := ∅;
  set_handler t v h := <[v := mkGate h true 0 None 8]> t;
  set_stack_index t v i := alter (λ g, mkGate (g_handler g) (g_present g) (g_level g) (Some i) (g_selector g)) v t;
  set_present t v b := alter (λ g, mkGate (g_handler g) b (g_level g) (g_stack g) (g_selector g)) v t;
  set_privilege_level t v l := alter (λ g, mkGate (g_handler g) (g_present g) l (g_stack g) (g_selector g)) v t;
  set_code_selector t v c := alter (λ g, mkGate (g_handler g) (g_present g) (g_level g) (g_stack g) c) v t
}.
#[export] Instance gmap_IdtLaws : IdtLaws (gmap Z Gate) 8.
Proof. by refine {| gates := λ t : gmap Z Gate, t |}. Defined.

Lemma descriptor_tables_spec_witness :
  ∃ s', gdt_init (G := Z) 0x1000 (mkGdt None None 0 0 0) = Ret s' ∧ get_user_selectors s' = Ret (43, 51).
Proof.
  destruct (descriptor_tables_spec (G := Z) (T := gmap Z Gate) 0x1000 (mkGdt None None 0 0 0) reset_conf)
    as [(s' & E & _ & _ & _ & _ & U & _) _]; [done|done|].
  exists s'. split; [exact E|exact U].
Defined.
