(* ===== verification/Boot.v ===== *)
(** Installing the programs at boot: [load_init_bins] and [default_task] of
    kernel/src/kernel/init/mod.rs, the built-in programs' files of
    kernel/src/kernel/fs/builtin_bins.rs.

    The binaries themselves are put into the kernel by its build script;
    they are an argument.  Messages to the console are left out. *)
From S2P Require Import Prelude Abi Path Io Fd Listing RamFile FsRepr RamFS VFS FsInv FsProps.
Open Scope Z_scope.

Definition INCLUDED_BINS : str := lit "/ram/bin".
Definition ON_STARTUP : list str := [lit "tinyTerm"].

(** [T] is [ThreadingError]. *)
Inductive KernelError (T : Type) : Type := IO (e : FSError) | Threading (e : T) | Unexpected (msg : str).
Arguments IO {T}. Arguments Threading {T}. Arguments Unexpected {T}.

Section boot.
Context {prof : Profile}.

(** The body shared by [load_init_bins] and [init_fake_bin]: a file that
    cannot be written is removed again, and [rm] must succeed; the result of
    [update_perms] is dropped, then the file. *)
Definition install (options : Z) (path : str) (bin : list u8) : M World FSError unit :=
  λ w,
    let! r := open path options w in
    match r with
    | (w, Err _) => Ret (w, Ok tt)
    | (w, Ok file) =>
        let! r := File_write_all file bin 0 w in
        let! w :=
          match r with
          | (w, Ok _) => Ret w
          | (w, Err _) =>
              let! r := rm path 0 w in
              match r with (w, Ok _) => Ret w | (_, Err _) => Panic end
          end in
        let! r := File_update_perms file perms_rx POVERWRITE w in
        File_drop file (fst r)
    end.

(** The loop pushes the name onto the path and takes it off again. *)
Fixpoint install_all (bin_path : str) (binaries : list (str * list u8)) : M World FSError unit :=
  match binaries with
  | [] => mok tt
  | (name, bin) :: binaries =>
      let bin_path := push bin_path name in
      let? _ := install (Z.lor OpenOptions_CREATE_ALL OpenOptions_WRITE) bin_path bin in
      install_all (up bin_path) binaries
  end.

Definition load_init_bins (get_binaries : list (str * list u8)) : M World FSError unit :=
  install_all INCLUDED_BINS get_binaries.

Definition init_fake_bin (path : str) : M World FSError unit :=
  install (Z.lor OpenOptions_CREATE OpenOptions_WRITE) path BUILTIN_MARKER.

Definition ShutDown_PATH : str := lit "/ram/bin/shutdown".
Definition Serial_PATH : str := lit "/ram/bin/serial".
Definition ReadFromFD_PATH : str := lit "/ram/bin/read_from".

Definition builtin_init : M World FSError unit :=
  let? _ := init_fake_bin ShutDown_PATH in
  let? _ := init_fake_bin Serial_PATH in
  init_fake_bin ReadFromFD_PATH.

(** [default_task]: every startup program that can be opened and read is
    handed to the task builder, [spawn]; its error ends the loop.  The buffer
    is shared by all of them. *)
Section default_task.
Context {T : Type} (spawn : str → list u8 → M World (KernelError T) unit).

Fixpoint start_all (bin_path : str) (bin_data : list u8) (names : list str) : M World (KernelError T) unit :=
  match names with
  | [] => mok tt
  | name :: names =>
      let bin_path := push bin_path name in
      λ w,
        let! r := open bin_path (Z.lor OpenOptions_READ OpenOptions_EXECUTE) w in
        match r with
        | (w, Err _) => start_all (up bin_path) bin_data names w
        | (w, Ok bin) =>
            let! r := File_read_to_end bin 0 (w, bin_data) in
            match r with
            | ((w, bin_data), Err _) => start_all (up bin_path) bin_data names w
            | ((w, bin_data), Ok n_read) =>
                (let? _ := (if decide (n_read <= zlen bin_data)
                            then spawn name (take (Z.to_nat n_read) bin_data) else mpanic) in
                 start_all (up bin_path) bin_data names) w
            end
        end
  end.

Definition default_task : M World (KernelError T) unit :=
  let? _binaries := (λ w,
    let! r := lsdir INCLUDED_BINS w in
    Ret (fst r, match snd r with Ok l => Ok l | Err e => Err (IO e) end)) in
  start_all INCLUDED_BINS [] ON_STARTUP.

End default_task.

End boot.

(** ** Paths below /ram/bin *)

Definition bin_file (name : str) : str := render [lit "ram"; lit "bin"; name].
Definition in_mount (name : str) : str := render [lit "bin"; name].

Lemma push_bin name : plain name → push INCLUDED_BINS name = bin_file name.
Proof.
  intros Hp. unfold push. rewrite (plain_relative name Hp). unfold bin_file, render. cbn. by rewrite app_nil_r.
Qed.

Lemma plain_ram : plain (lit "ram").
Proof. by vm_compute; repeat split; intros ?; set_solver. Qed.
Lemma plain_bin : plain (lit "bin").
Proof. by vm_compute; repeat split; intros ?; set_solver. Qed.

Lemma plain_bin_file name : plain name → Forall plain [lit "ram"; lit "bin"; name].
Proof. intros Hp. by constructor; [apply plain_ram|constructor; [apply plain_bin|constructor]]. Qed.

Lemma parent_file_render segs name : plain name → parent (render (segs ++ [name])) = Some (render segs) ∧ file (render (segs ++ [name])) = name.
Proof.
  intros (_ & _ & _ & Hs). rewrite render_snoc.
  assert (R : rsplit_once PATH_SEP (render segs ++ PATH_SEP :: name) = Some (render segs, name)) by (by apply rsplit_once_Some).
  unfold parent, file. by rewrite R.
Qed.

Lemma up_bin name : plain name → up (bin_file name) = INCLUDED_BINS.
Proof. intros Hp. unfold bin_file. by rewrite up_render by by apply plain_bin_file. Qed.

Lemma no_trailing_sep segs name : plain name → ends_with_sep (render (segs ++ [name])) = false.
Proof.
  intros (Hn & _ & _ & Hs). rewrite render_snoc. unfold ends_with_sep.
  destruct name as [|c l _] using rev_ind; [done|].
  replace (render segs ++ PATH_SEP :: l ++ [c]) with ((render segs ++ PATH_SEP :: l) ++ [c]) by (by rewrite <- app_assoc).
  rewrite last_snoc. apply bool_decide_eq_false. intros ->. apply Hs. apply elem_of_app. right. by left.
Qed.

(** /ram serves them. *)
Definition served (w : World) (root : ptr) : Prop :=
  mounts w !! lit "/ram" = Some (RamFSObj root) ∧ ∀ s, mounts w !! (INCLUDED_BINS ++ s) = None.

Lemma mount_of_bin w root name : served w root → plain name →
  deepest_matching_mount (bin_file name) w = Ret (w, Ok (RamFSObj root, in_mount name)).
Proof.
  intros [Hm Hn] Hp. unfold deepest_matching_mount. rewrite ancestors_spec.
  unfold bin_file. rewrite traverse_render by by apply plain_bin_file.
  cbn [length seq reverse rev_append rev map take join].
  change (reverse (seq 1 4)) with [4; 3; 2; 1]%nat. cbn [map take join find_mount].
  rewrite (Hn (PATH_SEP :: name) : mounts w !! ([] ++ PATH_SEP :: lit "ram" ++ PATH_SEP :: lit "bin" ++ PATH_SEP :: name) = None).
  rewrite (Hn [] : mounts w !! ([] ++ PATH_SEP :: lit "ram" ++ PATH_SEP :: lit "bin") = None).
  rewrite (Hm : mounts w !! ([] ++ PATH_SEP :: lit "ram") = _). cbn. done.
Qed.

(** ** The directory of programs *)

(** A directory that may be searched and written. *)
Definition open_dir (w : World) (p : ptr) (d : DirData) : Prop :=
  ∃ st, store w !! p = Some (mkRamFile (NDir d) st) ∧ permissions st = perms_rwx.

(** No lock is held, /ram is the file system with the root directory [root],
    and pointers not handed out yet are free. *)
Record quiet (w : World) (root : ptr) : Prop := {
  q_held : held w = [];
  q_served : served w root;
  q_fresh : ∀ p, live w p → (p < next_ptr w)%positive
}.

(** The directory /ram/bin is [b] and has the entries [d]. *)
Record bin_dir (w : World) (root b : ptr) (d : DirData) : Prop := {
  bd_quiet : quiet w root;
  bd_ne : root ≠ b;
  bd_root : ∃ dr, open_dir w root dr ∧ im_get dr (lit "bin") = Some b;
  bd_bin : open_dir w b d;
  bd_entries : Forall (λ e, live w e.2 ∧ e.2 ≠ root ∧ e.2 ≠ b) d
}.

(** The program [name] is installed with the content [bytes]. *)
Definition installed (w : World) (d : DirData) (name : str) (bytes : list u8) : Prop :=
  ∃ p st, im_get d name = Some p ∧ store w !! p = Some (mkRamFile (NFile bytes) st) ∧ permissions st = perms_rx.

Lemma lock_eq {E A} mode p rf (body : RamFile → M World E A) w :
  held w = [] → store w !! p = Some rf →
  with_lock mode p body w =
    let! r := body rf (set_held w [(mode, p)]) in Ret (release (fst r), snd r).
Proof.
  intros Hh Hs. unfold with_lock. rewrite (acquire_ok mode p w rf); [by rewrite Hh| |done].
  rewrite Hh. destruct mode; cbn; rewrite !bool_decide_eq_false_2 by apply not_elem_of_nil; done.
Qed.

Lemma fresh_ne w root p : quiet w root → live w p → p ≠ next_ptr w.
Proof. intros Hq Hp ->. apply (q_fresh _ _ Hq) in Hp. lia. Qed.

(** Entering /ram/bin; with [CREATE_ALL] it is made if it is missing. *)
Lemma enter_existing options w root b d :
  bin_dir w root b d → step_into options root (lit "bin") w = Ret (w, Ok b).
Proof.
  intros [Hq _ (dr & (st & Hs & Hp) & Hg) _ _]. pose proof (q_held _ _ Hq) as Hh.
  unfold step_into. destruct (contains options OpenOptions_CREATE_ALL).
  - unfold with_mut_dir, mthen at 1. rewrite (lock_eq _ _ _ _ _ Hh Hs). cbn [obind mok fst snd stat].
    rewrite Hp. cbn [release set_held held tail]. change (perm_w perms_rwx) with true. cbn [negb].
    assert (E : release (set_held w [(LRead, root)]) = w) by (destruct w; cbn in *; by subst).
    rewrite E, (lock_eq _ _ _ _ _ Hh Hs). cbn [node]. unfold mthen, ensure_entry. rewrite Hg.
    cbn. destruct w as [s n h t m]. cbn in *. subst h. by rewrite insert_id.
  - unfold get_child, with_dir, mthen. rewrite (lock_eq _ _ _ _ _ Hh Hs). cbn [obind mok fst snd node].
    rewrite Hg. cbn. destruct w; cbn in *; by subst.
Qed.

(** A fresh directory next to the root. *)
Lemma enter_missing options w root dr :
  contains options OpenOptions_CREATE_ALL = true → quiet w root → open_dir w root dr →
  im_get dr (lit "bin") = None →
  ∃ w1, step_into options root (lit "bin") w = Ret (w1, Ok (next_ptr w)) ∧ bin_dir w1 root (next_ptr w) [].
Proof.
  intros Hc Hq (st & Hs & Hp) Hg. pose proof (q_held _ _ Hq) as Hh.
  assert (Hne : root ≠ next_ptr w) by (apply (fresh_ne w root root Hq); by eexists).
  unfold step_into. rewrite Hc. unfold with_mut_dir, mthen at 1. rewrite (lock_eq _ _ _ _ _ Hh Hs).
  cbn [obind mok fst snd stat]. rewrite Hp. change (perm_w perms_rwx) with true. cbn [negb].
  assert (E : release (set_held w [(LRead, root)]) = w) by (destruct w; cbn in *; by subst).
  rewrite E, (lock_eq _ _ _ _ _ Hh Hs). cbn [node]. unfold mthen, ensure_entry. rewrite Hg.
  unfold mthen, ram_dir, alloc. cbn [obind mok put_file fst snd set_held store next_ptr held now mounts set_store stat release tail].
  eexists. split; [done|]. destruct Hq as [_ Hsv Hf]. destruct w as [s n h t m]. cbn in *. subst h.
  split; cbn [store next_ptr held now mounts].
  - split; [done|exact Hsv|]. intros p. unfold live. cbn. intros [x Hx].
    destruct (decide (p = root)) as [->|H1]; [assert (root < n)%positive; [apply Hf; by eexists|lia]|].
    rewrite lookup_insert_ne in Hx by done.
    destruct (decide (p = n)) as [->|H2]; [lia|]. rewrite lookup_insert_ne in Hx by done.
    assert (p < n)%positive; [apply Hf; by eexists|lia].
  - done.
  - exists (im_push dr (lit "bin") n). split.
    + exists st. cbn. by rewrite lookup_insert_eq.
    + rewrite im_get_push by done. by rewrite decide_True.
  - eexists. cbn. rewrite lookup_insert_ne, lookup_insert_eq by done. done.
  - constructor.
Qed.

Section installing.
Context {prof : Profile}.

Definition creating (options : Z) : Prop :=
  options = Z.lor OpenOptions_CREATE_ALL OpenOptions_WRITE ∨ options = Z.lor OpenOptions_CREATE OpenOptions_WRITE.

(** What is left of [with_perms] for a file opened for writing. *)
Definition write_handle (p : ptr) : File Repr := mkFile (Shared (RamRepr p)) FCursor_default FPerms_WRITE None.

Lemma open_node_new options p w st h :
  creating options → store w !! p = Some (mkRamFile (NFile []) st) → permissions st = perms_rw →
  held w = h → (LWrite, p) ∉ h →
  open_node p options w = Ret (w, Ok (write_handle p)).
Proof.
  intros Ho Hs Hp Hh Hn. unfold open_node, mthen.
  rewrite (with_lock_ret LRead p w (mkRamFile (NFile []) st) _ (Ok perms_rw)); [| |done|cbn; by rewrite Hp].
  - by destruct Ho as [-> | ->].
  - cbn. rewrite Hh. by apply bool_decide_eq_false.
Qed.

Lemma open_new go options w root b d name :
  creating options → bin_dir w root b d → im_get d name = None → plain name →
  let p := next_ptr w in
  ∃ w2, with_lock LWrite b (open_in go b (in_mount name) options) w = Ret (w2, Ok (write_handle p)) ∧
    bin_dir w2 root b (im_push d name p) ∧
    store w2 !! p = Some (RamFile_new (now w) RamNode_file perms_rw) ∧
    ∀ q, q ≠ b → q ≠ p → store w2 !! q = store w !! q.
Proof.
  intros Ho [Hq Hne Hroot (st & Hs & Hp) He] Hg Hpl p. pose proof (q_held _ _ Hq) as Hh.
  assert (Hbp : b ≠ p) by (apply (fresh_ne w root b Hq); by eexists).
  destruct Hroot as (dr & (str & Hsr & Hpr) & Hgr).
  assert (Hrp : root ≠ p) by (apply (fresh_ne w root root Hq); by eexists).
  rewrite (lock_eq _ _ _ _ _ Hh Hs). unfold open_in. cbn [node stat]. rewrite Hp.
  destruct (parent_file_render [lit "bin"] name Hpl) as [_ Hfile].
  change (render ([lit "bin"] ++ [name])) with (in_mount name) in Hfile. rewrite Hfile, Hg.
  rewrite bool_decide_eq_false_2 by (by intros []).
  pose proof (no_trailing_sep [lit "bin"] name Hpl) as Hend. change (render ([lit "bin"] ++ [name])) with (in_mount name) in Hend.
  change (perm_x perms_rwx) with true. change (perm_w perms_rwx) with true. cbn [negb].
  rewrite andb_false_r, Hend.
  set (w1 := mkWorld (<[b := mkRamFile (NDir (im_push d name p)) st]> (<[p := RamFile_new (now w) RamNode_file perms_rw]> (store w)))
               (Pos.succ p) [(LWrite, b)] (now w) (mounts w)).
  assert (E : open_create b (mkRamFile (NDir d) st) d name ram_file options (set_held w [(LWrite, b)]) = Ret (w1, Ok (write_handle p))).
  { unfold open_create, mthen, ensure_entry. rewrite Hg. unfold mthen, ram_file, alloc.
    cbn [obind mok put_file fst snd set_held store next_ptr held now mounts set_store stat].
    apply (open_node_new options p w1 (stat (RamFile_new (now w) RamNode_file perms_rw)) [(LWrite, b)]); [done| |done|done|].
    - cbn. rewrite lookup_insert_ne, lookup_insert_eq by done. done.
    - intros Hin%list_elem_of_singleton. congruence. }
  assert (E' : (if contains options OpenOptions_CREATE_DIR then open_create b (mkRamFile (NDir d) st) d name ram_dir options
     else if contains options OpenOptions_CREATE_LINK then open_create b (mkRamFile (NDir d) st) d name empty_ram_link options
     else if intersects options (Z.lor OpenOptions_CREATE_ALL OpenOptions_CREATE)
          then open_create b (mkRamFile (NDir d) st) d name ram_file options
     else open_existing go d name options) = open_create b (mkRamFile (NDir d) st) d name ram_file options)
    by (by destruct Ho as [-> | ->]).
  rewrite E', E. cbn [obind fst snd]. eexists. split; [done|]. unfold release. cbn [w1 held tail set_held].
  destruct Hq as [_ Hsv Hf]. split; [split|]; cbn [store next_ptr held now mounts set_held].
  - split; [done|exact Hsv|]. intros q [x Hx]. cbn in Hx |- *.
    destruct (decide (q = p)) as [->|H2]; [lia|]. destruct (decide (q = b)) as [->|H1].
    + assert (b < p)%positive; [apply Hf; by eexists|lia].
    + rewrite !lookup_insert_ne in Hx by done. assert (q < p)%positive; [apply Hf; by eexists|lia].
  - done.
  - exists dr. split; [|done]. exists str. cbn. by rewrite !lookup_insert_ne by done.
  - exists st. cbn. by rewrite lookup_insert_eq.
  - unfold im_push. apply Forall_app. split.
    + eapply Forall_impl; [exact He|]. intros e ([x Hx] & H1 & H2). split; [|done]. unfold live. cbn.
      destruct (decide (e.2 = p)) as [E0|]; [rewrite E0, lookup_insert_ne, lookup_insert_eq by done; by eexists|].
      rewrite !lookup_insert_ne by done. by eexists.
    + constructor; [|done]. cbn [snd]. split; [|done]. unfold live. cbn. rewrite lookup_insert_ne, lookup_insert_eq by done. by eexists.
  - cbn. rewrite lookup_insert_ne, lookup_insert_eq by done. split; [done|].
    intros q H1 H2. by rewrite !lookup_insert_ne by done.
Qed.

(** Writing a whole buffer into an empty file. *)
Lemma write_all_new p w st buf :
  held w = [] → store w !! p = Some (mkRamFile (NFile []) st) → zlen buf <= ISIZE_MAX →
  ∃ st', ram_write_all prof p buf 0 w = Ret (set_store w (<[p := mkRamFile (NFile buf) st']> (store w)), Ok tt) ∧
    permissions st' = permissions st.
Proof.
  intros Hh Hs Hb. destruct buf as [|x buf].
  { exists st. rewrite insert_id by done. split; [|done]. unfold ram_write_all. cbn. by destruct w. }
  assert (Hc : conflicts LWrite p (held w) = false).
  { rewrite Hh. cbn. by rewrite !bool_decide_eq_false_2 by apply not_elem_of_nil. }
  assert (Hw : written [] (x :: buf) 0 = x :: buf).
  { apply list_eq. intros i. rewrite written_lookup by lia. cbn [Z.to_nat]. rewrite Nat.sub_0_r.
    case_decide; [done|]. rewrite !decide_False by (cbn in *; lia). symmetry. apply lookup_ge_None. cbn in *. lia. }
  unfold ram_write_all. cbn [length write_all]. unfold mthen.
  rewrite (ram_write_ok _ _ _ (mkRamFile (NFile []) st) []) by (done || cbn; lia).
  rewrite decide_False by (unfold zlen; cbn; lia). rewrite decide_False by lia.
  unfold uadd. rewrite uarith_in_range.
  2:{ assert (ISIZE_MAX < USIZE_MAX) by reflexivity. unfold in_usize. pose proof (zlen_nonneg (x :: buf)). lia. }
  cbn [obind]. rewrite drop_ge by (unfold zlen; cbn; lia). rewrite Hw.
  eexists. split; [destruct (length buf); reflexivity|done].
Qed.

(** Opening a program leads to the directory /ram/bin. *)
Lemma fs_open_bin w root name options :
  served w root → plain name →
  fs_open (bin_file name) options w =
    mthen (step_into options root (lit "bin"))
      (λ dir, with_lock LWrite dir (open_in (VFS_open (S (base.size (store w)))) dir (in_mount name) options)) w.
Proof.
  intros Hs Hp. unfold fs_open.
  transitivity (RamFS_open (VFS_open (S (base.size (store w)))) root (in_mount name) options w).
  - transitivity (mthen (deepest_matching_mount (bin_file name)) (λ m, match fst m with
      | RamFSObj root => RamFS_open (VFS_open (S (base.size (store w)))) root (snd m) options end) w); [done|].
    unfold mthen. by rewrite (mount_of_bin w root name Hs Hp).
  - unfold RamFS_open. destruct (parent_file_render [lit "bin"] name Hp) as [Hpar _].
    change (render ([lit "bin"] ++ [name])) with (in_mount name) in Hpar. by rewrite Hpar.
Qed.

(** Replacing the node of an entry keeps the directory. *)
Lemma bin_dir_put w root b d p rf :
  bin_dir w root b d → live w p → p ≠ root → p ≠ b →
  bin_dir (set_store w (<[p := rf]> (store w))) root b d.
Proof.
  intros [[Hh Hs Hf] Hne (dr & (st & Hsr & Hpr) & Hg) (stb & Hsb & Hpb) He] Hp H1 H2.
  split; [split|..]; cbn [set_store held mounts]; try done.
  - intros q [x Hx]. cbn in *. apply Hf. destruct (decide (q = p)) as [->|]; [done|].
    rewrite lookup_insert_ne in Hx by done. by eexists.
  - exists dr. split; [|done]. exists st. cbn. by rewrite lookup_insert_ne.
  - exists stb. cbn. by rewrite lookup_insert_ne.
  - eapply Forall_impl; [exact He|]. intros e ([x Hx] & ? & ?). split; [|done]. unfold live. cbn.
    destruct (decide (e.2 = p)) as [->|]; [rewrite lookup_insert_eq; by eexists|]. rewrite lookup_insert_ne by done. by eexists.
Qed.

(** The file of a program that is not installed yet is made, written and
    sealed; the programs before it stay. *)
Lemma install_new options w w1 root b d name bin :
  creating options → served w root → step_into options root (lit "bin") w = Ret (w1, Ok b) →
  bin_dir w1 root b d → im_get d name = None → plain name → zlen bin <= ISIZE_MAX →
  ∃ w' d', install options (bin_file name) bin w = Ret (w', Ok tt) ∧ bin_dir w' root b d' ∧
    installed w' d' name bin ∧ (∀ n x, n ≠ name → installed w1 d n x → installed w' d' n x) ∧
    (∀ n, im_get d' n = None ↔ n ≠ name ∧ im_get d n = None).
Proof.
  intros Ho Hsv Hst Hd Hg Hp Hb. set (p := next_ptr w1).
  destruct (open_new (VFS_open (S (base.size (store w)))) options w1 root b d name Ho Hd Hg Hp) as (w2 & E & Hd2 & Hs2 & Hk).
  fold p in E, Hd2, Hs2, Hk.
  assert (Eo : open (bin_file name) options w = Ret (w2, Ok (with_path (write_handle p) (bin_file name)))).
  { unfold open, mthen at 1. rewrite (fs_open_bin w root name options Hsv Hp).
    unfold mthen at 1. rewrite Hst. by rewrite E. }
  pose proof (q_held _ _ (bd_quiet _ _ _ _ Hd2)) as Hh2.
  destruct (write_all_new p w2 _ bin Hh2 Hs2 Hb) as (st' & Ew & Hperm). set (w3 := set_store w2 _) in Ew.
  set (rf4 := mkRamFile (NFile bin) (set_permissions st' perms_rx)).
  assert (Eu : ram_update_perms p perms_rx POVERWRITE w3 = Ret (set_store w3 (<[p := rf4]> (store w3)), Ok tt)).
  { apply (with_lock_put LWrite p w3 (mkRamFile (NFile bin) st')); [|cbn; by rewrite lookup_insert_eq|done].
    cbn. rewrite Hh2. by rewrite !bool_decide_eq_false_2 by apply not_elem_of_nil. }
  assert (Hent : p ≠ root ∧ p ≠ b).
  { pose proof (bd_entries _ _ _ _ Hd2) as He. unfold im_push in He. apply Forall_app in He as [_ He].
    by inversion He as [|? ? (_ & ? & ?) _]. }
  exists (set_store w3 (<[p := rf4]> (store w3))), (im_push d name p). split_and!.
  - unfold install. rewrite Eo. cbn [obind]. unfold File_write_all. cbn [repr with_path write_handle deref fr_write_all Repr_FileRepr].
    rewrite Ew. cbn [obind]. unfold File_update_perms. cbn [repr with_path write_handle deref fr_update_perms Repr_FileRepr].
    rewrite Eu. done.
  - cbn [w3 store set_store]. rewrite insert_insert_eq.
    apply (bin_dir_put w2); [done|by eexists|apply Hent..].
  - exists p, (set_permissions st' perms_rx). rewrite im_get_push by done. rewrite decide_True by done.
    split; [done|]. cbn. by rewrite lookup_insert_eq.
  - intros n x Hn (q & st & Hq & Hsq & Hpq). exists q, st. rewrite im_get_push by done. rewrite decide_False by done.
    split; [done|]. split; [|done]. cbn.
    assert (Hqn : q ≠ p) by (apply (fresh_ne w1 root q (bd_quiet _ _ _ _ Hd)); by eexists).
    assert (Hqb : q ≠ b).
    { apply im_get_elem in Hq. pose proof (bd_entries _ _ _ _ Hd) as He. rewrite Forall_forall in He. by apply He in Hq as (_ & _ & ?). }
    rewrite !lookup_insert_ne by done. by rewrite Hk.
  - intros n. rewrite im_get_push by done. case_decide; subst; naive_solver.
Qed.

(** /ram/bin with the entries [d], or not made yet. *)
Definition ready (w : World) (root : ptr) (d : DirData) : Prop :=
  (∃ b, bin_dir w root b d) ∨
  d = [] ∧ quiet w root ∧ ∃ dr, open_dir w root dr ∧ im_get dr (lit "bin") = None.

Lemma install_next w root d name bin :
  ready w root d → im_get d name = None → plain name → zlen bin <= ISIZE_MAX →
  ∃ w' d', install (Z.lor OpenOptions_CREATE_ALL OpenOptions_WRITE) (bin_file name) bin w = Ret (w', Ok tt) ∧
    ready w' root d' ∧ installed w' d' name bin ∧
    (∀ n x, n ≠ name → installed w d n x → installed w' d' n x) ∧
    (∀ n, im_get d' n = None ↔ n ≠ name ∧ im_get d n = None).
Proof.
  intros [[b Hd]|(-> & Hq & dr & Hr & Hg)] Hn Hp Hb.
  - destruct (install_new (Z.lor OpenOptions_CREATE_ALL OpenOptions_WRITE) w w root b d name bin) as (w' & d' & E & Hd' & R);
      [by left|apply (bd_quiet _ _ _ _ Hd)|by eapply enter_existing|done..|].
    exists w', d'. split; [done|]. split; [left; by exists b|done].
  - destruct (enter_missing (Z.lor OpenOptions_CREATE_ALL OpenOptions_WRITE) w root dr) as (w1 & E1 & Hd1); [done..|].
    destruct (install_new (Z.lor OpenOptions_CREATE_ALL OpenOptions_WRITE) w w1 root (next_ptr w) [] name bin) as (w' & d' & E & Hd' & I & _ & R);
      [by left|apply Hq|done..|].
    exists w', d'. split; [done|]. split; [left; by eexists|]. split; [done|]. split; [|done].
    intros n x _ (q & st & ? & _). done.
Qed.

(** All of them. *)
Lemma install_all_spec w root d bins :
  ready w root d → NoDup bins.*1 →
  Forall (λ nb, plain nb.1 ∧ zlen nb.2 <= ISIZE_MAX ∧ im_get d nb.1 = None) bins →
  ∃ w' d', install_all INCLUDED_BINS bins w = Ret (w', Ok tt) ∧ ready w' root d' ∧
    (∀ n x, (n, x) ∈ bins → installed w' d' n x) ∧
    (∀ n x, n ∉ bins.*1 → installed w d n x → installed w' d' n x).
Proof.
  revert w d. induction bins as [|[name bin] bins IH]; intros w d Hr Hnd Hf.
  { exists w, d. split; [done|]. split; [done|]. split; [by intros ? ? ?%not_elem_of_nil|done]. }
  apply NoDup_cons in Hnd as [Hni Hnd]. apply Forall_cons in Hf as [(Hp & Hb & Hg) Hf]. cbn [fst snd] in *.
  destruct (install_next w root d name bin Hr Hg Hp Hb) as (w1 & d1 & E1 & Hr1 & I1 & K1 & N1).
  destruct (IH w1 d1) as (w' & d' & E & Hr' & I & K); [done|done| |].
  { apply Forall_forall. intros [n x] Hin. rewrite Forall_forall in Hf. destruct (Hf _ Hin) as (? & ? & ?). cbn in *.
    split_and!; [done..|]. apply N1. split; [|done]. intros ->. apply Hni. apply list_elem_of_fmap. by exists (name, x). }
  exists w', d'. split_and!; [|done| |].
  - cbn [install_all]. unfold mthen. rewrite push_bin by done. rewrite E1. by rewrite up_bin.
  - intros n x [Hin|Hin]%elem_of_cons; [|by apply I]. injection Hin as -> ->. by apply K.
  - intros n x Hn Hi. cbn in Hn. apply not_elem_of_cons in Hn as [? ?]. apply K; [done|]. by apply K1.
Qed.

(** Opening an installed program: for reading and executing it is there, for
    writing it is refused. *)
Definition RUN : Z := Z.lor OpenOptions_READ OpenOptions_EXECUTE.
Definition run_handle (p : ptr) (path : str) : File Repr :=
  mkFile (Shared (RamRepr p)) FCursor_default (Z.lor FPerms_READ FPerms_EXECUTE) (Some path).

Lemma open_in_installed go options w b stb d name p st bytes :
  options = RUN ∨ options = OpenOptions_WRITE →
  held w = [] → store w !! b = Some (mkRamFile (NDir d) stb) → permissions stb = perms_rwx → plain name →
  im_get d name = Some p → p ≠ b → store w !! p = Some (mkRamFile (NFile bytes) st) → permissions st = perms_rx →
  with_lock LWrite b (open_in go b (in_mount name) options) w =
    Ret (w, if decide (options = RUN)
            then Ok (mkFile (Shared (RamRepr p)) FCursor_default (Z.lor FPerms_READ FPerms_EXECUTE) None)
            else Err (simple PermissionDenied)).
Proof.
  intros Ho Hh Hb Hpb Hpl Hg Hne Hs Hp. apply (with_lock_ret LWrite b w (mkRamFile (NDir d) stb)); [|exact Hb|].
  { rewrite Hh. cbn. by rewrite !bool_decide_eq_false_2 by apply not_elem_of_nil. }
  rewrite Hh. set (w1 := set_held w [(LWrite, b)]).
  unfold open_in. cbn [node stat]. rewrite Hpb.
  destruct (parent_file_render [lit "bin"] name Hpl) as [_ Hfile].
  pose proof (no_trailing_sep [lit "bin"] name Hpl) as Hend.
  change (render ([lit "bin"] ++ [name])) with (in_mount name) in Hfile, Hend. rewrite Hfile, Hend, Hg.
  rewrite bool_decide_eq_true_2 by done. cbn [negb]. rewrite andb_false_r. cbn [andb].
  assert (Hc : conflicts LRead p (held w1) = false).
  { cbn. apply bool_decide_eq_false. intros Hin%list_elem_of_singleton. congruence. }
  assert (E : open_existing go d name options w1 = open_node p options w1).
  { unfold open_existing. rewrite Hg. unfold mthen.
    assert (contains options OpenOptions_NO_FOLLOW_LINK = false) as -> by (by destruct Ho as [-> | ->]).
    by rewrite (with_lock_ret LRead p w1 _ _ (Ok None) Hc Hs eq_refl). }
  assert (E2 : ∀ x y z, (if contains options OpenOptions_CREATE_DIR then x
     else if contains options OpenOptions_CREATE_LINK then y
     else if intersects options (Z.lor OpenOptions_CREATE_ALL OpenOptions_CREATE) then z
     else open_existing go d name options) = open_existing go d name options) by (by destruct Ho as [-> | ->]).
  change (perm_x perms_rwx) with true. cbn [negb]. rewrite E2, E.
  unfold open_node, mthen. rewrite (with_lock_ret LRead p w1 _ _ (Ok perms_rx) Hc Hs); [|cbn; by rewrite Hp].
  by destruct Ho as [-> | ->].
Qed.

Lemma open_installed options w root d name bytes :
  options = RUN ∨ options = OpenOptions_WRITE → ready w root d → plain name → installed w d name bytes →
  ∃ p st, store w !! p = Some (mkRamFile (NFile bytes) st) ∧ held w = [] ∧
    open (bin_file name) options w =
      Ret (w, if decide (options = RUN) then Ok (run_handle p (bin_file name)) else Err (simple PermissionDenied)).
Proof.
  intros Ho [[b Hd]|(-> & _)] Hp (p & st & Hg & Hs & Hpe); [|done].
  pose proof (bd_bin _ _ _ _ Hd) as (stb & Hb & Hpb). pose proof (q_held _ _ (bd_quiet _ _ _ _ Hd)) as Hh.
  exists p, st. split; [done|]. split; [done|]. unfold open, mthen at 1.
  rewrite (fs_open_bin w root name options (q_served _ _ (bd_quiet _ _ _ _ Hd)) Hp).
  unfold mthen at 1. rewrite (enter_existing options w root b d Hd).
  rewrite (open_in_installed _ options w b stb d name p st bytes); try done.
  - by destruct Ho as [-> | ->].
  - apply im_get_elem in Hg. pose proof (bd_entries _ _ _ _ Hd) as He. rewrite Forall_forall in He. by apply He in Hg as (_ & _ & ?).
Qed.

(** Reading an installed program gives its bytes. *)
Lemma read_installed w p st path bin buf :
  held w = [] → store w !! p = Some (mkRamFile (NFile bin) st) → 2 * Z.max 1 (zlen bin) <= ISIZE_MAX →
  ∃ buf', File_read_to_end (run_handle p path) 0 (w, buf) = Ret ((w, buf'), Ok (zlen bin)) ∧
    take (length bin) buf' = bin.
Proof.
  intros Hh Hs Hb. pose proof (zlen_nonneg bin).
  destruct (ram_read_to_end_file prof w p (mkRamFile (NFile bin) st) bin buf 0) as (buf' & Er & Ht); [|done..|].
  { rewrite Hh. cbn. by rewrite bool_decide_eq_false_2 by apply not_elem_of_nil. }
  rewrite decide_True in Er by lia. rewrite Z.sub_0_r in *.
  exists buf'. split; [exact Er|]. specialize (Ht ltac:(lia)). unfold zlen in Ht. by rewrite Nat2Z.id in Ht.
Qed.

(** A startup program is handed to the task builder with exactly the bytes
    that were installed, whatever the buffer held before. *)
Lemma start_installed {T} (spawn : str → list u8 → M World (KernelError T) unit) w root d name names bin buf :
  ready w root d → plain name → installed w d name bin → 2 * Z.max 1 (zlen bin) <= ISIZE_MAX →
  ∃ buf', start_all spawn INCLUDED_BINS buf (name :: names) w =
    mthen (spawn name bin) (λ _, start_all spawn INCLUDED_BINS buf' names) w.
Proof.
  intros Hr Hp Hi Hb. destruct (open_installed RUN w root d name bin) as (p & st & Hs & Hh & Eo); [by left|done..|].
  rewrite decide_True in Eo by done. destruct (read_installed w p st (bin_file name) bin buf Hh Hs Hb) as (buf' & Er & Ht).
  exists buf'. cbn [start_all]. rewrite push_bin by done. change (Z.lor OpenOptions_READ OpenOptions_EXECUTE) with RUN.
  rewrite Eo. cbn [obind]. rewrite Er. cbn [obind]. rewrite up_bin by done.
  assert (Hl : zlen bin <= zlen buf') by (unfold zlen; rewrite <- Ht, length_take; lia).
  rewrite decide_True by done. unfold zlen at 1. rewrite Nat2Z.id, Ht. done.
Qed.

(** The files of the built-in programs, in a directory that exists. *)
Lemma builtins_installed w root b d :
  bin_dir w root b d →
  Forall (λ n, im_get d n = None) [lit "shutdown"; lit "serial"; lit "read_from"] →
  ∃ w' d', builtin_init w = Ret (w', Ok tt) ∧ bin_dir w' root b d' ∧
    Forall (λ n, installed w' d' n BUILTIN_MARKER) [lit "shutdown"; lit "serial"; lit "read_from"].
Proof.
  intros Hd (G1 & (G2 & (G3 & _)%Forall_cons)%Forall_cons)%Forall_cons.
  assert (Hplain : ∀ n, n ∈ [lit "shutdown"; lit "serial"; lit "read_from"] → plain n).
  { intros n Hn. apply (bool_decide_eq_true (plain n)). rewrite !elem_of_cons in Hn. by destruct Hn as [->|[->|[->|?%not_elem_of_nil]]]. }
  assert (Hstep : ∀ w d n, bin_dir w root b d → n ∈ [lit "shutdown"; lit "serial"; lit "read_from"] → im_get d n = None →
    ∃ w' d', init_fake_bin (bin_file n) w = Ret (w', Ok tt) ∧ bin_dir w' root b d' ∧
    installed w' d' n BUILTIN_MARKER ∧ (∀ m x, m ≠ n → installed w d m x → installed w' d' m x) ∧
    (∀ m, im_get d' m = None ↔ m ≠ n ∧ im_get d m = None)).
  { intros w0 d0 n H0 Hn Hg. apply (install_new _ w0 w0 root b d0 n BUILTIN_MARKER); auto.
    - by right.
    - apply (bd_quiet _ _ _ _ H0).
    - by eapply enter_existing.
    - done. }
  destruct (Hstep w d (lit "shutdown") Hd) as (w1 & d1 & E1 & H1 & I1 & K1 & N1); [by left|done|].
  destruct (Hstep w1 d1 (lit "serial") H1) as (w2 & d2 & E2 & H2 & I2 & K2 & N2); [right; by left|by apply N1|].
  destruct (Hstep w2 d2 (lit "read_from") H2) as (w3 & d3 & E3 & H3 & I3 & K3 & N3);
    [do 2 right; by left|apply N2; split; [done|by apply N1]|].
  exists w3, d3. split; [|split; [done|]].
  - unfold builtin_init, mthen. change ShutDown_PATH with (bin_file (lit "shutdown")).
    change Serial_PATH with (bin_file (lit "serial")). change ReadFromFD_PATH with (bin_file (lit "read_from")).
    by rewrite E1, E2.
  - repeat constructor; auto.
Qed.

(** C22: Booting installs the programs built into the kernel.  On a file system
    without a /ram/bin, or with one that has none of them yet, every program
    becomes a file there: no call fails, panics or waits for a lock.
    Afterwards each of them can be opened for reading and executing, and
    reading it to the end gives the program byte for byte; opening it for
    writing is refused, so the installed programs cannot be changed through
    the file system. *)
Theorem boot_installs_programs w root d bins :
  ready w root d → NoDup bins.*1 →
  Forall (λ nb, plain nb.1 ∧ 2 * Z.max 1 (zlen nb.2) <= ISIZE_MAX ∧ im_get d nb.1 = None) bins →
  ∃ w', load_init_bins bins w = Ret (w', Ok tt) ∧
    ∀ name bin, (name, bin) ∈ bins →
      (∃ f, open (push INCLUDED_BINS name) RUN w' = Ret (w', Ok f) ∧
        ∀ buf, ∃ buf', File_read_to_end f 0 (w', buf) = Ret ((w', buf'), Ok (zlen bin)) ∧
          take (length bin) buf' = bin) ∧
      open (push INCLUDED_BINS name) OpenOptions_WRITE w' = Ret (w', Err (simple PermissionDenied)).
Proof.
  intros Hr Hnd Hf. destruct (install_all_spec w root d bins) as (w' & d' & E & Hr' & I & _); [done|done| |].
  { eapply Forall_impl; [exact Hf|]. intros nb (? & ? & ?). split_and!; [done|lia|done]. }
  exists w'. split; [done|]. intros name bin Hin. rewrite Forall_forall in Hf. destruct (Hf _ Hin) as (Hp & Hb & _). cbn [fst snd] in *.
  pose proof (I _ _ Hin) as Hi. rewrite push_bin by done. split.
  - destruct (open_installed RUN w' root d' name bin) as (p & st & Hs & Hh & Eo); [by left|done..|].
    exists (run_handle p (bin_file name)). rewrite decide_True in Eo by done. split; [done|]. intros buf.
    by apply (read_installed w' p st).
  - destruct (open_installed OpenOptions_WRITE w' root d' name bin) as (p & st & Hs & Hh & Eo); [by right|done..|].
    by rewrite decide_False in Eo by done.
Qed.

End installing.

Lemma init_world_ready now0 : ready (init_world now0) 1 [].
Proof.
  right. split; [done|]. split.
  - split; [done| |].
    + split; [done|]. intros s. cbn. apply lookup_singleton_ne. by intros [=].
    + intros p [x Hx]. by apply (init_world_ok now0) in Hx as [? _].
  - exists []. split; [|done]. eexists. done.
Qed.

Lemma boot_installs_programs_witness :
  ∃ w' f, load_init_bins (prof := Release) [(lit "tinyTerm", lit "elf"); (lit "ls", lit "x")] (init_world 0) = Ret (w', Ok tt) ∧
    open (prof := Release) (lit "/ram/bin/ls") RUN w' = Ret (w', Ok f) ∧
    open (prof := Release) (lit "/ram/bin/tinyTerm") OpenOptions_WRITE w' = Ret (w', Err (simple PermissionDenied)).
Proof.
  destruct (boot_installs_programs (prof := Release) (init_world 0) 1 [] [(lit "tinyTerm", lit "elf"); (lit "ls", lit "x")])
    as (w' & E & H).
  - apply init_world_ready.
  - apply NoDup_cons. split; [|apply NoDup_singleton]. intros Hin%list_elem_of_singleton. done.
  - constructor; [|constructor; [|constructor]]; (split; [|split; [vm_compute; discriminate|done]]);
      (repeat split; intros Hx; [done..|]; vm_compute in Hx; set_solver).
  - destruct (H (lit "ls") (lit "x")) as [(f & Ef & _) _]; [right; by left|].
    destruct (H (lit "tinyTerm") (lit "elf")) as [_ Ew]; [by left|].
    exists w', f. split; [exact E|]. split; [exact Ef|exact Ew].
Defined.

(** Without an installed program there is no /ram/bin, and the built-in
    programs are silently left out. *)
Lemma builtins_need_bin : builtin_init (prof := Release) (init_world 0) = Ret (init_world 0, Ok tt).
Proof. vm_compute. reflexivity. Qed.
