(* ===== verification/Builtins.v ===== *)
(** The bodies of the built-in programs
    (kernel/src/kernel/fs/builtin_bins.rs), which run as kernel threads.

    What a program prints is kept as a list of messages, each once although
    the contents go to the console and the serial port, and without the debug
    print of the descriptor; [exit_qemu] ends the machine.  The waits of [ReadFromFD] are those of WaitCalls.v. *)
From S2P Require Import Prelude Abi Io Fd Listing RamFile FsRepr RamFS VFS Tasks Wait Syscalls Boot WaitCalls.
Open Scope Z_scope.

(** ** Data *)

Inductive Message : Set :=
| MShutdown
| MArgv (argv : str)
| MReadFrom (fd : Z)
| MContents (contents : str) (fd : Z).

(** How a program ends: it stops the machine or returns a status. *)
Inductive Ending : Set := StopsMachine | Returns (status : Z).

Definition Run : Type := list Message * Ending.

(** [str::parse::<u32>]: an optional plus sign and at least one digit. *)
Fixpoint parse_digits (acc : Z) (s : str) : option Z :=
  match s with
  | [] => Some acc
  | c :: s =>
      if byte_in 48 57 c then
        let acc := acc * 10 + (b2z c - 48) in
        if acc <? 2 ^ 32 then parse_digits acc s else None
      else None
  end.

Definition parse_u32 (s : str) : option Z :=
  match s with
  | [] => None
  | c :: rest =>
      let digits := if b2z c =? 43 then rest else s in
      match digits with [] => None | _ => parse_digits 0 digits end
  end.

Section programs.
Context {prof : Profile} {E : Type} (hash : str → Z).

Definition ShutDown_execute (argv envp : option str) : W E Run := mok ([MShutdown], StopsMachine).

Definition Serial_execute (argv envp : option str) : W E Run :=
  match argv with
  | None => mok ([], Returns 0)
  | Some s => mok ([MArgv s], Returns 0)
  end.

Definition TEMP_LEN : Z := 64.

(** [f.read_continuous(&mut temp_buf)]: the new buffer and the result. *)
Definition read_temp (h : ptr) (temp : list u8) : W E (list u8 * Result FSError Z) :=
  λ st,
    let s := snd st in
    match k_handles (s_k s) !! h with
    | None => Panic
    | Some file =>
        let! r := read_continuous ((k_fs (s_k s), file), temp) in
        let '(((w, file), temp), res) := r in
        Ret ((fst st, set_kernel s (set_handles (set_fs (s_k s) w) (<[h := file]> (k_handles (s_k s))))),
             Ok (temp, res))
    end.

(** The loop.  The new bytes of [buf] are zeros when they are swapped with
    the first bytes of the temporary buffer. *)
Fixpoint gather (fuel : nat) (h : ptr) (waiter : option QueuTypeCondition) (buf temp : list u8) :
    W E (list u8) :=
  match fuel with
  | O => λ _, NoFuel
  | S fuel =>
      let? r := read_temp h temp in
      let '(temp, res) := r in
      match res with
      | Err _ => mok buf
      | Ok n =>
          if n <? 0 then mok buf
          else
            match (if n =? 0 then waiter else None) with
            | Some cond =>
                let? r := wait_self [cond] in
                match r with
                | None => mpanic
                | Some _ => gather fuel h waiter buf temp
                end
            | None =>
                if zlen temp <? n then mpanic
                else gather fuel h waiter (buf ++ take (Z.to_nat n) temp)
                       (replicate (Z.to_nat n) zero ++ drop (Z.to_nat n) temp)
            end
      end
  end.

Definition descriptor_of (argv : option str) : Z :=
  match argv with
  | None => STDIN_FILENO
  | Some s => default STDIN_FILENO (parse_u32 s)
  end.

Definition ReadFromFD_execute (fuel : nat) (argv envp : option str) : W E Run :=
  let fd := descriptor_of argv in
  let? s := the_state in
  match t ← current_thread (s_tm s); fd_get (fd_table (s_k s) t) fd with
  | None => mpanic
  | Some h =>
      match k_handles (s_k s) !! h with
      | None => mpanic
      | Some f =>
          let waiter := get_waiter hash f in
          let? _ := match waiter with
                    | Some c => mgr_add_queue (GenQ []) (q_type c)
                    | None => mok None
                    end in
          let? buf := gather fuel h waiter [] (replicate (Z.to_nat TEMP_LEN) zero) in
          if utf8_valid buf then
            let? _ := match waiter with Some c => mgr_remove_queue (q_type c) | None => mok tt end in
            mok ([MReadFrom fd; MContents buf fd], Returns 0)
          else mpanic
      end
  end.

(** [execute]: dispatch on the path; anything else returns 0. *)
Definition execute (fuel : nat) (path : str) (argv envp : option str) : W E Run :=
  if decide (path = ShutDown_PATH) then ShutDown_execute argv envp
  else if decide (path = Serial_PATH) then Serial_execute argv envp
  else if decide (path = ReadFromFD_PATH) then ReadFromFD_execute fuel argv envp
  else mok ([], Returns 0).

End programs.

(** ** Descriptors *)

(** The decimal digits of a number, most significant first. *)
Definition digit (d : Z) : u8 := ascii_of_nat (Z.to_nat (48 + d)).

Fixpoint value (acc : Z) (ds : list Z) : Z :=
  match ds with [] => acc | d :: ds => value (acc * 10 + d) ds end.

Lemma value_ge ds acc : Forall (λ d, 0 <= d < 10) ds → 0 <= acc → acc <= value acc ds.
Proof.
  intros Hd. revert acc. induction Hd as [|d ds Hd _ IH]; intros acc Ha; cbn [value]; [lia|].
  specialize (IH (acc * 10 + d)). lia.
Qed.

Lemma digit_spec d : 0 <= d < 10 → byte_in 48 57 (digit d) = true ∧ b2z (digit d) = 48 + d.
Proof.
  intros Hd. unfold byte_in, b2z, digit. rewrite nat_ascii_embedding by lia.
  split; [|lia]. apply andb_true_intro. split; apply Z.leb_le; lia.
Qed.

(** Parsing a string of digits gives its value exactly when that is a [u32],
    with or without a plus sign. *)
Lemma parse_u32_digits ds :
  Forall (λ d, 0 <= d < 10) ds → ds ≠ [] →
  parse_u32 (digit <$> ds) = (if value 0 ds <? 2 ^ 32 then Some (value 0 ds) else None) ∧
  parse_u32 (ascii_of_nat 43 :: (digit <$> ds)) = parse_u32 (digit <$> ds).
Proof.
  intros Hd Hne.
  assert (Hdig : ∀ acc, 0 <= acc < 2 ^ 32 → parse_digits acc (digit <$> ds) =
    if value acc ds <? 2 ^ 32 then Some (value acc ds) else None).
  { clear Hne. induction Hd as [|d ds Hd Hds IH]; intros acc Ha; cbn [fmap list_fmap parse_digits value].
    - by destruct (Z.ltb_spec acc (2 ^ 32)); [|lia].
    - destruct (digit_spec d Hd) as [-> ->]. replace (48 + d - 48) with d by lia.
      destruct (Z.ltb_spec (acc * 10 + d) (2 ^ 32)); [apply IH; lia|].
      pose proof (value_ge ds (acc * 10 + d) Hds). by destruct (Z.ltb_spec (value (acc * 10 + d) ds) (2 ^ 32)); [lia|]. }
  destruct ds as [|d ds]; [done|]. inversion_clear Hd as [|? ? Hd' Hds].
  assert (Hp : parse_u32 (digit <$> d :: ds) = parse_digits 0 (digit <$> d :: ds)).
  { cbn [fmap list_fmap parse_u32]. rewrite (proj2 (digit_spec d Hd')).
    by destruct (Z.eqb_spec (48 + d) 43); [lia|]. }
  rewrite Hp. split; [apply Hdig; lia|done].
Qed.

(** ** [read_from] on a plain file *)

Section plain.
Context {prof : Profile} {E : Type}.

(** The handle [h] stands for the plain file [p], which holds [f], is
    readable, is not being written by the call chain, and has been read up to [c]. *)
Record reads_plain (s : Sched) (h p : ptr) (f : list u8) (c : Z) : Prop := {
  rp_file : ∃ file, k_handles (s_k s) !! h = Some file ∧ repr file = Shared (RamRepr p) ∧
    may_read file = true ∧ cursor file = mkFCursor c;
  rp_node : ∃ rf, store (k_fs (s_k s)) !! p = Some rf ∧ node rf = NFile f;
  rp_free : conflicts LRead p (held (k_fs (s_k s))) = false;
  rp_range : 0 <= c <= zlen f ∧ zlen f <= ISIZE_MAX
}.

Lemma read_temp_plain ts s h p f c temp :
  reads_plain s h p f c → 
  let n := Z.min (zlen f - c) (zlen temp) in
  ∃ s', read_temp (E := E) h temp (ts, s) = Ret ((ts, s'), Ok (fill temp (slice f c (c + n)), Ok n)) ∧
    reads_plain s' h p f (c + n) ∧ s_if s' = s_if s ∧ s_mgr s' = s_mgr s.
Proof.
  intros [(file & Hh & Hr & Hm & Hc) (rf & Hs & Hn) Hf [H0 H1]] n.
  pose proof (zlen_nonneg temp) as Ht. assert (Hn0 : 0 <= n <= zlen f - c) by lia.
  assert (Hadv : advance (mkFCursor c) n = mkFCursor (c + n)).
  { unfold advance, wrap64, wrap. cbn [inner]. rewrite Z.mod_small; [done|]. unfold ISIZE_MAX in *. lia. }
  unfold read_temp. cbn [snd fst]. rewrite Hh. unfold read_continuous, File_read. rewrite Hm, Hr, Hc.
  cbn [negb deref fr_read Repr_FileRepr cursor_get inner].
  rewrite (ram_read_node _ _ rf) by done. rewrite Hn, node_read_file by lia. cbn [obind fst snd].
  eexists. split; [reflexivity|]. split; [|done]. fold n. rewrite Hadv. split.
  - eexists. cbn [set_kernel s_k set_handles k_handles]. rewrite lookup_insert_eq. split; [reflexivity|done].
  - by exists rf.
  - done.
  - lia.
Qed.

(** One round that finds bytes. *)
Lemma gather_chunk ts s h p f c waiter buf temp :
  reads_plain s h p f c → c < zlen f → zlen temp = TEMP_LEN →
  let n := Z.min (zlen f - c) TEMP_LEN in
  ∃ s' temp', (∀ fuel, gather (E := E) (S fuel) h waiter buf temp (ts, s) =
      gather fuel h waiter (buf ++ slice f c (c + n)) temp' (ts, s')) ∧
    zlen temp' = TEMP_LEN ∧ reads_plain s' h p f (c + n) ∧ s_if s' = s_if s ∧ s_mgr s' = s_mgr s.
Proof.
  intros Hp Hc Ht n. destruct (read_temp_plain ts s h p f c temp Hp) as (s' & Hr & Hp' & Hi & Hm).
  rewrite Ht in *. fold n in Hr, Hp'. pose proof (rp_range _ _ _ _ _ Hp) as [H0 H1].
  assert (Hn : 0 < n <= TEMP_LEN) by (unfold n, TEMP_LEN; lia).
  assert (Hl : length (slice f c (c + n)) = Z.to_nat n).
  { unfold slice. rewrite length_take, length_drop. unfold zlen in *. lia. }
  assert (Hfl : length (fill temp (slice f c (c + n))) = length temp).
  { apply fill_length. rewrite Hl. unfold zlen, TEMP_LEN in *. lia. }
  exists s'. eexists. split; [|split; [|done]].
  - intros fuel. cbn [gather]. unfold mthen at 1. rewrite Hr.
    destruct (Z.ltb_spec n 0); [lia|]. destruct (Z.eqb_spec n 0); [lia|]. unfold zlen at 1. rewrite Hfl. fold (zlen temp).
    destruct (Z.ltb_spec (zlen temp) n); [lia|]. rewrite <- Hl at 1. rewrite fill_take. reflexivity.
  - unfold zlen in *. rewrite length_app, length_replicate, length_drop, Hfl. lia.
Qed.

(** The loop collects the file from the cursor on. *)
Lemma gather_reads_all ts s h p f c waiter buf temp :
  reads_plain s h p f c → zlen temp = TEMP_LEN →
  ∃ k s' temp', (∀ fuel, gather (E := E) (k + fuel) h waiter buf temp (ts, s) =
      gather fuel h waiter (buf ++ drop (Z.to_nat c) f) temp' (ts, s')) ∧
    zlen temp' = TEMP_LEN ∧ reads_plain s' h p f (zlen f) ∧ s_if s' = s_if s ∧ s_mgr s' = s_mgr s.
Proof.
  remember (Z.to_nat (zlen f - c)) as m eqn:Em. revert s c buf temp Em.
  induction (lt_wf m) as [m _ IH]. intros s c buf temp Em Hp Ht.
  pose proof (rp_range _ _ _ _ _ Hp) as [H0 H1]. destruct (decide (c < zlen f)) as [Hc|Hc].
  - destruct (gather_chunk ts s h p f c waiter buf temp Hp Hc Ht) as (s1 & temp1 & Hg & Ht1 & Hp1 & Hi1 & Hm1).
    set (n := Z.min (zlen f - c) TEMP_LEN) in *. assert (0 < n) by (unfold n, TEMP_LEN; lia).
    destruct (IH (Z.to_nat (zlen f - (c + n))) ltac:(lia) s1 (c + n) (buf ++ slice f c (c + n)) temp1)
      as (k & s' & temp' & Hk & Ht' & Hp' & Hi' & Hm'); [done..|].
    exists (S k), s', temp'. split; [|split; [done|split; [done|split; congruence]]].
    intros fuel. cbn [Nat.add]. rewrite Hg, Hk, <- app_assoc. do 2 f_equal. symmetry. apply slice_drop_split; lia.
  - exists 0%nat, s, temp. replace c with (zlen f) by lia. unfold zlen at 1. rewrite Nat2Z.id, drop_all, app_nil_r.
    replace c with (zlen f) in Hp by lia. done.
Qed.

(** What happens while the program is away: it may change the contents of the
    file, but not which file the handle stands for nor make it unreadable. *)
Definition leaves_file (h p : ptr) (t : Turn) : Prop := ∀ s f c,
  reads_plain s h p f c → s_if s = true → is_Some (s_mgr s) →
  (∃ f' c', reads_plain (t_away t s) h p f' c') ∧ s_if (t_away t s) = true ∧ is_Some (s_mgr (t_away t s)).

Lemma set_wait_plain s h p f c m o : reads_plain s h p f c → reads_plain (set_wait s m o) h p f c.
Proof. by intros [? ? ? ?]. Qed.

(** At the end of the file [read_continuous] keeps returning 0, and no round
    ends the loop: whatever the turns bring, the program never returns. *)
Lemma gather_never_ends fuel ts s h p f c waiter buf temp :
  reads_plain s h p f c → zlen temp = TEMP_LEN → s_if s = true → is_Some (s_mgr s) →
  Forall (leaves_file h p) ts → gather (E := E) fuel h waiter buf temp (ts, s) = NoFuel.
Proof.
  revert ts s f c buf temp. induction fuel as [|fuel IH]; intros ts s f c buf temp Hp Ht Hi Hm Hts; [done|].
  destruct (decide (c < zlen f)) as [Hc|Hc].
  - destruct (gather_chunk ts s h p f c waiter buf temp Hp Hc Ht) as (s1 & t1 & -> & Ht1 & Hp1 & Hi1 & Hm1).
    eapply IH; try done; [by rewrite Hi1|by rewrite Hm1].
  - destruct (read_temp_plain ts s h p f c temp Hp) as (s1 & Hr & Hp1 & Hi1 & Hm1).
    pose proof (rp_range _ _ _ _ _ Hp) as [H0 H1]. pose proof (zlen_nonneg temp).
    assert (Hn : Z.min (zlen f - c) (zlen temp) = 0) by lia. rewrite Hn in *.
    assert (Hsl : slice f c (c + 0) = []) by (unfold slice; by replace (c + 0 - c) with 0 by lia).
    rewrite Hsl, fill_nil in Hr. cbn [gather]. unfold mthen at 1. rewrite Hr. cbn [Z.ltb Z.eqb Z.compare].
    destruct waiter as [cond|].
    + destruct Hm as [o Ho]. destruct Hts as [|t ts Hk Hts].
      * assert (Hw : wait_self (E := E) [cond] ([], s1) = NoFuel).
        { unfold wait_self, mthen, the_state, add_wait. cbn [snd fst]. rewrite Hm1, Ho. cbn [snd fst].
          unfold yield_now, mthen, the_state. cbn [snd fst set_wait s_if]. by rewrite Hi1, Hi. }
        unfold mthen at 1. by rewrite Hw.
      * set (r := enqueue (s_env s1) (s_tm s1) o (current_tid (s_tm s1)) [cond] (t_tries t)).
        unfold mthen at 1. destruct t as [tries away].
        rewrite (wait_self_runs [cond] tries away ts s1 o (fst r) (snd r));
          [|congruence|congruence|by unfold r; destruct (enqueue _ _ _ _ _ _)].
        destruct (Hk (set_wait s1 (fst r) (snd r)) f (c + 0)) as [(f' & c' & Hp') [Hi' Hm']];
          [by apply set_wait_plain|cbn; congruence|by eexists|].
        by eapply IH.
    + destruct (Z.ltb_spec (zlen temp) 0); [lia|]. cbn [Z.to_nat take replicate app drop].
      rewrite app_nil_r. eapply IH; try done; [by rewrite Hi1|by rewrite Hm1].
Qed.

End plain.

(** ** The programs *)

Section whole.
Context {prof : Profile} {E : Type} (hash : str → Z).

(** The descriptor the program uses, and its handle. *)
Definition opens (s : Sched) (argv : option str) (h : ptr) : Prop :=
  ∃ t, current_thread (s_tm s) = Some t ∧ fd_get (fd_table (s_k s) t) (descriptor_of argv) = Some h.

(** [read_from] on a plain file collects the whole file and then polls the
    end of it for ever: its contents are never printed. *)
Lemma read_from_plain_file ts s argv envp h p f :
  opens s argv h → reads_plain s h p f 0 → s_if s = true → is_Some (s_mgr s) → Forall (leaves_file h p) ts →
  (∀ waiter, ∃ k s' temp', ∀ fuel,
     gather (E := E) (k + fuel) h waiter [] (replicate (Z.to_nat TEMP_LEN) zero) (ts, s) =
     gather fuel h waiter f temp' (ts, s')) ∧
  ∀ fuel, execute (E := E) hash fuel ReadFromFD_PATH argv envp (ts, s) = NoFuel.
Proof.
  intros (t & Hcur & Hfd) Hp Hi [o Ho] Hts. split.
  - intros waiter. destruct (gather_reads_all (E := E) ts s h p f 0 waiter [] (replicate (Z.to_nat TEMP_LEN) zero) Hp)
      as (k & s' & temp' & Hk & _); [done|]. by exists k, s', temp'.
  - intros fuel. unfold execute. rewrite !decide_False, decide_True by done.
    unfold ReadFromFD_execute, mthen at 1, the_state. cbn [snd]. rewrite Hcur. cbn [mbind option_bind]. rewrite Hfd.
    destruct (rp_file _ _ _ _ _ Hp) as (file & Hh & _). rewrite Hh.
    unfold mthen at 1. destruct (get_waiter hash file) as [c|]; cbn [mok].
    + unfold mgr_add_queue. cbn [snd fst]. rewrite Ho. cbn [fst]. unfold mthen at 1.
      rewrite (gather_never_ends fuel ts _ h p f 0); try done; by (destruct Hp || eexists).
    + unfold mthen at 1. rewrite (gather_never_ends fuel ts s h p f 0); try done.
Qed.

(** Only an error ends it: a descriptor that may not be read gives an empty
    text at once. *)
Lemma read_from_unreadable ts s argv envp h file fuel :
  opens s argv h → k_handles (s_k s) !! h = Some file → may_read file = false → is_Some (s_mgr s) →
  ∃ s', execute (E := E) hash (S fuel) ReadFromFD_PATH argv envp (ts, s) =
    Ret ((ts, s'), Ok ([MReadFrom (descriptor_of argv); MContents [] (descriptor_of argv)], Returns 0)).
Proof.
  intros (t & Hcur & Hfd) Hh Hr [o Ho]. unfold execute. rewrite !decide_False, decide_True by done.
  assert (Hg : ∀ w temp s1, k_handles (s_k s1) = k_handles (s_k s) → ∃ s2,
    gather (E := E) (S fuel) h w [] temp (ts, s1) = Ret ((ts, s2), Ok []) ∧ s_mgr s2 = s_mgr s1).
  { intros w temp s1 Hs1. eexists. cbn [gather]. unfold mthen at 1, read_temp. cbn [snd fst].
    rewrite Hs1, Hh. unfold read_continuous, File_read. rewrite Hr. cbn [negb merr obind]. split; reflexivity. }
  unfold ReadFromFD_execute, mthen at 1, the_state. cbn [snd]. rewrite Hcur. cbn [mbind option_bind]. rewrite Hfd, Hh.
  unfold mthen at 1. destruct (get_waiter hash file) as [c|]; cbn [mok].
  - unfold mgr_add_queue. cbn [snd fst]. rewrite Ho. cbn [fst].
    destruct (Hg (Some c) (replicate (Z.to_nat TEMP_LEN) zero) (set_mgr s (fst (add_queue o (GenQ []) (q_type c)))))
      as (s2 & Hs2 & Hm2); [done|].
    unfold mthen at 1. rewrite Hs2. cbn [utf8_valid]. unfold mthen, mgr_remove_queue. cbn [snd fst]. rewrite Hm2.
    cbn [s_mgr set_mgr]. by eexists.
  - destruct (Hg None (replicate (Z.to_nat TEMP_LEN) zero) s) as (s2 & Hs2 & _); [done|].
    unfold mthen at 1. rewrite Hs2. cbn [utf8_valid]. by eexists.
Qed.

End whole.

(** Thread 1 has a plain file as descriptor 0. *)
Lemma read_from_plain_file_example fuel :
  execute (prof := Release) (E := unit) (λ _, 0) fuel ReadFromFD_PATH (Some (lit "0")) None
    ([mkTurn [true] (λ s, s); mkTurn [] (λ s, s)], reading_sched) = NoFuel.
Proof.
  apply (read_from_plain_file (prof := Release) (λ _, 0) _ reading_sched (Some (lit "0")) None 1%positive 1%positive (lit "ab")).
  - eexists. split; vm_compute; reflexivity.
  - split.
    + eexists. split; [vm_compute; reflexivity|done].
    + eexists. split; [vm_compute; reflexivity|done].
    + reflexivity.
    + vm_compute. split; [split|]; discriminate.
  - reflexivity.
  - eexists. reflexivity.
  - repeat constructor; eauto.
Qed.
