(* ===== verification/Manager.v ===== *)
(** The life of a thread beyond its own code: the resource manager
    (kernel/src/drivers/resource.rs), the end of the panic handler
    (kernel/src/main.rs), and the lookups and helpers of
    kernel/src/kernel/threading/schedule/mod.rs. *)
From S2P Require Import Prelude Abi Fd Tasks Wait.
Open Scope Z_scope.

(** ** schedule/mod.rs *)

Definition current_pid (m : TaskManager) : Z := current_tid m.

Definition NoCurrentTask : str := lit "could not find current task".

Definition current_task (m : TaskManager) : Result str Task :=
  match current_thread m with Some t => Ok t | None => Err NoCurrentTask end.

Definition with_current_task {R} (f : Task → R) (m : TaskManager) : option R :=
  match current_task m with Ok t => Some (f t) | Err _ => None end.

(** ** resource.rs *)

(** One round of the resource manager's loop, after its fifty turns of
    yielding; the orders are the iteration orders of the table when [cleanup]
    and [reschedule] read it. *)
Definition resource_round (order order' : list ThreadID) (m : TaskManager) (s : LazyRoundRobin)
    : TaskManager * LazyRoundRobin :=
  let m := cleanup m order in
  (m, reschedule m order' s).

(** ** main.rs *)

(** What the panic handler does to the threads once it has reported; the
    handler with its messages is [rust_panic] of Console.v. *)
Definition kill_current (m : TaskManager) : TaskManager :=
  match current_task m with
  | Ok _ => fst (kill m (current_tid m) 1)
  | Err _ => m
  end.

(** ** What a round achieves *)

Definition orders (m : TaskManager) (order order' : list ThreadID) : Prop :=
  order ≡ₚ elements (lut m) ∧ order' ≡ₚ elements (lut (cleanup m order)).

Lemma runnable_in_state m id :
  runnable_in m id = true ↔ id ∈ lut m ∧ (state_of m id = Some Ready ∨ state_of m id = Some Running).
Proof.
  unfold runnable_in, thread, state_of. destruct (decide (id ∈ lut m)) as [Hl|Hl]; [|by split; [|intros []]].
  destruct (objs m !! id) as [t|]; cbn; [|by split; [|intros [_ []]]]. unfold is_runnable.
  rewrite orb_true_iff, !bool_decide_eq_true. split; [intros [->| ->]; auto|intros [_ [[= ->]|[= ->]]]; auto].
Qed.

Lemma ready_in_state m id : ready_in m id = true ↔ id ∈ lut m ∧ state_of m id = Some Ready.
Proof.
  unfold ready_in, thread, state_of. destruct (decide (id ∈ lut m)) as [Hl|Hl]; [|by split; [|intros []]].
  destruct (objs m !! id) as [t|]; cbn; [|by split; [|intros []]]. unfold is_ready. rewrite bool_decide_eq_true.
  split; [intros ->; auto|by intros [_ [= ->]]].
Qed.

(** After a round the run queue holds exactly the live threads that can run,
    each once; the dead ones are gone from the table. *)
Lemma resource_round_spec order order' m s :
  tm_inv m → orders m order order' →
  let '(m', s') := resource_round order order' m s in
  NoDup (queue s') ∧
  (∀ id, id ∈ queue s' ↔ id ∈ lut m ∧ (state_of m id = Some Ready ∨ state_of m id = Some Running)) ∧
  (∀ id, id ∈ lut m' ↔ id ∈ lut m ∧ state_of m id ≠ Some Zombie) ∧
  (∀ id, state_of m' id = state_of m id).
Proof.
  intros Hi [Ho Ho']. unfold resource_round. cbn [reschedule queue].
  destruct (cleanup_spec m order Hi Ho) as (removed & _ & Hr & Hl & _ & Hs & _).
  assert (Hlut : ∀ id, id ∈ lut (cleanup m order) ↔ id ∈ lut m ∧ state_of m id ≠ Some Zombie).
  { intros id. rewrite Hl, elem_of_difference, elem_of_list_to_set, Hr, is_zombie_state, bool_decide_eq_true. tauto. }
  split_and!; [| |done|done].
  - apply NoDup_filter. rewrite Ho'. apply NoDup_elements.
  - intros id. rewrite list_elem_of_filter, Ho', elem_of_elements, Is_true_true, runnable_in_state, Hs, Hlut.
    split; [tauto|]. intros [Hin Hst]. split_and!; try done; destruct Hst; congruence.
Qed.

(** C14: A woken thread runs again.  A thread that slept may have been dropped
    from the run queue; after it is woken, the next round of the resource
    manager puts it back, and if the threads that can run are ready, it gets
    the processor exactly once within as many timer ticks as there are such
    threads. *)
Theorem woken_thread_runs order order' m s id :
  tm_inv m → id ∈ lut m → (state_of m id = Some Blocking ∨ state_of m id = Some Sleeping) →
  (∀ j, state_of m j ≠ Some Running) →
  let m1 := fst (wake m id) in
  orders m1 order order' →
  let '(m2, s2) := resource_round order order' m1 s in
  ∃ m3 ran, run_switches (length (queue s2)) m2 s2 = (m3, s2, Some <$> ran) ∧
    NoDup ran ∧ id ∈ ran ∧ ∀ j, j ∈ ran ↔ j ∈ lut m1 ∧ state_of m1 j = Some Ready.
Proof.
  intros Hi Hl Hs Hrun m1 Ho.
  assert (Hi1 : tm_inv m1).
  { by apply (sound_wake m id) in Hi as [? _]. }
  assert (Hst : ∀ j, state_of m1 j = if decide (j = id) then Some Ready else state_of m j).
  { intros j. unfold m1. rewrite wake_state. case_decide as Hj; case_decide; try done; try naive_solver.
    destruct Hj as [-> _]. by destruct Hs as [-> | ->]. }
  pose proof (resource_round_spec order order' m1 s Hi1 Ho) as R.
  destruct (resource_round order order' m1 s) as [m2 s2]. destruct R as (Hnd & Hq & Hlut & Hst2).
  assert (Hq' : ∀ j, j ∈ queue s2 ↔ j ∈ lut m1 ∧ state_of m1 j = Some Ready).
  { intros j. rewrite Hq. split; [|naive_solver]. intros [? [?|Hr]]; [done|]. rewrite Hst in Hr. case_decide; [done|]. by apply Hrun in Hr. }
  destruct s2 as [q]. cbn [queue] in *.
  destruct (run_switches_rotate m2 q []) as (m3 & E & _).
  { rewrite app_nil_r. apply Forall_forall. intros j Hj. apply ready_in_state.
    apply Hq' in Hj as [? Hj]. rewrite Hlut, Hst2. split; [split; [done|congruence]|done]. }
  rewrite app_nil_r in E. exists m3, q. split_and!; [done|done| |done].
  apply Hq'. split; [unfold m1; by rewrite wake_lut|]. rewrite Hst. by rewrite decide_True.
Qed.

(** Killing a thread of the table changes its state and nothing else of the
    table. *)
Lemma kill_one_state m id sig t :
  thread m id = Some t →
  let m' := fst (kill m id sig) in
  lut m' = lut m ∧ freed_kstacks m' = freed_kstacks m ∧
  (∀ j, state_of m' j = if decide (j = id) then Some Zombie else state_of m j) ∧
  ∀ j, kstack_of m' j = kstack_of m j.
Proof.
  intros Ht. unfold kill. rewrite Ht. apply thread_Some in Ht as [_ Ht]. cbn.
  split_and!; [done|done|..]; intros j; unfold state_of, kstack_of; cbn;
    (destruct (decide (j = id)) as [->|]; [rewrite !lookup_alter_eq, Ht|rewrite !lookup_alter_ne by done]); done.
Qed.

(** The killed thread leaves with the next round, and nobody else does. *)
Lemma kill_current_costs order order' m s t :
  tm_inv m → current_thread m = Some t → (∀ j, j ∈ lut m → state_of m j ≠ Some Zombie) →
  let id := current_tid m in
  let m1 := kill_current m in
  (∀ j, state_of m1 j = if decide (j = id) then Some Zombie else state_of m j) ∧
  (orders m1 order order' →
   let '(m2, s2) := resource_round order order' m1 s in
   lut m2 = lut m ∖ {[id]} ∧ (id ∉ queue s2) ∧
   freed_kstacks m2 = freed_kstacks m ++ omap (kstack_of m) [id] ∧
   (∀ j, j ≠ id → runnable_in m j = true → j ∈ queue s2)).
Proof.
  intros Hi Hc Hz id m1.
  assert (E : m1 = fst (kill m id 1)) by (unfold m1, kill_current, current_task; by rewrite Hc).
  destruct (kill_one_state m id 1 t Hc) as (Hl & Hf & Hst & Hk). rewrite <- E in Hl, Hf, Hst, Hk.
  assert (Hi1 : tm_inv m1) by (rewrite E; by apply (sound_kill m id 1) in Hi as [? _]).
  split; [done|]. intros Ho. pose proof (resource_round_spec order order' m1 s Hi1 Ho) as R.
  destruct Ho as [Ho _]. destruct (cleanup_spec m1 order Hi1 Ho) as (removed & Hnd & Hr & Hl2 & _ & _ & Hf2).
  unfold resource_round in *. destruct R as (_ & Hq & _ & _).
  assert (Hin : id ∈ lut m) by (by apply thread_Some in Hc as [? _]).
  assert (Hrem : removed = [id]).
  { assert (Hone : ∀ j, j ∈ removed ↔ j = id).
    { intros j. rewrite Hr, is_zombie_state, bool_decide_eq_true, Hst, Hl. case_decide; [naive_solver|].
      split; [|done]. intros [Hj Hs]. by apply Hz in Hs. }
    assert (P : removed ≡ₚ [id]).
    { apply NoDup_Permutation; [done|apply NoDup_singleton|]. intros j. by rewrite Hone, list_elem_of_singleton. }
    by apply Permutation_singleton_r in P. }
  subst removed. split_and!.
  - rewrite Hl2, Hl. set_solver.
  - rewrite Hq, Hst, decide_True by done. naive_solver.
  - rewrite Hf2, Hf. f_equal. cbn. by rewrite Hk.
  - intros j Hj Hrun. apply Hq. rewrite Hl, Hst, decide_False by done. by apply runnable_in_state.
Qed.

(** ** Witnesses *)

(** Thread 2 sleeps and is not in the run queue. *)
Definition sleeper : TaskManager := update_obj (sample_manager [1; 2]) 2 (set_state Sleeping).

Lemma two_threads m : lut m = {[1; 2]} → zombies m = [] → is_Some (objs m !! 1) → is_Some (objs m !! 2) →
  map_Forall (λ id t, tid t = id) (objs m) → tm_inv m.
Proof.
  intros Hl Hz H1 H2 Ht. split; [|split; [|exact Ht]].
  - intros id Hid. rewrite Hl in Hid. assert (id = 1 ∨ id = 2) as [-> | ->] by set_solver; done.
  - rewrite Hz. by intros id ?%not_elem_of_nil.
Qed.

Lemma woken_thread_runs_witness :
  let '(m2, s2) := resource_round [2; 1] [2; 1] (fst (wake sleeper 2)) (mkRR [1]) in
  ∃ m3 ran, run_switches (length (queue s2)) m2 s2 = (m3, s2, Some <$> ran) ∧ 2 ∈ ran.
Proof.
  pose proof (woken_thread_runs [2; 1] [2; 1] sleeper (mkRR [1]) 2) as H.
  cbv zeta in H. destruct (resource_round [2; 1] [2; 1] (fst (wake sleeper 2)) (mkRR [1])) as [m2 s2].
  destruct H as (m3 & ran & E & _ & Hin & _).
  - apply two_threads; [reflexivity|reflexivity|vm_compute; by eexists|vm_compute; by eexists|].
    apply map_Forall_to_list. vm_compute. repeat constructor.
  - vm_compute. reflexivity.
  - right. vm_compute. reflexivity.
  - intros j. unfold state_of. intros Hj. destruct (objs sleeper !! j) as [t|] eqn:Ht; [|done]. cbn in Hj. injection Hj as Hj.
    apply elem_of_map_to_list in Ht.
    assert (Hall : Forall (λ x : ThreadID * Task, t_state x.2 ≠ Running) (map_to_list (objs sleeper)))
      by (vm_compute; repeat constructor; discriminate).
    rewrite Forall_forall in Hall. by apply Hall in Ht.
  - split; vm_compute; reflexivity.
  - exists m3, ran. split; [exact E|exact Hin].
Defined.
