(* ===== verification/Console.v ===== *)
(** Printing from the kernel: the print macros and
    kernel/src/kernel/devices/tty/{mod,io}.rs, the serial port
    (kernel/src/arch/x86/serial.rs), and the two places where a message
    decides what happens next: the system-call handler and the panic handler.

    Text goes to the terminal of TermRender.v before the threads run, and to
    the descriptors of the running thread afterwards.  What is printed is kept
    as the bytes given to the terminal and to the port. *)
From S2P Require Import Prelude Abi Io Fd Listing RamFile FsRepr RamFS VFS FsInv FsProps Tasks Syscalls Manager.
Open Scope Z_scope.

(** ** serial.rs *)

(** [SERIAL1]: the lock, and the bytes sent. *)
Record Serial : Type := mkSerial { sp_locked : bool; sp_sent : list u8 }.

Inductive SerialErr : Set := IsLocked | WriteErr.

Definition send (s : Serial) (b : u8) : Serial := mkSerial (sp_locked s) (sp_sent s ++ [b]).

(** [write_fmt] on the port: writing never fails. *)
Definition send_all (s : Serial) (bytes : list u8) : Serial := foldl send s bytes.

(** [SERIAL1.lock()]: a lock its own call chain holds blocks. *)
Definition serial_print (bytes : list u8) (s : Serial) : Outcome Serial :=
  if sp_locked s then Blocked else Ret (send_all s bytes).

Definition serial_try_print (bytes : list u8) (s : Serial) : Serial * Result SerialErr unit :=
  if sp_locked s then (s, Err IsLocked) else (send_all s bytes, Ok tt).

Definition raw_print (slice : list u8) (s : Serial) : Outcome Serial :=
  if sp_locked s then Blocked else Ret (send_all s slice).

(** The forced variants go past the lock. *)
Definition force_raw_print (slice : list u8) (s : Serial) : Serial := send_all s slice.
Definition force_print (input : list u8) (s : Serial) : Serial := send_all s input.

(** ** tty/io.rs and the macros *)

Record Console : Type := mkConsole {
  con_k : Kernel;
  con_running : bool;       (* [threading::is_running()] *)
  con_if : bool;            (* the interrupt flag *)
  con_term : list u8;       (* text given to the terminal *)
  con_serial : Serial
}.

Definition set_con_k (c : Console) (k : Kernel) : Console :=
  mkConsole k (con_running c) (con_if c) (con_term c) (con_serial c).

Section print.
Context {prof : Profile}.

(** [current_thread().unwrap().fd(fd).unwrap().write_continuous(bytes).unwrap()] *)
Definition thread_write (fd : Z) (bytes : list u8) (k : Kernel) : Outcome Kernel :=
  match t ← current_thread (k_tm k); h ← fd_get (fd_table k t) fd; f ← k_handles k !! h; Some (h, f) with
  | None => Panic
  | Some (h, file) =>
      let! r := write_continuous bytes (k_fs k, file) in
      match r with
      | ((w, file), Ok _) => Ret (set_handles (set_fs k w) (<[h := file]> (k_handles k)))
      | (_, Err _) => Panic
      end
  end.

Definition on_k (f : Kernel → Outcome Kernel) (c : Console) : Outcome Console :=
  let! k := f (con_k c) in Ret (set_con_k c k).

Definition write_stdout (bytes : list u8) (c : Console) : Outcome Console :=
  if con_running c then on_k (thread_write STDOUT_FILENO bytes) c
  else Ret (mkConsole (con_k c) (con_running c) (con_if c) (con_term c ++ bytes) (con_serial c)).

Definition write_stderr (bytes : list u8) (c : Console) : Outcome Console :=
  on_k (thread_write STDERR_FILENO bytes) c.

Definition serial_stub (bytes : list u8) (c : Console) : Outcome Console :=
  let! s := serial_print bytes (con_serial c) in
  Ret (mkConsole (con_k c) (con_running c) (con_if c) (con_term c) s).

Definition ESC : u8 := byte 27.
Definition NL : list u8 := [byte 10].
Definition KERR : list u8 := ESC :: lit "[31m[KERR]" ++ ESC :: lit "[0m ".
Definition KINFO : list u8 := ESC :: lit "[34m[KINFO]" ++ ESC :: lit "[0m ".

Definition print (s : list u8) : Console → Outcome Console := write_stdout s.
Definition println (s : list u8) : Console → Outcome Console := print (s ++ NL).
Definition eprint (s : list u8) : Console → Outcome Console := write_stderr (KERR ++ s).
Definition eprintln (s : list u8) : Console → Outcome Console := eprint (s ++ NL).
Definition kserial_print (s : list u8) : Console → Outcome Console := serial_stub (KINFO ++ s).
Definition serial_println (s : list u8) : Console → Outcome Console := kserial_print (s ++ NL).
Definition cross_print (s : list u8) (c : Console) : Outcome Console :=
  let! c := print s c in kserial_print s c.
Definition cross_println (s : list u8) : Console → Outcome Console := cross_print (s ++ NL).

(** ** The messages of the system-call handler *)

(** [syscall_handler] of Syscalls.v with the message for a number out of
    range, whose text is [bad_number]. *)
Definition syscall_entry (hhdm : Z) (rest : OtherCalls) (bad_number : Z → str) (a : SysCallCtx) (c : Console)
    : option (Outcome (Console * SysCallCtx)) :=
  if MAX_SYSCALL <? num a then
    Some (let! c := eprintln (bad_number (num a)) c in Ret (c, ret a (SysErrCode_discr BadRqstD)))
  else
    r ← syscall_handler hhdm rest a (con_k c);
    Some (let! x := r in Ret (set_con_k c (fst x), snd x)).

(** ** The panic handler *)

(** [rust_panic] with its messages, up to the loop of yields at its end;
    [info] and [obituary] are the texts. *)
Definition rust_panic (info : str) (obituary : option Task → ThreadID → str) (c : Console) : Outcome Console :=
  let! c := (if con_if c then Ret c
             else let! c := serial_println (lit "paniced witt disabled interrupts. Trying to recover...") c in
                  Ret (mkConsole (con_k c) (con_running c) true (con_term c) (con_serial c))) in
  let! c := eprintln (lit "panic: " ++ info) c in
  let m := k_tm (con_k c) in
  let! c := eprintln (obituary (current_thread m) (current_tid m)) c in
  Ret (set_con_k c (set_tm (con_k c) (kill_current (k_tm (con_k c))))).

(** [test_panic_handler] of lib.rs, which takes the place of the messages in a
    test run. *)
Definition test_panic_handler (info : str) (c : Console) : Outcome Console :=
  let! c := eprintln (byte 10 :: lit "test " ++ info) c in
  let m := k_tm (con_k c) in
  Ret (set_con_k c (set_tm (con_k c) (fst (kill m (current_tid m) 1)))).

(** A panic calls the handler, and a panic of the handler calls it again, with
    interrupts on by then. *)
Fixpoint on_panic (fuel : nat) (info : str) (obituary : option Task → ThreadID → str) (c : Console)
    : Outcome Console :=
  match fuel with
  | O => NoFuel
  | S fuel =>
      match rust_panic info obituary c with
      | Panic => on_panic fuel info obituary (mkConsole (con_k c) (con_running c) true (con_term c) (con_serial c))
      | o => o
      end
  end.

End print.

(** ** What a write to a descriptor does *)

Section writes.
Context {prof : Profile}.

Lemma thread_write_tm fd bytes k k' : thread_write fd bytes k = Ret k' → k_tm k' = k_tm k ∧ k_fds k' = k_fds k.
Proof.
  unfold thread_write. destruct (mbind _ _) as [[h file]|]; [|done].
  destruct (write_continuous bytes (k_fs k, file)) as [[[w f'] [n|e]]| | |]; try done. by intros [= <-].
Qed.

(** Without the descriptor every write panics. *)
Lemma thread_write_closed fd bytes k t :
  current_thread (k_tm k) = Some t → fd_get (fd_table k t) fd = None → thread_write fd bytes k = Panic.
Proof. intros Ht Hf. unfold thread_write. rewrite Ht. cbn [mbind option_bind]. by rewrite Hf. Qed.

(** So does it before there is a current thread. *)
Lemma thread_write_no_thread fd bytes k : current_thread (k_tm k) = None → thread_write fd bytes k = Panic.
Proof. intros Ht. unfold thread_write. by rewrite Ht. Qed.

(** The descriptor is a plain file with room for [n] more bytes. *)
Record plain_output (fd : Z) (n : Z) (k : Kernel) : Prop := {
  po_file : ∃ t h file p f rf, current_thread (k_tm k) = Some t ∧ fd_get (fd_table k t) fd = Some h ∧
    k_handles k !! h = Some file ∧ repr file = Shared (RamRepr p) ∧ may_write file = true ∧
    conflicts LWrite p (held (k_fs k)) = false ∧ store (k_fs k) !! p = Some rf ∧ node rf = NFile f ∧
    0 <= cursor_get (cursor file) ∧ cursor_get (cursor file) + n <= ISIZE_MAX ∧ zlen f <= ISIZE_MAX
}.

Lemma thread_write_plain fd bytes k n :
  plain_output fd n k → zlen bytes <= n →
  ∃ k', thread_write fd bytes k = Ret k' ∧ plain_output fd (n - zlen bytes) k' ∧ k_tm k' = k_tm k.
Proof.
  intros [(t & h & file & p & f & rf & Ht & Hf & Hh & Hr & Hw & Hc & Hs & Hn & H0 & H1 & H2)] Hb.
  pose proof (zlen_nonneg bytes) as Hpos. set (c := cursor_get (cursor file)) in *.
  assert (Hadv : advance (cursor file) (zlen bytes) = mkFCursor (c + zlen bytes)).
  { unfold advance, wrap64, wrap. unfold c, cursor_get. rewrite Z.mod_small; [done|].
    unfold c, cursor_get, ISIZE_MAX in *. lia. }
  unfold thread_write. rewrite Ht. cbn [mbind option_bind]. rewrite Hf. cbn [mbind option_bind]. rewrite Hh.
  cbn [mbind option_bind]. unfold write_continuous, File_write. rewrite Hw, Hr. cbn [negb deref fr_write Repr_FileRepr].
  fold c. rewrite (ram_write_ok _ _ _ rf f) by (done || lia). cbn [obind].
  eexists. split; [reflexivity|]. split; [|done]. split.
  eexists t, h, _, p, (written f bytes c), _. cbn [k_tm set_handles set_fs k_fs k_handles].
  split; [done|]. split; [done|]. split; [by rewrite lookup_insert_eq|].
  cbn [repr cursor]. rewrite Hadv. split; [done|]. split; [done|]. split; [done|].
  cbn [store set_store]. split; [by rewrite lookup_insert_eq|]. split; [done|]. cbn [cursor_get inner].
  split; [lia|]. split; [lia|]. rewrite zlen_written by done. lia.
Qed.

End writes.

(** ** Panics *)

Section panics.
Context {prof : Profile} (info : str) (obituary : option Task → ThreadID → str).

(** The part before the messages: interrupts on. *)
Lemma panic_prelude c :
  con_if c = true ∨ sp_locked (con_serial c) = false →
  ∃ s, rust_panic info obituary c =
    (let c1 := mkConsole (con_k c) (con_running c) true (con_term c) s in
     let! c := eprintln (lit "panic: " ++ info) c1 in
     let m := k_tm (con_k c) in
     let! c := eprintln (obituary (current_thread m) (current_tid m)) c in
     Ret (set_con_k c (set_tm (con_k c) (kill_current (k_tm (con_k c)))))).
Proof.
  intros Hc. unfold rust_panic. destruct (con_if c) eqn:Hi.
  - exists (con_serial c). cbn [obind]. by rewrite <- Hi; destruct c.
  - destruct Hc as [?|Hl]; [done|]. unfold serial_println, kserial_print, serial_stub, serial_print. rewrite Hl.
    by eexists.
Qed.

Lemma eprintln_closed s c t :
  current_thread (k_tm (con_k c)) = Some t → fd_get (fd_table (con_k c) t) STDERR_FILENO = None →
  eprintln s c = Panic.
Proof.
  intros Ht Hf. unfold eprintln, eprint, write_stderr, on_k. by rewrite (thread_write_closed _ _ _ t).
Qed.

Lemma eprintln_no_thread s c : current_thread (k_tm (con_k c)) = None → eprintln s c = Panic.
Proof. intros Ht. unfold eprintln, eprint, write_stderr, on_k. by rewrite thread_write_no_thread. Qed.

Definition eprintln_len (s : str) : Z := zlen (KERR ++ s ++ NL).

Lemma eprintln_plain s c n :
  plain_output STDERR_FILENO n (con_k c) → eprintln_len s <= n →
  ∃ k, eprintln s c = Ret (set_con_k c k) ∧ plain_output STDERR_FILENO (n - eprintln_len s) k ∧
    k_tm k = k_tm (con_k c).
Proof.
  intros Hp Hn. destruct (thread_write_plain _ _ _ _ Hp Hn) as (k & E & Hk & Htm). exists k.
  split; [|done]. unfold eprintln, eprint, write_stderr, on_k. by rewrite E.
Qed.

(** No level of the handler gets past its first message. *)
Lemma handler_never_returns c fuel :
  (∀ s c', con_k c' = con_k c → eprintln s c' = Panic) →
  con_if c = true ∨ sp_locked (con_serial c) = false →
  on_panic fuel info obituary c = NoFuel.
Proof.
  revert c. induction fuel as [|fuel IH]; intros c He Hc; [done|]. cbn [on_panic].
  destruct (panic_prelude c Hc) as (s & ->). cbn zeta. rewrite He by done. cbn [obind].
  apply IH; [|by left]. intros s' c' Hk. by apply He.
Qed.

(** With room for the report, the handler gets to the kill. *)
Lemma panic_reports c n :
  con_if c = true ∨ sp_locked (con_serial c) = false →
  let m := k_tm (con_k c) in
  plain_output STDERR_FILENO n (con_k c) →
  eprintln_len (lit "panic: " ++ info) + eprintln_len (obituary (current_thread m) (current_tid m)) <= n →
  ∃ c', rust_panic info obituary c = Ret c' ∧ con_if c' = true ∧ k_tm (con_k c') = kill_current m.
Proof.
  intros Hc m Hp Hn. destruct (panic_prelude c Hc) as (s & ->). cbv zeta.
  set (c1 := mkConsole (con_k c) (con_running c) true (con_term c) s).
  set (l1 := lit "panic: " ++ info) in *. set (l2 := obituary (current_thread m) (current_tid m)) in *.
  assert (Hl2 : 0 <= eprintln_len l2) by apply zlen_nonneg.
  destruct (eprintln_plain l1 c1 n Hp ltac:(lia)) as (k1 & -> & Hp1 & Htm1). cbn [obind].
  change (con_k (set_con_k c1 k1)) with k1. rewrite Htm1. change (k_tm (con_k c1)) with m. fold l2.
  destruct (eprintln_plain l2 (set_con_k c1 k1) _ Hp1 ltac:(lia)) as (k2 & -> & _ & Htm2). cbn [obind].
  eexists. split; [reflexivity|]. split; [done|].
  change (con_k (set_con_k (set_con_k c1 k1) k2)) with k2. rewrite Htm2. cbn [set_con_k con_k set_tm k_tm].
  change (con_k (set_con_k c1 k1)) with k1. by rewrite Htm1.
Qed.

(** C16: the panic handler reports on the descriptor 2 of the thread that
    panicked.  Where that is a file with room for the two messages, the
    handler ends with interrupts on and has done to the threads exactly what
    [kill_current] does.  Where the thread has no descriptor 2, or there
    is no thread yet, the report panics, the handler is entered again, and
    this never ends: the thread is not killed. *)
Theorem panic_handler_spec c n :
  con_if c = true ∨ sp_locked (con_serial c) = false →
  let m := k_tm (con_k c) in
  (plain_output STDERR_FILENO n (con_k c) →
   eprintln_len (lit "panic: " ++ info) + eprintln_len (obituary (current_thread m) (current_tid m)) <= n →
   ∃ c', rust_panic info obituary c = Ret c' ∧ con_if c' = true ∧ k_tm (con_k c') = kill_current m) ∧
  ((∀ t, current_thread m = Some t → fd_get (fd_table (con_k c) t) STDERR_FILENO = None) →
   ∀ fuel, on_panic fuel info obituary c = NoFuel).
Proof.
  intros Hc m. split.
  - by apply panic_reports.
  - intros Hno fuel. apply handler_never_returns; [|done]. intros s c' Hk.
    destruct (current_thread m) as [t|] eqn:Ht.
    + apply (eprintln_closed _ _ t); rewrite Hk; [done|by apply Hno].
    + apply eprintln_no_thread. by rewrite Hk.
Qed.

(** C15: a panic costs one thread.  When the report finds room on descriptor 2
    of the panicking thread, the handler gets past it, makes that thread a
    zombie (after which it only yields) and touches no other thread; after the next round of the resource
    manager the thread is in neither the table nor the run queue, its kernel
    stack has been freed once, and every other thread that could run is in the
    run queue. *)
Theorem panic_costs_one_thread c n order order' s :
  con_if c = true ∨ sp_locked (con_serial c) = false →
  let m := k_tm (con_k c) in
  let id := current_tid m in
  plain_output STDERR_FILENO n (con_k c) →
  eprintln_len (lit "panic: " ++ info) + eprintln_len (obituary (current_thread m) id) <= n →
  tm_inv m → (∀ j, j ∈ lut m → state_of m j ≠ Some Zombie) →
  ∃ c', rust_panic info obituary c = Ret c' ∧
    let m1 := k_tm (con_k c') in
    (∀ j, state_of m1 j = if decide (j = id) then Some Zombie else state_of m j) ∧
    (orders m1 order order' →
     let '(m2, s2) := resource_round order order' m1 s in
     lut m2 = lut m ∖ {[id]} ∧ (id ∉ queue s2) ∧
     freed_kstacks m2 = freed_kstacks m ++ omap (kstack_of m) [id] ∧
     (∀ j, j ≠ id → runnable_in m j = true → j ∈ queue s2)).
Proof.
  intros Hc m id Hp Hn Hi Hz. destruct (panic_reports c n Hc Hp Hn) as (c' & E & _ & Htm).
  exists c'. split; [done|]. cbv zeta. rewrite Htm. destruct Hp as [(t & h & f & p & d & rf & Ht & _)].
  by apply (kill_current_costs order order' m s t).
Qed.

(** Two system calls of a user program stop the kernel: [close(2)], then any
    number out of range.  The message about the number panics, and so does
    the handler, for ever. *)
Lemma user_program_stops_kernel hhdm rest bad_number k k1 t c a fuel :
  current_thread (k_tm k) = Some t → sys_close STDERR_FILENO k = Ret (k1, Ok tt) →
  con_k c = k1 → con_if c = true → MAX_SYSCALL < num a →
  syscall_entry hhdm rest bad_number a c = Some Panic ∧ on_panic fuel info obituary c = NoFuel.
Proof.
  intros Ht Hclose Hk Hi Hn.
  assert (Hno : current_thread (k_tm k1) = Some t ∧ fd_get (fd_table k1 t) STDERR_FILENO = None).
  { unfold sys_close, current_or_err, mthen at 1 in Hclose. rewrite Ht in Hclose. cbn [ok_or remove_fd] in Hclose.
    unfold mthen, put_fd_table, mlift in Hclose. cbn in Hclose.
    destruct (fd_table k t !! STDERR_FILENO); [|done]. injection Hclose as <-.
    split; [done|]. unfold fd_table, fd_get. cbn. rewrite lookup_insert_eq. cbn. apply lookup_delete_eq. }
  destruct Hno as [Ht1 Hf1]. split.
  - unfold syscall_entry. destruct (Z.ltb_spec MAX_SYSCALL (num a)); [|lia].
    by rewrite (eprintln_closed _ _ t) by (rewrite Hk; done).
  - apply handler_never_returns; [|by left]. intros s c' Hc'. apply (eprintln_closed _ _ t); rewrite Hc', Hk; done.
Qed.

End panics.

(** Before the threads run, ordinary messages reach the terminal whatever the
    state is; errors panic, as in [load_init_bins] during boot. *)
Lemma early_messages {prof : Profile} s c :
  con_running c = false → current_thread (k_tm (con_k c)) = None →
  (∃ c', println s c = Ret c' ∧ con_term c' = con_term c ++ s ++ NL) ∧ eprintln s c = Panic.
Proof.
  intros Hr Ht. split; [|by apply eprintln_no_thread]. unfold println, print, write_stdout. rewrite Hr. by eexists.
Qed.

(** ** Instances *)

(** Thread 1 has a file as its descriptor 2. *)
Definition reporting (fds : FDMap) : Console :=
  mkConsole (mkKernel (update_current (sample_manager [1]) 1) (one_file []) (λ _, zero) {[ 1 := fds ]}
    {[ 1%positive := mkFile (Shared (RamRepr 1)) FCursor_default FPerms_WRITE None ]} 2 0)
    true false [] (mkSerial false []).

Lemma reporting_output :
  plain_output STDERR_FILENO 100 (con_k (reporting {[ 2 := 1%positive ]})).
Proof.
  split. do 6 eexists. split; [vm_compute; reflexivity|]. split; [vm_compute; reflexivity|].
  split; [vm_compute; reflexivity|]. split; [reflexivity|]. split; [reflexivity|]. split; [reflexivity|].
  split; [vm_compute; reflexivity|]. split; [reflexivity|]. vm_compute. repeat split; discriminate.
Qed.

Lemma panic_handler_spec_witness :
  (∃ c', rust_panic (prof := Release) (lit "x") (λ _ _, lit "y") (reporting {[ 2 := 1%positive ]}) = Ret c' ∧
     state_of (k_tm (con_k c')) 1 = Some Zombie) ∧
  on_panic (prof := Release) 100 (lit "x") (λ _ _, lit "y") (reporting ∅) = NoFuel.
Proof.
  split.
  - destruct (panic_handler_spec (prof := Release) (lit "x") (λ _ _, lit "y") (reporting {[ 2 := 1%positive ]}) 100)
      as [Hok _].
    + right. reflexivity.
    + destruct Hok as (c' & E & _ & Htm).
      * exact reporting_output.
      * vm_compute. discriminate.
      * exists c'. split; [exact E|]. rewrite Htm. vm_compute. reflexivity.
  - destruct (panic_handler_spec (prof := Release) (lit "x") (λ _ _, lit "y") (reporting ∅) 100) as [_ Hno].
    + right. reflexivity.
    + apply Hno. intros t Ht. vm_compute in Ht. injection Ht as <-. reflexivity.
Defined.

(** Thread 2 panics beside thread 1. *)
Definition panicking : Console :=
  let k := con_k (reporting {[ 2 := 1%positive ]}) in
  mkConsole (mkKernel (update_current (sample_manager [1; 2]) 2) (k_fs k) (k_mem k)
               {[ 2 := {[ 2 := 1%positive ]} ]} (k_handles k) 2 0) true false [] (mkSerial false []).

Lemma panic_costs_one_thread_witness :
  ∃ c', rust_panic (prof := Release) (lit "x") (λ _ _, lit "y") panicking = Ret c' ∧
    let '(m2, s2) := resource_round [2; 1] [1] (k_tm (con_k c')) (mkRR [1; 2]) in
    lut m2 = lut (k_tm (con_k panicking)) ∖ {[2]} ∧ 2 ∉ queue s2.
Proof.
  destruct (panic_costs_one_thread (prof := Release) (lit "x") (λ _ _, lit "y") panicking 100 [2; 1] [1] (mkRR [1; 2]))
    as (c' & E & _ & H).
  - right. reflexivity.
  - split. do 6 eexists. split; [vm_compute; reflexivity|]. split; [vm_compute; reflexivity|].
    split; [vm_compute; reflexivity|]. split; [reflexivity|]. split; [reflexivity|]. split; [reflexivity|].
    split; [vm_compute; reflexivity|]. split; [reflexivity|]. vm_compute. repeat split; discriminate.
  - vm_compute. discriminate.
  - apply two_threads; [reflexivity|reflexivity|vm_compute; by eexists|vm_compute; by eexists|].
    apply map_Forall_to_list. vm_compute. repeat constructor.
  - intros j Hj. assert (j = 1 ∨ j = 2) as [-> | ->]; [|vm_compute; discriminate..].
    assert (Hl : lut (k_tm (con_k panicking)) = {[1; 2]}) by reflexivity. rewrite Hl in Hj. set_solver.
  - exists c'. split; [exact E|].
    assert (Hk : k_tm (con_k c') = kill_current (k_tm (con_k panicking))).
    { vm_compute in E. injection E as <-. vm_compute. reflexivity. }
    rewrite Hk in *.
    assert (Ho : orders (kill_current (k_tm (con_k panicking))) [2; 1] [1]) by (split; vm_compute; reflexivity).
    specialize (H Ho). destruct (resource_round _ _ _ _) as [m2 s2]. destruct H as (H1 & H2 & _).
    split; [exact H1|exact H2].
Defined.

Lemma user_program_stops_kernel_example fuel :
  let k := con_k (reporting {[ 2 := 1%positive ]}) in
  ∃ k1, sys_close STDERR_FILENO k = Ret (k1, Ok tt) ∧
    let c := mkConsole k1 true true [] (mkSerial false []) in
    syscall_entry (prof := Release) (2 ^ 47) denied (λ _, lit "?") (sample_ctx 31 0) c = Some Panic ∧
    on_panic (prof := Release) fuel (lit "x") (λ _ _, lit "y") c = NoFuel.
Proof.
  intros k. eexists. split; [vm_compute; reflexivity|]. intros c.
  eapply (user_program_stops_kernel (prof := Release) _ _ _ _ _ k); try (vm_compute; reflexivity).
Qed.
