(* ===== verification/Devices.v ===== *)
(** The kernel's devices as files: kernel/src/kernel/devices (mod.rs, tty/,
    graphics/), the macros [impl_empty_read!], [impl_write_for_tty!] and their
    kin, [create_device_file!] (kernel/init/mod.rs), and one round of the
    backend thread (drivers/tty/mod.rs).

    The devices are the instance of the class [FileRepr] that the process
    file system of ProcFS.v is written against; their state is the queues,
    the keyboard ring with the standard inputs, and the frame buffer. *)
From stdpp Require Import pretty.
From S2P Require Import Prelude Abi Path Io Fd Listing RamFile FsRepr RamFS ProcFS ProcProps VFS Tasks Syscalls Tty Graphics Console.
Open Scope Z_scope.

(** ** Devices *)

(** [Null] of devices/mod.rs; the process file system has one of its own. *)
Inductive KDevice : Set :=
| NullDevice
| SerialBackend
| FbBackend
| KeyboardBackend
| StdInFileFactory
| FrameBufferFile.

#[export] Instance KDevice_eq_dec : EqDecision KDevice.
Proof. solve_decision. Defined.

(** [ds_pid] is the process of the running thread. *)
Record DevState (D : Type) : Type := mkDev {
  ds_serial : list u8;
  ds_fb : list u8;
  ds_keys : KeyboardBuffer;
  ds_decoder : D;
  ds_stdins : gmap Z Z;
  ds_pid : option Z;
  ds_screen : Mem
}.
Arguments mkDev {D} _ _ _ _ _ _ _.
Arguments ds_serial {D} _.
Arguments ds_fb {D} _.
Arguments ds_keys {D} _.
Arguments ds_decoder {D} _.
Arguments ds_stdins {D} _.
Arguments ds_pid {D} _.
Arguments ds_screen {D} _.

Section devices.
Context {prof : Profile} {D : Type} (parse_scancode : D → u8 → D * Result unit DecodedKey).
Context (screen : GlobalFrameBuffer) (fuel : nat).
Abbreviation DS := (DevState D).
Implicit Types s : DS.

Definition put_queues s (serial fb : list u8) : DS :=
  mkDev serial fb (ds_keys s) (ds_decoder s) (ds_stdins s) (ds_pid s) (ds_screen s).

Definition put_input s (d : D) (stdins : gmap Z Z) : DS :=
  mkDev (ds_serial s) (ds_fb s) (ds_keys s) d stdins (ds_pid s) (ds_screen s).

Definition put_screen s (mem : Mem) : DS :=
  mkDev (ds_serial s) (ds_fb s) (ds_keys s) (ds_decoder s) (ds_stdins s) (ds_pid s) mem.

(** [impl_empty_read!], [impl_empty_write!] *)
Definition empty_read : Reader DS := λ offset, mok 0.
Definition empty_write : Writer DS := λ buf offset, mok 0.

(** [impl_read_for_tty!] *)
Definition KDevice_read (d : KDevice) : Reader DS :=
  match d with
  | NullDevice | SerialBackend | FbBackend | FrameBufferFile => empty_read
  | KeyboardBackend => λ offset '(s, buf),
      let! r := KeyboardBackend_read_buf prof parse_scancode (ds_keys s) (ds_decoder s) buf in
      let '(dec, buf, n) := r in Ret ((put_input s dec (ds_stdins s), buf), Ok n)
  | StdInFileFactory => λ offset '(s, buf),
      let! r := Factory_read_buf prof parse_scancode (ds_keys s) (ds_decoder s) (ds_stdins s) (ds_pid s) buf offset in
      let '(stdins, dec, buf, n) := r in Ret ((put_input s dec stdins, buf), n)
  end.

(** [impl_write_for_tty!] and [impl_write_for_fb!] *)
Definition KDevice_write (d : KDevice) : Writer DS :=
  match d with
  | NullDevice | KeyboardBackend | StdInFileFactory => empty_write
  | SerialBackend => λ buf offset s, Ret (put_queues s (TTYSink_write (ds_serial s) buf) (ds_fb s), Ok (zlen buf))
  | FbBackend => λ buf offset s, Ret (put_queues s (ds_serial s) (TTYSink_write (ds_fb s) buf), Ok (zlen buf))
  | FrameBufferFile => λ buf offset s,
      let! r := fb_write (prof := prof) screen buf offset (ds_screen s) in
      Ret (put_screen s (fst r), snd r)
  end.

(** [impl_file_for_wr!], and [FileRepr] for [Null] *)
Definition KDevice_fstat (d : KDevice) : FStat :=
  match d with
  | NullDevice => FStat_default
  | FrameBufferFile => fb_fstat screen
  | _ => set_node_type FStat_default NodeType_FILE
  end.

#[export] Instance KDevice_FileRepr : FileRepr DS KDevice := {
  fr_fstat d := mok (KDevice_fstat d);
  fr_update_perms _ := default_update_perms;
  fr_clear _ := default_clear;
  fr_read := KDevice_read;
  fr_read_to_end d := read_to_end prof fuel (KDevice_read d);
  fr_write := KDevice_write;
  fr_write_all d buf offset := write_all prof (length buf) (KDevice_write d) buf offset;
  fr_on_open _ := default_hook;
  fr_on_clone _ := default_hook;
  fr_on_drop _ := default_hook;
  fr_on_close _ := default_hook
}.

#[export] Instance KDevice_total : FstatTotal DS KDevice.
Proof. intros d s. by exists s, (KDevice_fstat d). Qed.

(** ** Device files *)

Abbreviation PW := (PWorld DS KDevice).
Abbreviation Dev := (MaybeRefCounted (Device KDevice)).

Definition PROCFS_PATH : str := lit "/proc".

(** [fs::open] of a path below the mount of the process file system, with the
    root [root]. *)
Definition open_proc (root : ptr) (p : str) (options : Z) : M PW FSError (File ptr) :=
  match strip_prefix p PROCFS_PATH with
  | Some rel =>
      let? f := ProcFS_open (prof := prof) root rel options in
      @finish PW ptr (ProcFile_FileRepr 0) (with_path f p)
  | None => merr (simple NotFound)
  end.

Definition register_device_file (device : Dev) (path : str) : M PW FSError unit := registry_register device path.

(** [create_device_file!]; the macro's second form has the options. *)
Definition create_device_file (root : ptr) (device : Dev) (path : str) : M PW FSError (File ptr) :=
  let p := push PROCFS_PATH (match str_strip_prefix (lit "/") path with Some rel => rel | None => path end) in
  let? _ := register_device_file device path in
  open_proc root p (Z.lor OpenOptions_READ OpenOptions_CREATE_ALL).

(** [_ = ..] *)
Definition ignore {X} (m : M PW FSError X) : M PW FSError unit := λ w, let! r := m w in Ret (fst r, Ok tt).

Definition NULL_FILE : str := lit "/kernel/null".
Definition SERIAL_FILE : str := lit "/kernel/io/serial".
Definition FBBACKEND_FILE : str := lit "/kernel/io/fbbackend".
Definition KEYBOARD_FILE : str := lit "/kernel/io/keyboard".
Definition STDIN_FILE : str := lit "/kernel/io/stateful_keyboard".
Definition FRAMEBUFFER_FILE : str := lit "/kernel/gfx/fb".

Definition init_tty_sinks (root : ptr) : M PW FSError unit :=
  let? _ := ignore (create_device_file root (MArc (ExtDevice SerialBackend)) SERIAL_FILE) in
  ignore (create_device_file root (MArc (ExtDevice FbBackend)) FBBACKEND_FILE).

(** Only registered: the nodes are made by the first [open]. *)
Definition init_source_tty : M PW FSError unit :=
  let? _ := ignore (register_device_file (MArc (ExtDevice KeyboardBackend)) KEYBOARD_FILE) in
  ignore (register_device_file (MArc (ExtDevice StdInFileFactory)) STDIN_FILE).

(** [devices::init] up to the configuration file of the graphics. *)
Definition devices_init (root : ptr) : M PW FSError unit :=
  let? _ := ignore (create_device_file root (MRef (ExtDevice NullDevice)) NULL_FILE) in
  let? _ := init_tty_sinks root in
  let? _ := init_source_tty in
  ignore (create_device_file root (MRef (ExtDevice FrameBufferFile)) FRAMEBUFFER_FILE).

(** ** The backend thread *)

(** [SerialBackend::flush]: a byte at a time through the port's lock. *)
Fixpoint flush_serial (q : list u8) (port : Serial) : Outcome Serial :=
  match q with
  | [] => Ret port
  | b :: q => let! port := raw_print [b] port in flush_serial q port
  end.

(** [FbBackend::flush]: [char::from_u32(byte as u32)] is printed, as UTF-8. *)
Fixpoint flush_fb (q term : list u8) : list u8 :=
  match q with
  | [] => term
  | b :: q => flush_fb q (term ++ utf8_bytes (Z.of_nat (nat_of_ascii b)))
  end.

(** One round of [start_tty_backend]. *)
Definition backend_round (st : PW * Serial * list u8) : Outcome (PW * Serial * list u8) :=
  let '(w, port, term) := st in
  let s := dev_state w in
  let! port := flush_serial (ds_serial s) port in
  let term := flush_fb (ds_fb s) term in
  Ret (set_dev_state w (put_queues s [] []), port, term).

End devices.

(** ** From a descriptor to the port *)

Section console.
Context {prof : Profile} {D : Type} (parse_scancode : D → u8 → D * Result unit DecodedKey).
Context (screen : GlobalFrameBuffer) (fuel : nat).
Abbreviation PW := (PWorld (DevState D) KDevice).
#[local] Existing Instance KDevice_FileRepr.
#[local] Instance the_devices : FileRepr (DevState D) KDevice := KDevice_FileRepr (prof := prof) parse_scancode screen fuel.
#[local] Instance the_nodes : FileRepr PW ptr := ProcFile_FileRepr (prof := prof) 0.

(** The process file system after [fs::init], with its root at 1. *)
Definition booted (c : Z) (s : DevState D) : PW :=
  mkPWorld {[ 1%positive := PDir [] ]} 2 {[ registry_path := mkDeviceEntry (MRef DeviceRegistry) ]} c s.

(** A thread's standard files and what the backend has put out. *)
Record Terminal : Type := mkTerminal {
  tm_world : PW;
  tm_stdin : File ptr;
  tm_stdout : File ptr;
  tm_stderr : File ptr;
  tm_port : Serial;
  tm_text : list u8
}.

(** [devices::init], then the three files a thread starts with. *)
Definition boot_console (c : Z) (s : DevState D) (port : Serial) (text : list u8) : Outcome Terminal :=
  let! r := (let? _ := devices_init parse_scancode screen fuel 1 in
             let? i := open_proc parse_scancode screen fuel 1 (lit "/proc/kernel/io/stateful_keyboard") OpenOptions_READ in
             let? o := open_proc parse_scancode screen fuel 1 (lit "/proc/kernel/io/fbbackend") (Z.lor OpenOptions_READ OpenOptions_WRITE) in
             let? e := open_proc parse_scancode screen fuel 1 (lit "/proc/kernel/io/serial") (Z.lor OpenOptions_READ OpenOptions_WRITE) in
             mok (i, o, e)) (booted c s) in
  match r with
  | (w, Ok (i, o, e)) => Ret (mkTerminal w i o e port text)
  | (_, Err _) => Panic
  end.

(** Writes of threads to the two outputs, and rounds of the backend. *)
Inductive ConOp : Type := WriteOut (bytes : list u8) | WriteErr (bytes : list u8) | Round.

Definition con_step (t : Terminal) (op : ConOp) : Outcome Terminal :=
  match op with
  | WriteOut bytes =>
      let! r := write_continuous bytes (tm_world t, tm_stdout t) in
      match r with
      | ((w, f), Ok _) => Ret (mkTerminal w (tm_stdin t) f (tm_stderr t) (tm_port t) (tm_text t))
      | (_, Err _) => Panic
      end
  | WriteErr bytes =>
      let! r := write_continuous bytes (tm_world t, tm_stderr t) in
      match r with
      | ((w, f), Ok _) => Ret (mkTerminal w (tm_stdin t) (tm_stdout t) f (tm_port t) (tm_text t))
      | (_, Err _) => Panic
      end
  | Round =>
      let! r := backend_round (tm_world t, tm_port t, tm_text t) in
      let '(w, port, text) := r in
      Ret (mkTerminal w (tm_stdin t) (tm_stdout t) (tm_stderr t) port text)
  end.

Fixpoint con_run (ops : list ConOp) (t : Terminal) : Outcome Terminal :=
  match ops with
  | [] => Ret t
  | op :: ops => let! t := con_step t op in con_run ops t
  end.

(** What was written to each output, in order. *)
Definition to_out (op : ConOp) : list u8 := match op with WriteOut b => b | _ => [] end.
Definition to_err (op : ConOp) : list u8 := match op with WriteErr b => b | _ => [] end.

(** A byte as the character with its code. *)
Definition as_chars (bytes : list u8) : list u8 := concat (map (λ b, utf8_bytes (Z.of_nat (nat_of_ascii b))) bytes).

Lemma as_chars_app a b : as_chars (a ++ b) = as_chars a ++ as_chars b.
Proof. unfold as_chars. by rewrite map_app, concat_app. Qed.

Lemma flush_fb_spec q text : flush_fb q text = text ++ as_chars q.
Proof.
  revert text. induction q as [|b q IH]; intros text; cbn [flush_fb]; [by rewrite app_nil_r|].
  rewrite IH. unfold as_chars. cbn [map concat]. by rewrite app_assoc.
Qed.

Lemma flush_serial_spec q port :
  sp_locked port = false → flush_serial q port = Ret (mkSerial false (sp_sent port ++ q)).
Proof.
  revert port. induction q as [|b q IH]; intros [l sent] Hl; cbn in Hl; subst l; cbn [flush_serial].
  { by rewrite app_nil_r. }
  unfold raw_print, send_all, send. cbn [sp_locked sp_sent foldl obind]. rewrite IH by done. cbn [sp_sent].
  by rewrite <- app_assoc.
Qed.

Lemma TTYSink_write_app q bytes : TTYSink_write q bytes = q ++ bytes.
Proof.
  unfold TTYSink_write. revert q. induction bytes as [|b bytes IH]; intros q; cbn [foldl]; [by rewrite app_nil_r|].
  rewrite IH. by rewrite <- app_assoc.
Qed.

(** The outputs stand on the nodes of the two backends. *)
Definition output (w : PW) (f : File ptr) (d : KDevice) : Prop :=
  may_write f = true ∧ ∃ p m, repr f = Shared p ∧ nodes w !! p = Some (PFile m) ∧ MaybeRefCounted_deref m = ExtDevice d.

Record connected (t : Terminal) : Prop := {
  cn_out : output (tm_world t) (tm_stdout t) FbBackend;
  cn_err : output (tm_world t) (tm_stderr t) SerialBackend;
  cn_port : sp_locked (tm_port t) = false
}.

(** All that was ever written: put out, or queued. *)
Definition err_stream (t : Terminal) : list u8 := sp_sent (tm_port t) ++ ds_serial (dev_state (tm_world t)).
Definition out_stream (t : Terminal) : list u8 := tm_text t ++ as_chars (ds_fb (dev_state (tm_world t))).

Lemma device_write w f d bytes s' :
  output w f d → KDevice_write (prof := prof) screen d bytes (cursor_get (cursor f)) (dev_state w) = Ret (s', Ok (zlen bytes)) →
  ∃ f', write_continuous bytes (w, f) = Ret ((set_dev_state w s', f'), Ok (zlen bytes)) ∧
    repr f' = repr f ∧ may_write f' = may_write f.
Proof.
  intros (Hw & p & m & Hr & Hn & Hm) Hd. unfold write_continuous, File_write. rewrite Hw. cbn [negb].
  rewrite Hr. cbn [deref fr_write the_nodes ProcFile_FileRepr]. unfold ProcFile_write, mthen, node_of. rewrite Hn.
  rewrite Hm. unfold Device_write, on_dev. cbn [fr_write the_devices KDevice_FileRepr]. rewrite Hd. cbn [obind fst snd].
  eexists. split; [reflexivity|]. done.
Qed.

Lemma output_moved w f d s' f' :
  output w f d → repr f' = repr f → may_write f' = may_write f → output (set_dev_state w s') f' d.
Proof. intros (Hw & p & m & Hr & Hn & Hm) Hr' Hw'. split; [congruence|]. exists p, m. split; [congruence|done]. Qed.

(** One step adds what it writes to its stream and loses nothing. *)
Lemma con_step_streams t op :
  connected t → ∃ t', con_step t op = Ret t' ∧ connected t' ∧
    err_stream t' = err_stream t ++ to_err op ∧ out_stream t' = out_stream t ++ as_chars (to_out op) ∧
    (op = Round → ds_serial (dev_state (tm_world t')) = [] ∧ ds_fb (dev_state (tm_world t')) = []).
Proof.
  intros [Ho He Hp]. destruct t as [w i o e port text]. cbn [tm_world tm_stdout tm_stderr tm_port] in *.
  destruct op as [bytes|bytes|]; cbn [con_step tm_world tm_stdout tm_stderr tm_port tm_text tm_stdin to_out to_err].
  - destruct (device_write w o FbBackend bytes _ Ho eq_refl) as (f' & E & Hr & Hw). rewrite E. cbn [obind].
    eexists. split; [reflexivity|]. split; [split; cbn; [by eapply output_moved|by eapply output_moved|done]|].
    unfold err_stream, out_stream.
    cbn [tm_port tm_world tm_text dev_state set_dev_state put_queues ds_serial ds_fb sp_sent]. rewrite app_nil_r, TTYSink_write_app, as_chars_app, app_assoc. done.
  - destruct (device_write w e SerialBackend bytes _ He eq_refl) as (f' & E & Hr & Hw). rewrite E. cbn [obind].
    eexists. split; [reflexivity|]. split; [split; cbn; [by eapply output_moved|by eapply output_moved|done]|].
    unfold err_stream, out_stream.
    cbn [tm_port tm_world tm_text dev_state set_dev_state put_queues ds_serial ds_fb sp_sent]. rewrite app_nil_r, TTYSink_write_app, app_assoc. done.
  - unfold backend_round. rewrite flush_serial_spec by done. cbn [obind].
    eexists. split; [reflexivity|]. split; [split; cbn; [by eapply output_moved|by eapply output_moved|done]|].
    unfold err_stream, out_stream.
    cbn [tm_port tm_world tm_text dev_state set_dev_state put_queues ds_serial ds_fb sp_sent]. rewrite flush_fb_spec, !app_nil_r. done.
Qed.

Lemma con_run_streams ops t :
  connected t → ∃ t', con_run ops t = Ret t' ∧ connected t' ∧
    err_stream t' = err_stream t ++ concat (map to_err ops) ∧
    out_stream t' = out_stream t ++ as_chars (concat (map to_out ops)).
Proof.
  revert t. induction ops as [|op ops IH]; intros t Ht; cbn [con_run map concat].
  { exists t. by rewrite !app_nil_r. }
  destruct (con_step_streams t op Ht) as (t1 & -> & Ht1 & E1 & O1 & _). cbn [obind].
  destruct (IH t1 Ht1) as (t' & -> & Ht' & E2 & O2). exists t'. split; [done|]. split; [done|].
  rewrite E2, O2, E1, O1, as_chars_app, !app_assoc. done.
Qed.

(** The file stands on a node of the device; computed. *)
Definition stands_on (w : PW) (f : File ptr) (d : KDevice) : bool :=
  match repr f with
  | Shared p =>
      match nodes w !! p with
      | Some (PFile m) => bool_decide (MaybeRefCounted_deref m = ExtDevice d)
      | _ => false
      end
  | Owned _ => false
  end.

Lemma stands_on_true w f d : stands_on w f d = true →
  ∃ p m, repr f = Shared p ∧ nodes w !! p = Some (PFile m) ∧ MaybeRefCounted_deref m = ExtDevice d.
Proof.
  unfold stands_on. destruct (repr f) as [?|p]; try done. destruct (nodes w !! p) as [[?|m]|] eqn:Hn; try done.
  intros Hd%bool_decide_eq_true. by exists p, m.
Qed.

Definition boots_well (t : Terminal) : bool :=
  (may_write (tm_stdout t) && stands_on (tm_world t) (tm_stdout t) FbBackend) &&
  (may_write (tm_stderr t) && stands_on (tm_world t) (tm_stderr t) SerialBackend) &&
  (may_read (tm_stdin t) && stands_on (tm_world t) (tm_stdin t) StdInFileFactory).

Lemma con_run_app ops1 ops2 t : con_run (ops1 ++ ops2) t = (let! t := con_run ops1 t in con_run ops2 t).
Proof. revert t. induction ops1 as [|op ops1 IH]; intros t; cbn [app con_run obind]; [done|]. by destruct (con_step t op); cbn [obind]. Qed.

Lemma boot_console_ok c s port text :
  ∃ t, boot_console c s port text = Ret t ∧ boots_well t = true ∧
    dev_state (tm_world t) = s ∧ tm_port t = port ∧ tm_text t = text.
Proof.
  assert (Hb : match boot_console c s port text with Ret t => boots_well t | _ => false end = true)
    by (vm_compute; reflexivity).
  assert (Hs : match boot_console c s port text with Ret t => (dev_state (tm_world t), tm_port t, tm_text t) | _ => (s, port, text) end
    = (s, port, text)) by (vm_compute; reflexivity).
  destruct (boot_console c s port text) as [t| | |]; [|done..]. exists t. injection Hs as Hs Hp Ht. done.
Qed.

(** C17: what threads write reaches the hardware.  After [devices::init] the
    three standard files open, standing on their devices; whatever is then
    written to standard output and standard error, by write calls between
    which the backend thread runs any number of rounds, no call fails, and
    after one more round the serial port has sent exactly the bytes written to
    standard error, in order, and the terminal was given exactly the
    characters of the bytes written to standard output. *)
Theorem console_output_arrives c s port text ops :
  sp_locked port = false →
  ∃ t0 t, boot_console c s port text = Ret t0 ∧ boots_well t0 = true ∧ con_run (ops ++ [Round]) t0 = Ret t ∧
    sp_sent (tm_port t) = sp_sent port ++ ds_serial s ++ concat (map to_err ops) ∧
    tm_text t = text ++ as_chars (ds_fb s ++ concat (map to_out ops)).
Proof.
  intros Hp. destruct (boot_console_ok c s port text) as (t0 & E0 & Hb & Hs & Hport & Htext).
  assert (Hc : connected t0).
  { unfold boots_well in Hb. apply andb_true_iff in Hb as [[[Ho1 Ho2]%andb_true_iff [He1 He2]%andb_true_iff]%andb_true_iff _].
    split; [split; [done|by apply stands_on_true]|split; [done|by apply stands_on_true]|by rewrite Hport]. }
  destruct (con_run_streams ops t0 Hc) as (t1 & E1 & Hc1 & Err1 & Out1).
  destruct (con_step_streams t1 Round Hc1) as (t & E2 & _ & Err2 & Out2 & [Hq1 Hq2]); [done|].
  exists t0, t. split; [done|]. split; [done|]. split.
  - rewrite con_run_app, E1. cbn [obind con_run]. by rewrite E2.
  - revert Err2 Out2. rewrite Err1, Out1. unfold err_stream, out_stream. rewrite Hq1, Hq2, Hs, Hport, Htext.
    cbn [to_err to_out]. change (as_chars []) with (@nil u8). rewrite !app_nil_r, as_chars_app. intros -> ->.
    rewrite <- !app_assoc. split; reflexivity.
Qed.

End console.

(** ASCII text arrives as it is; every other byte becomes a character of its
    own, so that text in UTF-8 is encoded twice. *)
Lemma as_chars_ascii bytes : Forall (λ b, (nat_of_ascii b < 128)%nat) bytes → as_chars bytes = bytes.
Proof.
  induction 1 as [|b bytes Hb _ IH]; [done|]. unfold as_chars in *. cbn [map concat]. rewrite IH.
  unfold utf8_bytes. rewrite decide_True by lia. rewrite Nat2Z.id. unfold byte. by rewrite ascii_nat_embedding.
Qed.

Lemma utf8_text_is_mangled :
  as_chars (utf8_bytes 0xe9) = utf8_bytes 0xc3 ++ utf8_bytes 0xa9 ∧ as_chars (utf8_bytes 0xe9) ≠ utf8_bytes 0xe9.
Proof. split; [reflexivity|]. vm_compute. discriminate. Qed.

(** ** The configuration file of the graphics (devices/graphics/mod.rs) *)

Definition GFX_CONFIG_PATH : str := lit "/ram/.devconf/gfx/config.conf".

Definition gfx_config_text (basic_config : FramBufferConfig) (fb : GlobalFrameBuffer) : str :=
  let line (z : Z) := lit (pretty z) in
  line (red_mask_shift basic_config) ++ NL ++ line (red_mask_size basic_config) ++ NL ++
  line (green_mask_shift basic_config) ++ NL ++ line (green_mask_size basic_config) ++ NL ++
  line (blue_mask_shift basic_config) ++ NL ++ line (blue_mask_size basic_config) ++ NL ++
  line (Graphics.bpp fb) ++ NL ++ line (width fb) ++ NL ++ line (height fb) ++ NL ++ line (pitch fb).

(** The rest of [graphics::init], after its device file. *)
Definition write_gfx_config {prof : Profile} (basic_config : FramBufferConfig) (fb : GlobalFrameBuffer) (w : World)
    : Outcome World :=
  let! r := open GFX_CONFIG_PATH (Z.lor OpenOptions_CREATE_ALL OpenOptions_WRITE) w in
  match r with
  | (_, Err _) => Panic
  | (w, Ok gfx_config_file) =>
      let! r := File_write_all gfx_config_file (gfx_config_text basic_config fb) 0 w in
      match r with
      | (_, Err _) => Panic
      | (w, Ok _) => let! r := File_drop gfx_config_file w in Ret (fst r)
      end
  end.

Definition read_gfx_config {prof : Profile} : M World FSError (list u8) :=
  let? f := open GFX_CONFIG_PATH OpenOptions_READ in read_all_as_str f.

(** A program finds the geometry there after boot. *)
Lemma gfx_config_reads_back :
  match (let! w := write_gfx_config (prof := Release) Graphics.vesa Graphics.screen (init_world 0) in
         read_gfx_config (prof := Release) w) with
  | Ret (_, Ok text) => bool_decide (text = gfx_config_text Graphics.vesa Graphics.screen)
  | _ => false
  end = true.
Proof. vm_compute. reflexivity. Qed.

(** ** An instance *)

Definition no_keys (d : unit) (b : u8) : unit * Result unit DecodedKey := (d, Err tt).

Definition idle_devices : DevState unit :=
  mkDev [] [] KeyboardBuffer_new tt ∅ (Some 1) (λ _, zero).

Lemma console_output_arrives_witness :
  ∃ t0 t, boot_console (prof := Release) no_keys Graphics.screen 1 0 idle_devices (mkSerial false []) [] = Ret t0 ∧
    con_run (prof := Release) no_keys Graphics.screen 1
      ([WriteErr (lit "pa"); WriteOut (lit "hi"); Round; WriteErr (lit "nic")] ++ [Round]) t0 = Ret t ∧
    sp_sent (tm_port t) = lit "panic" ∧ tm_text t = lit "hi".
Proof.
  destruct (console_output_arrives (prof := Release) no_keys Graphics.screen 1 0 idle_devices (mkSerial false []) []
    [WriteErr (lit "pa"); WriteOut (lit "hi"); Round; WriteErr (lit "nic")]) as (t0 & t & E0 & _ & E & Hs & Ht).
  - reflexivity.
  - exists t0, t. exact (conj E0 (conj E (conj Hs Ht))).
Defined.
