(* ===== verification/KernelTests.v ===== *)
(** The program's own sequential tests, run on the model.

    The modules under kernel/src carry tests that the runner of TestRunner.v
    executes.  Those that do not depend on the schedule are translated here
    call by call, and every assertion of them holds of the definitions of this
    library, in both build profiles.  An [assert!] that fails and an [unwrap]
    of an error panic. *)
From S2P Require Import TermRender Prelude Abi Path Io Fd Listing RamFile FsRepr RamFS VFS ProcFS ProcProps Tasks Sync Syscalls FrameAlloc Paging Mmap PageDir Elf TaskBuild WaitCalls.
Open Scope Z_scope.

(** ** Assertions *)

Section asserts.
Context {S E : Type}.

Definition assert (b : bool) : M S E unit := if b then mok tt else mpanic.

Definition is_ok {A} (m : M S E A) : M S E bool :=
  λ s, let! r := m s in Ret (fst r, Ok (match snd r with Ok _ => true | Err _ => false end)).

Definition assert_ok {A} (m : M S E A) : M S E unit := let? b := is_ok m in assert b.
Definition assert_err {A} (m : M S E A) : M S E unit := let? b := is_ok m in assert (negb b).

Definition unwrapped {A} (m : M S E A) : M S E A :=
  λ s, let! r := m s in match snd r with Ok a => Ret (fst r, Ok a) | Err _ => Panic end.

Definition unwrap_res {A} (r : Result E A) : M S E A := match r with Ok a => mok a | Err _ => mpanic end.

(** A test that returns has passed. *)
Definition passes (t : M S E unit) (s : S) : bool := match t s with Ret (_, Ok _) => true | _ => false end.

End asserts.

(** Continuous I/O on a file that is a local variable of the test. *)
Section files.
Context {S R : Type} `{FileRepr S R}.

Definition writes (bytes : list u8) (f : File R) : M S FSError (File R * Result FSError Z) :=
  λ s, let! r := write_continuous bytes (s, f) in let '((s, f), n) := r in Ret (s, Ok (f, n)).

Definition reads (buf : list u8) (f : File R) : M S FSError (File R * list u8 * Result FSError Z) :=
  λ s, let! r := read_continuous ((s, f), buf) in let '((s, f), buf, n) := r in Ret (s, Ok (f, buf, n)).

Definition reads_at (buf : list u8) (offset : Z) (f : File R) : M S FSError (list u8 * Result FSError Z) :=
  λ s, let! r := File_read f offset (s, buf) in let '((s, buf), n) := r in Ret (s, Ok (buf, n)).

End files.

Definition bytes_eq (a b : list u8) : bool := bool_decide (a = b).
Definition prefix (n : Z) (buf : list u8) : list u8 := take (Z.to_nat n) buf.

(** ** fs/path/mod.rs *)

Definition path_test : M unit unit unit :=
  let path := PathBuf_new in
  let? _ := assert (is_relative path) in
  let path := push path (lit "/foo") in
  let path := push path (lit "bar/baz") in
  let? _ := assert (negb (is_relative path)) in
  let? _ := assert (bool_decide (traverse path = [[]; lit "foo"; lit "bar"; lit "baz"])) in
  let? _ := assert (bool_decide (Some <$> ancestors path = [Some path; parent path; Some (lit "/foo"); Some ROOT_DIR])) in
  let path := add_extension path (lit "txt") in
  let path := add_extension path (lit "gz") in
  let? _ := assert (bytes_eq (extension path) (lit "gz")) in
  let path := clear_extension path in
  let? _ := assert (bytes_eq (extension path) (lit "txt")) in
  let path := set_extension path (lit ".rs") in
  let? _ := assert (bytes_eq (extension path) (lit "rs")) in
  let? _ := assert (bytes_eq (file_prefix path) (lit "baz")) in
  let path := up path in
  let? _ := assert (bytes_eq (file_prefix path) (lit "bar")) in
  let path := push path (lit "./baz/../../foo.bar") in
  λ s,
    let! path := canonicalize path in
    (let? _ := assert (bytes_eq (file path) (lit "foo.bar")) in
     assert (match parent path with Some p => bytes_eq (file p) (lit "foo") | None => false end)) s.

(** ** fs/ramfs/mod.rs *)

Definition empty_world : World := mkWorld ∅ 1 [] 0 ∅.

Section ramfs.
Context {prof : Profile}.

(** [RamFS::new()]; links are followed through the mounted file systems. *)
Definition new_ramfs : M World FSError ptr := let? fs := RamFS_new in match fs with RamFSObj root => mok root end.
Definition ram_open (ramfs : ptr) (p : string) (options : Z) : M World FSError (File Repr) :=
  RamFS_open fs_open ramfs (lit p) options.
Definition ram_unlink (ramfs : ptr) (p : string) (options : Z) : M World FSError (File Repr) :=
  RamFS_unlink ramfs (lit p) options.

Definition ramfs_basic : M World FSError unit :=
  let? ramfs := new_ramfs in
  let? _ := assert_err (ram_open ramfs "/foo/bar" OpenOptions_default) in
  let? _ := assert_ok (ram_open ramfs "/foo" (Z.lor OpenOptions_CREATE_DIR OpenOptions_READ)) in
  let? _ := assert_ok (ram_open ramfs "/foobar/bar/baz.txt" (Z.lor OpenOptions_CREATE_ALL OpenOptions_READ)) in
  let? _ := assert_ok (ram_open ramfs "/foobar/bar" OpenOptions_READ) in
  let? _ := assert_ok (ram_unlink ramfs "/foobar" (Z.lor UnlinkOptions_RECURSIVE UnlinkOptions_FORCE)) in
  let? _ := assert_err (ram_open ramfs "/foobar/bar/baz.txt" OpenOptions_READ) in
  assert_err (ram_unlink ramfs "/" UnlinkOptions_RECURSIVE).

Definition ramfs_retrieval : M World FSError unit :=
  let? ramfs := new_ramfs in
  let? bar := unwrapped (ram_open ramfs "/foo/bar.txt" (Z.lor OpenOptions_CREATE_ALL OpenOptions_WRITE)) in
  let? bar := finish bar in
  let? x := writes (lit "hello world") bar in
  let '(bar, n) := x in
  let? n := unwrap_res n in
  let? _ := assert (n =? zlen (lit "hello world")) in
  let bar := set_cursor bar 0 in
  let? x := reads (replicate 30 zero) bar in
  let '(bar, buf, n) := x in
  let? n_read := unwrap_res n in
  let? _ := assert (n_read =? zlen (lit "hello_world")) in
  let? _ := assert (bytes_eq (prefix n_read buf) (lit "hello world")) in
  let? x := reads (drop (Z.to_nat n_read) buf) bar in
  let '(bar, _, n) := x in
  let? n := unwrap_res n in
  let? _ := assert (n =? 0) in
  let? foobar := unwrapped (ram_open ramfs "/foo/foobar" (Z.lor OpenOptions_CREATE OpenOptions_READ)) in
  let? foobar := finish foobar in
  let? x := writes (lit "hello world/n/they") foobar in
  let '(foobar, n) := x in
  let? _ := assert (match n with Err _ => true | Ok _ => false end) in
  let? x := reads buf foobar in
  let '(foobar, _, n) := x in
  let? n := unwrap_res n in
  assert (n =? 0).

Definition fmt_is (expected : str) (d : DirData) : bool :=
  match DirData_fmt d with Ret s => bytes_eq s expected | _ => false end.

Definition listed : str :=
  lit "foo" ++ byte 9 :: lit "foobar" ++ byte 9 :: lit "this is a veeery long directory name!!" ++ byte 9 :: lit "short" ++ [byte 9].

Definition ramfs_read_dir : M World FSError unit :=
  let? dir := ram_dir in
  let? empty := unwrapped (with_dir dir (fmt_is [])) in
  let? _ := assert empty in
  let? _ := unwrapped (with_mut_dir dir (λ inner,
    let? x := ensure_entry (lit "foo") ram_dir inner in
    let? x := ensure_entry (lit "foobar") ram_file (fst x) in
    let? x := ensure_entry (lit "this is a veeery long directory name!!") ram_dir (fst x) in
    let? x := ensure_entry (lit "short") ram_dir (fst x) in
    mok (fst x, tt))) in
  let? display := (λ w, let! r := read_to_string (fr_read_to_end (RamRepr dir)) 0 (w, []) in
                        let '((w, buf), n) := r in
                        Ret (w, match n with Ok n => Ok (prefix n buf) | Err e => Err e end)) in
  assert (bytes_eq display listed).

(** ** fs/vfs/mod.rs *)

Definition vfs_basic : M World FSError unit :=
  let? _ := assert_err (fs_open (lit "/foo/bar") OpenOptions_default) in
  let? _ := assert_err (VFS_unmount (lit "/foo/bar")) in
  let? ramfs := RamFS_new in
  let? _ := assert_ok (VFS_mount (lit "/foo") ramfs) in
  let? _ := assert_ok (fs_open (lit "/foo/bar") (Z.lor OpenOptions_CREATE OpenOptions_READ)) in
  let? _ := assert_err (fs_open (lit "/foo_/bar") (Z.lor OpenOptions_CREATE OpenOptions_READ)) in
  let? _ := assert_ok (fs_open (lit "/foo/bar") OpenOptions_default) in
  let? _ := assert_ok (VFS_unmount (lit "/foo")) in
  assert_err (fs_open (lit "/foo/bar") OpenOptions_default).

(** The part of [vfs_integration] on the memory file system. *)
Definition vfs_integration_ram : M World FSError unit :=
  let? ramfs := RamFS_new in
  let? _ := assert_ok (VFS_mount (lit "/ram") ramfs) in
  let? ramfile := unwrapped (fs_open (lit "/ram/foo/bar.txt") (Z.lor OpenOptions_CREATE_ALL OpenOptions_WRITE)) in
  let? ramfile := finish ramfile in
  let? x := writes (lit "Hello world!!") ramfile in
  let '(ramfile, n) := x in
  let? n := unwrap_res n in
  let? _ := assert (n =? zlen (lit "Hello world!!")) in
  let ramfile := set_cursor ramfile 0 in
  let? x := reads (replicate 50 zero) ramfile in
  let '(ramfile, reader, n) := x in
  let? n := unwrap_res n in
  let? _ := assert (n =? zlen (lit "Hello world!!")) in
  let? _ := assert (bytes_eq (prefix n reader) (lit "Hello world!!")) in
  let ramfile := set_cursor ramfile 0 in
  let? x := writes (lit "Huhu") ramfile in
  let '(ramfile, n) := x in
  let? n := unwrap_res n in
  let? _ := assert (n =? zlen (lit "Huhu")) in
  let? x := reads_at reader 0 ramfile in
  let '(reader, n) := x in
  let? n := unwrap_res n in
  let? _ := assert (n =? Z.max (zlen (lit "Huhu world!!")) (zlen (lit "Hello world!!"))) in
  assert (bytes_eq (prefix n reader) (lit "Huhuo world!!")).

Definition symlink_ : M World FSError unit :=
  let? ram0 := RamFS_new in
  let? _ := unwrapped (mount (lit "/ram0") ram0) in
  let? ram1 := RamFS_new in
  let? _ := unwrapped (mount (lit "/ram1") ram1) in
  let? file := unwrapped (open (lit "/ram0/bar/foo.txt") (Z.lor OpenOptions_CREATE_ALL OpenOptions_WRITE)) in
  let? _ := unwrapped (symlink (lit "/ram1/foo_link") (lit "/ram0/bar/foo.txt")) in
  let? link := unwrapped (open (lit "/ram1/foo_link") OpenOptions_WRITE) in
  let? a := unwrapped (read_all_as_str file) in
  let? b := unwrapped (read_all_as_str link) in
  let? _ := assert (bytes_eq a b) in
  let link := set_cursor link 0 in
  let str_ := lit "hello world in foo" in
  let? _ := unwrapped (File_write_all file str_ 0) in
  let file := set_cursor file 0 in
  let? a := unwrapped (read_all_as_str file) in
  let? _ := assert (bytes_eq a str_) in
  let file := set_cursor file 0 in
  let? b := unwrapped (read_all_as_str link) in
  let? _ := assert (bytes_eq b str_) in
  let link := set_cursor link 0 in
  let str_ := lit "well this is a new str!" in
  let? _ := unwrapped (File_write_all link str_ 0) in
  let link := set_cursor link 0 in
  let? a := unwrapped (read_all_as_str file) in
  let? _ := assert (bytes_eq a str_) in
  let? link2 := unwrapped (open (lit "/ram1/foo_link") (Z.lor OpenOptions_READ OpenOptions_NO_FOLLOW_LINK)) in
  let? c := unwrapped (read_all_as_str link2) in
  let? _ := assert (bytes_eq c (lit "/ram0/bar/foo.txt")) in
  let? _ := unwrapped (unmount (lit "/ram0")) in
  unwrapped (unmount (lit "/ram1")).

End ramfs.

(** ** fs/procfs/mod.rs *)

Section procfs.
Context {prof : Profile}.
Abbreviation PW := (PWorld World TestDevice).

Definition empty_pworld : PW := mkPWorld ∅ 1 ∅ 0 (init_world 0).

Definition p_open (procfs : ptr) (p : string) (options : Z) : M PW FSError (File ptr) :=
  ProcFS_open (prof := prof) procfs (lit p) options.
Definition p_unlink (procfs : ptr) (p : string) (options : Z) : M PW FSError (File ptr) :=
  ProcFS_unlink procfs (lit p) options.

Definition procfs_basic : M PW FSError unit :=
  let? procfs := ProcFS_new in
  let? _ := assert_err (p_open procfs "/foo/bar" OpenOptions_default) in
  let? _ := assert_ok (p_open procfs "/foo" (Z.lor OpenOptions_CREATE_DIR OpenOptions_READ)) in
  let? _ := assert_err (p_open procfs "/foobar/bar/baz.txt" (Z.lor OpenOptions_CREATE_ALL OpenOptions_READ)) in
  let? _ := assert_ok (p_open procfs "/foobar/bar/baz/" (Z.lor OpenOptions_CREATE_ALL OpenOptions_READ)) in
  let? _ := assert_ok (p_open procfs "/foobar/bar" OpenOptions_READ) in
  let? _ := assert_ok (p_unlink procfs "/foobar" (Z.lor UnlinkOptions_RECURSIVE UnlinkOptions_FORCE)) in
  let? _ := assert_err (p_open procfs "/foobar/bar/baz.txt" OpenOptions_READ) in
  assert_err (p_unlink procfs "/" UnlinkOptions_RECURSIVE).

#[local] Instance proc_nodes : FileRepr PW ptr := ProcFile_FileRepr (prof := prof) 0.

Definition register_test (p : string) : M PW FSError unit :=
  registry_register (MArc (ExtDevice TestDev)) (lit p).

(** [deregister] with the mounted file systems of the kernel. *)
Definition test_rw : M PW FSError unit :=
  let? procfs := ProcFS_new in
  let? _ := assert_err (p_open procfs "/Test.dev" OpenOptions_READ) in
  let? _ := assert_ok (register_test "/Test.dev") in
  let? file := unwrapped (p_open procfs "/Test.dev" (Z.lor OpenOptions_READ OpenOptions_WRITE)) in
  let? file := finish file in
  let? x := reads (replicate 50 zero) file in
  let '(file, buf, n) := x in
  let? n := unwrap_res n in
  let? _ := assert (n =? zlen (lit "Test Device")) in
  let? _ := assert (bytes_eq (prefix n buf) (lit "Test Device")) in
  let? x := writes (lit "Hello") file in
  let '(file, n) := x in
  let? _ := assert (match n with Err _ => true | Ok _ => false end) in
  let? _ := assert_ok (p_unlink procfs "/Test.dev" 0) in
  let? _ := assert_ok (p_open procfs "/Test.dev" OpenOptions_READ) in
  let? _ := assert_ok (deregister (Some unlink_in_vfs) (lit "/Test.dev")) in
  let? _ := assert_ok (p_unlink procfs "/Test.dev" 0) in
  assert_err (p_open procfs "/Test.dev" OpenOptions_READ).

Definition pfmt_is (expected : str) (dir : ptr) (d : list (str * ptr)) : M PW FSError bool :=
  λ w, let! s := ProcDir_fmt d in Ret (w, Ok (bytes_eq s expected)).

(** Each entry is made on the directory the one before has left. *)
Definition procfs_read_dir : M PW FSError unit :=
  let? dir := proc_dir in
  let? empty := unwrapped (with_proc_dir dir (pfmt_is [])) in
  let? _ := assert empty in
  let? _ := unwrapped (with_proc_dir dir (proc_ensure_entry (lit "foo") proc_dir)) in
  let? _ := unwrapped (with_proc_dir dir (proc_ensure_entry (lit "foobar") empty_proc_file)) in
  let? _ := unwrapped (with_proc_dir dir (proc_ensure_entry (lit "this is a veeery long directory name!!") proc_dir)) in
  let? _ := unwrapped (with_proc_dir dir (proc_ensure_entry (lit "short") proc_dir)) in
  let? ok := unwrapped (with_proc_dir dir (pfmt_is listed)) in
  assert ok.

(** The part of [vfs_integration] on the process file system, whose path is
    what the mount at /proc leaves of it. *)
Definition vfs_integration_proc : M PW FSError unit :=
  let? procfs := ProcFS_new in
  let? _ := assert_ok (register_test "/foo/Test.dev") in
  let? rel := unwrap_res (ok_or (simple NotFound) (strip_prefix (lit "/proc/foo/Test.dev") (lit "/proc"))) in
  let? proc_file := unwrapped (ProcFS_open (prof := prof) procfs rel (Z.lor OpenOptions_CREATE_ALL OpenOptions_READ)) in
  let? proc_file := finish proc_file in
  let? x := reads (replicate 50 zero) proc_file in
  let '(_, reader, n) := x in
  let? n := unwrap_res n in
  let? _ := assert (n =? zlen (lit "Test Device")) in
  assert (bytes_eq (prefix n reader) (lit "Test Device")).

End procfs.

(** ** utils/sync: the counter of one thread *)

Abbreviation Counter := (M Z SyncErr).

Definition on_counter {A} (f : Z → Z * A) : Counter A := λ c, let '(c, a) := f c in Ret (c, Ok a).
Definition tried (r : Z * Result SyncErr unit) : Z * bool := (fst r, match snd r with Ok _ => true | Err _ => false end).
Definition c_try_down (n : Z) : Counter bool := on_counter (λ c, tried (try_down_n c n)).
Definition c_up (n : Z) : Counter unit := on_counter (λ c, (up_n_add c n, tt)).
Definition counter_is (n : Z) : Counter unit := λ c, assert (c =? n) c.

(** [lock_api]: a lock is locked when it cannot be taken; what was taken for
    the answer is given back. *)
Definition c_is_locked (n : Z) : Counter bool :=
  let? acquired := c_try_down n in
  let? _ := (if acquired then c_up n else mok tt) in
  mok (negb acquired).

Definition assert_that (m : Counter bool) : Counter unit := let? b := m in assert b.
Definition assert_not (m : Counter bool) : Counter unit := let? b := m in assert (negb b).

(** [StaticSemaphore<2, _>] *)
Definition sema_basic : Counter unit :=
  let? _ := counter_is 2 in
  let? _ := assert_that (c_try_down 1) in
  let? _ := assert_that (c_try_down 1) in
  let? _ := assert_not (c_try_down 1) in
  let? _ := counter_is 0 in
  let? _ := c_up 1 in
  let? _ := assert_that (c_try_down 1) in
  let? _ := c_up 5 in
  let? _ := c_up 0 in
  counter_is 5.

Definition mutex_basic : Counter unit :=
  let? _ := assert_that (c_try_down 1) in
  let? _ := assert_that (c_is_locked 1) in
  let? _ := assert_not (c_try_down 1) in
  let? _ := c_up 1 in
  let? _ := assert_not (c_is_locked 1) in
  let? _ := assert_that (c_try_down 1) in
  c_up 1.

Definition basic_rwlock : Counter unit :=
  let? _ := assert_that (c_try_down 1) in
  let? _ := assert_that (c_is_locked USIZE_MAX) in
  let? _ := assert_not (c_try_down USIZE_MAX) in
  let? _ := assert_that (c_try_down 1) in
  let? _ := c_up 1 in
  let? _ := c_up 1 in
  let? _ := assert_that (c_try_down USIZE_MAX) in
  let? _ := assert_that (c_is_locked USIZE_MAX) in
  let? _ := assert_not (c_try_down 1) in
  let? _ := c_up USIZE_MAX in
  let? _ := assert_not (c_is_locked USIZE_MAX) in
  let? _ := assert_that (c_try_down USIZE_MAX) in
  let? _ := c_up (USIZE_MAX - 1) in
  let? _ := assert_that (c_try_down 1) in
  let? _ := c_up 1 in
  c_up 1.

(** ** threading *)

Definition zero_args : bool := bool_decide (args_macro [] = [0; 0; 0; 0; 0; 0]).

(** A handle without a thread, completed by hand. *)
Definition join_handle (v : Z) (s : Sched) : bool :=
  let handle := JoinHandle_default (fresh (dom (s_joins s))) in
  match JoinHandle_wait handle ([], complete handle v s) with
  | Ret (_, Ok r) => r =? v
  | _ => false
  end.

(** ** term/render/mod.rs *)

Section term.
Abbreviation Term := (BasicTermRender (G := Grid)).
Abbreviation write_text := (TermRender.write_char_iter MAX_CHARS_X MAX_CHARS_Y (G := Grid)).

Definition chars_of (text : string) : list Z := map (λ b, Z.of_nat (nat_of_ascii b)) (lit text).
Definition term_row (text : string) : list (option Z) :=
  map Some (chars_of text) ++ replicate (MAX_CHARS_X - length (lit text)) None.

Definition row_is (t : Term) (r : nat) (text : string) : bool :=
  bool_decide (TermRender.buffer t !! r = Some (term_row text)).
Definition cursor_is (t : Term) (r c : nat) : bool := 
  (TermRender.row (TermRender.cursor t) =? r)%nat && (TermRender.col (TermRender.cursor t) =? c)%nat.

Definition cleared : Term :=
  BasicTermRender_new blank_grid (TermRender.TermCharBuffer_new MAX_CHARS_X MAX_CHARS_Y).

Definition print_to_buffer : Outcome bool :=
  let! t := write_text cleared (chars_of "test" ++ [10]) in
  let ok1 := row_is t 0 "test" && cursor_is t 1 0 in
  let! t := write_text t (chars_of "test2") in
  let ok2 := row_is t 0 "test" && row_is t 1 "test2" && cursor_is t 1 5 in
  let! t := write_text t (chars_of "hey") in
  Ret (TermRender.TermCharBuffer_is_empty (TermRender.buffer cleared) && ok1 && ok2 && row_is t 1 "test2hey" && cursor_is t 1 8).

Definition shifted (t : Term) : Outcome Term :=
  let! b := TermRender.shift_up MAX_CHARS_X MAX_CHARS_Y (TermRender.buffer t) in
  Ret (mkTerm (backend t) (TermRender.cursor t) b).

Definition buf_shifts : Outcome bool :=
  let! t := write_text cleared ([10] ++ chars_of "test" ++ [10] ++ chars_of "42" ++ [10] ++ chars_of "world" ++ [10]) in
  let! t := shifted t in
  let ok1 := row_is t 0 "test" in
  let! t := shifted t in
  let ok2 := row_is t 0 "42" in
  let! t := shifted t in
  let ok3 := row_is t 0 "world" in
  let! t := shifted t in
  Ret (ok1 && ok2 && ok3 && TermRender.TermCharBuffer_is_empty (TermRender.buffer t)).

End term.

(** ** They pass *)

Lemma file_tests_pass (prof : Profile) :
  passes path_test tt &&
  passes (ramfs_basic (prof := prof)) empty_world && passes (ramfs_retrieval (prof := prof)) empty_world &&
  passes (ramfs_read_dir (prof := prof)) empty_world && passes (vfs_basic (prof := prof)) empty_world &&
  passes (vfs_integration_ram (prof := prof)) empty_world && passes (symlink_ (prof := prof)) (init_world 0) = true.
Proof. destruct prof; vm_compute; reflexivity. Qed.

Lemma procfs_tests_pass (prof : Profile) :
  passes (procfs_basic (prof := prof)) empty_pworld && passes (test_rw (prof := prof)) empty_pworld &&
  passes procfs_read_dir empty_pworld && passes (vfs_integration_proc (prof := prof)) empty_pworld = true.
Proof. destruct prof; vm_compute; reflexivity. Qed.

Lemma lock_tests_pass :
  passes sema_basic 2 && passes mutex_basic Mutex_permits && passes basic_rwlock RwLock_permits = true.
Proof. vm_compute. reflexivity. Qed.

Lemma thread_tests_pass : zero_args && join_handle 42 sample_sched = true.
Proof. vm_compute. reflexivity. Qed.

Lemma term_tests_pass : (print_to_buffer, buf_shifts) = (Ret true, Ret true).
Proof. vm_compute. reflexivity. Qed.
